(** * ZedStore TID tree and attribute tree: a shallow embedding

    This development embeds the leaf-level routines of
    [src/backend/access/zedstore/zedstore_tidpage.c] and the lockstep merge of
    [src/backend/access/zedstore/zedstore_attpage.c] as Rocq functions, and
    proves properties of them.

    Conventions.
    - C integers are [Z]; where the C code computes in a fixed width the
      wrap-around is written out with [u64], [u32], [u16] and [s32].
    - A leaf page is a record holding its opaque area and the array of
      TID items; a relation is the sequence of its blocks.
    - [elog(ERROR, ...)] is the [Failed] result; [elog(WARNING, ...)] is
      recorded in the [Warned] result.
    - Routines of the repository that are not part of the translated files
      (the B-tree descent, the undo log, the visibility tests, ...) are
      either fields of the class [ZSExternal] or definitions whose comment
      starts with "Modelled from the spec". *)

From Stdlib Require Import ZArith List Lia Bool Sorted Permutation.
From Stdlib Require Import Floats.SpecFloat.
From Equations Require Import Equations.
From stdpp Require Import base list.

Local Open Scope Z_scope.

(** ** Fixed-width integers *)

Definition u64 (x : Z) : Z := x mod 2 ^ 64.
Definition u32 (x : Z) : Z := x mod 2 ^ 32.
Definition u16 (x : Z) : Z := x mod 2 ^ 16.
(** [int]: two's complement on 32 bits. *)
Definition s32 (x : Z) : Z := (x + 2 ^ 31) mod 2 ^ 32 - 2 ^ 31.

(** ** TIDs, undo pointers and TID array items *)

Definition zstid := Z.

Definition InvalidZSTid : zstid := 0.
Definition MinZSTid : zstid := 1.
Definition MaxZSTid : zstid := 2 ^ 48 - 1.
Definition MaxPlusOneZSTid : zstid := 2 ^ 48.

Definition BlockNumber := Z.
Definition InvalidBlockNumber : BlockNumber := 4294967295.

(** The undo pointer.  [zsbt_tid_undo_deletion] reads its [counter]. *)
Record ZSUndoRecPtr : Type := mkUndoPtr {
  counter : Z;
  blkno : BlockNumber;
  offset : Z
}.

Definition ZSBT_TID_DEAD : Z := 1.

Record ZSTidArrayItem : Type := mkTidItem {
  t_tid : zstid;
  t_nelements : Z;
  t_undo_ptr : ZSUndoRecPtr;
  t_flags : Z
}.

(** [(item->t_flags & ZSBT_TID_DEAD) != 0] *)
Definition item_isdead (it : ZSTidArrayItem) : bool :=
  negb (Z.land (t_flags it) ZSBT_TID_DEAD =? 0).

(** [zsbt_tid_item_lasttid]: the last TID of the run. *)
Definition zsbt_tid_item_lasttid (it : ZSTidArrayItem) : zstid :=
  u64 (t_tid it + t_nelements it - 1).

(** [zsbt_tid_create_item] *)
Definition zsbt_tid_create_item (tid : zstid) (undo_ptr : ZSUndoRecPtr)
    (nelements : Z) : ZSTidArrayItem :=
  {| t_tid := tid; t_nelements := u32 nelements;
     t_undo_ptr := undo_ptr; t_flags := 0 |}.

(** ** What the translated files take from the rest of the system *)

Inductive TM_Result : Type :=
  | TM_Ok | TM_Invisible | TM_SelfModified | TM_Updated | TM_Deleted
  | TM_BeingModified | TM_WouldBlock.

Inductive LockTupleMode : Type :=
  | LockTupleKeyShare | LockTupleShare | LockTupleNoKeyExclusive
  | LockTupleExclusive.

Definition Snapshot := Z.

Inductive ZSUndoRecType : Type :=
  | ZSUNDO_TYPE_INSERT | ZSUNDO_TYPE_DELETE | ZSUNDO_TYPE_UPDATE
  | ZSUNDO_TYPE_TUPLE_LOCK.

(** The common header of an undo record, and the fields the four kinds add
    ([endtid], [changedPart], [newtid] and [key_update], [lockmode]). *)
Record ZSUndoRec : Type := mkUndoRec {
  rec_type : ZSUndoRecType;
  rec_xid : Z;
  rec_cid : Z;
  rec_tid : zstid;
  rec_speculative_token : Z;
  rec_prevundorec : ZSUndoRecPtr;
  rec_endtid : zstid;
  rec_changedPart : bool;
  rec_newtid : zstid;
  rec_key_update : bool;
  rec_lockmode : option LockTupleMode
}.

(** Outcome of a routine that can [elog]. *)
Inductive outcome (A : Type) : Type :=
  | Done (a : A)
  | Warned (msg : nat) (a : A)
  | Failed (msg : nat).
Arguments Done {A} a.
Arguments Warned {A} msg a.
Arguments Failed {A} msg.

(** ** The page array and the binary search *)

Definition dummy_item : ZSTidArrayItem :=
  {| t_tid := 0; t_nelements := 0;
     t_undo_ptr := mkUndoPtr 0 0 0; t_flags := 0 |}.

(** [arr[i]] *)
Definition arr_item (arr : list ZSTidArrayItem) (i : Z) : ZSTidArrayItem :=
  nth (Z.to_nat i) arr dummy_item.

(** The loop of [zsbt_binsrch_tidpage], on the pair [(low, high)]. *)
Equations binsrch_loop (key : zstid) (arr : list ZSTidArrayItem)
    (low high : Z) : Z by wf (Z.to_nat (high - low)) lt :=
  binsrch_loop key arr low high with Z_gt_dec high low := {
    | left _ =>
        let mid := low + (high - low) / 2 in
        if key >=? t_tid (arr_item arr mid)
        then binsrch_loop key arr (mid + 1) high
        else binsrch_loop key arr low mid
    | right _ => low }.
Next Obligation.
  intros.
  assert (0 <= (high - low) / 2 < high - low)
    by (split; [apply Z.div_pos | apply Z.div_lt]; lia).
  lia.
Qed.
Next Obligation.
  intros.
  assert (0 <= (high - low) / 2 < high - low)
    by (split; [apply Z.div_pos | apply Z.div_lt]; lia).
  lia.
Qed.

Definition zsbt_binsrch_tidpage (key : zstid) (arr : list ZSTidArrayItem)
    (arr_elems : Z) : Z :=
  binsrch_loop key arr 0 arr_elems - 1.

(** ** Leaf pages *)

Definition ZSBT_ROOT : Z := 1.

(** A TID-tree page: the opaque area and the item array.  The number of
    items stands for [pd_lower]. *)
Record ZSBtreePage : Type := mkPage {
  zs_next : BlockNumber;
  zs_lokey : zstid;
  zs_hikey : zstid;
  zs_level : Z;
  zs_flags : Z;
  tiditems : list ZSTidArrayItem
}.

Definition with_items (p : ZSBtreePage) (l : list ZSTidArrayItem)
  : ZSBtreePage :=
  {| zs_next := zs_next p; zs_lokey := zs_lokey p; zs_hikey := zs_hikey p;
     zs_level := zs_level p; zs_flags := zs_flags p; tiditems := l |}.

(** What a leaf routine decides to do with the page it holds. *)
Inductive leaf_write : Type :=
  | InPlace (items : list ZSTidArrayItem)
      (** the array was rewritten inside the critical section *)
  | Recompress (items : list ZSTidArrayItem)
      (** the list is passed to [zsbt_tid_recompress_replace] *)
  | Unlink.
      (** the list is empty: [zsbt_unlink_page] *)

Definition written_items (w : leaf_write) : list ZSTidArrayItem :=
  match w with
  | InPlace l => l
  | Recompress l => l
  | Unlink => []
  end.

Definition opt_list {A : Type} (o : option A) : list A :=
  match o with Some a => [a] | None => [] end.

(** Error messages of [elog]. *)
Definition MSG_could_not_find_item_to_replace : nat := 1%nat.
Definition MSG_could_not_find_tuple_to_delete : nat := 2%nat.
Definition MSG_cannot_delete_dead : nat := 3%nat.
Definition MSG_could_not_find_old_tuple_to_update : nat := 4%nat.
Definition MSG_tuple_concurrently_updated : nat := 5%nat.
Definition MSG_could_not_find_tuple_to_lock : nat := 6%nat.
Definition MSG_could_not_find_tuple_to_mark_dead : nat := 7%nat.
Definition MSG_could_not_find_aborted_tuple : nat := 8%nat.
Definition MSG_next_pointer_points_to_itself : nat := 9%nat.
Definition MSG_invalid_buffer : nat := 10%nat.
Definition MSG_duplicate_TID_on_attribute_page : nat := 11%nat.
Definition MSG_shouldnt_reach_here : nat := 12%nat.

(** ** The relation *)

Inductive Block : Type :=
  | LeafBlock (p : ZSBtreePage)   (** a leaf of the TID tree *)
  | OtherBlock.                   (** any other page of the file *)

Record Relation : Type := mkRel {
  rd_blocks : list Block;
  rd_undo : list ZSUndoRec
}.

Definition Buffer := option BlockNumber.
Definition InvalidBuffer : Buffer := None.

Class ZSExternal : Type := {
  (** page geometry *)
  BLCKSZ : Z;
  SizeOfPageHeaderData : Z;
  SizeOfZSBtreePageOpaque : Z;
  SizeOfZSTidArrayItem : Z;
  SizeOfItemIdData : Z;
  MAXIMUM_ALIGNOF : Z;
  (** the undo log *)
  InvalidUndoPtr : ZSUndoRecPtr;
  ZSUndoRecPtrEquals : ZSUndoRecPtr -> ZSUndoRecPtr -> bool;
  (** the pointer [zsundo_insert] hands out for a record appended to the log *)
  zsundo_alloc : list ZSUndoRec -> ZSUndoRec -> ZSUndoRecPtr;
  (** [zs_SatisfiesVisibility(scan, undo_ptr, ..)] for the scan's snapshot *)
  zs_SatisfiesVisibility : Snapshot -> ZSUndoRecPtr -> bool;
  (** [zs_SatisfiesUpdate]: the result, [keep_old_undo_ptr] and [next_tid] *)
  zs_SatisfiesUpdate :
    Snapshot -> zstid -> ZSUndoRecPtr -> LockTupleMode ->
    TM_Result * bool * zstid;
  (** [zsbt_unlink_page] (zedstore_btree.c): the blocks after the leaf was
      unlinked, or nothing when it cannot be unlinked *)
  zsbt_unlink_page : list Block -> BlockNumber -> option (list Block);
  (** vacuum *)
  intset_memory_usage : list Z -> Z;
  maintenance_work_mem : Z
}.

Section TidPage.

Context `{ZSExternal}.

(** [TYPEALIGN(MAXIMUM_ALIGNOF, len)] *)
Definition MAXALIGN (len : Z) : Z :=
  (len + MAXIMUM_ALIGNOF - 1) / MAXIMUM_ALIGNOF * MAXIMUM_ALIGNOF.

(** [PageInit] puts [pd_upper] below the special area and [pd_lower] after
    the header; the item array grows [pd_lower]. *)
Definition pd_upper : Z := BLCKSZ - MAXALIGN SizeOfZSBtreePageOpaque.

Definition pd_lower (nitems : Z) : Z :=
  SizeOfPageHeaderData + nitems * SizeOfZSTidArrayItem.

(** [PageGetExactFreeSpace] of a page holding [nitems] items. *)
Definition PageGetExactFreeSpace (nitems : Z) : Z :=
  let space := pd_upper - pd_lower nitems in
  if space <? 0 then 0 else space.

(** [PageGetNumZSTidItems] *)
Definition PageGetNumZSTidItems (p : ZSBtreePage) : Z :=
  Z.of_nat (length (tiditems p)).

(** [arr[i]], the bytes in front of the array read as no item at all. *)
Definition page_item (arr : list ZSTidArrayItem) (i : Z) : ZSTidArrayItem :=
  if i <? 0 then dummy_item else arr_item arr i.

(** [memmove(dst, src, cnt * sizeof(ZSTidArrayItem))] inside the array. *)
Definition memmove_items (arr : list ZSTidArrayItem) (dst src cnt : Z)
  : list ZSTidArrayItem :=
  let moved := map (fun k => page_item arr (src + Z.of_nat k))
                   (seq 0 (Z.to_nat cnt)) in
  take (Z.to_nat dst) arr ++ moved ++
  drop (Z.to_nat dst + Z.to_nat cnt) arr.

(** [zsbt_tid_replace_item], up to the point where the page is written. *)
Definition replace_item_page (p : ZSBtreePage) (oldtid : zstid)
    (replacementitem : option ZSTidArrayItem) : outcome leaf_write :=
  let tiditems := tiditems p in
  let ntiditems := PageGetNumZSTidItems p in
  let itemno := zsbt_binsrch_tidpage oldtid tiditems ntiditems in
  if itemno <? 0 then Failed MSG_could_not_find_item_to_replace else
  let olditem := arr_item tiditems itemno in
  if (oldtid <? t_tid olditem)
     || (oldtid >=? u64 (t_tid olditem + t_nelements olditem))
  then Failed MSG_could_not_find_item_to_replace else
  let nelements := s32 (t_nelements olditem) in
  let cutoff := s32 (u64 (oldtid - t_tid olditem)) in
  let item_before :=
    if cutoff >? 0
    then Some (zsbt_tid_create_item (t_tid olditem) (t_undo_ptr olditem) cutoff)
    else None in
  let item_after :=
    if s32 (cutoff + 1) <? nelements
    then Some (zsbt_tid_create_item (u64 (oldtid + 1)) (t_undo_ptr olditem)
                 (s32 (nelements - s32 (cutoff + 1))))
    else None in
  let count (o : option ZSTidArrayItem) : Z :=
    match o with Some _ => 1 | None => 0 end in
  let n_replacements :=
    -1 + count item_before + count replacementitem + count item_after in
  let pieces :=
    opt_list item_before ++ opt_list replacementitem ++ opt_list item_after in
  (* Can we fit them? *)
  if u64 (n_replacements * SizeOfZSTidArrayItem)
       <=? PageGetExactFreeSpace ntiditems
  then
    if n_replacements =? -1
    then
      (* memmove(olditem, olditem + n_replacements, ...); pd_lower shrinks *)
      Done (InPlace
        (take (Z.to_nat (ntiditems - 1))
           (memmove_items tiditems itemno (itemno + n_replacements)
              (ntiditems - itemno - 1))))
    else
      (* memmove(olditem + n_replacements + 1, olditem + 1, ...), then the
         pieces are stored from olditem on *)
      Done (InPlace
        (take (Z.to_nat itemno) tiditems ++ pieces ++
         drop (Z.to_nat (itemno + 1)) tiditems))
  else
    (* Have to split the page. *)
    let items :=
      take (Z.to_nat itemno) tiditems ++ pieces ++
      drop (Z.to_nat (itemno + 1)) tiditems in
    match items with
    | [] => Done Unlink
    | _ => Done (Recompress items)
    end.

(** *** Well-formed item arrays *)

(** Items in ascending order with disjoint non-empty runs inside [lo, hi),
    the invariant the page keeps and that [zsbt_tid_replace_item] re-checks
    with its assertions. *)
Fixpoint items_ok (lo hi : zstid) (l : list ZSTidArrayItem) : bool :=
  match l with
  | [] => true
  | it :: rest =>
      (lo <=? t_tid it) && (1 <=? t_nelements it)
      && (t_nelements it <? 2 ^ 31)
      && (t_tid it + t_nelements it <=? hi)
      && items_ok (t_tid it + t_nelements it) hi rest
  end.

Definition covers (it : ZSTidArrayItem) (tid : zstid) : Prop :=
  t_tid it <= tid < t_tid it + t_nelements it.


(** ** Double precision arithmetic of [zsbt_tid_recompress_picksplit]

    IEEE 754 binary64, as specified by [SpecFloat]. *)

Definition double_of_Z (n : Z) : spec_float :=
  binary_normalize 53 1024 n 0 false.

Definition double_mul : spec_float -> spec_float -> spec_float :=
  SFmul 53 1024.

Definition double_div : spec_float -> spec_float -> spec_float :=
  SFdiv 53 1024.

(** The literal [0.1]: 0x3FB999999999999A. *)
Definition double_0_1 : spec_float :=
  S754_finite false 7205759403792794 (-56).

(** Conversion of a [double] to [Size]: the fraction is discarded. *)
Definition double_to_Size (x : spec_float) : Z :=
  match x with
  | S754_finite s m e =>
      let v := cond_Zopp s (Zpos m) in
      u64 (if e >=? 0 then v * 2 ^ e else Z.quot v (2 ^ (- e)))
  | _ => 0
  end.

(** ** The recompressor *)

Record zsbt_tid_recompress_context : Type := mkCxt {
  stack_pages : list ZSBtreePage;   (** the pages before [currpage] *)
  currpage : option ZSBtreePage;
  cxt_num_pages : Z;
  cxt_free_space_per_page : Z;
  cxt_hikey : zstid
}.

Definition set_hikey (p : ZSBtreePage) (k : zstid) : ZSBtreePage :=
  {| zs_next := zs_next p; zs_lokey := zs_lokey p; zs_hikey := k;
     zs_level := zs_level p; zs_flags := zs_flags p;
     tiditems := tiditems p |}.

Definition set_next (p : ZSBtreePage) (b : BlockNumber) : ZSBtreePage :=
  {| zs_next := b; zs_lokey := zs_lokey p; zs_hikey := zs_hikey p;
     zs_level := zs_level p; zs_flags := zs_flags p;
     tiditems := tiditems p |}.

Definition set_flags (p : ZSBtreePage) (f : Z) : ZSBtreePage :=
  {| zs_next := zs_next p; zs_lokey := zs_lokey p; zs_hikey := zs_hikey p;
     zs_level := zs_level p; zs_flags := f;
     tiditems := tiditems p |}.

(** [zsbt_tid_recompress_newpage] *)
Definition zsbt_tid_recompress_newpage (cxt : zsbt_tid_recompress_context)
    (nexttid : zstid) (flags : Z) : zsbt_tid_recompress_context :=
  let newpage :=
    {| zs_next := InvalidBlockNumber; zs_lokey := nexttid;
       zs_hikey := cxt_hikey cxt; zs_level := 0; zs_flags := flags;
       tiditems := [] |} in
  {| stack_pages :=
       match currpage cxt with
       | Some old => stack_pages cxt ++ [set_hikey old nexttid]
       | None => stack_pages cxt
       end;
     currpage := Some newpage;
     cxt_num_pages := cxt_num_pages cxt;
     cxt_free_space_per_page := cxt_free_space_per_page cxt;
     cxt_hikey := cxt_hikey cxt |}.

Definition currpage_items (cxt : zsbt_tid_recompress_context)
  : list ZSTidArrayItem :=
  match currpage cxt with Some p => tiditems p | None => [] end.

(** [zsbt_tid_recompress_add_to_page] *)
Definition zsbt_tid_recompress_add_to_page
    (cxt : zsbt_tid_recompress_context) (item : ZSTidArrayItem)
  : zsbt_tid_recompress_context :=
  let freespc :=
    PageGetExactFreeSpace (Z.of_nat (length (currpage_items cxt))) in
  let cxt1 :=
    if (freespc <? MAXALIGN SizeOfZSTidArrayItem)
       || (freespc <? u64 (cxt_free_space_per_page cxt))
    then zsbt_tid_recompress_newpage cxt (t_tid item) 0
    else cxt in
  {| stack_pages := stack_pages cxt1;
     currpage :=
       match currpage cxt1 with
       | Some p => Some (with_items p (tiditems p ++ [item]))
       | None => None
       end;
     cxt_num_pages := cxt_num_pages cxt1;
     cxt_free_space_per_page := cxt_free_space_per_page cxt1;
     cxt_hikey := cxt_hikey cxt1 |}.

(** [space_on_empty_page] of [zsbt_tid_recompress_picksplit] *)
Definition space_on_empty_page : Z :=
  s32 (u64 (BLCKSZ - MAXALIGN SizeOfPageHeaderData
            - MAXALIGN SizeOfZSBtreePageOpaque)).

(** [total_sz] of [zsbt_tid_recompress_picksplit] *)
Definition picksplit_total_sz (items : list ZSTidArrayItem) : Z :=
  u64 (s32 (Z.of_nat (length items)) * SizeOfZSTidArrayItem).

(** [num_pages] of [zsbt_tid_recompress_picksplit] *)
Definition picksplit_num_pages (items : list ZSTidArrayItem) : Z :=
  s32 (u64 (picksplit_total_sz items + space_on_empty_page - 1)
       / u64 space_on_empty_page).

(** [space_on_empty_page * num_pages - total_sz] *)
Definition picksplit_total_free (items : list ZSTidArrayItem) : Z :=
  u64 (s32 (space_on_empty_page * picksplit_num_pages items)
       - picksplit_total_sz items).

(** [zsbt_tid_recompress_picksplit]: fills in [num_pages] and
    [free_space_per_page]. *)
Definition zsbt_tid_recompress_picksplit
    (cxt : zsbt_tid_recompress_context) (items : list ZSTidArrayItem)
  : zsbt_tid_recompress_context :=
  let num_pages := picksplit_num_pages items in
  let free_space_per_page :=
    (* If everything fits on one page, don't split *)
    if num_pages =? 1 then 0
    (* If this is the rightmost page, do a 90/10 split *)
    else if cxt_hikey cxt =? MaxPlusOneZSTid then
      let total_free_space := double_of_Z (picksplit_total_free items) in
      double_to_Size
        (double_div (double_mul total_free_space double_0_1)
                    (double_of_Z (s32 (num_pages - 1))))
    (* Otherwise, aim for an even 50/50 split *)
    else picksplit_total_free items / u64 num_pages in
  {| stack_pages := stack_pages cxt;
     currpage := currpage cxt;
     cxt_num_pages := num_pages;
     cxt_free_space_per_page := s32 free_space_per_page;
     cxt_hikey := cxt_hikey cxt |}.

(** The page images [zsbt_tid_recompress_replace] builds for a page with
    the given opaque area: pick the split, open the first page, add the
    items one by one. *)
Definition recompress_pages (oldpage : ZSBtreePage)
    (items : list ZSTidArrayItem) : list ZSBtreePage :=
  let cxt0 :=
    {| stack_pages := []; currpage := None; cxt_num_pages := 0;
       cxt_free_space_per_page := 0; cxt_hikey := zs_hikey oldpage |} in
  let cxt1 := zsbt_tid_recompress_picksplit cxt0 items in
  let cxt2 :=
    zsbt_tid_recompress_newpage cxt1 (zs_lokey oldpage)
      (Z.land (zs_flags oldpage) ZSBT_ROOT) in
  let cxt3 := fold_left zsbt_tid_recompress_add_to_page items cxt2 in
  stack_pages cxt3 ++ opt_list (currpage cxt3).

(** ** Access to the relation *)

(** [BufferGetPage], for a buffer holding a leaf of the TID tree. *)
Definition get_leaf (blocks : list Block) (blk : BlockNumber)
  : option ZSBtreePage :=
  if blk <? 0 then None else
  match blocks !! Z.to_nat blk with
  | Some (LeafBlock p) => Some p
  | _ => None
  end.

Definition set_block (blocks : list Block) (blk : BlockNumber) (b : Block)
  : list Block :=
  <[Z.to_nat blk := b]> blocks.

(** [lokey <= tid < hikey], on a leaf. *)
Definition page_covers (p : ZSBtreePage) (tid : zstid) : bool :=
  (zs_level p =? 0) && (zs_lokey p <=? tid) && (tid <? zs_hikey p).

(** Modelled from the spec: [zsbt_descend] (zedstore_btree.c, not among the
    translated files) for level 0.  The spec: from the root, descend to the
    leaf whose [lokey <= tid < hikey]; the buffer is invalid when the tree
    is empty.  Internal pages are not represented: the leaf is looked up by
    its key range. *)
Fixpoint descend_from (blocks : list Block) (blk : BlockNumber)
    (tid : zstid) : Buffer :=
  match blocks with
  | [] => InvalidBuffer
  | LeafBlock p :: rest =>
      if page_covers p tid then Some blk
      else descend_from rest (blk + 1) tid
  | OtherBlock :: rest => descend_from rest (blk + 1) tid
  end.

Definition zsbt_descend (rel : Relation) (tid : zstid) : Buffer :=
  descend_from (rd_blocks rel) 0 tid.

(** Modelled from the spec: [zsbt_page_is_expected] (zedstore_btree.c) for
    level 0: the predicate that validates a cached buffer against a target
    TID without descending again. *)
Definition zsbt_page_is_expected (rel : Relation) (tid : zstid)
    (blk : BlockNumber) : bool :=
  match get_leaf (rd_blocks rel) blk with
  | Some p => page_covers p tid
  | None => false
  end.

(** Modelled from the spec: [zsundo_insert] (zedstore_undolog.c) appends
    the record to the undo log and returns the pointer to it. *)
Definition zsundo_insert (rel : Relation) (rec : ZSUndoRec)
  : ZSUndoRecPtr * Relation :=
  (zsundo_alloc (rd_undo rel) rec,
   {| rd_blocks := rd_blocks rel; rd_undo := rd_undo rel ++ [rec] |}).

(** Modelled from the spec: [zspage_getnewbuf] hands out freshly allocated
    buffers; here the file grows by one block per new page.  [link_pages]
    is the loop of [zsbt_tid_recompress_replace] that sets [zs_next] of each
    page image to the block of its successor, and of the last one to the
    original right sibling. *)
Fixpoint link_pages (pages : list ZSBtreePage) (nextfree : BlockNumber)
    (orignextblk : BlockNumber) : list ZSBtreePage :=
  match pages with
  | [] => []
  | [p] => [set_next p orignextblk]
  | p :: rest =>
      set_next p nextfree :: link_pages rest (nextfree + 1) orignextblk
  end.

(** [zsbt_tid_recompress_replace].  Modelled from the spec:
    [zs_apply_split_changes] copies every page image over its buffer;
    [zsbt_newroot] takes one more new block for the new root, and
    [zsbt_insert_downlinks] only touches internal pages, which are not
    represented. *)
Definition zsbt_tid_recompress_replace (rel : Relation)
    (oldbuf : BlockNumber) (items : list ZSTidArrayItem)
  : outcome Relation :=
  match get_leaf (rd_blocks rel) oldbuf with
  | None => Failed MSG_invalid_buffer
  | Some oldpage =>
      let orignextblk := zs_next oldpage in
      let pages := recompress_pages oldpage items in
      let nblocks := Z.of_nat (length (rd_blocks rel)) in
      match link_pages pages nblocks orignextblk with
      | [] => Failed MSG_invalid_buffer
      | [only] =>
          Done {| rd_blocks := set_block (rd_blocks rel) oldbuf (LeafBlock only);
                  rd_undo := rd_undo rel |}
      | first :: more =>
          (* If we had to split, insert downlinks for the new pages. *)
          let isroot := negb (Z.land (zs_flags first) ZSBT_ROOT =? 0) in
          let first' :=
            if isroot
            then set_flags first (Z.land (zs_flags first) (Z.lnot ZSBT_ROOT))
            else first in
          Done {| rd_blocks :=
                    set_block (rd_blocks rel) oldbuf (LeafBlock first')
                    ++ map LeafBlock more
                    ++ (if isroot then [OtherBlock] else []);
                  rd_undo := rd_undo rel |}
      end
  end.

(** The tail shared by [zsbt_tid_add_items] and [zsbt_tid_replace_item]:
    write the page in place, or pass the list to the recompressor, or
    unlink the page when the list is empty. *)
Definition apply_leaf_write (rel : Relation) (buf : BlockNumber)
    (w : leaf_write) : outcome Relation :=
  match get_leaf (rd_blocks rel) buf with
  | None => Failed MSG_invalid_buffer
  | Some p =>
      match w with
      | InPlace l =>
          Done {| rd_blocks :=
                    set_block (rd_blocks rel) buf (LeafBlock (with_items p l));
                  rd_undo := rd_undo rel |}
      | Recompress l => zsbt_tid_recompress_replace rel buf l
      | Unlink =>
          match zsbt_unlink_page (rd_blocks rel) buf with
          | Some blocks' =>
              Done {| rd_blocks := blocks'; rd_undo := rd_undo rel |}
          | None =>
              (* failed: PageGetTempPageCopySpecial *)
              Done {| rd_blocks :=
                        set_block (rd_blocks rel) buf
                          (LeafBlock (with_items p []));
                      rd_undo := rd_undo rel |}
          end
      end
  end.

(** [zsbt_tid_add_items], up to the point where the page is written. *)
Definition add_items_page (p : ZSBtreePage)
    (newitems : list ZSTidArrayItem) : leaf_write :=
  let tiditems := tiditems p in
  let ntiditems := PageGetNumZSTidItems p in
  let newitemsize :=
    u64 (s32 (Z.of_nat (length newitems)) * SizeOfZSTidArrayItem) in
  if newitemsize <=? PageGetExactFreeSpace ntiditems
  then InPlace (tiditems ++ newitems)
  else
    match tiditems ++ newitems with
    | [] => Unlink
    | items => Recompress items
    end.

(** [zsbt_tid_add_items] *)
Definition zsbt_tid_add_items (rel : Relation) (buf : BlockNumber)
    (newitems : list ZSTidArrayItem) : outcome Relation :=
  match get_leaf (rd_blocks rel) buf with
  | None => Failed MSG_invalid_buffer
  | Some p => apply_leaf_write rel buf (add_items_page p newitems)
  end.

(** [zsbt_tid_replace_item] *)
Definition zsbt_tid_replace_item (rel : Relation) (buf : BlockNumber)
    (oldtid : zstid) (replacementitem : option ZSTidArrayItem)
  : outcome Relation :=
  match get_leaf (rd_blocks rel) buf with
  | None => Failed MSG_invalid_buffer
  | Some p =>
      match replace_item_page p oldtid replacementitem with
      | Done w => apply_leaf_write rel buf w
      | Warned m w => apply_leaf_write rel buf w
      | Failed m => Failed m
      end
  end.

(** The test of the loop of [zsbt_tid_fetch]. *)
Definition fetch_covers (tid : zstid) (item : ZSTidArrayItem) : bool :=
  (t_tid item <=? tid) && (u64 (t_tid item + t_nelements item) >? tid).

(** [zsbt_tid_fetch]: the buffer, the item's undo pointer and whether the
    item is dead; [None] when no item covers the TID. *)
Definition zsbt_tid_fetch (rel : Relation) (tid : zstid)
  : option (BlockNumber * ZSUndoRecPtr * bool) :=
  match zsbt_descend rel tid with
  | None => None
  | Some buf =>
      match get_leaf (rd_blocks rel) buf with
      | None => None
      | Some page =>
          match find (fetch_covers tid) (tiditems page) with
          | Some item => Some (buf, t_undo_ptr item, item_isdead item)
          | None => None
          end
      end
  end.

Definition FrozenTransactionId : Z := 2.
Definition INVALID_SPECULATIVE_TOKEN : Z := 0.

Definition is_TM_Ok (r : TM_Result) : bool :=
  match r with TM_Ok => true | _ => false end.

Definition undo_header (ty : ZSUndoRecType) (xid cid : Z) (tid : zstid)
    (prev : ZSUndoRecPtr) : ZSUndoRec :=
  {| rec_type := ty; rec_xid := xid; rec_cid := cid; rec_tid := tid;
     rec_speculative_token := 0; rec_prevundorec := prev;
     rec_endtid := 0; rec_changedPart := false; rec_newtid := 0;
     rec_key_update := false; rec_lockmode := None |}.

(** [zsbt_get_last_tid]: the last TID (plus one) in the tree. *)
Definition zsbt_get_last_tid (rel : Relation) : zstid :=
  (* Find the rightmost leaf *)
  let rightmostkey := MaxZSTid in
  match zsbt_descend rel rightmostkey with
  | None => MinZSTid
  | Some buf =>
      match get_leaf (rd_blocks rel) buf with
      | None => MinZSTid
      | Some page =>
          (* Look at the last item, for its tid. *)
          match last (tiditems page) with
          | Some lastitem => u64 (zsbt_tid_item_lasttid lastitem + 1)
          | None => zs_lokey page
          end
      end
  end.

(** [zsbt_tid_multi_insert]: the TIDs handed to the caller and the new
    relation. *)
Definition zsbt_tid_multi_insert (rel : Relation) (nitems : Z)
    (xid cid : Z) (speculative_token : Z) (prevundoptr : ZSUndoRecPtr)
  : outcome (list zstid * Relation) :=
  (* Insert to the rightmost leaf. *)
  let insert_target_key := MaxZSTid in
  match zsbt_descend rel insert_target_key with
  | None => Failed MSG_invalid_buffer
  | Some buf =>
  match get_leaf (rd_blocks rel) buf with
  | None => Failed MSG_invalid_buffer
  | Some page =>
      let endtid :=
        match last (tiditems page) with
        | Some lastitem => u64 (t_tid lastitem + t_nelements lastitem)
        | None => zs_lokey page
        end in
      let tid := endtid in
      (* Form an undo record *)
      let '(undorecptr, rel1) :=
        if negb (xid =? FrozenTransactionId)
        then
          zsundo_insert rel
            {| rec_type := ZSUNDO_TYPE_INSERT; rec_xid := xid;
               rec_cid := cid; rec_tid := tid;
               rec_speculative_token := speculative_token;
               rec_prevundorec := prevundoptr;
               rec_endtid := u64 (tid + nitems - 1);
               rec_changedPart := false; rec_newtid := 0;
               rec_key_update := false; rec_lockmode := None |}
        else (InvalidUndoPtr, rel) in
      (* Create a single array item to represent all the TIDs. *)
      let newitem := zsbt_tid_create_item tid undorecptr nitems in
      match zsbt_tid_add_items rel1 buf [newitem] with
      | Done rel2 | Warned _ rel2 =>
          (* Return the TIDs to the caller *)
          Done (map (fun i => u64 (tid + Z.of_nat i))
                    (seq 0 (Z.to_nat nitems)), rel2)
      | Failed m => Failed m
      end
  end
  end.

(** [zsbt_tid_delete] *)
Definition zsbt_tid_delete (rel : Relation) (tid : zstid) (xid cid : Z)
    (snapshot crosscheck : option Snapshot) (changingPart : bool)
  : outcome (TM_Result * Relation) :=
  match zsbt_tid_fetch rel tid with
  | None => Failed MSG_could_not_find_tuple_to_delete
  | Some (buf, item_undoptr, item_isdead) =>
      if item_isdead then Failed MSG_cannot_delete_dead else
      let '(result, keep_old_undo_ptr) :=
        match snapshot with
        | Some s =>
            let '(r, keep, _) :=
              zs_SatisfiesUpdate s tid item_undoptr LockTupleExclusive in
            (r, keep)
        | None => (TM_Ok, true)
        end in
      if negb (is_TM_Ok result) then Done (result, rel) else
      (* the crosscheck only assigns [result], which is not read again *)
      (* Create UNDO record. *)
      let undorec :=
        {| rec_type := ZSUNDO_TYPE_DELETE; rec_xid := xid; rec_cid := cid;
           rec_tid := tid; rec_speculative_token := 0;
           rec_prevundorec :=
             if keep_old_undo_ptr then item_undoptr else InvalidUndoPtr;
           rec_endtid := 0; rec_changedPart := changingPart;
           rec_newtid := 0; rec_key_update := false;
           rec_lockmode := None |} in
      let '(undorecptr, rel1) := zsundo_insert rel undorec in
      (* Replace the ZSBreeItem with one with the new UNDO pointer. *)
      let deleteditem := zsbt_tid_create_item tid undorecptr 1 in
      match zsbt_tid_replace_item rel1 buf tid (Some deleteditem) with
      | Done rel2 | Warned _ rel2 => Done (TM_Ok, rel2)
      | Failed m => Failed m
      end
  end.

(** [zsbt_find_latest_tid]: the loop that follows the update chain.
    [zs_SatisfiesVisibility] hands out, besides its result, the TID of the
    next version of the tuple; [next_tid_of snapshot undo_ptr] is that TID,
    [InvalidZSTid] when the call leaves [next_tid] as it is.  [snapshot] is
    [None] for a [NULL] snapshot, [tid] is the caller's [*tid].  [None]
    says that [fuel] iterations were not enough. *)
Fixpoint find_latest_loop (next_tid_of : Snapshot -> ZSUndoRecPtr -> zstid)
    (fuel : nat) (rel : Relation) (tid curr_tid : zstid)
    (snapshot : option Snapshot) : option zstid :=
  match fuel with
  | O => None
  | S fuel' =>
      if curr_tid =? InvalidZSTid then Some tid else
      (* Find the item *)
      match zsbt_tid_fetch rel curr_tid with
      | None => Some tid
      | Some (buf, item_undoptr, item_isdead) =>
          if item_isdead then Some tid else
          match snapshot with
          | Some snap =>
              let next_tid := next_tid_of snap item_undoptr in
              let tid' :=
                if zs_SatisfiesVisibility snap item_undoptr
                then curr_tid else tid in
              find_latest_loop next_tid_of fuel' rel tid' next_tid snapshot
          | None =>
              find_latest_loop next_tid_of fuel' rel tid curr_tid snapshot
          end
      end
  end.

(** [zsbt_find_latest_tid] *)
Definition zsbt_find_latest_tid
    (next_tid_of : Snapshot -> ZSUndoRecPtr -> zstid) (fuel : nat)
    (rel : Relation) (tid : zstid) (snapshot : option Snapshot)
  : option zstid :=
  let curr_tid := tid in
  find_latest_loop next_tid_of fuel rel tid curr_tid snapshot.

(** [zsbt_tid_lock]: the result, [*next_tid] and the new relation. *)
Definition zsbt_tid_lock (rel : Relation) (tid : zstid) (xid cid : Z)
    (mode : LockTupleMode) (snapshot : Snapshot)
  : outcome (TM_Result * zstid * Relation) :=
  match zsbt_tid_fetch rel tid with
  | None => Failed MSG_could_not_find_tuple_to_lock
  | Some (buf, item_undoptr, item_isdead) =>
      if item_isdead then Failed MSG_could_not_find_tuple_to_lock else
      let '(result, keep_old_undo_ptr, next_tid) :=
        zs_SatisfiesUpdate snapshot tid item_undoptr mode in
      if negb (is_TM_Ok result) then Done (result, next_tid, rel) else
      (* Create UNDO record. *)
      let undorec :=
        {| rec_type := ZSUNDO_TYPE_TUPLE_LOCK; rec_xid := xid;
           rec_cid := cid; rec_tid := tid; rec_speculative_token := 0;
           rec_prevundorec :=
             if keep_old_undo_ptr then item_undoptr else InvalidUndoPtr;
           rec_endtid := 0; rec_changedPart := false;
           rec_newtid := 0; rec_key_update := false;
           rec_lockmode := Some mode |} in
      let '(undorecptr, rel1) := zsundo_insert rel undorec in
      (* Replace the item with an identical one, but with updated undo
         pointer. *)
      let newitem := zsbt_tid_create_item tid undorecptr 1 in
      match zsbt_tid_replace_item rel1 buf tid (Some newitem) with
      | Done rel2 | Warned _ rel2 => Done (TM_Ok, next_tid, rel2)
      | Failed m => Failed m
      end
  end.

(** [zsbt_tid_update_lock_old]: the result and [*prevundoptr_p]. *)
Definition zsbt_tid_update_lock_old (rel : Relation) (otid : zstid)
    (xid cid : Z) (key_update : bool) (snapshot : Snapshot)
    (crosscheck : option Snapshot)
  : outcome (TM_Result * ZSUndoRecPtr) :=
  match zsbt_tid_fetch rel otid with
  | None => Failed MSG_could_not_find_old_tuple_to_update
  | Some (buf, olditem_undoptr, olditem_isdead) =>
      if olditem_isdead then Failed MSG_could_not_find_old_tuple_to_update
      else
      (* Is it visible to us? *)
      let '(result, _, _) :=
        zs_SatisfiesUpdate snapshot otid olditem_undoptr
          (if key_update then LockTupleExclusive
           else LockTupleNoKeyExclusive) in
      if negb (is_TM_Ok result) then Done (result, olditem_undoptr)
      else Done (TM_Ok, olditem_undoptr)
  end.

(** [zsbt_tid_update_insert_new] *)
Definition zsbt_tid_update_insert_new (rel : Relation) (xid cid : Z)
    (prevundoptr : ZSUndoRecPtr) : outcome (list zstid * Relation) :=
  zsbt_tid_multi_insert rel 1 xid cid INVALID_SPECULATIVE_TOKEN prevundoptr.

(** [zsbt_tid_mark_old_updated] *)
Definition zsbt_tid_mark_old_updated (rel : Relation) (otid newtid : zstid)
    (xid cid : Z) (key_update : bool) (snapshot : Snapshot)
  : outcome Relation :=
  match zsbt_tid_fetch rel otid with
  | None => Failed MSG_could_not_find_old_tuple_to_update
  | Some (buf, olditem_undoptr, olditem_isdead) =>
      if olditem_isdead then Failed MSG_could_not_find_old_tuple_to_update
      else
      let '(result, keep_old_undo_ptr, _) :=
        zs_SatisfiesUpdate snapshot otid olditem_undoptr
          (if key_update then LockTupleExclusive
           else LockTupleNoKeyExclusive) in
      if negb (is_TM_Ok result) then Failed MSG_tuple_concurrently_updated
      else
      let undorec :=
        {| rec_type := ZSUNDO_TYPE_UPDATE; rec_xid := xid; rec_cid := cid;
           rec_tid := otid; rec_speculative_token := 0;
           rec_prevundorec :=
             if keep_old_undo_ptr then olditem_undoptr else InvalidUndoPtr;
           rec_endtid := 0; rec_changedPart := false;
           rec_newtid := newtid; rec_key_update := key_update;
           rec_lockmode := None |} in
      let '(undorecptr, rel1) := zsundo_insert rel undorec in
      let deleteditem := zsbt_tid_create_item otid undorecptr 1 in
      zsbt_tid_replace_item rel1 buf otid (Some deleteditem)
  end.

(** [zsbt_tid_update]: the result, [*newtid_p] and the new relation. *)
Definition zsbt_tid_update (rel : Relation) (otid : zstid) (xid cid : Z)
    (key_update : bool) (snapshot : Snapshot) (crosscheck : option Snapshot)
  : outcome (TM_Result * zstid * Relation) :=
  match zsbt_tid_update_lock_old rel otid xid cid key_update snapshot
          crosscheck with
  | Failed m => Failed m
  | Done (result, prevundoptr) | Warned _ (result, prevundoptr) =>
      if negb (is_TM_Ok result) then Done (result, InvalidZSTid, rel) else
      (* insert new version *)
      match zsbt_tid_update_insert_new rel xid cid prevundoptr with
      | Failed m => Failed m
      | Done (newtids, rel1) | Warned _ (newtids, rel1) =>
          let newtid := hd InvalidZSTid newtids in
          (* update the old item with the "t_ctid pointer" for the new
             item *)
          match zsbt_tid_mark_old_updated rel1 otid newtid xid cid
                  key_update snapshot with
          | Failed m => Failed m
          | Done rel2 | Warned _ rel2 => Done (TM_Ok, newtid, rel2)
          end
      end
  end.

(** [zsbt_tid_mark_dead] *)
Definition zsbt_tid_mark_dead (rel : Relation) (tid : zstid)
  : outcome Relation :=
  match zsbt_tid_fetch rel tid with
  | None => Warned MSG_could_not_find_tuple_to_mark_dead rel
  | Some (buf, item_undoptr, isdead) =>
      (* Replace the ZSBreeItem with a DEAD item. (Unless it's already
         dead) *)
      if isdead then Done rel else
      let deaditem :=
        {| t_tid := tid; t_nelements := 1; t_undo_ptr := InvalidUndoPtr;
           t_flags := ZSBT_TID_DEAD |} in
      zsbt_tid_replace_item rel buf tid (Some deaditem)
  end.

(** The integer set is the list of its members, as for
    [zsbt_collect_dead_tids]; the iteration of lib/integerset.c gives them
    in ascending order, which the statements assume of the list.
    [intset_iterate_next(tids, &nexttid)] on the members the iteration has
    left, followed by [nexttid = MaxZSTid] when there is none. *)
Definition intset_iterate_next (tids : list zstid) : zstid * list zstid :=
  match tids with
  | t :: rest => (t, rest)
  | [] => (MaxZSTid, [])
  end.

(** [zsbt_tid_remove]: the loop that skips the to-be-removed TIDs at the
    beginning of the run; [old_nelements] bounds the number of
    iterations. *)
Fixpoint remove_skip (n : nat) (old_firsttid : zstid) (old_nelements : Z)
    (nexttid : zstid) (tids : list zstid)
  : zstid * Z * zstid * list zstid :=
  match n with
  | O => (old_firsttid, old_nelements, nexttid, tids)
  | S n' =>
      if (old_nelements >? 0) && (old_firsttid =? nexttid)
      then
        let '(nexttid', tids') := intset_iterate_next tids in
        remove_skip n' (u64 (old_firsttid + 1)) (s32 (old_nelements - 1))
          nexttid' tids'
      else (old_firsttid, old_nelements, nexttid, tids)
  end.

(** [zsbt_tid_remove]: the loop [while (old_nelements > 0)] over one item
    that contains [nexttid]: the run is cut into the pieces between the
    TIDs of the set.  [None] says that [fuel] iterations were not
    enough. *)
Fixpoint remove_split (fuel : nat) (item : ZSTidArrayItem)
    (old_firsttid : zstid) (old_nelements : Z) (nexttid : zstid)
    (tids : list zstid) (newitems : list ZSTidArrayItem)
  : option (zstid * list zstid * list ZSTidArrayItem) :=
  match fuel with
  | O => None
  | S fuel' =>
      if old_nelements >? 0 then
        (* skip any to-be-removed items from the beginning. *)
        let '(old_firsttid1, old_nelements1, nexttid1, tids1) :=
          remove_skip (Z.to_nat old_nelements) old_firsttid old_nelements
            nexttid tids in
        if old_nelements1 >? 0 then
          (* add as many TIDs as we can to this item *)
          let endtid :=
            Z.min (u64 (old_firsttid1 + old_nelements1)) nexttid1 in
          let new_nelements := s32 (u64 (endtid - old_firsttid1)) in
          let newitem :=
            {| t_tid := old_firsttid1;
               t_nelements := u32 new_nelements;
               t_undo_ptr := t_undo_ptr item;
               t_flags := t_flags item |} in
          remove_split fuel' item (u64 (old_firsttid1 + new_nelements))
            (s32 (old_nelements1 - new_nelements)) nexttid1 tids1
            (newitems ++ [newitem])
        else
          remove_split fuel' item old_firsttid1 old_nelements1 nexttid1
            tids1 newitems
      else Some (nexttid, tids, newitems)
  end.

(** [zsbt_tid_remove]: the loop over the items of the page, which rewrites
    them without the TIDs of the set. *)
Fixpoint remove_page_items (fuel : nat) (items : list ZSTidArrayItem)
    (nexttid : zstid) (tids : list zstid)
    (newitems : list ZSTidArrayItem)
  : option (zstid * list zstid * list ZSTidArrayItem) :=
  match items with
  | [] => Some (nexttid, tids, newitems)
  | item :: rest =>
      let old_firsttid := t_tid item in
      let old_nelements := s32 (t_nelements item) in
      if (t_tid item <=? nexttid)
         && (nexttid <? u64 (old_firsttid + old_nelements))
      then
        match remove_split fuel item old_firsttid old_nelements nexttid
                tids newitems with
        | Some (nexttid', tids', newitems') =>
            remove_page_items fuel rest nexttid' tids' newitems'
        | None => None
        end
      else
        (* keep this item unmodified *)
        remove_page_items fuel rest nexttid tids (newitems ++ [item])
  end.

(** [zsbt_tid_remove]: the [while (nexttid < MaxZSTid)] loop.  [fuel]
    bounds its iterations and [ifuel] those of the loop over one item; the
    outer [None] says that they were not enough.  The list handed to the
    recompressor is never rewritten in place. *)
Fixpoint tid_remove_loop (fuel ifuel : nat) (rel : Relation)
    (nexttid : zstid) (tids : list zstid) : option (outcome Relation) :=
  match fuel with
  | O => None
  | S fuel' =>
      if nexttid <? MaxZSTid then
        (* Find the leaf page containing the next item to remove *)
        match zsbt_descend rel nexttid with
        | None => Some (Failed MSG_invalid_buffer)
        | Some buf =>
            match get_leaf (rd_blocks rel) buf with
            | None => Some (Failed MSG_invalid_buffer)
            | Some page =>
                (* Rewrite the items on the page, removing all TIDs that
                   need to be removed from the page. *)
                match remove_page_items ifuel (tiditems page) nexttid tids
                        [] with
                | None => None
                | Some (nexttid', tids', newitems) =>
                    (* Pass the list to the recompressor. *)
                    let w :=
                      match newitems with
                      | [] => Unlink
                      | _ => Recompress newitems
                      end in
                    match apply_leaf_write rel buf w with
                    | Done rel' | Warned _ rel' =>
                        tid_remove_loop fuel' ifuel rel' nexttid' tids'
                    | Failed m => Some (Failed m)
                    end
                end
            end
        end
      else Some (Done rel)
  end.

(** [zsbt_tid_remove] *)
Definition zsbt_tid_remove (fuel ifuel : nat) (rel : Relation)
    (tids : list zstid) : option (outcome Relation) :=
  let '(nexttid, rest) := intset_iterate_next tids in
  tid_remove_loop fuel ifuel rel nexttid rest.

(** [zsbt_tid_undo_deletion] *)
Definition zsbt_tid_undo_deletion (rel : Relation) (tid : zstid)
    (undoptr : ZSUndoRecPtr) : outcome Relation :=
  match zsbt_tid_fetch rel tid with
  | None => Warned MSG_could_not_find_aborted_tuple rel
  | Some (buf, item_undoptr, _) =>
      if ZSUndoRecPtrEquals item_undoptr undoptr
      then
        let copy := zsbt_tid_create_item tid InvalidUndoPtr 1 in
        zsbt_tid_replace_item rel buf tid (Some copy)
      else Done rel
  end.

(** ** Collecting the dead TIDs *)

(** The inner loops of [zsbt_collect_dead_tids] over one page: every TID
    of every dead item is added to the set.  The integer set is the list
    of its members in the order they were added. *)
Definition item_tids (item : ZSTidArrayItem) : list zstid :=
  map (fun j => u64 (t_tid item + Z.of_nat j))
      (seq 0 (Z.to_nat (t_nelements item))).

Definition page_dead_tids (items : list ZSTidArrayItem) : list zstid :=
  flat_map (fun item => if item_isdead item then item_tids item else [])
           items.

(** The [for (;;)] loop of [zsbt_collect_dead_tids]; [buf], [nexttid],
    [nextblock] and [result] are its variables.  The result is the set and
    [*endtid] ([None] when it was not assigned); the outer [None] says that
    [fuel] iterations were not enough. *)
Fixpoint collect_dead_loop (fuel : nat) (rel : Relation) (buf : Buffer)
    (nexttid : zstid) (nextblock : BlockNumber) (result : list zstid)
  : option (outcome (list zstid * option zstid)) :=
  match fuel with
  | O => None
  | S fuel' =>
      let '(buf1, page1) :=
        if negb (nextblock =? InvalidBlockNumber) then
          if zsbt_page_is_expected rel nexttid nextblock
          then (Some nextblock, get_leaf (rd_blocks rel) nextblock)
          else (InvalidBuffer, None)
        else (buf, None) in
      let '(buf2, page2, empty) :=
        match buf1 with
        | None =>
            match zsbt_descend rel nexttid with
            | None => (InvalidBuffer, None, true)
            | Some b => (Some b, get_leaf (rd_blocks rel) b, false)
            end
        | Some b => (buf1, page1, false)
        end in
      if empty then Some (Done (result, None)) else
      match page2 with
      | None => Some (Failed MSG_invalid_buffer)
      | Some page =>
          let result' := result ++ page_dead_tids (tiditems page) in
          let nexttid' := zs_hikey page in
          let nextblock' := zs_next page in
          if nexttid' =? MaxPlusOneZSTid
          then Some (Done (result', Some nexttid'))
          else if intset_memory_usage result'
                    >? u64 (maintenance_work_mem * 1024)
          then Some (Done (result', Some nexttid'))
          else collect_dead_loop fuel' rel buf2 nexttid' nextblock' result'
      end
  end.

(** [zsbt_collect_dead_tids] *)
Definition zsbt_collect_dead_tids (fuel : nat) (rel : Relation)
    (starttid : zstid) : option (outcome (list zstid * option zstid)) :=
  collect_dead_loop fuel rel InvalidBuffer starttid InvalidBlockNumber [].

(** ** The scan *)

Record ZSBtreeScan : Type := mkScan {
  active : bool;
  snapshot : Snapshot;
  nexttid : zstid;
  endtid : zstid;
  lastbuf : Buffer;
  array_undoptr : ZSUndoRecPtr;
  array_num_elements : Z;
  array_next_datum : Z
}.

Definition set_nexttid (scan : ZSBtreeScan) (tid : zstid) : ZSBtreeScan :=
  {| active := active scan; snapshot := snapshot scan; nexttid := tid;
     endtid := endtid scan; lastbuf := lastbuf scan;
     array_undoptr := array_undoptr scan;
     array_num_elements := array_num_elements scan;
     array_next_datum := array_next_datum scan |}.

Definition set_lastbuf (scan : ZSBtreeScan) (buf : Buffer) : ZSBtreeScan :=
  {| active := active scan; snapshot := snapshot scan;
     nexttid := nexttid scan; endtid := endtid scan; lastbuf := buf;
     array_undoptr := array_undoptr scan;
     array_num_elements := array_num_elements scan;
     array_next_datum := array_next_datum scan |}.

(** [zsbt_tid_begin_scan] *)
Definition zsbt_tid_begin_scan (rel : Relation) (starttid endtid : zstid)
    (snapshot : Snapshot) : ZSBtreeScan :=
  let buf := zsbt_descend rel starttid in
  {| active := match buf with Some _ => true | None => false end;
     snapshot := snapshot; nexttid := starttid; endtid := endtid;
     lastbuf := buf; array_undoptr := mkUndoPtr 0 0 0;
     array_num_elements := 0; array_next_datum := 0 |}.

(** The first loop of [zsbt_tid_scan_extract_array]; [nelements] bounds the
    number of iterations. *)
Fixpoint skip_elements (n : nat) (nexttid tid : zstid) (nelements : Z)
  : zstid * Z :=
  match n with
  | O => (tid, nelements)
  | S n' =>
      if (tid <? nexttid) && (nelements >? 0)
      then skip_elements n' nexttid (u64 (tid + 1)) (s32 (nelements - 1))
      else (tid, nelements)
  end.

(** [zsbt_tid_scan_extract_array] *)
Definition zsbt_tid_scan_extract_array (scan : ZSBtreeScan)
    (aitem : ZSTidArrayItem) : ZSBtreeScan :=
  let nelements0 := s32 (t_nelements aitem) in
  (* skip over elements that we are not interested in *)
  let '(tid, nelements1) :=
    skip_elements (Z.to_nat nelements0) (nexttid scan) (t_tid aitem)
      nelements0 in
  (* leave out elements that are past end of range *)
  let nelements :=
    if u64 (tid + nelements1) >? endtid scan
    then s32 (u64 (endtid scan - tid))
    else nelements1 in
  {| active := active scan; snapshot := snapshot scan;
     nexttid := if nexttid scan <? tid then tid else nexttid scan;
     endtid := endtid scan; lastbuf := lastbuf scan;
     array_undoptr := t_undo_ptr aitem;
     array_num_elements := nelements;
     array_next_datum := 0 |}.

(** The loop over the items of the page in [zsbt_tid_scan_next]. *)
Fixpoint scan_page_items (scan : ZSBtreeScan)
    (items : list ZSTidArrayItem) : ZSBtreeScan :=
  match items with
  | [] => scan
  | item :: rest =>
      let lasttid := zsbt_tid_item_lasttid item in
      if nexttid scan >? lasttid then scan_page_items scan rest
      else if t_tid item >=? endtid scan
      then set_nexttid scan (endtid scan)
      else
        (* dead items are never considered visible. *)
        let visible :=
          if item_isdead item then false
          else zs_SatisfiesVisibility (snapshot scan) (t_undo_ptr item) in
        if negb visible
        then scan_page_items (set_nexttid scan (u64 (lasttid + 1))) rest
        else
          let scan' := zsbt_tid_scan_extract_array scan item in
          if array_next_datum scan' <? array_num_elements scan'
          then scan'
          else scan_page_items scan' rest
  end.

(** The part of the loop body that finds the page to look at: either the
    scan follows the right-link of [lastbuf] and starts the loop again, or
    it has a buffer to read. *)
Inductive located : Type :=
  | FollowRight (scan : ZSBtreeScan)
  | AtPage (buf : Buffer) (scan : ZSBtreeScan).

Definition scan_locate (rel : Relation) (scan : ZSBtreeScan) : located :=
  let redescend :=
    let buf := zsbt_descend rel (nexttid scan) in
    AtPage buf (set_lastbuf scan buf) in
  match lastbuf scan with
  | Some b =>
      if negb (zsbt_page_is_expected rel (nexttid scan) b) then
        if zsbt_page_is_expected rel (u64 (nexttid scan - 1)) b then
          match get_leaf (rd_blocks rel) b with
          | Some page =>
              if negb (zs_next page =? InvalidBlockNumber)
              then FollowRight (set_lastbuf scan (Some (zs_next page)))
              else redescend
          | None => redescend
          end
        else redescend
      else AtPage (Some b) scan
  | None => redescend
  end.

(** The [while] loop of [zsbt_tid_scan_next].  [buf_is_locked] is false
    each time the loop is entered: every [continue] and the end of the body
    come after an unlock.  The outer [None] says that [fuel] iterations were
    not enough. *)
Fixpoint scan_next_loop (fuel : nat) (rel : Relation) (scan : ZSBtreeScan)
  : option (outcome (zstid * ZSBtreeScan)) :=
  match fuel with
  | O => None
  | S fuel' =>
      if negb (nexttid scan <? endtid scan)
      then Some (Done (InvalidZSTid, scan))
      else if array_next_datum scan <? array_num_elements scan
      then
        (* have_array *)
        Some (Done (nexttid scan,
          {| active := active scan; snapshot := snapshot scan;
             nexttid := u64 (nexttid scan + 1);
             endtid := endtid scan; lastbuf := lastbuf scan;
             array_undoptr := array_undoptr scan;
             array_num_elements := array_num_elements scan;
             array_next_datum := s32 (array_next_datum scan + 1) |}))
      else
        match scan_locate rel scan with
        | FollowRight scan1 => scan_next_loop fuel' rel scan1
        | AtPage None _ => Some (Failed MSG_invalid_buffer)
        | AtPage (Some buf) scan1 =>
            match get_leaf (rd_blocks rel) buf with
            | None => Some (Failed MSG_invalid_buffer)
            | Some page =>
                let scan2 := scan_page_items scan1 (tiditems page) in
                if array_next_datum scan2 <? array_num_elements scan2
                then scan_next_loop fuel' rel scan2
                else
                  (* No more items on this page. Walk right, if possible *)
                  let scan3 :=
                    if nexttid scan2 <? zs_hikey page
                    then set_nexttid scan2 (zs_hikey page)
                    else scan2 in
                  let next := zs_next page in
                  if next =? buf
                  then Some (Failed MSG_next_pointer_points_to_itself)
                  else if (next =? InvalidBlockNumber)
                          || (nexttid scan3 >=? endtid scan3)
                  then
                    Some (Done (InvalidZSTid,
                      {| active := false; snapshot := snapshot scan3;
                         nexttid := nexttid scan3; endtid := endtid scan3;
                         lastbuf := InvalidBuffer;
                         array_undoptr := array_undoptr scan3;
                         array_num_elements := 0;
                         array_next_datum := 0 |}))
                  else
                    scan_next_loop fuel' rel
                      (set_lastbuf scan3 (Some next))
            end
        end
  end.

(** [zsbt_tid_scan_next]: the TID returned and the scan afterwards. *)
Definition zsbt_tid_scan_next (fuel : nat) (rel : Relation)
    (scan : ZSBtreeScan) : option (outcome (zstid * ZSBtreeScan)) :=
  if negb (active scan) then Some (Done (InvalidZSTid, scan))
  else scan_next_loop fuel rel scan.

(** The TIDs a caller gets from [n] successive calls that each return a
    valid TID; it stops at the first call that returns [InvalidZSTid],
    fails or does not return. *)
Fixpoint scan_tids (n fuel : nat) (rel : Relation) (scan : ZSBtreeScan)
  : list zstid :=
  match n with
  | O => []
  | S n' =>
      match zsbt_tid_scan_next fuel rel scan with
      | Some (Done (tid, scan')) =>
          if tid =? InvalidZSTid then []
          else tid :: scan_tids n' fuel rel scan'
      | _ => []
      end
  end.

End TidPage.

(** ** Attribute pages: the lockstep merge of [zsbt_attr_add_items] *)

(** One element of an attribute array: the TID and the datum, [None] for a
    null. *)
Definition attr_elem : Type := zstid * option Z.

(** The two words of an exploded item that lie where an array item has
    [t_firsttid] and [t_endtid]. *)
Definition exploded_words : Type := (zstid * zstid)%type.

(** Modelled from the spec: the items of the list handed around by
    [zsbt_attr_add_items] (zedstore_internal.h, not among the translated
    files).  The spec: an array item is [{t_firsttid, t_endtid,
    t_num_elements, t_flags, t_size, payload}], as it is stored on the
    page; an "exploded" item is [{tids[], datums[], isnulls[]}] with
    [t_size == 0], and has no first or end TID of its own.  The merge loop
    of [zsbt_attr_add_items] reads [t_firsttid] and [t_endtid] of every
    item through a pointer to [ZSAttributeArrayItem], also of the right
    part of a split, which is an exploded item: [words] is what lies in
    the exploded item at those two offsets.  Nothing is assumed of it. *)
Inductive ZSAttributeItem : Type :=
  | ArrayItem (firsttid endtid : zstid) (size : Z) (elems : list attr_elem)
  | ExplodedItem (words : exploded_words) (elems : list attr_elem).

Definition attr_elems (it : ZSAttributeItem) : list attr_elem :=
  match it with
  | ArrayItem _ _ _ elems => elems
  | ExplodedItem _ elems => elems
  end.

Definition t_size (it : ZSAttributeItem) : Z :=
  match it with
  | ArrayItem _ _ size _ => size
  | ExplodedItem _ _ => 0
  end.

(** Modelled from the spec: the field [t_firsttid] (its layout is in
    zedstore_internal.h, not among the translated files), read through a
    pointer to [ZSAttributeArrayItem] as the merge loop of
    [zsbt_attr_add_items] reads it.  For an array item it is the field;
    an exploded item has no such field, and the read gives the word that
    lies at the offset of the field, which need not be a TID of the
    item. *)
Definition t_firsttid (it : ZSAttributeItem) : zstid :=
  match it with
  | ArrayItem firsttid _ _ _ => firsttid
  | ExplodedItem words _ => fst words
  end.

(** Modelled from the spec: the field [t_endtid], read in the same way. *)
Definition t_endtid (it : ZSAttributeItem) : zstid :=
  match it with
  | ArrayItem _ endtid _ _ => endtid
  | ExplodedItem words _ => snd words
  end.

(** [item_firsttid] of [zsbt_attr_repack_replace], which looks at
    [t_size]: the field of an array item, [tids[0]] of an exploded
    item. *)
Definition item_firsttid (it : ZSAttributeItem) : zstid :=
  match it with
  | ArrayItem firsttid _ _ _ => firsttid
  | ExplodedItem _ elems => hd 0 (map fst elems)
  end.

(** [item_endtid] of [zsbt_attr_repack_replace]: the field of an array
    item, [tids[t_num_elements - 1] + 1] of an exploded item. *)
Definition item_endtid (it : ZSAttributeItem) : zstid :=
  match it with
  | ArrayItem _ endtid _ _ => endtid
  | ExplodedItem _ elems =>
      match last (map fst elems) with
      | Some t => u64 (t + 1)
      | None => 0
      end
  end.

(** Modelled from the spec: [zsbt_split_item] (zedstore_attitem.c, not
    among the translated files).  The spec: decompress if needed, partition
    [tids[]], [datums[]] and [isnulls[]] at the cutpoint, emit two exploded
    items.  [words] is what the memory of the two new items holds where an
    array item has its first and end TID. *)
Fixpoint elems_before (cut : zstid) (elems : list attr_elem)
  : list attr_elem :=
  match elems with
  | [] => []
  | e :: rest => if fst e >=? cut then [] else e :: elems_before cut rest
  end.

Fixpoint elems_from (cut : zstid) (elems : list attr_elem)
  : list attr_elem :=
  match elems with
  | [] => []
  | e :: rest => if fst e >=? cut then elems else elems_from cut rest
  end.

Definition zsbt_split_item (words : exploded_words * exploded_words)
    (origitem : ZSAttributeItem) (first_right_tid : zstid)
  : ZSAttributeItem * ZSAttributeItem :=
  (ExplodedItem (fst words)
     (elems_before first_right_tid (attr_elems origitem)),
   ExplodedItem (snd words)
     (elems_from first_right_tid (attr_elems origitem))).

(** What [zsbt_attr_add_items] does with the page. *)
Inductive attr_write : Type :=
  | AttrAppend (newitems : list ZSAttributeItem)
      (** [PageAddItemExtended] of each new item at the end of the page *)
  | AttrRepack (items : list ZSAttributeItem).
      (** the merged list is passed to [zsbt_attr_repack_replace] *)

(** The [for (;;)] loop of the merge; [olditem] and [newitem] are the
    current items, [oldrest] the items of the page from offset [off] on,
    [newrest] the list from [nextnewlc] on.  [alloc k] is what the memory
    of the two exploded items of a split made with [k] iterations to go
    holds where an array item has its first and end TID.  The outer [None]
    says that [fuel] iterations were not enough. *)
Fixpoint attr_merge_loop (alloc : nat -> exploded_words * exploded_words)
    (fuel : nat)
    (olditem : option ZSAttributeItem) (oldrest : list ZSAttributeItem)
    (newitem : option ZSAttributeItem) (newrest : list ZSAttributeItem)
    (items : list ZSAttributeItem)
  : option (outcome (list ZSAttributeItem)) :=
  match fuel with
  | O => None
  | S fuel' =>
      let advance_new (it : ZSAttributeItem) :=
        attr_merge_loop alloc fuel' olditem oldrest (head newrest)
          (tail newrest) (items ++ [it]) in
      let advance_old (it : ZSAttributeItem) :=
        attr_merge_loop alloc fuel' (head oldrest) (tail oldrest) newitem
          newrest (items ++ [it]) in
      match newitem, olditem with
      | None, None => Some (Done items)
      | Some n, None => advance_new n
      | None, Some o => advance_old o
      | Some n, Some o =>
          if t_firsttid n =? t_firsttid o
          then Some (Failed MSG_duplicate_TID_on_attribute_page)
          else if t_endtid n <=? t_firsttid o then advance_new n
          else if t_endtid o <=? t_firsttid n then advance_old o
          else if t_firsttid o >? t_firsttid n then
            (* split newitem *)
            let '(left_newitem, right_newitem) :=
              zsbt_split_item (alloc fuel') n (t_firsttid o) in
            attr_merge_loop alloc fuel' olditem oldrest (Some right_newitem)
              newrest (items ++ [left_newitem])
          else if t_firsttid o <? t_firsttid n then
            (* split olditem *)
            let '(left_olditem, right_olditem) :=
              zsbt_split_item (alloc fuel') o (t_firsttid n) in
            attr_merge_loop alloc fuel' (Some right_olditem) oldrest newitem
              newrest (items ++ [left_olditem])
          else Some (Failed MSG_shouldnt_reach_here)
      end
  end.

Section AttrPage.

Context `{ZSExternal}.

(** [PageGetExactFreeSpace] of an attribute page: every item takes a line
    pointer and its [MAXALIGN]ed size. *)
Definition attr_page_free_space (page : list ZSAttributeItem) : Z :=
  let used :=
    fold_left (fun acc it => acc + MAXALIGN (t_size it) + SizeOfItemIdData)
      page 0 in
  let space := pd_upper - SizeOfPageHeaderData - used in
  if space <? 0 then 0 else space.

(** [zsbt_attr_add_items], up to the call of the repacker. *)
Definition zsbt_attr_add_items
    (alloc : nat -> exploded_words * exploded_words) (fuel : nat)
    (page : list ZSAttributeItem) (newitems : list ZSAttributeItem)
  : option (outcome attr_write) :=
  match newitems with
  | [] => Some (Failed MSG_invalid_buffer)
  | firstnew :: _ =>
      (* Quick check if the new items go to the end of the page. *)
      let last_existing_tid :=
        match last page with
        | Some lastitem => t_endtid lastitem
        | None => 0
        end in
      let growth :=
        fold_left
          (fun acc it => u64 (acc + MAXALIGN (t_size it) + SizeOfItemIdData))
          newitems 0 in
      if (t_firsttid firstnew >=? last_existing_tid)
         && (growth <=? attr_page_free_space page)
      then Some (Done (AttrAppend newitems))
      else
        (* loop through the old and new items in lockstep *)
        match attr_merge_loop alloc fuel (head page) (tail page)
                (head newitems) (tail newitems) [] with
        | None => None
        | Some (Done items) => Some (Done (AttrRepack items))
        | Some (Warned m items) => Some (Warned m (AttrRepack items))
        | Some (Failed m) => Some (Failed m)
        end
  end.

End AttrPage.

(** [zsbt_attr_repack_replace]: the check, under [USE_ASSERT_CHECKING],
    that the items in the input are in correct order and don't overlap.
    [false] says that an assertion fails. *)
Fixpoint repack_items_in_order (prev_endtid : zstid)
    (items : list ZSAttributeItem) : bool :=
  match items with
  | [] => true
  | item :: rest =>
      let item_firsttid := item_firsttid item in
      let item_endtid := item_endtid item in
      (item_firsttid >=? prev_endtid) && (item_endtid >? item_firsttid)
      && repack_items_in_order item_endtid rest
  end.

(** ** Invariants used by the statements *)

Section Invariants.

Context `{ZSExternal}.

(** The constants describe a page: positive sizes, a block that holds the
    header, the special area and at least one item, and an [int]-sized
    block. *)
Definition geometry_ok : bool :=
  (0 <? MAXIMUM_ALIGNOF) && (0 <=? SizeOfPageHeaderData)
  && (0 <=? SizeOfZSBtreePageOpaque) && (0 <? SizeOfZSTidArrayItem)
  && (SizeOfZSTidArrayItem <? 2 ^ 16)
  && (MAXALIGN SizeOfPageHeaderData + MAXALIGN SizeOfZSBtreePageOpaque
      + MAXALIGN SizeOfZSTidArrayItem <=? BLCKSZ)
  && (BLCKSZ <? 2 ^ 31).

(** The items of a leaf lie in its key range, in order, and the key range
    is a range of TIDs. *)
Definition page_ok (p : ZSBtreePage) : bool :=
  (MinZSTid <=? zs_lokey p) && (zs_lokey p <=? zs_hikey p)
  && (zs_hikey p <=? MaxPlusOneZSTid)
  && (zs_level p =? 0)
  && items_ok (zs_lokey p) (zs_hikey p) (tiditems p).

(** The page images a leaf routine writes for the page [p]. *)
Definition leaf_write_pages (p : ZSBtreePage) (w : leaf_write)
  : list ZSBtreePage :=
  match w with
  | InPlace l => [with_items p l]
  | Recompress l => recompress_pages p l
  | Unlink => []
  end.

(** The pieces [zsbt_tid_replace_item] cuts the run [old] into around the
    TID [t], following the spec: the run before [t] and the run after [t],
    both with the undo pointer of [old], and the replacement in between. *)
Definition slice_before (old : ZSTidArrayItem) (t : zstid)
  : list ZSTidArrayItem :=
  if t_tid old <? t
  then [{| t_tid := t_tid old; t_nelements := t - t_tid old;
           t_undo_ptr := t_undo_ptr old; t_flags := 0 |}]
  else [].

Definition slice_after (old : ZSTidArrayItem) (t : zstid)
  : list ZSTidArrayItem :=
  if t + 1 <? t_tid old + t_nelements old
  then [{| t_tid := t + 1;
           t_nelements := t_tid old + t_nelements old - (t + 1);
           t_undo_ptr := t_undo_ptr old; t_flags := 0 |}]
  else [].

Definition slices (old : ZSTidArrayItem) (t : zstid)
    (replacementitem : option ZSTidArrayItem) : list ZSTidArrayItem :=
  slice_before old t ++ opt_list replacementitem ++ slice_after old t.

(** The items the recompressor has stored so far. *)
Definition cxt_items (cxt : zsbt_tid_recompress_context)
  : list ZSTidArrayItem :=
  flat_map tiditems (stack_pages cxt) ++ currpage_items cxt.

(** The key ranges of two leaves do not meet. *)
Definition ranges_apart (p q : ZSBtreePage) : bool :=
  (zs_hikey p <=? zs_lokey q) || (zs_hikey q <=? zs_lokey p).

Fixpoint blocks_apart (p : ZSBtreePage) (blocks : list Block) : bool :=
  match blocks with
  | [] => true
  | LeafBlock q :: rest => ranges_apart p q && blocks_apart p rest
  | OtherBlock :: rest => blocks_apart p rest
  end.

(** Every leaf is well formed and no two leaves share a key. *)
Fixpoint blocks_ok (blocks : list Block) : bool :=
  match blocks with
  | [] => true
  | LeafBlock p :: rest =>
      page_ok p && blocks_apart p rest && blocks_ok rest
  | OtherBlock :: rest => blocks_ok rest
  end.

Definition rel_ok (rel : Relation) : bool :=
  blocks_ok (rd_blocks rel)
  && (Z.of_nat (length (rd_blocks rel)) <? InvalidBlockNumber).

(** A chain of page images that splits the key range [lo, hi): each page
    starts where the one before it ends. *)
Fixpoint chain_ok (lo hi : zstid) (pages : list ZSBtreePage) : Prop :=
  match pages with
  | [] => lo = hi
  | p :: rest =>
      zs_lokey p = lo /\ zs_level p = 0 /\ zs_hikey p <= hi
      /\ items_ok lo (zs_hikey p) (tiditems p) = true
      /\ lo <= zs_hikey p
      /\ chain_ok (zs_hikey p) hi rest
  end.

(** What holds of the recompressor's context while it adds the items: the
    finished pages split [lo, lokey of the current page), the current page
    holds items that end at or before [e], and it still has the high key of
    the original page. *)
Definition cxt_inv (lo hi e : zstid) (cxt : zsbt_tid_recompress_context)
  : Prop :=
  exists curr,
    currpage cxt = Some curr /\ cxt_hikey cxt = hi
    /\ chain_ok lo (zs_lokey curr) (stack_pages cxt)
    /\ zs_level curr = 0 /\ zs_hikey curr = hi
    /\ items_ok (zs_lokey curr) e (tiditems curr) = true
    /\ zs_lokey curr <= e /\ e <= hi.

(** [blocks_ok], stated on the blocks one by one. *)
Definition leaves_ok (blocks : list Block) : Prop :=
  (forall (n : nat) p, blocks !! n = Some (LeafBlock p) -> page_ok p = true)
  /\ (forall (n m : nat) p q, n <> m ->
        blocks !! n = Some (LeafBlock p) ->
        blocks !! m = Some (LeafBlock q) -> ranges_apart p q = true).

(** The block that holds the [k]-th page of the chain written for the leaf
    in block [n]: the first page stays in block [n], the others take the
    new blocks at the end of the file. *)
Definition chain_index (blocks : list Block) (n k : nat) : nat :=
  match k with
  | O => n
  | S k' => (length blocks + k')%nat
  end.

(** [written rel n p l rel']: the relation [rel'] is [rel] with the leaf
    [p] of block [n] rewritten into a chain of pages that splits the key
    range of [p] and holds exactly the items [l], in order; the undo log
    and the other leaves are the same, and the leaves are well formed. *)
Definition written (rel : Relation) (n : nat) (p : ZSBtreePage)
    (l : list ZSTidArrayItem) (rel' : Relation) : Prop :=
  rd_undo rel' = rd_undo rel
  /\ leaves_ok (rd_blocks rel')
  /\ (forall m : nat, m <> n -> (m < length (rd_blocks rel))%nat ->
        rd_blocks rel' !! m = rd_blocks rel !! m)
  /\ exists chain,
        chain_ok (zs_lokey p) (zs_hikey p) chain
        /\ flat_map tiditems chain = l
        /\ (forall (k : nat) c, chain !! k = Some c ->
              rd_blocks rel' !! chain_index (rd_blocks rel) n k
              = Some (LeafBlock c))
        /\ (forall (m : nat) q, rd_blocks rel' !! m = Some (LeafBlock q) ->
              (m <> n /\ rd_blocks rel !! m = Some (LeafBlock q))
              \/ exists k : nat,
                   chain !! k = Some q
                   /\ m = chain_index (rd_blocks rel) n k).

(** The leaves from block [b] to the rightmost leaf, along the right-links:
    each leaf but the last has a right sibling that starts at its high key;
    the last one has the high key [MaxPlusOneZSTid]. *)
Fixpoint right_chain (blocks : list Block) (b : BlockNumber)
    (ps : list ZSBtreePage) : Prop :=
  match ps with
  | [] => False
  | p :: rest =>
      get_leaf blocks b = Some p
      /\ match rest with
         | [] => zs_hikey p = MaxPlusOneZSTid
         | q :: _ =>
             zs_hikey p <> MaxPlusOneZSTid
             /\ zs_next p <> InvalidBlockNumber
             /\ page_covers q (zs_hikey p) = true
             /\ right_chain blocks (zs_next p) rest
         end
  end.

(** [intset_memory_usage(result) > (uint64) maintenance_work_mem * 1024] *)
Definition over_budget (result : list zstid) : bool :=
  intset_memory_usage result >? u64 (maintenance_work_mem * 1024).

(** Some item of a leaf of the tree covers the TIDs [lo .. hi), is not
    dead and is visible to the snapshot. *)
Definition visible_run (rel : Relation) (snap : Snapshot) (lo hi : zstid)
  : Prop :=
  exists (n : nat) p (i : nat) it,
    rd_blocks rel !! n = Some (LeafBlock p)
    /\ tiditems p !! i = Some it
    /\ item_isdead it = false
    /\ zs_SatisfiesVisibility snap (t_undo_ptr it) = true
    /\ t_tid it <= lo /\ hi <= t_tid it + t_nelements it.

(** The scan has TIDs in its array: [array_next_datum < array_num_elements]. *)
Definition has_array (scan : ZSBtreeScan) : bool :=
  array_next_datum scan <? array_num_elements scan.

(** What holds of a scan between two calls of [zsbt_tid_scan_next]: the
    TIDs left in its array are TIDs of a visible item, below [endtid]. *)
Definition scan_inv (rel : Relation) (scan : ZSBtreeScan) : Prop :=
  0 <= nexttid scan /\ endtid scan < 2 ^ 64
  /\ (has_array scan = true ->
      0 <= array_next_datum scan /\ array_num_elements scan < 2 ^ 31
      /\ nexttid scan + (array_num_elements scan - array_next_datum scan)
         <= endtid scan
      /\ visible_run rel (snapshot scan) (nexttid scan)
           (nexttid scan
            + (array_num_elements scan - array_next_datum scan))).

End Invariants.

(** A new item and an old item whose TID ranges are apart. *)
Definition attr_apart (n o : ZSAttributeItem) : Prop :=
  t_firsttid n <> t_firsttid o
  /\ (t_endtid n <= t_firsttid o \/ t_endtid o <= t_firsttid n).

(** Every leaf has a chain of at most [N] leaves along the right-links to
    the rightmost leaf, and no leaf is its own right sibling. *)
Definition right_linked (blocks : list Block) (N : nat) : Prop :=
  forall b p, get_leaf blocks b = Some p ->
    zs_next p <> b
    /\ exists ps, right_chain blocks b ps /\ (length ps <= N)%nat.

(** Every TID is in the key range of a leaf. *)
Definition leaves_cover (rel : Relation) : Prop :=
  forall t, MinZSTid <= t < MaxPlusOneZSTid -> zsbt_descend rel t <> None.

(** What [zsbt_tid_fetch] reports of a TID besides the buffer: the undo
    pointer of the item and whether it is dead. *)
Definition fetch_info (rel : Relation) (t : zstid)
  : option (ZSUndoRecPtr * bool) :=
  match zsbt_tid_fetch rel t with
  | Some (_, undoptr, isdead) => Some (undoptr, isdead)
  | None => None
  end.

(** The members an iteration of an integer set has left: in ascending
    order, below [MaxZSTid]. *)
Definition tid_stream (s : list zstid) : Prop :=
  StronglySorted Z.lt s /\ Forall (fun t => 0 <= t < MaxZSTid) s.

(** What the statements about [zsbt_tid_remove] take of
    [zsbt_unlink_page] (zedstore_btree.c), which unlinks a leaf that has
    become empty: when it succeeds, the leaves are well formed and hold the
    items of the other leaves, and no others. *)
Definition unlink_keeps_items `{ZSExternal} : Prop :=
  forall blocks (b : nat) p blocks',
    leaves_ok blocks -> blocks !! b = Some (LeafBlock p) ->
    zsbt_unlink_page blocks (Z.of_nat b) = Some blocks' ->
    leaves_ok blocks'
    /\ forall it,
         (exists (n : nat) q,
            blocks' !! n = Some (LeafBlock q) /\ In it (tiditems q))
         <-> (exists (n : nat) q,
                n <> b /\ blocks !! n = Some (LeafBlock q)
                /\ In it (tiditems q)).

(** What [zsbt_tid_remove] relies on between two pages: the members the
    iteration has left are TIDs of the tree, no item holds [MaxZSTid], and
    [ifuel] is above the length of every run. *)
Definition remove_inv (ifuel : nat) (rel : Relation) (s : list zstid)
  : Prop :=
  leaves_ok (rd_blocks rel)
  /\ (forall t, In t s -> fetch_info rel t <> None)
  /\ fetch_info rel MaxZSTid = None
  /\ (forall (n : nat) p it,
        rd_blocks rel !! n = Some (LeafBlock p) -> In it (tiditems p) ->
        t_nelements it < Z.of_nat ifuel).

(** What one pass of the loop does with the members [gone] of the set. *)
Definition remove_step (ifuel : nat) (rel rel1 : Relation)
    (gone : list zstid) : Prop :=
  leaves_ok (rd_blocks rel1)
  /\ rd_undo rel1 = rd_undo rel
  /\ (forall t, In t gone -> fetch_info rel1 t = None)
  /\ (forall t, ~ In t gone -> fetch_info rel1 t = fetch_info rel t)
  /\ (forall (n : nat) p it,
        rd_blocks rel1 !! n = Some (LeafBlock p) -> In it (tiditems p) ->
        t_nelements it < Z.of_nat ifuel).

(** The TIDs of an attribute item. *)
Definition attr_tids (it : ZSAttributeItem) : list zstid :=
  map fst (attr_elems it).

(** A well-formed attribute item: it has elements, in ascending order of
    TIDs; its first TID, as the merge loop reads it, is the TID of the
    first element and its end TID is one past the TID of the last one. *)
Definition attr_item_ok (it : ZSAttributeItem) : Prop :=
  attr_tids it <> []
  /\ StronglySorted Z.lt (attr_tids it)
  /\ Forall (fun t => MinZSTid <= t <= MaxZSTid) (attr_tids it)
  /\ t_firsttid it = hd 0 (attr_tids it)
  /\ (forall t, last (attr_tids it) = Some t -> t_endtid it = t + 1).

(** A list of well-formed items in ascending order, each ending at or
    before the first TID of the next one. *)
Fixpoint attr_items_ok (l : list ZSAttributeItem) : Prop :=
  match l with
  | [] => True
  | it :: rest =>
      attr_item_ok it
      /\ match rest with
         | [] => True
         | next :: _ => t_endtid it <= t_firsttid next
         end
      /\ attr_items_ok rest
  end.

(** ** A concrete configuration

    The constants of a build with 8 kB blocks and 8-byte alignment, an undo
    log whose pointers count the records from 1, visibility decided by
    comparing the counter of the undo pointer with the snapshot, and a
    budget of 64 kB for the set of dead TIDs.  The examples are run in
    it. *)
Definition pg_default : ZSExternal := {|
  BLCKSZ := 8192;
  SizeOfPageHeaderData := 24;
  SizeOfZSBtreePageOpaque := 32;
  SizeOfZSTidArrayItem := 24;
  SizeOfItemIdData := 4;
  MAXIMUM_ALIGNOF := 8;
  InvalidUndoPtr := mkUndoPtr 0 InvalidBlockNumber 0;
  ZSUndoRecPtrEquals := fun a b => counter a =? counter b;
  zsundo_alloc := fun log _ => mkUndoPtr (Z.of_nat (length log) + 1) 0 0;
  zsbt_unlink_page := fun _ _ => None;
  zs_SatisfiesVisibility := fun s u => counter u <=? s;
  zs_SatisfiesUpdate := fun s t u _ =>
    (if counter u <=? s then TM_Ok else TM_Updated, true, t);
  intset_memory_usage := fun l => Z.of_nat (length l) * 8;
  maintenance_work_mem := 64
|}.

(** The same configuration with a [zsbt_unlink_page] that succeeds: the
    block of the leaf leaves the tree. *)
Definition pg_unlinking : ZSExternal := {|
  BLCKSZ := 8192;
  SizeOfPageHeaderData := 24;
  SizeOfZSBtreePageOpaque := 32;
  SizeOfZSTidArrayItem := 24;
  SizeOfItemIdData := 4;
  MAXIMUM_ALIGNOF := 8;
  InvalidUndoPtr := mkUndoPtr 0 InvalidBlockNumber 0;
  ZSUndoRecPtrEquals := fun a b => counter a =? counter b;
  zsundo_alloc := fun log _ => mkUndoPtr (Z.of_nat (length log) + 1) 0 0;
  zsbt_unlink_page := fun blocks b => Some (set_block blocks b OtherBlock);
  zs_SatisfiesVisibility := fun s u => counter u <=? s;
  zs_SatisfiesUpdate := fun s t u _ =>
    (if counter u <=? s then TM_Ok else TM_Updated, true, t);
  intset_memory_usage := fun l => Z.of_nat (length l) * 8;
  maintenance_work_mem := 64
|}.

(** A run of [n] TIDs from [t] whose undo record is the [c]-th of the
    log. *)
Definition run_item (t n c : Z) : ZSTidArrayItem :=
  {| t_tid := t; t_nelements := n; t_undo_ptr := mkUndoPtr c 0 0;
     t_flags := 0 |}.

(** The item [zsbt_tid_mark_dead] writes for [t]. *)
Definition dead_item (t : zstid) : ZSTidArrayItem :=
  {| t_tid := t; t_nelements := 1;
     t_undo_ptr := mkUndoPtr 0 InvalidBlockNumber 0;
     t_flags := ZSBT_TID_DEAD |}.

(** A tree of one leaf, which is the root: the runs 1..3 and 9..10 and the
    dead TID 4. *)
Definition leaf_1 : ZSBtreePage :=
  {| zs_next := InvalidBlockNumber; zs_lokey := MinZSTid;
     zs_hikey := MaxPlusOneZSTid; zs_level := 0; zs_flags := ZSBT_ROOT;
     tiditems := [run_item 1 3 1; dead_item 4; run_item 9 2 3] |}.

Definition rel_1 : Relation :=
  {| rd_blocks := [OtherBlock; LeafBlock leaf_1]; rd_undo := [] |}.



(** A tree of two leaves: TIDs below 100 in block 1, the others in block
    2. *)
Definition leaf_lo : ZSBtreePage :=
  {| zs_next := 2; zs_lokey := MinZSTid; zs_hikey := 100; zs_level := 0;
     zs_flags := 0;
     tiditems := [run_item 1 3 1; dead_item 4; dead_item 7] |}.

Definition leaf_hi : ZSBtreePage :=
  {| zs_next := InvalidBlockNumber; zs_lokey := 100;
     zs_hikey := MaxPlusOneZSTid; zs_level := 0; zs_flags := 0;
     tiditems := [dead_item 100; run_item 101 5 2] |}.

Definition rel_2 : Relation :=
  {| rd_blocks := [OtherBlock; LeafBlock leaf_lo; LeafBlock leaf_hi];
     rd_undo := [] |}.

(** [n] single-TID items from TID 1 on. *)
Definition single_items (n : nat) : list ZSTidArrayItem :=
  map (fun i => run_item (Z.of_nat i + 1) 1 0) (seq 0 n).

(** The context of a recompression of a leaf with the high key [hikey],
    before [zsbt_tid_recompress_picksplit]. *)
Definition fresh_cxt (hikey : zstid) : zsbt_tid_recompress_context :=
  {| stack_pages := []; currpage := None; cxt_num_pages := 0;
     cxt_free_space_per_page := 0; cxt_hikey := hikey |}.

(** An attribute page with one array item for the TIDs 5..7, and a new
    item for the TIDs 1, 2, 5 and 9. *)
Definition attr_old : ZSAttributeItem :=
  ArrayItem 5 8 30 [(5, None); (6, None); (7, None)].


(** New items for the TIDs 1, 2 and for the TID 9, before and behind the
    old item. *)
Definition attr_new_before : ZSAttributeItem :=
  ArrayItem 1 3 30 [(1, None); (2, None)].

Definition attr_new_behind : ZSAttributeItem :=
  ArrayItem 9 10 20 [(9, None)].

(** Words that are addresses, not TIDs. *)
Definition address_words (k : nat) : exploded_words * exploded_words :=
  ((2 ^ 47, 2 ^ 47 + 64), (2 ^ 47 + 128, 2 ^ 47 + 192)).

(** The free space per page the specification describes for the rightmost
    leaf: 90% of the free space, spread over the [n - 1] earlier pages. *)
Definition spec_rightmost_free_space_per_page (total_free n : Z) : Z :=
  9 * total_free / (10 * (n - 1)).

(** * Properties *)

Lemma u64_small x : 0 <= x < 2 ^ 64 -> u64 x = x.
Proof. intros. unfold u64. now apply Z.mod_small. Qed.

Lemma u32_small x : 0 <= x < 2 ^ 32 -> u32 x = x.
Proof. intros. unfold u32. now apply Z.mod_small. Qed.

Lemma s32_small x : - 2 ^ 31 <= x < 2 ^ 31 -> s32 x = x.
Proof. intros. unfold s32. rewrite Z.mod_small; lia. Qed.

(** ** The item array *)

Lemma arr_item_lookup_Z (arr : list ZSTidArrayItem) (j : Z) it :
  arr !! Z.to_nat j = Some it -> arr_item arr j = it.
Proof.
  intros Hi. unfold arr_item. now rewrite (nth_lookup_Some _ _ _ _ Hi).
Qed.

Lemma arr_item_lookup (arr : list ZSTidArrayItem) (i : nat) it :
  arr !! i = Some it -> arr_item arr (Z.of_nat i) = it.
Proof.
  intros Hi. apply arr_item_lookup_Z. now rewrite Nat2Z.id.
Qed.

Lemma items_ok_cons lo hi a l :
  items_ok lo hi (a :: l) = true <->
  lo <= t_tid a /\ 1 <= t_nelements a < 2 ^ 31
  /\ t_tid a + t_nelements a <= hi
  /\ items_ok (t_tid a + t_nelements a) hi l = true.
Proof.
  simpl. rewrite !andb_true_iff, !Z.leb_le, Z.ltb_lt. tauto.
Qed.

Lemma items_ok_weaken lo lo' hi l :
  lo' <= lo -> items_ok lo hi l = true -> items_ok lo' hi l = true.
Proof.
  destruct l as [|a l]; [easy|].
  rewrite !items_ok_cons. intuition lia.
Qed.

(** Every item of a well-formed array is a non-empty run inside the
    bounds. *)
Lemma items_ok_lookup lo hi l (i : nat) it :
  items_ok lo hi l = true -> l !! i = Some it ->
  lo <= t_tid it /\ 1 <= t_nelements it < 2 ^ 31
  /\ t_tid it + t_nelements it <= hi.
Proof.
  revert lo i. induction l as [|a l IH]; intros lo i Hok Hi; [easy|].
  apply items_ok_cons in Hok as (? & ? & ? & Hok).
  destruct i as [|i]; simpl in Hi.
  - inversion Hi; subst. lia.
  - destruct (IH _ _ Hok Hi) as (? & ? & ?). lia.
Qed.

(** The runs of a well-formed array are in ascending order and disjoint. *)
Lemma items_ok_ordered lo hi l (i j : nat) a b :
  items_ok lo hi l = true -> l !! i = Some a -> l !! j = Some b ->
  (i < j)%nat -> t_tid a + t_nelements a <= t_tid b.
Proof.
  revert lo i j. induction l as [|x l IH]; intros lo i j Hok Hi Hj Hlt;
    [easy|].
  apply items_ok_cons in Hok as (? & ? & ? & Hok).
  destruct j as [|j]; [lia|]. simpl in Hj.
  destruct i as [|i]; simpl in Hi.
  - inversion Hi; subst.
    destruct (items_ok_lookup _ _ _ _ _ Hok Hj) as (? & ? & ?). lia.
  - apply (IH _ i j Hok Hi Hj). lia.
Qed.

(** ** The binary search *)

Lemma binsrch_loop_spec key arr low high k :
  0 <= low <= k -> k <= high ->
  (forall j, low <= j < k -> t_tid (arr_item arr j) <= key) ->
  (forall j, k <= j < high -> key < t_tid (arr_item arr j)) ->
  binsrch_loop key arr low high = k.
Proof.
  funelim (binsrch_loop key arr low high); intros Hlo Hhi Hle Hgt.
  - assert (Hmid : 0 <= (high - low) / 2 < high - low)
      by (split; [apply Z.div_pos | apply Z.div_lt]; lia).
    set (mid := low + (high - low) / 2) in *.
    destruct (key >=? t_tid (arr_item arr mid)) eqn:E.
    + assert (mid < k).
      { destruct (Z_lt_dec mid k); [lia|]. specialize (Hgt mid). lia. }
      apply H; [lia | lia | | exact Hgt].
      intros j Hj. apply Hle. lia.
    + assert (k <= mid).
      { destruct (Z_lt_dec mid k); [|lia]. specialize (Hle mid). lia. }
      apply H0; [lia | lia | exact Hle | ].
      intros j Hj. apply Hgt. lia.
  - lia.
Qed.

(** On a well-formed array the search finds the item that covers the
    key. *)
Lemma zsbt_binsrch_tidpage_covers lo hi arr (i : nat) it key :
  items_ok lo hi arr = true -> arr !! i = Some it -> covers it key ->
  zsbt_binsrch_tidpage key arr (Z.of_nat (length arr)) = Z.of_nat i.
Proof.
  intros Hok Hi [Hc1 Hc2]. unfold zsbt_binsrch_tidpage.
  assert (Hlen : (i < length arr)%nat) by (eapply lookup_lt_Some; eauto).
  rewrite (binsrch_loop_spec key arr 0 _ (Z.of_nat i + 1)); try lia.
  - intros j Hj.
    destruct (arr !! Z.to_nat j) as [b|] eqn:Hb.
    2:{ apply lookup_ge_None in Hb. lia. }
    rewrite (arr_item_lookup_Z _ _ _ Hb).
    destruct (Nat.eq_dec (Z.to_nat j) i) as [Heq|Hne].
    + rewrite Heq, Hi in Hb. inversion Hb; subst. lia.
    + assert (Hlt : (Z.to_nat j < i)%nat) by lia.
      pose proof (items_ok_ordered _ _ _ _ _ _ _ Hok Hb Hi Hlt).
      destruct (items_ok_lookup _ _ _ _ _ Hok Hb) as (? & ? & ?). lia.
  - intros j Hj.
    destruct (arr !! Z.to_nat j) as [b|] eqn:Hb.
    2:{ apply lookup_ge_None in Hb. lia. }
    rewrite (arr_item_lookup_Z _ _ _ Hb).
    assert (Hlt : (i < Z.to_nat j)%nat) by lia.
    pose proof (items_ok_ordered _ _ _ _ _ _ _ Hok Hi Hb Hlt). lia.
Qed.

(** ** Rounding to double precision *)

Lemma digits2_pos_size p : digits2_pos p = Pos.size p.
Proof. induction p; simpl; congruence. Qed.

Lemma digits2_pos_bounds p :
  2 ^ (Zpos (digits2_pos p) - 1) <= Zpos p < 2 ^ Zpos (digits2_pos p).
Proof.
  rewrite digits2_pos_size. split.
  - pose proof (Pos.size_le p) as Hle.
    assert (H2 : 2 ^ Zpos (Pos.size p) <= 2 * Zpos p).
    { change 2 with (Zpos 2) at 1. rewrite <- Pos2Z.inj_pow.
      change (2 * Zpos p) with (Zpos p~0). now apply Pos2Z.pos_le_pos. }
    replace (Zpos (Pos.size p)) with (Zpos (Pos.size p) - 1 + 1) in H2
      by lia.
    rewrite Z.pow_add_r in H2 by lia. lia.
  - pose proof (Pos.size_gt p) as Hgt.
    change 2 with (Zpos 2). rewrite <- Pos2Z.inj_pow.
    now apply Pos2Z.pos_lt_pos.
Qed.

Lemma Zdigits2_unique m d :
  0 < d -> 2 ^ (d - 1) <= m < 2 ^ d -> Zdigits2 m = d.
Proof.
  intros Hd [Hlo Hhi].
  assert (Hm : 0 < m).
  { pose proof (Z.pow_pos_nonneg 2 (d - 1)). lia. }
  destruct m as [|p|p]; try lia. simpl.
  pose proof (digits2_pos_bounds p) as [Hl Hh].
  set (k := Zpos (digits2_pos p)) in *.
  assert (Hk : 0 < k) by (subst k; lia).
  destruct (Z.lt_trichotomy k d) as [Hlt|[Heq|Hgt]]; [|exact Heq|].
  - assert (2 ^ k <= 2 ^ (d - 1)) by (apply Z.pow_le_mono_r; lia). lia.
  - assert (2 ^ d <= 2 ^ (k - 1)) by (apply Z.pow_le_mono_r; lia). lia.
Qed.

Lemma shr_1_m mrs : 0 <= shr_m mrs -> shr_m (shr_1 mrs) = shr_m mrs / 2.
Proof.
  destruct mrs as [m r s]. simpl. intros Hm.
  destruct m as [|[p|p|]|p]; try lia; simpl.
  - reflexivity.
  - apply (Z.div_unique _ 2 _ 1); lia.
  - apply (Z.div_unique _ 2 _ 0); lia.
  - reflexivity.
Qed.

Lemma pow2_xO p : 2 ^ Zpos p~0 = 2 ^ Zpos p * 2 ^ Zpos p.
Proof. rewrite <- Z.pow_add_r by lia. f_equal. lia. Qed.

Lemma pow2_xI p : 2 ^ Zpos p~1 = 2 * (2 ^ Zpos p * 2 ^ Zpos p).
Proof.
  rewrite <- Z.pow_add_r by lia. rewrite <- (Z.pow_succ_r 2) by lia.
  f_equal. lia.
Qed.

Lemma iter_shr_1_m p : forall mrs,
  0 <= shr_m mrs ->
  0 <= shr_m (SpecFloat.iter_pos shr_1 p mrs)
  /\ shr_m (SpecFloat.iter_pos shr_1 p mrs) = shr_m mrs / 2 ^ Zpos p.
Proof.
  induction p as [p IH|p IH|]; intros mrs Hm; simpl SpecFloat.iter_pos.
  - assert (H1 : 0 <= shr_m (shr_1 mrs)).
    { rewrite shr_1_m by assumption. apply Z.div_pos; lia. }
    destruct (IH _ H1) as [H2 E2]. destruct (IH _ H2) as [H3 E3].
    split; [exact H3|]. rewrite E3, E2, shr_1_m by assumption.
    rewrite !Z.div_div by lia. now rewrite pow2_xI.
  - destruct (IH _ Hm) as [H2 E2]. destruct (IH _ H2) as [H3 E3].
    split; [exact H3|]. rewrite E3, E2.
    rewrite !Z.div_div by lia. now rewrite pow2_xO.
  - split.
    + rewrite shr_1_m by assumption. apply Z.div_pos; lia.
    + rewrite shr_1_m by assumption. reflexivity.
Qed.

Lemma shr_record_of_loc_m m l : shr_m (shr_record_of_loc m l) = m.
Proof. destruct l as [|[]]; reflexivity. Qed.

Lemma loc_of_shr_record_of_loc m l :
  loc_of_shr_record (shr_record_of_loc m l) = l.
Proof. destruct l as [|[]]; reflexivity. Qed.

Lemma round_nearest_even_cases m l :
  round_nearest_even m l = m \/ round_nearest_even m l = m + 1.
Proof.
  destruct l as [|[]]; simpl; auto. destruct (Z.even m); auto.
Qed.

Lemma fexp_normal e : -1074 <= e - 53 -> fexp 53 1024 e = e - 53.
Proof. intros. unfold fexp, emin. lia. Qed.

(** The first shift of [binary_round_aux]: a mantissa of [53 + s] digits
    loses its [s] low digits. *)
Lemma shr_fexp_m m e l s :
  0 < m -> Zdigits2 m = 53 + s -> 0 <= s -> -1074 <= e + s ->
  exists mrs,
    shr_fexp 53 1024 m e l = (mrs, e + s)
    /\ shr_m mrs = m / 2 ^ s
    /\ (s = 0 -> mrs = shr_record_of_loc m l).
Proof.
  intros Hm Hd Hs He. unfold shr_fexp. rewrite Hd.
  rewrite fexp_normal by lia.
  replace (53 + s + e - 53 - e) with s by lia.
  destruct s as [|p|p]; try lia.
  - exists (shr_record_of_loc m l). simpl.
    rewrite Z.add_0_r, shr_record_of_loc_m, Z.div_1_r. auto.
  - exists (SpecFloat.iter_pos shr_1 p (shr_record_of_loc m l)). simpl shr.
    split; [reflexivity|]. split; [|lia].
    destruct (iter_shr_1_m p (shr_record_of_loc m l)) as [_ E].
    + rewrite shr_record_of_loc_m. lia.
    + rewrite E, shr_record_of_loc_m. reflexivity.
Qed.

Lemma shr_fexp_normal m e :
  2 ^ 52 <= m < 2 ^ 53 -> -1074 <= e ->
  shr_fexp 53 1024 m e loc_Exact
  = ({| shr_m := m; shr_r := false; shr_s := false |}, e).
Proof.
  intros Hm He.
  destruct (shr_fexp_m m e loc_Exact 0) as (mrs & E & _ & Hrec); try lia.
  - apply Zdigits2_unique; lia.
  - rewrite E, Z.add_0_r, (Hrec eq_refl). reflexivity.
Qed.

Lemma shr_fexp_carry e :
  -1074 <= e + 1 ->
  shr_fexp 53 1024 (2 ^ 53) e loc_Exact
  = ({| shr_m := 2 ^ 52; shr_r := false; shr_s := false |}, e + 1).
Proof.
  intros He. unfold shr_fexp.
  change (Zdigits2 (2 ^ 53)) with 54.
  rewrite fexp_normal by lia.
  replace (54 + e - 53 - e) with 1 by lia. reflexivity.
Qed.

Lemma Zdigits2_bounds m s :
  0 < m -> Zdigits2 m = 53 + s -> 0 <= s ->
  2 ^ 52 * 2 ^ s <= m < 2 ^ 53 * 2 ^ s.
Proof.
  intros Hm Hd Hs. destruct m as [|p|p]; try lia. simpl in Hd.
  pose proof (digits2_pos_bounds p) as Hb. rewrite Hd in Hb.
  replace (53 + s - 1) with (52 + s) in Hb by lia.
  rewrite !Z.pow_add_r in Hb by lia. exact Hb.
Qed.

(** [binary_round_aux] on a positive mantissa of [53 + s] digits, away from
    underflow and overflow: the result is the mantissa without its [s] low
    digits, or the next one. *)
Lemma binary_round_aux_bracket mx ex lx s :
  0 < mx -> Zdigits2 mx = 53 + s -> 0 <= s ->
  -1074 <= ex + s -> ex + s < 971 ->
  exists m e,
    binary_round_aux 53 1024 false mx ex lx = S754_finite false m e
    /\ 2 ^ 52 <= Zpos m < 2 ^ 53
    /\ (e = ex + s /\ (Zpos m = mx / 2 ^ s \/ Zpos m = mx / 2 ^ s + 1)
        \/ e = ex + s + 1 /\ 2 * Zpos m = mx / 2 ^ s + 1)
    /\ (lx = loc_Exact -> s = 0 -> Zpos m = mx /\ e = ex).
Proof.
  intros Hm Hd Hs Hlo Hhi.
  destruct (shr_fexp_m mx ex lx s Hm Hd Hs Hlo) as (mrs & E1 & Em & Hrec).
  pose proof (Zdigits2_bounds mx s Hm Hd Hs) as [Hb1 Hb2].
  assert (Hps : 0 < 2 ^ s) by (apply Z.pow_pos_nonneg; lia).
  assert (Hm' : 2 ^ 52 <= mx / 2 ^ s < 2 ^ 53).
  { split; [apply Z.div_le_lower_bound; lia
           |apply Z.div_lt_upper_bound; lia]. }
  unfold binary_round_aux. rewrite E1.
  assert (Hexact : lx = loc_Exact -> s = 0 ->
            round_nearest_even (shr_m mrs) (loc_of_shr_record mrs) = mx).
  { intros -> Hs0. rewrite (Hrec Hs0). reflexivity. }
  destruct (round_nearest_even_cases (shr_m mrs) (loc_of_shr_record mrs))
    as [R|R]; rewrite R in *; rewrite Em in *.
  - rewrite shr_fexp_normal by lia. cbn [shr_m].
    destruct (mx / 2 ^ s) as [|m|m] eqn:Eq; try lia.
    destruct (Z.leb_spec (ex + s) (1024 - 53)); [|lia].
    exists m, (ex + s). split; [reflexivity|]. split; [lia|].
    split; [left; split; [reflexivity|left; reflexivity]|].
    intros Hl Hs0. rewrite <- (Hexact Hl Hs0). lia.
  - destruct (Z.eq_dec (mx / 2 ^ s + 1) (2 ^ 53)) as [Hc|Hc].
    + rewrite Hc. rewrite shr_fexp_carry by lia. cbn [shr_m].
      destruct (Z.leb_spec (ex + s + 1) (1024 - 53)); [|lia].
      exists (Z.to_pos (2 ^ 52)), (ex + s + 1).
      split; [reflexivity|]. split; [rewrite Z2Pos.id; lia|].
      split; [right; split; [reflexivity|rewrite Z2Pos.id; lia]|].
      intros Hl Hs0. specialize (Hexact Hl Hs0). subst s.
      rewrite Z.pow_0_r, Z.div_1_r in *. lia.
    + rewrite shr_fexp_normal by lia. cbn [shr_m].
      destruct (mx / 2 ^ s + 1) as [|m|m] eqn:Eq; try lia.
      destruct (Z.leb_spec (ex + s) (1024 - 53)); [|lia].
      exists m, (ex + s). split; [reflexivity|]. split; [lia|].
      split; [left; split; [reflexivity|right; reflexivity]|].
      intros Hl Hs0. specialize (Hexact Hl Hs0). subst s.
      rewrite Z.pow_0_r, Z.div_1_r in *. lia.
Qed.

Lemma iter_xO_pow p k : Zpos (Pos.iter xO p k) = Zpos p * 2 ^ Zpos k.
Proof.
  induction k as [|k IH] using Pos.peano_ind.
  - simpl. lia.
  - rewrite Pos.iter_succ, Pos2Z.inj_xO, IH, Pos2Z.inj_succ.
    rewrite Z.pow_succ_r by lia. lia.
Qed.

(** The conversion of a positive integer below [2 ^ 53] is exact. *)
Lemma double_of_Z_exact z :
  0 < z < 2 ^ 53 ->
  exists m e,
    double_of_Z z = S754_finite false m e
    /\ 2 ^ 52 <= Zpos m < 2 ^ 53
    /\ e = Zdigits2 z - 53 /\ -52 <= e <= 0
    /\ Zpos m = z * 2 ^ (- e).
Proof.
  intros [Hz0 Hz]. destruct z as [|p|p]; try lia.
  pose proof (digits2_pos_bounds p) as [Hd1 Hd2].
  set (d := Zpos (digits2_pos p)) in *.
  assert (Hd0 : 1 <= d) by (subst d; lia).
  assert (Hd : d <= 53).
  { destruct (Z_le_gt_dec d 53) as [|Hgt]; [assumption|].
    assert (2 ^ 53 <= 2 ^ (d - 1)) by (apply Z.pow_le_mono_r; lia). lia. }
  unfold double_of_Z, binary_normalize, binary_round.
  fold d. rewrite fexp_normal by lia.
  replace (d + 0 - 53) with (d - 53) by lia.
  assert (Hmz : exists mz,
             shl_align p 0 (d - 53) = (mz, d - 53)
             /\ Zpos mz = Zpos p * 2 ^ (53 - d)).
  { unfold shl_align. rewrite Z.sub_0_r.
    destruct (d - 53) as [|k|k] eqn:Ek; try lia.
    - exists p. split; [reflexivity|].
      replace (53 - d) with 0 by lia. lia.
    - exists (Pos.iter xO p k). split; [reflexivity|].
      rewrite iter_xO_pow. f_equal. f_equal. lia. }
  destruct Hmz as (mz & -> & Hmz).
  assert (Hpow : 2 ^ (d - 1) * 2 ^ (53 - d) = 2 ^ 52
                 /\ 2 ^ d * 2 ^ (53 - d) = 2 ^ 53).
  { rewrite <- !Z.pow_add_r by lia.
    split; f_equal; lia. }
  assert (Hp2 : 0 < 2 ^ (53 - d)) by (apply Z.pow_pos_nonneg; lia).
  assert (Hb : 2 ^ 52 <= Zpos mz < 2 ^ 53) by nia.
  destruct (binary_round_aux_bracket (Zpos mz) (d - 53) loc_Exact 0)
    as (m & e & E & Hm & _ & Hex); try lia.
  { apply Zdigits2_unique; lia. }
  destruct (Hex eq_refl eq_refl) as [Em Ee].
  exists m, e. split; [exact E|]. split; [exact Hm|].
  subst e. split; [reflexivity|]. split; [lia|].
  rewrite Em, Hmz. f_equal. f_equal. lia.
Qed.

(** The product of two positive normal numbers. *)
Lemma double_mul_bracket ma ea mb eb :
  2 ^ 52 <= Zpos ma < 2 ^ 53 -> 2 ^ 52 <= Zpos mb < 2 ^ 53 ->
  -1074 <= ea + eb + 52 -> ea + eb + 53 < 971 ->
  exists s m e,
    double_mul (S754_finite false ma ea) (S754_finite false mb eb)
    = S754_finite false m e
    /\ (s = 52 \/ s = 53)
    /\ 2 ^ 52 <= Zpos m < 2 ^ 53
    /\ 2 ^ 52 <= Zpos ma * Zpos mb / 2 ^ s
    /\ (e = ea + eb + s
        /\ (Zpos m = Zpos ma * Zpos mb / 2 ^ s
            \/ Zpos m = Zpos ma * Zpos mb / 2 ^ s + 1)
        \/ e = ea + eb + s + 1
           /\ 2 * Zpos m = Zpos ma * Zpos mb / 2 ^ s + 1).
Proof.
  intros Ha Hb Hlo Hhi.
  unfold double_mul, SFmul. cbn [xorb].
  rewrite Pos2Z.inj_mul.
  set (P := Zpos ma * Zpos mb).
  assert (HP : 2 ^ 104 <= P < 2 ^ 106).
  { change (2 ^ 104) with (2 ^ 52 * 2 ^ 52).
    change (2 ^ 106) with (2 ^ 53 * 2 ^ 53). subst P. nia. }
  assert (HP0 : 0 < P) by lia.
  set (d := Zdigits2 P).
  assert (Hd : d = 105 \/ d = 106).
  { subst d. destruct P as [|p|p] eqn:EP; try lia. simpl.
    pose proof (digits2_pos_bounds p) as [Hd1 Hd2].
    set (k := Zpos (digits2_pos p)) in *.
    assert (k <= 106).
    { destruct (Z_le_gt_dec k 106) as [|Hgt]; [assumption|].
      assert (2 ^ 106 <= 2 ^ (k - 1)) by (apply Z.pow_le_mono_r; lia).
      lia. }
    assert (105 <= k).
    { destruct (Z_le_gt_dec 105 k) as [|Hgt]; [assumption|].
      assert (2 ^ k <= 2 ^ 104) by (apply Z.pow_le_mono_r; lia).
      lia. }
    lia. }
  destruct (binary_round_aux_bracket P (ea + eb) loc_Exact (d - 53))
    as (m & e & E & Hm & Hcase & _); try lia.
  pose proof (Zdigits2_bounds P (d - 53) HP0 ltac:(subst d; lia)
                ltac:(lia)) as [Hb1 Hb2].
  exists (d - 53), m, e. split; [exact E|]. split; [lia|].
  split; [exact Hm|]. split.
  - apply Z.div_le_lower_bound; [apply Z.pow_pos_nonneg; lia|lia].
  - destruct Hcase as [[He Hc]|[He Hc]]; [left|right]; split; auto; lia.
Qed.

Lemma SFdiv_core_binary_normal m1 e1 m2 e2 :
  2 ^ 52 <= Zpos m1 < 2 ^ 53 -> 2 ^ 52 <= Zpos m2 < 2 ^ 53 ->
  -1074 <= e1 - e2 - 53 ->
  SFdiv_core_binary 53 1024 (Zpos m1) e1 (Zpos m2) e2
  = (Zpos m1 * 2 ^ 53 / Zpos m2, e1 - e2 - 53,
     new_location (Zpos m2) ((Zpos m1 * 2 ^ 53) mod Zpos m2)).
Proof.
  intros H1 H2 He. unfold SFdiv_core_binary.
  rewrite (Zdigits2_unique (Zpos m1) 53) by lia.
  rewrite (Zdigits2_unique (Zpos m2) 53) by lia.
  rewrite fexp_normal by lia.
  replace (Z.min (53 + e1 - (53 + e2) - 53) (e1 - e2))
    with (e1 - e2 - 53) by lia.
  replace (e1 - e2 - (e1 - e2 - 53)) with 53 by lia.
  cbv iota beta.
  rewrite Z.shiftl_mul_pow2 by lia.
  unfold Z.div, Z.modulo.
  destruct (Z.div_eucl (Zpos m1 * 2 ^ 53) (Zpos m2)) as [q r].
  reflexivity.
Qed.

(** The quotient of two positive normal numbers: the rounded quotient of
    the mantissas. *)
Lemma double_div_bracket m1 e1 m2 e2 :
  2 ^ 52 <= Zpos m1 < 2 ^ 53 -> 2 ^ 52 <= Zpos m2 < 2 ^ 53 ->
  -1074 <= e1 - e2 - 53 -> e1 - e2 - 52 < 971 ->
  let q := Zpos m1 * 2 ^ 53 / Zpos m2 in
  exists s m e,
    double_div (S754_finite false m1 e1) (S754_finite false m2 e2)
    = S754_finite false m e
    /\ (s = 0 \/ s = 1)
    /\ 2 ^ 52 <= Zpos m < 2 ^ 53
    /\ 2 ^ 52 <= q / 2 ^ s
    /\ (e = e1 - e2 - 53 + s
        /\ (Zpos m = q / 2 ^ s \/ Zpos m = q / 2 ^ s + 1)
        \/ e = e1 - e2 - 53 + s + 1 /\ 2 * Zpos m = q / 2 ^ s + 1).
Proof.
  intros H1 H2 Hlo Hhi q.
  unfold double_div, SFdiv.
  rewrite SFdiv_core_binary_normal by assumption. cbn [xorb]. fold q.
  assert (Hq : 2 ^ 52 <= q < 2 ^ 54).
  { subst q. split.
    - apply Z.div_le_lower_bound; [lia|].
      change (2 ^ 53) with (2 * 2 ^ 52). nia.
    - apply Z.div_lt_upper_bound; [lia|].
      change (2 ^ 54) with (2 ^ 52 * 4) at 1.
      change (2 ^ 53) with (2 ^ 52 * 2). nia. }
  set (d := Zdigits2 q).
  assert (Hd : d = 53 \/ d = 54).
  { subst d. destruct q as [|p|p] eqn:EP; try lia. simpl.
    pose proof (digits2_pos_bounds p) as [Hd1 Hd2].
    set (k := Zpos (digits2_pos p)) in *.
    assert (k <= 54).
    { destruct (Z_le_gt_dec k 54) as [|Hgt]; [assumption|].
      assert (2 ^ 54 <= 2 ^ (k - 1)) by (apply Z.pow_le_mono_r; lia).
      lia. }
    assert (53 <= k).
    { destruct (Z_le_gt_dec 53 k) as [|Hgt]; [assumption|].
      assert (2 ^ k <= 2 ^ 52) by (apply Z.pow_le_mono_r; lia).
      lia. }
    lia. }
  destruct (binary_round_aux_bracket q (e1 - e2 - 53)
              (new_location (Zpos m2) ((Zpos m1 * 2 ^ 53) mod Zpos m2))
              (d - 53))
    as (m & e & E & Hm & Hcase & _); try lia.
  pose proof (Zdigits2_bounds q (d - 53) ltac:(lia) ltac:(subst d; lia)
                ltac:(lia)) as [Hb1 Hb2].
  exists (d - 53), m, e. split; [exact E|]. split; [lia|].
  split; [exact Hm|]. split.
  - apply Z.div_le_lower_bound; [apply Z.pow_pos_nonneg; lia|lia].
  - destruct Hcase as [[He Hc]|[He Hc]]; [left|right]; split; auto; lia.
Qed.

Lemma floor_le n s x : 0 < s -> n * s < (x + 1) * s -> n <= x.
Proof. intros. nia. Qed.

Lemma mul_cancel_le s x y : 0 < s -> x * s <= y * s -> x <= y.
Proof. intros. nia. Qed.

Lemma round_up_bound a m' mt s v :
  0 < s -> 0 <= a -> a <= m' -> m' * s <= v -> mt <= m' + 1 ->
  a * mt * s <= (a + 1) * v.
Proof.
  intros Hs Ha Hm Hv Hmt.
  assert (a * mt * s <= a * (m' + 1) * s).
  { apply Z.mul_le_mono_nonneg_r; [lia|].
    apply Z.mul_le_mono_nonneg_l; lia. }
  assert (a * s <= m' * s) by (apply Z.mul_le_mono_nonneg_r; lia).
  nia.
Qed.

(** The arithmetic of the two roundings, on integers: [tf * C / W] is
    rounded to [m1 / E1], its quotient by [d] to [m2 / E2]; [k] is the
    integer quotient of [tf] by [10 * d]. *)
Section RoundingArithmetic.
Variables tf d k Ea Eb E1 G1 S1 S2 G2 E2 P m1 m1' mt1 q m2 m2' mt2 C W : Z.
Hypothesis Hk : 10 * d * k <= tf < 10 * d * (k + 1).
Hypothesis Hk0 : 0 <= k.
Hypothesis Hd : 1 <= d.
Hypothesis HC : 10 * C = W + 4.
Hypothesis HW : 0 < W.
Hypothesis HEa : 0 < Ea.
Hypothesis HEb : 0 < Eb.
Hypothesis HE1 : 0 < E1.
Hypothesis HG1 : 0 < G1.
Hypothesis HS1 : 0 < S1.
Hypothesis HS2 : 0 < S2.
Hypothesis HG2 : 0 < G2.
Hypothesis HE2 : 0 < E2.
Hypothesis HP : P = tf * Ea * C.
Hypothesis Hm1' : m1' * S1 <= P < (m1' + 1) * S1.
Hypothesis Hmt1 : m1' <= mt1 <= m1' + 1.
Hypothesis Hn1 : m1 * G1 = mt1 * E1.
Hypothesis Hx1 : Ea * W = S1 * G1.
Hypothesis Hq : q * (d * Eb) <= m1 * 2 ^ 53 < (q + 1) * (d * Eb).
Hypothesis Hm2' : m2' * S2 <= q < (m2' + 1) * S2.
Hypothesis Hmt2 : m2' <= mt2 <= m2' + 1.
Hypothesis Hx2 : G2 * S2 * Eb = E1 * 2 ^ 53.
Hypothesis Hn2 : m2 * G2 = mt2 * E2.

Lemma rounding_chain_lower : k * E2 <= m2.
Proof.
  assert (Htf : 0 <= tf) by (clear - Hk Hk0 Hd; nia).
  assert (Ha : k * d * G1 <= mt1).
  { assert (k * d * G1 <= m1'); [|lia].
    apply (floor_le _ S1); [assumption|].
    assert (k * d * G1 * S1 <= P); [|lia].
    replace (k * d * G1 * S1) with (k * d * (Ea * W)) by (rewrite Hx1; ring).
    rewrite HP.
    assert (10 * (k * d * (Ea * W)) <= 10 * (tf * Ea * C)); [|lia].
    replace (10 * (tf * Ea * C)) with (tf * (Ea * W) + 4 * (tf * Ea))
      by (replace (10 * (tf * Ea * C)) with (tf * Ea * (10 * C)) by ring;
          rewrite HC; ring).
    replace (10 * (k * d * (Ea * W))) with (10 * d * k * (Ea * W)) by ring.
    assert (0 <= Ea * W) by (apply Z.mul_nonneg_nonneg; lia).
    assert (0 <= tf * Ea) by (apply Z.mul_nonneg_nonneg; lia).
    assert (10 * d * k * (Ea * W) <= tf * (Ea * W))
      by (apply Z.mul_le_mono_nonneg_r; lia).
    lia. }
  assert (Hb : k * d * E1 <= m1).
  { apply (mul_cancel_le G1); [assumption|].
    rewrite Hn1.
    replace (k * d * E1 * G1) with (k * d * G1 * E1) by ring.
    apply Z.mul_le_mono_nonneg_r; lia. }
  assert (Hc : k * (G2 * S2) <= q).
  { apply (floor_le _ (d * Eb)); [apply Z.mul_pos_pos; lia|].
    replace (k * (G2 * S2) * (d * Eb)) with (k * d * (G2 * S2 * Eb)) by ring.
    rewrite Hx2.
    replace (k * d * (E1 * 2 ^ 53)) with (k * d * E1 * 2 ^ 53) by ring.
    assert (k * d * E1 * 2 ^ 53 <= m1 * 2 ^ 53)
      by (apply Z.mul_le_mono_nonneg_r; lia).
    lia. }
  assert (Hd' : k * G2 <= mt2).
  { assert (k * G2 <= m2'); [|lia].
    apply (floor_le _ S2); [assumption|].
    replace (k * G2 * S2) with (k * (G2 * S2)) by ring. lia. }
  apply (mul_cancel_le G2); [assumption|].
  rewrite Hn2.
  replace (k * E2 * G2) with (k * G2 * E2) by ring.
  apply Z.mul_le_mono_nonneg_r; lia.
Qed.

Hypothesis Hnorm1 : 2 ^ 52 <= m1'.
Hypothesis Hnorm2 : 2 ^ 52 <= m2'.
Hypothesis HWv : W = 2 ^ 56.
Hypothesis Hbig : 10 * d * (k + 1) < 2 ^ 40.

Lemma rounding_chain_upper : m2 < (k + 1) * E2.
Proof.
  destruct (Z_lt_ge_dec m2 ((k + 1) * E2)) as [|Hge]; [assumption|].
  exfalso.
  assert (Htf : 0 <= tf) by (clear - Hk Hk0 Hd; nia).
  set (a := 2 ^ 52) in *.
  assert (Ha0 : 0 < a) by (subst a; lia).
  assert (Hge2 : (k + 1) * G2 <= mt2).
  { apply (mul_cancel_le E2); [assumption|].
    replace (mt2 * E2) with (m2 * G2) by (rewrite Hn2; ring).
    replace ((k + 1) * G2 * E2) with ((k + 1) * E2 * G2) by ring.
    apply Z.mul_le_mono_nonneg_r; lia. }
  assert (U2 : a * mt2 * S2 <= (a + 1) * q)
    by (apply (round_up_bound a m2'); lia).
  assert (U1 : a * mt1 * S1 <= (a + 1) * P)
    by (apply (round_up_bound a m1'); lia).
  assert (A1 : a * (k + 1) * d * E1 <= (a + 1) * m1).
  { apply (mul_cancel_le (2 ^ 53)); [lia|].
    replace (a * (k + 1) * d * E1 * 2 ^ 53)
      with (a * ((k + 1) * G2) * S2 * (d * Eb))
      by (replace (a * (k + 1) * d * E1 * 2 ^ 53)
            with (a * (k + 1) * d * (E1 * 2 ^ 53)) by ring;
          rewrite <- Hx2; ring).
    assert (0 <= d * Eb) by (apply Z.mul_nonneg_nonneg; lia).
    assert (a * ((k + 1) * G2) * S2 * (d * Eb) <= (a + 1) * q * (d * Eb)).
    { apply Z.mul_le_mono_nonneg_r; [assumption|].
      assert (a * ((k + 1) * G2) * S2 <= a * mt2 * S2); [|lia].
      apply Z.mul_le_mono_nonneg_r; [lia|].
      apply Z.mul_le_mono_nonneg_l; [lia|assumption]. }
    assert ((a + 1) * (q * (d * Eb)) <= (a + 1) * (m1 * 2 ^ 53))
      by (apply Z.mul_le_mono_nonneg_l; lia).
    lia. }
  assert (A2 : a * (k + 1) * d * G1 <= (a + 1) * mt1).
  { apply (mul_cancel_le E1); [assumption|].
    replace ((a + 1) * mt1 * E1) with ((a + 1) * m1 * G1)
      by (replace ((a + 1) * mt1 * E1) with ((a + 1) * (mt1 * E1)) by ring;
          rewrite <- Hn1; ring).
    replace (a * (k + 1) * d * G1 * E1) with (a * (k + 1) * d * E1 * G1)
      by ring.
    apply Z.mul_le_mono_nonneg_r; lia. }
  assert (A3 : a * a * (k + 1) * d * W <= (a + 1) * (a + 1) * tf * C).
  { apply (mul_cancel_le Ea); [assumption|].
    replace (a * a * (k + 1) * d * W * Ea)
      with (a * (a * (k + 1) * d * G1) * S1)
      by (replace (a * a * (k + 1) * d * W * Ea)
            with (a * a * (k + 1) * d * (Ea * W)) by ring;
          rewrite Hx1; ring).
    replace ((a + 1) * (a + 1) * tf * C * Ea)
      with ((a + 1) * ((a + 1) * P)) by (rewrite HP; ring).
    assert (a * (a * (k + 1) * d * G1) * S1
            <= a * ((a + 1) * mt1) * S1).
    { apply Z.mul_le_mono_nonneg_r; [lia|].
      apply Z.mul_le_mono_nonneg_l; [lia|assumption]. }
    assert ((a + 1) * (a * mt1 * S1) <= (a + 1) * ((a + 1) * P))
      by (apply Z.mul_le_mono_nonneg_l; lia).
    lia. }
  assert (HC0 : 0 <= C) by lia.
  assert (A4 : a * a * W * (10 * d * (k + 1))
               <= (a + 1) * (a + 1) * (W + 4) * (10 * d * (k + 1) - 1)).
  { rewrite <- HC.
    replace (a * a * W * (10 * d * (k + 1)))
      with (10 * (a * a * (k + 1) * d * W)) by ring.
    replace ((a + 1) * (a + 1) * (10 * C) * (10 * d * (k + 1) - 1))
      with (10 * ((a + 1) * (a + 1) * C * (10 * d * (k + 1) - 1))) by ring.
    assert ((a + 1) * (a + 1) * C * tf
            <= (a + 1) * (a + 1) * C * (10 * d * (k + 1) - 1)).
    { apply Z.mul_le_mono_nonneg_l; [|lia].
      apply Z.mul_nonneg_nonneg; [|assumption].
      apply Z.mul_nonneg_nonneg; lia. }
    lia. }
  subst a. rewrite HWv in A4. lia.
Qed.

End RoundingArithmetic.

Ltac pow2 :=
  rewrite <- ?Z.pow_add_r by lia; try (f_equal; lia).

Lemma normal_exponent_bound z m e n :
  0 < z < 2 ^ n -> 0 <= n -> 0 <= - e ->
  2 ^ 52 <= m -> m = z * 2 ^ (- e) -> e <= n - 53.
Proof.
  intros Hz Hn He Hm Hv.
  destruct (Z_le_gt_dec e (n - 53)) as [|Hgt]; [assumption|exfalso].
  assert (Hp : 2 ^ (- e) <= 2 ^ (52 - n)) by (apply Z.pow_le_mono_r; lia).
  assert (Hq : 2 ^ n * 2 ^ (52 - n) = 2 ^ 52) by pow2.
  assert (0 < 2 ^ (- e)) by (apply Z.pow_pos_nonneg; lia).
  assert (z * 2 ^ (- e) < 2 ^ n * 2 ^ (52 - n)); [|lia].
  apply Z.le_lt_trans with (z * 2 ^ (52 - n)).
  - apply Z.mul_le_mono_nonneg_l; lia.
  - apply Z.mul_lt_mono_pos_r; [|lia]. apply Z.pow_pos_nonneg; lia.
Qed.

Lemma bracket_unnormalized m e base m' :
  (e = base /\ (Zpos m = m' \/ Zpos m = m' + 1)
   \/ e = base + 1 /\ 2 * Zpos m = m' + 1) ->
  0 <= e - base <= 1 /\ m' <= Zpos m * 2 ^ (e - base) <= m' + 1.
Proof.
  intros [[-> Hc]|[-> Hc]].
  - rewrite Z.sub_diag, Z.pow_0_r. lia.
  - replace (base + 1 - base) with 1 by lia. rewrite Z.pow_1_r. lia.
Qed.

(** [total_free * 0.1 / (num_pages - 1)] in double precision, converted to
    an integer, is the integer quotient of [total_free] by
    [10 * (num_pages - 1)]. *)
Lemma double_tenth_share tf d :
  0 <= tf < 2 ^ 31 -> 1 <= d < 2 ^ 31 ->
  double_to_Size
    (double_div (double_mul (double_of_Z tf) double_0_1) (double_of_Z d))
  = tf / (10 * d).
Proof.
  intros Htf Hd.
  destruct (double_of_Z_exact d) as (mb & eb & EB & HmB & _ & HebR & HvB);
    [lia|].
  rewrite EB.
  destruct (Z.eq_dec tf 0) as [->|Hnz].
  { reflexivity. }
  destruct (double_of_Z_exact tf) as (ma & ea & EA & HmA & _ & HeaR & HvA);
    [lia|].
  rewrite EA. unfold double_0_1.
  set (C := 7205759403792794%positive).
  pose proof (normal_exponent_bound tf (Zpos ma) ea 31 ltac:(lia) ltac:(lia)
                ltac:(lia) ltac:(lia) HvA) as Hea.
  pose proof (normal_exponent_bound d (Zpos mb) eb 31 ltac:(lia) ltac:(lia)
                ltac:(lia) ltac:(lia) HvB) as Heb.
  destruct (double_mul_bracket ma ea C (-56))
    as (s1 & m1 & e1 & E1 & Hs1 & Hm1 & Hn1 & Hc1);
    [lia | subst C; lia | lia | lia |].
  rewrite E1.
  apply bracket_unnormalized in Hc1 as [He1 Hc1].
  destruct (double_div_bracket m1 e1 mb eb)
    as (s2 & m2 & e2 & E2 & Hs2 & Hm2 & Hn2 & Hc2);
    [lia | lia | lia | lia |].
  rewrite E2.
  apply bracket_unnormalized in Hc2 as [He2 Hc2].
  set (k := tf / (10 * d)).
  assert (Hk : 10 * d * k <= tf < 10 * d * (k + 1)).
  { subst k. 
    pose proof (Z.mul_div_le tf (10 * d) ltac:(lia)).
    pose proof (Z.mul_succ_div_gt tf (10 * d) ltac:(lia)). lia. }
  assert (Hk0 : 0 <= k) by (subst k; apply Z.div_pos; lia).
  set (P := Zpos ma * Zpos C) in *.
  set (q := Zpos m1 * 2 ^ 53 / Zpos mb) in *.
  assert (HP1 : P / 2 ^ s1 * 2 ^ s1 <= P < (P / 2 ^ s1 + 1) * 2 ^ s1).
  { assert (0 < 2 ^ s1) by (apply Z.pow_pos_nonneg; lia).
    pose proof (Z.mul_div_le P (2 ^ s1) ltac:(lia)).
    pose proof (Z.mul_succ_div_gt P (2 ^ s1) ltac:(lia)). lia. }
  assert (Hq1 : q / 2 ^ s2 * 2 ^ s2 <= q < (q / 2 ^ s2 + 1) * 2 ^ s2).
  { assert (0 < 2 ^ s2) by (apply Z.pow_pos_nonneg; lia).
    pose proof (Z.mul_div_le q (2 ^ s2) ltac:(lia)).
    pose proof (Z.mul_succ_div_gt q (2 ^ s2) ltac:(lia)). lia. }
  assert (Hq2 : q * (d * 2 ^ (- eb)) <= Zpos m1 * 2 ^ 53
                < (q + 1) * (d * 2 ^ (- eb))).
  { rewrite <- HvB. subst q.
    pose proof (Z.mul_div_le (Zpos m1 * 2 ^ 53) (Zpos mb) ltac:(lia)).
    pose proof (Z.mul_succ_div_gt (Zpos m1 * 2 ^ 53) (Zpos mb) ltac:(lia)).
    lia. }
  assert (HPv : P = tf * 2 ^ (- ea) * Zpos C)
    by (subst P; rewrite HvA; ring).
  assert (Hlow : k * 2 ^ (- e2) <= Zpos m2).
  { apply (rounding_chain_lower tf d k (2 ^ (- ea)) (2 ^ (- eb)) (2 ^ (- e1))
             (2 ^ (- (ea + -56 + s1))) (2 ^ s1) (2 ^ s2)
             (2 ^ (- (e1 - eb - 53 + s2))) (2 ^ (- e2)) P (Zpos m1)
             (P / 2 ^ s1) (Zpos m1 * 2 ^ (e1 - (ea + -56 + s1))) q
             (Zpos m2) (q / 2 ^ s2)
             (Zpos m2 * 2 ^ (e2 - (e1 - eb - 53 + s2))) (Zpos C) (2 ^ 56));
      try assumption; try (apply Z.pow_pos_nonneg; lia);
      try (clear - Hd Hk Hk0 He1 He2 Hc1 Hc2 Hn1 Hn2 Htf; lia).
    - rewrite <- !Z.mul_assoc. f_equal. pow2.
    - pow2.
    - pow2.
    - rewrite <- !Z.mul_assoc. f_equal. pow2. }
  assert (Hup : Zpos m2 < (k + 1) * 2 ^ (- e2)).
  { apply (rounding_chain_upper tf d k (2 ^ (- ea)) (2 ^ (- eb)) (2 ^ (- e1))
             (2 ^ (- (ea + -56 + s1))) (2 ^ s1) (2 ^ s2)
             (2 ^ (- (e1 - eb - 53 + s2))) (2 ^ (- e2)) P (Zpos m1)
             (P / 2 ^ s1) (Zpos m1 * 2 ^ (e1 - (ea + -56 + s1))) q
             (Zpos m2) (q / 2 ^ s2)
             (Zpos m2 * 2 ^ (e2 - (e1 - eb - 53 + s2))) (Zpos C) (2 ^ 56));
      try assumption; try (apply Z.pow_pos_nonneg; lia);
      try (clear - Hd Hk Hk0 He1 He2 Hc1 Hc2 Hn1 Hn2 Htf; lia).
    - rewrite <- !Z.mul_assoc. f_equal. pow2.
    - pow2.
    - pow2.
    - rewrite <- !Z.mul_assoc. f_equal. pow2. }
  unfold double_to_Size. cbn [cond_Zopp].
  destruct (Z.geb_spec e2 0) as [Hge|Hlt]; [lia|].
  assert (Hpe : 0 < 2 ^ (- e2)) by (apply Z.pow_pos_nonneg; lia).
  rewrite Z.quot_div_nonneg by lia.
  assert (Hdiv : Zpos m2 / 2 ^ (- e2) = k).
  { symmetry. apply (Z.div_unique _ _ _ (Zpos m2 - 2 ^ (- e2) * k)); lia. }
  rewrite Hdiv. apply u64_small.
  assert (k <= tf) by (clear - Hk Hk0 Hd; nia).
  lia.
Qed.

Section TidPageProperties.

Context `{ZSExternal}.

(** ** Page geometry *)

Lemma MAXALIGN_nonneg x : 0 < MAXIMUM_ALIGNOF -> 0 <= x -> 0 <= MAXALIGN x.
Proof.
  intros Ha Hx. unfold MAXALIGN.
  apply Z.mul_nonneg_nonneg; [|lia]. apply Z.div_pos; lia.
Qed.

Lemma geometry_ok_facts :
  geometry_ok = true ->
  0 < MAXIMUM_ALIGNOF /\ 0 <= SizeOfPageHeaderData
  /\ 0 <= SizeOfZSBtreePageOpaque /\ 0 < SizeOfZSTidArrayItem < 2 ^ 16
  /\ MAXALIGN SizeOfPageHeaderData + MAXALIGN SizeOfZSBtreePageOpaque
     + MAXALIGN SizeOfZSTidArrayItem <= BLCKSZ
  /\ BLCKSZ < 2 ^ 31.
Proof.
  unfold geometry_ok.
  rewrite !andb_true_iff, !Z.ltb_lt, !Z.leb_le. tauto.
Qed.

Lemma PageGetExactFreeSpace_bounds n :
  geometry_ok = true -> 0 <= n ->
  0 <= PageGetExactFreeSpace n < 2 ^ 31.
Proof.
  intros Hg Hn. apply geometry_ok_facts in Hg as (Ha & Hh & Ho & Hs & Hb & Hc).
  pose proof (MAXALIGN_nonneg _ Ha Ho).
  unfold PageGetExactFreeSpace, pd_upper, pd_lower.
  destruct (Z.ltb_spec (BLCKSZ - MAXALIGN SizeOfZSBtreePageOpaque
                        - (SizeOfPageHeaderData + n * SizeOfZSTidArrayItem)) 0);
    nia.
Qed.

(** ** The recompressor stores the items it is given, in order *)

Lemma newpage_items cxt nexttid flags :
  cxt_items (zsbt_tid_recompress_newpage cxt nexttid flags) = cxt_items cxt.
Proof.
  unfold cxt_items, zsbt_tid_recompress_newpage, currpage_items. simpl.
  destruct (currpage cxt) as [p|]; simpl.
  - rewrite flat_map_app. simpl. now rewrite !app_nil_r.
  - reflexivity.
Qed.

Lemma add_to_page_items cxt item :
  currpage cxt <> None ->
  cxt_items (zsbt_tid_recompress_add_to_page cxt item)
  = cxt_items cxt ++ [item]
  /\ currpage (zsbt_tid_recompress_add_to_page cxt item) <> None.
Proof.
  intros Hc. unfold zsbt_tid_recompress_add_to_page.
  set (c1 := if _ : bool then _ else cxt).
  assert (Hc1 : cxt_items c1 = cxt_items cxt /\ currpage c1 <> None).
  { subst c1. destruct (_ || _).
    - split; [apply newpage_items | easy].
    - easy. }
  destruct Hc1 as [Hi Hn]. rewrite <- Hi.
  unfold cxt_items, currpage_items. simpl.
  destruct (currpage c1) as [p|]; [|easy]. simpl.
  split; [now rewrite app_assoc | easy].
Qed.

Lemma fold_add_to_page_items items cxt :
  currpage cxt <> None ->
  cxt_items (fold_left zsbt_tid_recompress_add_to_page items cxt)
  = cxt_items cxt ++ items.
Proof.
  revert cxt. induction items as [|it items IH]; intros cxt Hc; simpl.
  - now rewrite app_nil_r.
  - destruct (add_to_page_items cxt it Hc) as [Hi Hn].
    rewrite (IH _ Hn), Hi, <- app_assoc. reflexivity.
Qed.

Lemma recompress_pages_items oldpage items :
  flat_map tiditems (recompress_pages oldpage items) = items.
Proof.
  unfold recompress_pages.
  set (c2 := zsbt_tid_recompress_newpage _ _ _).
  assert (Hc2 : currpage c2 <> None) by easy.
  pose proof (fold_add_to_page_items items c2 Hc2) as Hf.
  set (c3 := fold_left _ _ _) in *.
  rewrite flat_map_app. unfold cxt_items, currpage_items in Hf.
  replace (flat_map tiditems (opt_list (currpage c3)))
    with (match currpage c3 with Some p => tiditems p | None => [] end).
  2:{ destruct (currpage c3); simpl; [now rewrite app_nil_r | easy]. }
  rewrite Hf. reflexivity.
Qed.

(** ** Replacing an item *)

Lemma take_drop_lookup {A} (l : list A) (i : nat) x :
  l !! i = Some x -> l = take i l ++ x :: drop (S i) l.
Proof.
  intros Hi. rewrite <- (take_drop_middle l i x Hi) at 1. reflexivity.
Qed.

Lemma replace_item_page_spec (p : ZSBtreePage) (t : zstid)
    (replacementitem : option ZSTidArrayItem) (i : nat)
    (old : ZSTidArrayItem) lo hi :
  geometry_ok = true ->
  0 <= lo -> hi <= MaxPlusOneZSTid ->
  items_ok lo hi (tiditems p) = true ->
  tiditems p !! i = Some old -> covers old t ->
  exists w,
    replace_item_page p t replacementitem = Done w
    /\ written_items w
       = take i (tiditems p) ++ slices old t replacementitem
         ++ drop (S i) (tiditems p).
Proof.
  intros Hg Hlo Hhi Hok Hi Hcov.
  pose proof (zsbt_binsrch_tidpage_covers _ _ _ _ _ _ Hok Hi Hcov) as Hbin.
  destruct (items_ok_lookup _ _ _ _ _ Hok Hi) as (Ht1 & Hn & Ht2).
  destruct Hcov as [Hc1 Hc2]. unfold MaxPlusOneZSTid in Hhi.
  unfold replace_item_page, PageGetNumZSTidItems. rewrite Hbin.
  rewrite (arr_item_lookup _ _ _ Hi).
  destruct (Z.ltb_spec (Z.of_nat i) 0); [lia|].
  rewrite (u64_small (t_tid old + t_nelements old)) by lia.
  destruct (Z.ltb_spec t (t_tid old)); [lia|].
  destruct (Z.geb_spec t (t_tid old + t_nelements old)); [lia|].
  simpl orb. cbv iota.
  rewrite (u64_small (t - t_tid old)) by lia.
  rewrite (s32_small (t - t_tid old)) by lia.
  rewrite (s32_small (t_nelements old)) by lia.
  rewrite (s32_small (t - t_tid old + 1)) by lia.
  rewrite (s32_small (t_nelements old - (t - t_tid old + 1))) by lia.
  rewrite (u64_small (t + 1)) by lia.
  rewrite Nat2Z.id.
  replace (Z.to_nat (Z.of_nat i + 1)) with (S i) by lia.
  assert (Hpieces :
    opt_list (if t - t_tid old >? 0
              then Some (zsbt_tid_create_item (t_tid old) (t_undo_ptr old)
                           (t - t_tid old))
              else None)
    ++ opt_list replacementitem
    ++ opt_list (if t - t_tid old + 1 <? t_nelements old
                 then Some (zsbt_tid_create_item (t + 1) (t_undo_ptr old)
                              (t_nelements old - (t - t_tid old + 1)))
                 else None)
    = slices old t replacementitem).
  { unfold slices, slice_before, slice_after, zsbt_tid_create_item.
    replace (t_nelements old - (t - t_tid old + 1))
      with (t_tid old + t_nelements old - (t + 1)) by lia.
    destruct (Z.gtb_spec (t - t_tid old) 0);
      destruct (Z.ltb_spec (t_tid old) t); try lia;
      destruct (Z.ltb_spec (t - t_tid old + 1) (t_nelements old));
      destruct (Z.ltb_spec (t + 1) (t_tid old + t_nelements old)); try lia;
      simpl; rewrite ?u32_small by lia; reflexivity. }
  rewrite Hpieces.
  set (nrep := -1 + _ + _ + _).
  set (newitems := take i (tiditems p) ++ slices old t replacementitem
                   ++ drop (S i) (tiditems p)).
  assert (Hsplit :
    exists w, match newitems with
              | [] => Done Unlink
              | _ :: _ => Done (Recompress newitems)
              end = Done w /\ written_items w = newitems).
  { destruct newitems eqn:E; eexists; split; reflexivity. }
  destruct (u64 (nrep * SizeOfZSTidArrayItem)
            <=? PageGetExactFreeSpace (Z.of_nat (length (tiditems p)))) eqn:Efit;
    [|exact Hsplit].
  destruct (Z.eqb_spec nrep (-1)) as [Hm1|Hm1].
  - (* the page cannot hold 2^64 - sizeof(item) bytes *)
    exfalso. rewrite Hm1 in Efit.
    pose proof (PageGetExactFreeSpace_bounds
                  (Z.of_nat (length (tiditems p))) Hg ltac:(lia)).
    apply geometry_ok_facts in Hg as (_ & _ & _ & Hs & _).
    unfold u64 in Efit.
    replace (-1 * SizeOfZSTidArrayItem)
      with (2 ^ 64 - SizeOfZSTidArrayItem + (-1) * 2 ^ 64) in Efit by lia.
    rewrite Z.mod_add, Z.mod_small in Efit by lia. lia.
  - eexists; split; reflexivity.
Qed.

Lemma page_ok_facts p :
  page_ok p = true ->
  MinZSTid <= zs_lokey p /\ zs_lokey p <= zs_hikey p
  /\ zs_hikey p <= MaxPlusOneZSTid /\ zs_level p = 0
  /\ items_ok (zs_lokey p) (zs_hikey p) (tiditems p) = true.
Proof.
  unfold page_ok.
  rewrite !andb_true_iff, !Z.leb_le, Z.eqb_eq. tauto.
Qed.

(** ** The recompressor builds a chain of well-formed pages *)

Lemma items_ok_hi_mono lo hi hi' l :
  hi <= hi' -> items_ok lo hi l = true -> items_ok lo hi' l = true.
Proof.
  revert lo. induction l as [|a l IH]; intros lo Hh Hok; [easy|].
  apply items_ok_cons in Hok as (? & ? & ? & Hok).
  apply items_ok_cons. repeat split; try lia. now apply IH.
Qed.

Lemma items_ok_snoc lo e e' l it :
  items_ok lo e l = true -> lo <= e -> e <= t_tid it ->
  1 <= t_nelements it < 2 ^ 31 -> t_tid it + t_nelements it <= e' ->
  items_ok lo e' (l ++ [it]) = true.
Proof.
  revert lo. induction l as [|a l IH]; intros lo Hok Hle Het Hn He'.
  - cbn [app]. apply items_ok_cons. repeat split; try lia.
  - apply items_ok_cons in Hok as (? & ? & ? & Hok).
    cbn [app]. apply items_ok_cons. repeat split; try lia.
    apply IH; try assumption; lia.
Qed.

Lemma chain_ok_app lo mid hi s r :
  chain_ok lo mid s -> chain_ok mid hi r -> mid <= hi ->
  chain_ok lo hi (s ++ r).
Proof.
  revert lo. induction s as [|p s IH]; intros lo Hs Hr Hmh; simpl in *.
  - now subst.
  - destruct Hs as (? & ? & ? & ? & ? & Hs).
    repeat split; try assumption; try lia. now apply IH.
Qed.

Lemma chain_ok_le lo hi pages : chain_ok lo hi pages -> lo <= hi.
Proof.
  revert lo. induction pages as [|p pages IH]; intros lo Hc; simpl in Hc.
  - lia.
  - destruct Hc as (? & ? & ? & ? & ? & Hc). lia.
Qed.

Lemma add_to_page_inv lo hi e cxt it :
  cxt_inv lo hi e cxt -> e <= t_tid it ->
  1 <= t_nelements it < 2 ^ 31 -> t_tid it + t_nelements it <= hi ->
  cxt_inv lo hi (t_tid it + t_nelements it)
    (zsbt_tid_recompress_add_to_page cxt it).
Proof.
  intros (curr & Hc & Hh & Hch & Hlvl & Hhk & Hok & Hle & Heh) Het Hn Hend.
  unfold zsbt_tid_recompress_add_to_page.
  destruct (_ || _).
  - (* a new page is opened at [t_tid it] *)
    unfold zsbt_tid_recompress_newpage. rewrite Hc. simpl.
    eexists. split; [reflexivity|]. simpl.
    repeat split; try assumption; try lia.
    apply chain_ok_app with (mid := zs_lokey curr); [assumption| |lia].
    simpl. repeat split; try assumption; try lia.
    now apply items_ok_hi_mono with (hi := e).
  - rewrite Hc. simpl.
    eexists. split; [reflexivity|]. simpl.
    repeat split; try assumption; try lia.
    apply items_ok_snoc with (e := e); auto; lia.
Qed.

Lemma fold_add_to_page_inv lo hi items : forall e cxt,
  cxt_inv lo hi e cxt -> items_ok e hi items = true ->
  exists e',
    cxt_inv lo hi e' (fold_left zsbt_tid_recompress_add_to_page items cxt).
Proof.
  induction items as [|it items IH]; intros e cxt Hinv Hok; simpl.
  - now exists e.
  - apply items_ok_cons in Hok as (? & ? & ? & Hok).
    eapply IH; [|exact Hok]. apply add_to_page_inv with (e := e); auto.
Qed.

Lemma recompress_pages_chain oldpage items :
  zs_lokey oldpage <= zs_hikey oldpage ->
  items_ok (zs_lokey oldpage) (zs_hikey oldpage) items = true ->
  chain_ok (zs_lokey oldpage) (zs_hikey oldpage)
    (recompress_pages oldpage items).
Proof.
  intros Hle Hok. unfold recompress_pages.
  set (c2 := zsbt_tid_recompress_newpage _ _ _).
  assert (Hinv : cxt_inv (zs_lokey oldpage) (zs_hikey oldpage)
                   (zs_lokey oldpage) c2).
  { subst c2. unfold cxt_inv, zsbt_tid_recompress_newpage. simpl.
    eexists. split; [reflexivity|]. simpl. repeat split; try lia. }
  destruct (fold_add_to_page_inv _ _ _ _ _ Hinv Hok)
    as (e' & curr & Hc & Hh & Hch & Hlvl & Hhk & Hoki & Hl & Heh).
  rewrite Hc. simpl.
  apply chain_ok_app with (mid := zs_lokey curr); [assumption| |lia].
  simpl. repeat split; try assumption; try lia.
  rewrite Hhk. now apply items_ok_hi_mono with (hi := e').
Qed.

Lemma recompress_pages_nonempty oldpage items :
  recompress_pages oldpage items <> [].
Proof.
  unfold recompress_pages.
  set (c2 := zsbt_tid_recompress_newpage _ _ _).
  assert (Hc2 : currpage c2 <> None) by easy.
  assert (Hc3 : forall l c, currpage c <> None ->
            currpage (fold_left zsbt_tid_recompress_add_to_page l c) <> None).
  { induction l as [|a l IH]; intros c Hc; simpl; [easy|].
    apply IH. now apply add_to_page_items. }
  specialize (Hc3 items c2 Hc2).
  destruct (currpage (fold_left _ _ _)); [|easy].
  intros Heq. destruct (stack_pages _); simpl in Heq; discriminate.
Qed.

(** ** Leaves of the relation *)

Lemma get_leaf_lookup blocks (n : nat) p :
  get_leaf blocks (Z.of_nat n) = Some p <-> blocks !! n = Some (LeafBlock p).
Proof.
  unfold get_leaf. destruct (Z.ltb_spec (Z.of_nat n) 0); [lia|].
  rewrite Nat2Z.id. destruct (blocks !! n) as [[q|]|]; split; congruence.
Qed.

Lemma get_leaf_Some blocks b p :
  get_leaf blocks b = Some p ->
  0 <= b /\ blocks !! Z.to_nat b = Some (LeafBlock p).
Proof.
  unfold get_leaf. destruct (Z.ltb_spec b 0); [discriminate|].
  destruct (blocks !! Z.to_nat b) as [[q|]|]; intros Heq;
    inversion Heq; subst; split; [lia | reflexivity].
Qed.

Lemma ranges_apart_sym p q : ranges_apart p q = ranges_apart q p.
Proof. unfold ranges_apart. apply orb_comm. Qed.

Lemma covers_not_apart p q t :
  page_covers p t = true -> page_covers q t = true ->
  ranges_apart p q = false.
Proof.
  unfold page_covers, ranges_apart.
  rewrite !andb_true_iff, orb_false_iff, !Z.leb_le, !Z.ltb_lt, !Z.leb_gt.
  lia.
Qed.

Lemma blocks_apart_lookup p blocks (n : nat) q :
  blocks_apart p blocks = true -> blocks !! n = Some (LeafBlock q) ->
  ranges_apart p q = true.
Proof.
  revert n. induction blocks as [|b blocks IH]; intros n Ha Hn; [easy|].
  destruct n as [|n]; simpl in Hn.
  - inversion Hn; subst. simpl in Ha. now apply andb_prop in Ha as [? _].
  - apply (IH n); [|exact Hn]. destruct b; simpl in Ha; [|exact Ha].
    now apply andb_prop in Ha as [_ ?].
Qed.

Lemma blocks_ok_leaves_ok blocks :
  blocks_ok blocks = true -> leaves_ok blocks.
Proof.
  induction blocks as [|b blocks IH]; intros Hok.
  - split; intros; discriminate.
  - assert (Hrest : blocks_ok blocks = true).
    { destruct b; simpl in Hok; [|exact Hok].
      now apply andb_prop in Hok as [_ ?]. }
    destruct (IH Hrest) as [IH1 IH2]. split.
    + intros [|n] p Hn; simpl in Hn.
      * inversion Hn; subst. simpl in Hok.
        now apply andb_prop in Hok as [Hok _]; apply andb_prop in Hok as [? _].
      * eauto.
    + intros [|n] [|m] p q Hne Hn Hm; simpl in Hn, Hm; try lia.
      * inversion Hn; subst. simpl in Hok.
        apply andb_prop in Hok as [Hok _]; apply andb_prop in Hok as [_ Hok].
        eapply blocks_apart_lookup; eauto.
      * inversion Hm; subst. simpl in Hok.
        apply andb_prop in Hok as [Hok _]; apply andb_prop in Hok as [_ Hok].
        rewrite ranges_apart_sym. eapply blocks_apart_lookup; eauto.
      * apply (IH2 n m); auto.
Qed.

Lemma leaves_ok_blocks_apart p blocks :
  (forall (n : nat) q, blocks !! n = Some (LeafBlock q) ->
     ranges_apart p q = true) ->
  blocks_apart p blocks = true.
Proof.
  induction blocks as [|b blocks IH]; intros Hq; [reflexivity|].
  simpl. destruct b as [q|].
  - rewrite (Hq 0%nat q eq_refl). simpl. apply IH.
    intros n q' Hn. apply (Hq (S n)). exact Hn.
  - apply IH. intros n q' Hn. apply (Hq (S n)). exact Hn.
Qed.

Lemma leaves_ok_blocks_ok blocks :
  leaves_ok blocks -> blocks_ok blocks = true.
Proof.
  induction blocks as [|b blocks IH]; intros [H1 H2]; [reflexivity|].
  assert (Hrest : blocks_ok blocks = true).
  { apply IH. split.
    - intros n p Hn. apply (H1 (S n)). exact Hn.
    - intros n m p q Hne Hn Hm. apply (H2 (S n) (S m)); auto. }
  simpl. destruct b as [p|]; [|exact Hrest].
  rewrite (H1 0%nat p eq_refl), Hrest. simpl. rewrite andb_true_r.
  apply leaves_ok_blocks_apart. intros n q Hn.
  apply (H2 0%nat (S n)); auto.
Qed.

(** ** Descent *)

Lemma descend_from_Some blocks : forall base t b,
  descend_from blocks base t = Some b ->
  exists (n : nat) p,
    b = base + Z.of_nat n /\ blocks !! n = Some (LeafBlock p)
    /\ page_covers p t = true.
Proof.
  induction blocks as [|x blocks IH]; intros base t b Hd; [discriminate|].
  simpl in Hd. destruct x as [p|].
  - destruct (page_covers p t) eqn:Hc.
    + inversion Hd; subst. exists 0%nat, p. simpl. repeat split; auto; lia.
    + destruct (IH _ _ _ Hd) as (n & q & -> & Hn & Hq).
      exists (S n), q. repeat split; auto; lia.
  - destruct (IH _ _ _ Hd) as (n & q & -> & Hn & Hq).
    exists (S n), q. repeat split; auto; lia.
Qed.

Lemma descend_from_None blocks : forall base t,
  descend_from blocks base t = None ->
  forall (n : nat) p, blocks !! n = Some (LeafBlock p) ->
    page_covers p t = false.
Proof.
  induction blocks as [|x blocks IH]; intros base t Hd n p Hn; [easy|].
  simpl in Hd. destruct x as [q|].
  - destruct (page_covers q t) eqn:Hc; [discriminate|].
    destruct n as [|n]; simpl in Hn; [now inversion Hn; subst|eauto].
  - destruct n as [|n]; simpl in Hn; [discriminate|eauto].
Qed.

(** With leaves that share no key, the descent reaches the leaf that
    covers the TID, whichever block it is in. *)
Lemma descend_from_unique blocks : forall base t (n : nat) p,
  (forall (m : nat) q, m <> n -> blocks !! m = Some (LeafBlock q) ->
     page_covers q t = false) ->
  blocks !! n = Some (LeafBlock p) -> page_covers p t = true ->
  descend_from blocks base t = Some (base + Z.of_nat n).
Proof.
  induction blocks as [|x blocks IH]; intros base t n p Hu Hn Hc; [easy|].
  destruct n as [|n]; simpl in Hn.
  - inversion Hn; subst. simpl. rewrite Hc. f_equal. lia.
  - assert (Hrec : descend_from blocks (base + 1) t
                   = Some (base + 1 + Z.of_nat n)).
    { apply (IH _ _ n p); auto.
      intros m q Hne Hm. apply (Hu (S m)); auto. }
    simpl. destruct x as [q|].
    + rewrite (Hu 0%nat q); auto. rewrite Hrec. f_equal. lia.
    + rewrite Hrec. f_equal. lia.
Qed.

Lemma leaves_ok_descend rel (n : nat) p t :
  leaves_ok (rd_blocks rel) ->
  rd_blocks rel !! n = Some (LeafBlock p) -> page_covers p t = true ->
  zsbt_descend rel t = Some (Z.of_nat n).
Proof.
  intros [_ Hap] Hn Hc. unfold zsbt_descend.
  rewrite (descend_from_unique _ 0 t n p); auto.
  intros m q Hne Hm. destruct (page_covers q t) eqn:Hq; [|reflexivity].
  pose proof (covers_not_apart _ _ _ Hc Hq) as Hna.
  assert (Hyes : ranges_apart p q = true) by (apply (Hap n m); auto).
  congruence.
Qed.

(** ** Fetching an item *)

Lemma fetch_covers_iff lo hi l (i : nat) it t :
  items_ok lo hi l = true -> 0 <= lo -> hi <= MaxPlusOneZSTid ->
  l !! i = Some it ->
  fetch_covers t it = true <-> covers it t.
Proof.
  intros Hok Hlo Hhi Hi.
  destruct (items_ok_lookup _ _ _ _ _ Hok Hi) as (? & ? & ?).
  unfold fetch_covers, covers, MaxPlusOneZSTid in *.
  rewrite u64_small by lia.
  rewrite andb_true_iff, Z.leb_le, Z.gtb_ltb, Z.ltb_lt. tauto.
Qed.

Lemma find_fetch_covers lo hi l : forall (i : nat) it t,
  items_ok lo hi l = true -> 0 <= lo -> hi <= MaxPlusOneZSTid ->
  l !! i = Some it -> covers it t ->
  find (fetch_covers t) l = Some it.
Proof.
  intros i it t Hok Hlo Hhi Hi Hcov.
  assert (Hall : forall (j : nat) a, l !! j = Some a ->
            fetch_covers t a = true <-> covers a t).
  { intros j a Hj. eapply fetch_covers_iff; eauto. }
  assert (Hord : forall (j : nat) a, (j < i)%nat -> l !! j = Some a ->
            ~ covers a t).
  { intros j a Hlt Hj [_ Hc].
    pose proof (items_ok_ordered _ _ _ _ _ _ _ Hok Hj Hi Hlt).
    destruct Hcov. lia. }
  clear Hok. revert i Hi Hord Hall.
  induction l as [|a l IH]; intros i Hi Hord Hall; [easy|].
  simpl. destruct i as [|i]; simpl in Hi.
  - inversion Hi; subst.
    destruct (fetch_covers t it) eqn:E; [reflexivity|].
    apply (Hall 0%nat it eq_refl) in Hcov. congruence.
  - destruct (fetch_covers t a) eqn:E.
    + apply (Hall 0%nat a eq_refl) in E.
      exfalso. apply (Hord 0%nat a); [lia | reflexivity | exact E].
    + apply (IH i Hi).
      * intros j b Hlt Hj. apply (Hord (S j)); [lia | exact Hj].
      * intros j b Hj. apply (Hall (S j)). exact Hj.
Qed.

Lemma find_fetch_covers_None l t :
  (forall it, In it l -> fetch_covers t it = false) ->
  find (fetch_covers t) l = None.
Proof.
  induction l as [|a l IH]; intros Hn; [reflexivity|].
  simpl. rewrite (Hn a) by (now left). apply IH.
  intros it Hin. apply Hn. now right.
Qed.

Lemma page_ok_covers p (i : nat) it t :
  page_ok p = true -> tiditems p !! i = Some it -> covers it t ->
  page_covers p t = true.
Proof.
  intros Hp Hi [Hc1 Hc2].
  apply page_ok_facts in Hp as (Hlo & Hlh & Hhi & Hlvl & Hok).
  destruct (items_ok_lookup _ _ _ _ _ Hok Hi) as (? & ? & ?).
  unfold page_covers.
  rewrite !andb_true_iff, Z.eqb_eq, Z.leb_le, Z.ltb_lt. lia.
Qed.

(** In a well-formed tree [zsbt_tid_fetch] finds the item that covers the
    TID. *)
Lemma zsbt_tid_fetch_item rel (n : nat) p (i : nat) it t :
  leaves_ok (rd_blocks rel) ->
  rd_blocks rel !! n = Some (LeafBlock p) ->
  tiditems p !! i = Some it -> covers it t ->
  zsbt_tid_fetch rel t = Some (Z.of_nat n, t_undo_ptr it, item_isdead it).
Proof.
  intros Hok Hn Hi Hcov. pose proof Hok as [Hpok _].
  pose proof (Hpok _ _ Hn) as Hp.
  pose proof (page_ok_covers _ _ _ _ Hp Hi Hcov) as Hpc.
  unfold zsbt_tid_fetch.
  rewrite (leaves_ok_descend rel n p t Hok Hn Hpc).
  apply get_leaf_lookup in Hn. rewrite Hn.
  apply page_ok_facts in Hp as (Hlo & Hlh & Hhi & Hlvl & Hiok).
  rewrite (find_fetch_covers _ _ _ i it t Hiok); auto.
  unfold MinZSTid in Hlo. lia.
Qed.

(** When no item of the tree covers the TID, [zsbt_tid_fetch] finds
    nothing. *)
Lemma zsbt_tid_fetch_absent rel t :
  leaves_ok (rd_blocks rel) ->
  (forall (n : nat) p it, rd_blocks rel !! n = Some (LeafBlock p) ->
     In it (tiditems p) -> ~ covers it t) ->
  zsbt_tid_fetch rel t = None.
Proof.
  intros [Hpok _] Habs. unfold zsbt_tid_fetch.
  destruct (zsbt_descend rel t) as [b|] eqn:Hd; [|reflexivity].
  apply descend_from_Some in Hd as (n & p & -> & Hn & Hc).
  rewrite Z.add_0_l, (proj2 (get_leaf_lookup _ _ _) Hn).
  rewrite find_fetch_covers_None; [reflexivity|].
  intros it Hin.
  destruct (fetch_covers t it) eqn:E; [|reflexivity].
  exfalso. apply (Habs n p it Hn Hin).
  apply list_elem_of_In, list_elem_of_lookup in Hin as [i Hi].
  pose proof (Hpok _ _ Hn) as Hp.
  apply page_ok_facts in Hp as (Hlo & Hlh & Hhi & Hlvl & Hiok).
  eapply fetch_covers_iff; eauto. unfold MinZSTid in Hlo. lia.
Qed.

(** ** Writing the page images *)

Lemma chain_ok_lookup pages : forall lo hi (k : nat) c,
  chain_ok lo hi pages -> pages !! k = Some c ->
  lo <= zs_lokey c /\ zs_lokey c <= zs_hikey c /\ zs_hikey c <= hi
  /\ zs_level c = 0
  /\ items_ok (zs_lokey c) (zs_hikey c) (tiditems c) = true.
Proof.
  induction pages as [|p pages IH]; intros lo hi k c Hc Hk; [easy|].
  simpl in Hc. destruct Hc as (Hl & Hlv & Hh & Hok & Hle & Hc).
  destruct k as [|k]; simpl in Hk.
  - inversion Hk; subst. repeat split; auto; lia.
  - destruct (IH _ _ _ _ Hc Hk) as (? & ? & ? & ? & ?).
    repeat split; auto; lia.
Qed.

Lemma chain_ok_ordered pages : forall lo hi (k k' : nat) c c',
  chain_ok lo hi pages -> pages !! k = Some c -> pages !! k' = Some c' ->
  (k < k')%nat -> zs_hikey c <= zs_lokey c'.
Proof.
  induction pages as [|p pages IH]; intros lo hi k k' c c' Hc Hk Hk' Hlt;
    [easy|].
  simpl in Hc. destruct Hc as (Hl & Hlv & Hh & Hok & Hle & Hc).
  destruct k' as [|k']; [lia|]. simpl in Hk'.
  destruct k as [|k]; simpl in Hk.
  - inversion Hk; subst.
    destruct (chain_ok_lookup _ _ _ _ _ Hc Hk') as (? & _). lia.
  - apply (IH _ _ k k' c c' Hc Hk Hk'). lia.
Qed.

Lemma chain_ok_page_ok pages lo hi (k : nat) c :
  MinZSTid <= lo -> hi <= MaxPlusOneZSTid ->
  chain_ok lo hi pages -> pages !! k = Some c -> page_ok c = true.
Proof.
  intros Hlo Hhi Hc Hk.
  destruct (chain_ok_lookup _ _ _ _ _ Hc Hk) as (? & ? & ? & ? & ?).
  unfold page_ok.
  rewrite !andb_true_iff, !Z.leb_le, Z.eqb_eq. repeat split; auto; lia.
Qed.

Lemma link_pages_length pages : forall nf o,
  length (link_pages pages nf o) = length pages.
Proof.
  induction pages as [|p [|q r] IH]; intros nf o; simpl; auto.
  f_equal. apply (IH (nf + 1) o).
Qed.

Lemma chain_ok_cons lo hi p rest :
  chain_ok lo hi (p :: rest) <->
  zs_lokey p = lo /\ zs_level p = 0 /\ zs_hikey p <= hi
  /\ items_ok lo (zs_hikey p) (tiditems p) = true
  /\ lo <= zs_hikey p
  /\ chain_ok (zs_hikey p) hi rest.
Proof. reflexivity. Qed.

Lemma link_pages_chain pages : forall lo hi nf o,
  chain_ok lo hi pages -> chain_ok lo hi (link_pages pages nf o).
Proof.
  induction pages as [|p [|q r] IH]; intros lo hi nf o Hc; [exact Hc|exact Hc|].
  change (link_pages (p :: q :: r) nf o)
    with (set_next p nf :: link_pages (q :: r) (nf + 1) o).
  apply chain_ok_cons in Hc as (? & ? & ? & ? & ? & Hc).
  apply chain_ok_cons. repeat split; auto.
Qed.

Lemma link_pages_items pages : forall nf o,
  flat_map tiditems (link_pages pages nf o) = flat_map tiditems pages.
Proof.
  induction pages as [|p [|q r] IH]; intros nf o; [reflexivity|reflexivity|].
  change (link_pages (p :: q :: r) nf o)
    with (set_next p nf :: link_pages (q :: r) (nf + 1) o).
  cbn [flat_map]. now rewrite IH.
Qed.

Lemma lookup_map_Some {A B} (f : A -> B) (l : list A) : forall (i : nat) y,
  map f l !! i = Some y -> exists x, l !! i = Some x /\ y = f x.
Proof.
  induction l as [|a l IH]; intros i y Hi; [easy|].
  destruct i as [|i]; simpl in Hi.
  - inversion Hi; subst. now exists a.
  - apply IH. exact Hi.
Qed.

Lemma lookup_map_intro {A B} (f : A -> B) (l : list A) : forall (i : nat) x,
  l !! i = Some x -> map f l !! i = Some (f x).
Proof.
  induction l as [|a l IH]; intros i x Hi; [easy|].
  destruct i as [|i]; simpl in Hi |- *.
  - now inversion Hi.
  - apply IH. exact Hi.
Qed.

Lemma flat_map_lookup {A B} (f : A -> list B) (l : list A) :
  forall (i : nat) y,
  flat_map f l !! i = Some y ->
  exists (k : nat) c (j : nat), l !! k = Some c /\ f c !! j = Some y.
Proof.
  induction l as [|a l IH]; intros i y Hi; [easy|].
  simpl in Hi. apply lookup_app_Some in Hi as [Hi|[_ Hi]].
  - exists 0%nat, a, i. auto.
  - destruct (IH _ _ Hi) as (k & c & j & Hk & Hj).
    exists (S k), c, j. auto.
Qed.

Section ChainBlocks.

Variables (blocks : list Block) (n : nat) (c0 : ZSBtreePage)
  (cs : list ZSBtreePage) (extra : list Block).

Hypothesis Hn : (n < length blocks)%nat.
Hypothesis Hextra : forall (i : nat) b, extra !! i = Some b -> b = OtherBlock.

Let blocks' : list Block :=
  <[n := LeafBlock c0]> blocks ++ map LeafBlock cs ++ extra.

Lemma chain_blocks_old (m : nat) :
  m <> n -> (m < length blocks)%nat -> blocks' !! m = blocks !! m.
Proof.
  intros Hne Hlt. unfold blocks'.
  rewrite lookup_app_l by (rewrite length_insert; lia).
  now apply list_lookup_insert_ne.
Qed.

Lemma chain_blocks_chain (k : nat) c :
  (c0 :: cs) !! k = Some c ->
  blocks' !! chain_index blocks n k = Some (LeafBlock c).
Proof.
  intros Hk. unfold blocks'. destruct k as [|k]; simpl in Hk |- *.
  - inversion Hk; subst.
    rewrite lookup_app_l by (rewrite length_insert; lia).
    now apply list_lookup_insert_eq.
  - rewrite lookup_app_r by (rewrite length_insert; lia).
    rewrite length_insert.
    replace (length blocks + k - length blocks)%nat with k by lia.
    apply lookup_app_l_Some. now apply lookup_map_intro.
Qed.

Lemma chain_blocks_leaf (m : nat) q :
  blocks' !! m = Some (LeafBlock q) ->
  (m <> n /\ blocks !! m = Some (LeafBlock q))
  \/ exists k : nat, (c0 :: cs) !! k = Some q /\ m = chain_index blocks n k.
Proof.
  unfold blocks'. intros Hm.
  apply lookup_app_Some in Hm as [Hm|[Hge Hm]].
  - destruct (Nat.eq_dec m n) as [->|Hne].
    + rewrite list_lookup_insert_eq in Hm by exact Hn.
      inversion Hm; subst. right. exists 0%nat. auto.
    + rewrite list_lookup_insert_ne in Hm by auto. left. auto.
  - rewrite length_insert in Hge, Hm.
    apply lookup_app_Some in Hm as [Hm|[_ Hm]].
    + apply lookup_map_Some in Hm as (c & Hc & Heq).
      inversion Heq; subst. right.
      exists (S (m - length blocks)). split; [exact Hc|]. simpl. lia.
    + apply Hextra in Hm. discriminate.
Qed.

Lemma chain_blocks_leaves_ok p :
  leaves_ok blocks -> blocks !! n = Some (LeafBlock p) ->
  page_ok p = true ->
  chain_ok (zs_lokey p) (zs_hikey p) (c0 :: cs) ->
  leaves_ok blocks'.
Proof.
  intros [Hpok Hap] Hp Hpp Hch.
  apply page_ok_facts in Hpp as (Hlo & Hlh & Hhi & Hlvl & Hiok).
  assert (Hsub : forall (k : nat) c q (m : nat),
            (c0 :: cs) !! k = Some c -> m <> n ->
            blocks !! m = Some (LeafBlock q) -> ranges_apart c q = true).
  { intros k c q m Hk Hne Hq.
    destruct (chain_ok_lookup _ _ _ _ _ Hch Hk) as (? & ? & ? & _).
    assert (Hpq : ranges_apart p q = true) by (apply (Hap n m); auto).
    unfold ranges_apart in *.
    rewrite orb_true_iff, !Z.leb_le in *. lia. }
  assert (Hidx : forall k k' : nat,
            chain_index blocks n k = chain_index blocks n k' -> k = k').
  { intros [|k] [|k']; simpl; lia. }
  split.
  - intros m q Hm. apply chain_blocks_leaf in Hm as [[_ Hm]|(k & Hk & _)].
    + eauto.
    + eapply chain_ok_page_ok; eauto.
  - intros m m' q q' Hne Hm Hm'.
    apply chain_blocks_leaf in Hm as [[Hmn Hm]|(k & Hk & ->)];
      apply chain_blocks_leaf in Hm' as [[Hmn' Hm']|(k' & Hk' & ->)].
    + apply (Hap m m'); auto.
    + rewrite ranges_apart_sym. eapply Hsub; eauto.
    + eapply Hsub; eauto.
    + assert (k <> k') by (intros ->; apply Hne; reflexivity).
      unfold ranges_apart. rewrite orb_true_iff, !Z.leb_le.
      destruct (Nat.lt_ge_cases k k').
      * left. eapply chain_ok_ordered; eauto.
      * right. eapply (chain_ok_ordered _ _ _ k' k); eauto. lia.
Qed.

End ChainBlocks.

Lemma written_intro rel (n : nat) p l c0 cs extra :
  leaves_ok (rd_blocks rel) ->
  rd_blocks rel !! n = Some (LeafBlock p) ->
  chain_ok (zs_lokey p) (zs_hikey p) (c0 :: cs) ->
  flat_map tiditems (c0 :: cs) = l ->
  (forall (i : nat) b, extra !! i = Some b -> b = OtherBlock) ->
  written rel n p l
    {| rd_blocks :=
         <[n := LeafBlock c0]> (rd_blocks rel) ++ map LeafBlock cs ++ extra;
       rd_undo := rd_undo rel |}.
Proof.
  intros Hok Hp Hch Hitems Hextra.
  assert (Hn : (n < length (rd_blocks rel))%nat)
    by (eapply lookup_lt_Some; eauto).
  pose proof Hok as [Hpok _].
  split; [reflexivity|]. split; [|split].
  - simpl. eapply chain_blocks_leaves_ok; eauto.
  - intros m Hne Hlt. simpl. now apply chain_blocks_old.
  - exists (c0 :: cs).
    split; [exact Hch|]. split; [exact Hitems|]. split.
    + intros k c Hk. simpl. now apply chain_blocks_chain.
    + intros m q Hm. simpl in Hm. eapply chain_blocks_leaf; eauto.
Qed.

Lemma set_block_insert blocks (n : nat) b :
  set_block blocks (Z.of_nat n) b = <[n := b]> blocks.
Proof. unfold set_block. now rewrite Nat2Z.id. Qed.

(** Writing a well-formed list of items for a leaf, in place or through the
    recompressor, succeeds and rewrites just that leaf. *)
Lemma apply_leaf_write_written rel (n : nat) p l w :
  leaves_ok (rd_blocks rel) ->
  rd_blocks rel !! n = Some (LeafBlock p) ->
  items_ok (zs_lokey p) (zs_hikey p) l = true ->
  w = InPlace l \/ w = Recompress l ->
  exists rel',
    apply_leaf_write rel (Z.of_nat n) w = Done rel'
    /\ written rel n p l rel'.
Proof.
  intros Hok Hp Hiok Hw. pose proof Hok as [Hpok _].
  pose proof (Hpok _ _ Hp) as Hpp.
  apply page_ok_facts in Hpp as (Hlo & Hlh & Hhi & Hlvl & _).
  pose proof (proj2 (get_leaf_lookup _ _ _) Hp) as Hg.
  unfold apply_leaf_write. rewrite Hg.
  destruct Hw as [-> | ->].
  - (* in place *)
    eexists. split; [reflexivity|].
    rewrite set_block_insert.
    rewrite <- (app_nil_r (<[n:=_]> (rd_blocks rel))).
    change (@nil Block) with (map LeafBlock [] ++ @nil Block).
    apply written_intro; auto.
    + apply chain_ok_cons. simpl. repeat split; auto; lia.
    + simpl. now rewrite app_nil_r.
    + intros i b Hi. discriminate.
  - (* through the recompressor *)
    unfold zsbt_tid_recompress_replace. rewrite Hg.
    pose proof (recompress_pages_chain p l Hlh Hiok) as Hch.
    pose proof (recompress_pages_items p l) as Hit.
    pose proof (recompress_pages_nonempty p l) as Hne.
    set (pages := recompress_pages p l) in *.
    set (nf := Z.of_nat (length (rd_blocks rel))).
    pose proof (link_pages_chain pages _ _ nf (zs_next p) Hch) as Hlc.
    pose proof (link_pages_items pages nf (zs_next p)) as Hli.
    pose proof (link_pages_length pages nf (zs_next p)) as Hll.
    rewrite Hit in Hli.
    destruct (link_pages pages nf (zs_next p)) as [|first [|m more]].
    + destruct pages; [congruence | discriminate].
    + eexists. split; [reflexivity|].
      rewrite set_block_insert.
      rewrite <- (app_nil_r (<[n:=_]> (rd_blocks rel))).
      change (@nil Block) with (map LeafBlock [] ++ @nil Block).
      apply written_intro; auto. intros i b Hi. discriminate.
    + eexists. split; [reflexivity|].
      rewrite set_block_insert.
      apply written_intro; auto.
      * apply chain_ok_cons in Hlc as (Ha & Hb & Hc & Hd & He & Hf).
        apply chain_ok_cons.
        destruct (negb _);
          (split; [exact Ha|]; split; [exact Hb|]; split; [exact Hc|];
           split; [exact Hd|]; split; [exact He | exact Hf]).
      * rewrite <- Hli. destruct (negb _); reflexivity.
      * intros i b Hi. destruct (negb _); [|discriminate].
        destruct i; [now inversion Hi | discriminate].
Qed.

(** After the leaf was rewritten, each of the items written is found by
    [zsbt_tid_fetch] for the TIDs it covers. *)
Lemma written_fetch rel (n : nat) p l rel' (i : nat) it t :
  written rel n p l rel' -> l !! i = Some it -> covers it t ->
  exists b,
    zsbt_tid_fetch rel' t = Some (b, t_undo_ptr it, item_isdead it).
Proof.
  intros (_ & Hok & _ & chain & Hch & Hitems & Hput & _) Hi Hcov.
  rewrite <- Hitems in Hi.
  apply flat_map_lookup in Hi as (k & c & j & Hk & Hj).
  exists (Z.of_nat (chain_index (rd_blocks rel) n k)).
  eapply zsbt_tid_fetch_item; eauto.
Qed.

(** ** Cutting a run out of a well-formed array *)

Lemma items_ok_app_intro l1 : forall lo mid hi l2,
  items_ok lo mid l1 = true -> lo <= mid ->
  items_ok mid hi l2 = true -> mid <= hi ->
  items_ok lo hi (l1 ++ l2) = true.
Proof.
  induction l1 as [|a l1 IH]; intros lo mid hi l2 H1 Hlm H2 Hmh.
  - now apply items_ok_weaken with (lo := mid).
  - apply items_ok_cons in H1 as (? & ? & ? & H1).
    cbn [app]. apply items_ok_cons. repeat split; try lia.
    apply (IH _ mid); auto.
Qed.

Lemma items_ok_middle l1 : forall lo hi old l2,
  items_ok lo hi (l1 ++ old :: l2) = true ->
  items_ok lo (t_tid old) l1 = true /\ lo <= t_tid old
  /\ 1 <= t_nelements old < 2 ^ 31
  /\ t_tid old + t_nelements old <= hi
  /\ items_ok (t_tid old + t_nelements old) hi l2 = true.
Proof.
  induction l1 as [|a l1 IH]; intros lo hi old l2 Hok.
  - cbn [app] in Hok. apply items_ok_cons in Hok as (? & ? & ? & Hok).
    repeat split; auto; lia.
  - cbn [app] in Hok. apply items_ok_cons in Hok as (? & ? & ? & Hok).
    destruct (IH _ _ _ _ Hok) as (Hl1 & ? & ? & ? & Hl2).
    repeat split; auto; try lia.
    apply items_ok_cons. repeat split; auto; lia.
Qed.

Lemma items_ok_le lo hi l :
  items_ok lo hi l = true -> l <> [] -> lo <= hi.
Proof.
  destruct l as [|a l]; [easy|]. intros Hok _.
  apply items_ok_cons in Hok as (? & ? & ? & _). lia.
Qed.

Lemma slices_items_ok old t r :
  covers old t -> 1 <= t_nelements old < 2 ^ 31 ->
  t_tid r = t -> t_nelements r = 1 ->
  items_ok (t_tid old) (t_tid old + t_nelements old)
    (slices old t (Some r)) = true.
Proof.
  intros [Hc1 Hc2] Hn Ht Hn1.
  unfold slices, slice_before, slice_after.
  destruct (Z.ltb_spec (t_tid old) t),
           (Z.ltb_spec (t + 1) (t_tid old + t_nelements old));
    cbn [app opt_list];
    repeat (apply items_ok_cons; cbn [t_tid t_nelements];
            repeat split; try lia);
    reflexivity.
Qed.

Lemma items_ok_replace lo hi l (i : nat) old s :
  items_ok lo hi l = true -> l !! i = Some old ->
  items_ok (t_tid old) (t_tid old + t_nelements old) s = true ->
  items_ok lo hi (take i l ++ s ++ drop (S i) l) = true.
Proof.
  intros Hok Hi Hs.
  rewrite (take_drop_lookup l i old Hi) in Hok.
  destruct (items_ok_middle _ _ _ _ _ Hok) as (Hl1 & ? & ? & ? & Hl2).
  apply items_ok_app_intro with (mid := t_tid old); auto; [|lia].
  apply items_ok_app_intro with (mid := t_tid old + t_nelements old);
    auto; lia.
Qed.

(** [zsbt_tid_replace_item] with a replacement for the single TID [t]:
    the leaf is rewritten with the run cut into its slices. *)
Lemma zsbt_tid_replace_item_written rel (n : nat) p t r (i : nat) old :
  geometry_ok = true -> leaves_ok (rd_blocks rel) ->
  rd_blocks rel !! n = Some (LeafBlock p) ->
  tiditems p !! i = Some old -> covers old t ->
  t_tid r = t -> t_nelements r = 1 ->
  exists rel',
    zsbt_tid_replace_item rel (Z.of_nat n) t (Some r) = Done rel'
    /\ written rel n p
         (take i (tiditems p) ++ slices old t (Some r)
          ++ drop (S i) (tiditems p)) rel'.
Proof.
  intros Hg Hok Hp Hi Hcov Ht Hn1. pose proof Hok as [Hpok _].
  pose proof (Hpok _ _ Hp) as Hpp.
  apply page_ok_facts in Hpp as (Hlo & Hlh & Hhi & Hlvl & Hiok).
  destruct (replace_item_page_spec p t (Some r) i old
              (zs_lokey p) (zs_hikey p) Hg
              ltac:(unfold MinZSTid in Hlo; lia) Hhi Hiok Hi Hcov)
    as (w & Hw & Hitems).
  destruct (items_ok_lookup _ _ _ _ _ Hiok Hi) as (? & ? & ?).
  pose proof (slices_items_ok old t r Hcov ltac:(lia) Ht Hn1) as Hs.
  pose proof (items_ok_replace _ _ _ _ _ _ Hiok Hi Hs) as Hnew.
  unfold zsbt_tid_replace_item.
  rewrite (proj2 (get_leaf_lookup _ _ _) Hp), Hw.
  apply apply_leaf_write_written; auto.
  destruct w as [l|l|]; simpl in Hitems.
  - left. now f_equal.
  - right. now f_equal.
  - exfalso. unfold slices in Hitems. simpl in Hitems.
    destruct (take i (tiditems p)), (slice_before old t); discriminate.
Qed.

Lemma rel_ok_leaves_ok rel : rel_ok rel = true -> leaves_ok (rd_blocks rel).
Proof.
  unfold rel_ok. intros Hok. apply andb_prop in Hok as [Hok _].
  now apply blocks_ok_leaves_ok.
Qed.

Lemma slices_items_ok_opt old t replacementitem :
  covers old t -> 1 <= t_nelements old < 2 ^ 31 ->
  (forall r, replacementitem = Some r -> t_tid r = t /\ t_nelements r = 1) ->
  items_ok (t_tid old) (t_tid old + t_nelements old)
    (slices old t replacementitem) = true.
Proof.
  intros Hcov Hn Hr. destruct replacementitem as [r|].
  - destruct (Hr r eq_refl) as [Ht Hn1]. now apply slices_items_ok.
  - destruct Hcov as [Hc1 Hc2].
    unfold slices, slice_before, slice_after.
    destruct (Z.ltb_spec (t_tid old) t),
             (Z.ltb_spec (t + 1) (t_tid old + t_nelements old));
      cbn [app opt_list];
      repeat (apply items_ok_cons; cbn [t_tid t_nelements];
              repeat split; try lia);
      reflexivity.
Qed.

(** C4.  [zsbt_tid_replace_item] on the leaf of block [n] whose item
    [old], at position [i], covers the TID [t], with no replacement or with
    a replacement for exactly [t] (the function's assertion): the call
    succeeds and leaves the undo log alone.  The leaf is rewritten, in
    place or through the recompressor, so that it (or the chain of pages it
    is split into) holds the items before position [i] unchanged, then at
    most three pieces -- the run [t_tid old .. t) when it is not empty, the
    replacement item when one is given, the run [t + 1 .. t_tid old +
    t_nelements old) when it is not empty, the two runs with the undo
    pointer of [old] -- and then the items after position [i] unchanged;
    the other blocks are the same.  When no item is left the leaf is handed
    to [zsbt_unlink_page] instead, and written back empty if that fails. *)
Theorem zsbt_tid_replace_item_slices rel (n : nat) (p : ZSBtreePage)
    (t : zstid) (replacementitem : option ZSTidArrayItem) (i : nat)
    (old : ZSTidArrayItem) :
  geometry_ok = true -> rel_ok rel = true ->
  rd_blocks rel !! n = Some (LeafBlock p) ->
  tiditems p !! i = Some old -> covers old t ->
  (forall r, replacementitem = Some r -> t_tid r = t /\ t_nelements r = 1) ->
  let pieces :=
    slice_before old t ++ opt_list replacementitem ++ slice_after old t in
  let items := take i (tiditems p) ++ pieces ++ drop (S i) (tiditems p) in
  (exists rel',
     zsbt_tid_replace_item rel (Z.of_nat n) t replacementitem = Done rel'
     /\ rd_undo rel' = rd_undo rel
     /\ (written rel n p items rel'
         \/ items = []
            /\ exists blocks',
                 zsbt_unlink_page (rd_blocks rel) (Z.of_nat n)
                 = Some blocks'
                 /\ rd_blocks rel' = blocks'))
  /\ (length pieces <= 3)%nat
  /\ (forall b, In b (slice_before old t ++ slice_after old t) ->
        t_undo_ptr b = t_undo_ptr old /\ ~ covers b t
        /\ forall t', covers b t' -> covers old t').
Proof.
  intros Hg Hrel Hp Hi Hcov Hrep pieces items.
  pose proof (rel_ok_leaves_ok _ Hrel) as Hok. pose proof Hok as [Hpok _].
  pose proof (Hpok _ _ Hp) as Hpp.
  apply page_ok_facts in Hpp as (Hlo & Hlh & Hhi & Hlvl & Hiok).
  split; [|split].
  - (* what is written *)
    destruct (replace_item_page_spec p t replacementitem i old
                (zs_lokey p) (zs_hikey p) Hg
                ltac:(unfold MinZSTid in Hlo; lia) Hhi Hiok Hi Hcov)
      as (w & Hw & Hitems).
    fold pieces in Hitems.
    change (slices old t replacementitem) with pieces in Hitems.
    fold items in Hitems.
    destruct (items_ok_lookup _ _ _ _ _ Hiok Hi) as (? & ? & ?).
    pose proof (slices_items_ok_opt old t replacementitem Hcov
                  ltac:(lia) Hrep) as Hs.
    pose proof (items_ok_replace _ _ _ _ _ _ Hiok Hi Hs) as Hnew.
    change (slices old t replacementitem) with pieces in Hnew.
    fold items in Hnew.
    pose proof (proj2 (get_leaf_lookup _ _ _) Hp) as Hgl.
    unfold zsbt_tid_replace_item. rewrite Hgl, Hw.
    assert (Hwritten : forall w',
              w' = InPlace items \/ w' = Recompress items ->
              exists rel',
                apply_leaf_write rel (Z.of_nat n) w' = Done rel'
                /\ rd_undo rel' = rd_undo rel
                /\ written rel n p items rel').
    { intros w' Hw'.
      destruct (apply_leaf_write_written rel n p items w' Hok Hp Hnew Hw')
        as (rel' & Hrun & Hwr).
      exists rel'. split; [exact Hrun|]. split; [apply Hwr|exact Hwr]. }
    destruct w as [l|l|]; simpl in Hitems.
    + subst l. destruct (Hwritten (InPlace items)) as (rel' & ? & ? & ?);
        [now left|]. exists rel'. auto.
    + subst l. destruct (Hwritten (Recompress items))
        as (rel' & ? & ? & ?); [now right|]. exists rel'. auto.
    + (* no item is left *)
      destruct (zsbt_unlink_page (rd_blocks rel) (Z.of_nat n))
        as [blocks'|] eqn:Hun.
      * exists {| rd_blocks := blocks'; rd_undo := rd_undo rel |}.
        split; [unfold apply_leaf_write; now rewrite Hgl, Hun|].
        split; [reflexivity|]. right. split; [now symmetry|].
        exists blocks'. auto.
      * destruct (Hwritten (InPlace items)) as (rel' & Hrun & Hu & Hwr);
          [now left|].
        exists rel'. split; [|auto].
        rewrite <- Hrun. unfold apply_leaf_write. rewrite Hgl, Hun.
        now rewrite <- Hitems.
  - subst pieces. unfold slice_before, slice_after.
    destruct (_ <? _), replacementitem, (_ <? _); simpl; lia.
  - intros b Hb. unfold slice_before, slice_after, covers in *.
    apply in_app_or in Hb.
    destruct (Z.ltb_spec (t_tid old) t),
             (Z.ltb_spec (t + 1) (t_tid old + t_nelements old));
      simpl in Hb; destruct Hb as [Hb|Hb];
      try contradiction; destruct Hb as [<-|[]]; simpl;
      (split; [reflexivity | split; [lia | intros; lia]]).
Qed.

Lemma create_item_single t ptr :
  zsbt_tid_create_item t ptr 1
  = {| t_tid := t; t_nelements := 1; t_undo_ptr := ptr; t_flags := 0 |}.
Proof. reflexivity. Qed.

(** ** Delete and lock *)

(** C5.  For a TID [t] whose item [old] is found and is not dead: when
    [zs_SatisfiesUpdate] answers something else than [TM_Ok],
    [zsbt_tid_delete] and [zsbt_tid_lock] return that answer and the
    relation -- the tree and the undo log -- is the one they were given; when
    it answers [TM_Ok], [zsbt_tid_delete] appends one DELETE record to the
    undo log and rewrites the leaf with the run of [old] cut around [t] and
    the item [{t, 1, new undo pointer, 0}] in place of [t]. *)
Theorem zsbt_tid_delete_lock_visibility rel (n : nat) p (i : nat) old t
    xid cid :
  geometry_ok = true -> rel_ok rel = true ->
  rd_blocks rel !! n = Some (LeafBlock p) ->
  tiditems p !! i = Some old -> covers old t ->
  item_isdead old = false ->
  (forall s crosscheck changingPart r keep nt,
     zs_SatisfiesUpdate s t (t_undo_ptr old) LockTupleExclusive
       = (r, keep, nt) ->
     r <> TM_Ok ->
     zsbt_tid_delete rel t xid cid (Some s) crosscheck changingPart
       = Done (r, rel))
  /\ (forall s mode r keep nt,
        zs_SatisfiesUpdate s t (t_undo_ptr old) mode = (r, keep, nt) ->
        r <> TM_Ok ->
        zsbt_tid_lock rel t xid cid mode s = Done (r, nt, rel))
  /\ (forall s crosscheck changingPart keep nt,
        zs_SatisfiesUpdate s t (t_undo_ptr old) LockTupleExclusive
          = (TM_Ok, keep, nt) ->
        let undorec :=
          {| rec_type := ZSUNDO_TYPE_DELETE; rec_xid := xid;
             rec_cid := cid; rec_tid := t; rec_speculative_token := 0;
             rec_prevundorec :=
               if keep then t_undo_ptr old else InvalidUndoPtr;
             rec_endtid := 0; rec_changedPart := changingPart;
             rec_newtid := 0; rec_key_update := false;
             rec_lockmode := None |} in
        let new_undoptr := zsundo_alloc (rd_undo rel) undorec in
        exists rel',
          zsbt_tid_delete rel t xid cid (Some s) crosscheck changingPart
            = Done (TM_Ok, rel')
          /\ rd_undo rel' = rd_undo rel ++ [undorec]
          /\ written
               {| rd_blocks := rd_blocks rel;
                  rd_undo := rd_undo rel ++ [undorec] |} n p
               (take i (tiditems p)
                ++ (slice_before old t
                    ++ [{| t_tid := t; t_nelements := 1;
                           t_undo_ptr := new_undoptr; t_flags := 0 |}]
                    ++ slice_after old t)
                ++ drop (S i) (tiditems p)) rel').
Proof.
  intros Hg Hrel Hp Hi Hcov Hdead.
  pose proof (rel_ok_leaves_ok _ Hrel) as Hok.
  pose proof (zsbt_tid_fetch_item rel n p i old t Hok Hp Hi Hcov) as Hf.
  rewrite Hdead in Hf.
  split; [|split].
  - intros s crosscheck changingPart r keep nt Hsat Hr.
    unfold zsbt_tid_delete. rewrite Hf, Hsat.
    destruct r; try reflexivity. congruence.
  - intros s mode r keep nt Hsat Hr.
    unfold zsbt_tid_lock. rewrite Hf, Hsat.
    destruct r; try reflexivity. congruence.
  - intros s crosscheck changingPart keep nt Hsat undorec new_undoptr.
    unfold zsbt_tid_delete. rewrite Hf, Hsat.
    cbn [is_TM_Ok negb]. cbv iota. unfold zsundo_insert.
    fold undorec. fold new_undoptr. rewrite create_item_single.
    set (rel1 := {| rd_blocks := rd_blocks rel;
                    rd_undo := rd_undo rel ++ [undorec] |}).
    destruct (zsbt_tid_replace_item_written rel1 n p t
                {| t_tid := t; t_nelements := 1;
                   t_undo_ptr := new_undoptr; t_flags := 0 |} i old)
      as (rel' & Hrep & Hwr); auto.
    rewrite Hrep. exists rel'. split; [reflexivity|].
    split; [|exact Hwr]. now destruct Hwr as [Hu _].
Qed.

(** ** Mark dead and undo deletion *)

Lemma written_refl rel (n : nat) p :
  leaves_ok (rd_blocks rel) -> rd_blocks rel !! n = Some (LeafBlock p) ->
  written rel n p (tiditems p) rel.
Proof.
  intros Hok Hp. pose proof Hok as [Hpok _].
  pose proof (Hpok _ _ Hp) as Hpp.
  apply page_ok_facts in Hpp as (Hlo & Hlh & Hhi & Hlvl & Hiok).
  split; [reflexivity|]. split; [exact Hok|]. split; [reflexivity|].
  exists [p]. split; [|split; [|split]].
  - apply chain_ok_cons. simpl. repeat split; auto; lia.
  - simpl. apply app_nil_r.
  - intros [|k] c Hk; simpl in Hk; [|discriminate].
    inversion Hk; subst. exact Hp.
  - intros m q Hm. destruct (Nat.eq_dec m n) as [->|Hne].
    + right. exists 0%nat. rewrite Hp in Hm. inversion Hm; subst. auto.
    + left. auto.
Qed.


(** C7.  For a TID [t] covered by the item [old] of a leaf:
    [zsbt_tid_undo_deletion] with an undo pointer equal to the one stored in
    [old] rewrites the leaf with the run of [old] cut around [t] and the item
    [{t, 1, InvalidUndoPtr, 0}] in place of [t]; with any other undo pointer
    it returns the relation it was given. *)
Theorem zsbt_tid_undo_deletion_superseded rel (n : nat) p (i : nat) old t
    undoptr :
  geometry_ok = true -> rel_ok rel = true ->
  rd_blocks rel !! n = Some (LeafBlock p) ->
  tiditems p !! i = Some old -> covers old t ->
  (ZSUndoRecPtrEquals (t_undo_ptr old) undoptr = true ->
   exists rel',
     zsbt_tid_undo_deletion rel t undoptr = Done rel'
     /\ written rel n p
          (take i (tiditems p)
           ++ (slice_before old t
               ++ [{| t_tid := t; t_nelements := 1;
                      t_undo_ptr := InvalidUndoPtr; t_flags := 0 |}]
               ++ slice_after old t)
           ++ drop (S i) (tiditems p)) rel')
  /\ (ZSUndoRecPtrEquals (t_undo_ptr old) undoptr = false ->
      zsbt_tid_undo_deletion rel t undoptr = Done rel).
Proof.
  intros Hg Hrel Hp Hi Hcov.
  pose proof (rel_ok_leaves_ok _ Hrel) as Hok.
  pose proof (zsbt_tid_fetch_item rel n p i old t Hok Hp Hi Hcov) as Hf.
  split; intros Heq; unfold zsbt_tid_undo_deletion; rewrite Hf, Heq.
  - rewrite create_item_single.
    apply (zsbt_tid_replace_item_written rel n p t _ i old); auto.
  - reflexivity.
Qed.

(** C10.  For a TID [t] that no item of the tree covers:
    [zsbt_tid_mark_dead] and [zsbt_tid_undo_deletion] give a warning and
    return the relation they were given; [zsbt_tid_delete], [zsbt_tid_lock]
    and [zsbt_tid_update] fail with an error. *)
Theorem absent_tid_warning_or_error rel t :
  rel_ok rel = true ->
  (forall (n : nat) p it, rd_blocks rel !! n = Some (LeafBlock p) ->
     In it (tiditems p) -> ~ covers it t) ->
  zsbt_tid_mark_dead rel t
    = Warned MSG_could_not_find_tuple_to_mark_dead rel
  /\ (forall undoptr,
        zsbt_tid_undo_deletion rel t undoptr
          = Warned MSG_could_not_find_aborted_tuple rel)
  /\ (forall xid cid snapshot crosscheck changingPart,
        zsbt_tid_delete rel t xid cid snapshot crosscheck changingPart
          = Failed MSG_could_not_find_tuple_to_delete)
  /\ (forall xid cid mode snapshot,
        zsbt_tid_lock rel t xid cid mode snapshot
          = Failed MSG_could_not_find_tuple_to_lock)
  /\ (forall xid cid key_update snapshot crosscheck,
        zsbt_tid_update rel t xid cid key_update snapshot crosscheck
          = Failed MSG_could_not_find_old_tuple_to_update).
Proof.
  intros Hrel Habs.
  pose proof (zsbt_tid_fetch_absent rel t (rel_ok_leaves_ok _ Hrel) Habs)
    as Hf.
  repeat split; intros;
    unfold zsbt_tid_mark_dead, zsbt_tid_undo_deletion, zsbt_tid_delete,
      zsbt_tid_lock, zsbt_tid_update, zsbt_tid_update_lock_old;
    rewrite Hf; reflexivity.
Qed.

(** ** Insert *)

Lemma items_ok_snoc_last l : forall lo hi new,
  items_ok lo hi l = true ->
  match last l with
  | Some it => t_tid it + t_nelements it
  | None => lo
  end <= t_tid new ->
  1 <= t_nelements new < 2 ^ 31 -> t_tid new + t_nelements new <= hi ->
  items_ok lo hi (l ++ [new]) = true.
Proof.
  induction l as [|a l IH]; intros lo hi new Hok Hlast Hn Hend.
  - cbn [app]. apply items_ok_cons. simpl in Hlast. repeat split; auto; lia.
  - apply items_ok_cons in Hok as (? & ? & ? & Hok).
    cbn [app]. apply items_ok_cons. repeat split; auto; try lia.
    apply IH; auto. destruct l as [|b l]; [exact Hlast|].
    change (last (a :: b :: l)) with (last (b :: l)) in Hlast.
    destruct (last (b :: l)) eqn:E; [exact Hlast|].
    apply last_None in E. discriminate.
Qed.

Lemma items_ok_last lo hi l it :
  items_ok lo hi l = true -> last l = Some it ->
  lo <= t_tid it /\ 1 <= t_nelements it < 2 ^ 31
  /\ t_tid it + t_nelements it <= hi.
Proof.
  intros Hok Hl. rewrite last_lookup in Hl.
  eapply items_ok_lookup; eauto.
Qed.

(** C2.  [zsbt_tid_multi_insert] of [nitems >= 1] TIDs descends to the
    rightmost leaf (the one that covers [MaxZSTid]), takes
    [start = max(end of the last item, lokey)] -- [lokey] on an empty leaf --,
    rewrites the leaf with its items followed by the one item
    [{start, nitems, undoptr, 0}], and returns the TIDs
    [start, start + 1, .., start + nitems - 1].  [undoptr] points to the one
    INSERT record appended to the undo log, or is [InvalidUndoPtr] for the
    frozen xid, for which nothing is logged. *)
Theorem zsbt_tid_multi_insert_appends rel (n : nat) p nitems xid cid
    speculative_token prevundoptr :
  geometry_ok = true -> rel_ok rel = true ->
  rd_blocks rel !! n = Some (LeafBlock p) ->
  page_covers p MaxZSTid = true ->
  1 <= nitems < 2 ^ 31 ->
  let start :=
    match last (tiditems p) with
    | Some it => Z.max (t_tid it + t_nelements it) (zs_lokey p)
    | None => zs_lokey p
    end in
  start + nitems <= MaxPlusOneZSTid ->
  let undorec :=
    {| rec_type := ZSUNDO_TYPE_INSERT; rec_xid := xid; rec_cid := cid;
       rec_tid := start; rec_speculative_token := speculative_token;
       rec_prevundorec := prevundoptr; rec_endtid := start + nitems - 1;
       rec_changedPart := false; rec_newtid := 0;
       rec_key_update := false; rec_lockmode := None |} in
  let undoptr :=
    if xid =? FrozenTransactionId then InvalidUndoPtr
    else zsundo_alloc (rd_undo rel) undorec in
  let rel1 :=
    if xid =? FrozenTransactionId then rel
    else {| rd_blocks := rd_blocks rel;
            rd_undo := rd_undo rel ++ [undorec] |} in
  zsbt_descend rel MaxZSTid = Some (Z.of_nat n)
  /\ exists rel',
       zsbt_tid_multi_insert rel nitems xid cid speculative_token
         prevundoptr
       = Done (map (fun k => start + Z.of_nat k)
                   (seq 0 (Z.to_nat nitems)), rel')
       /\ written rel1 n p
            (tiditems p
             ++ [{| t_tid := start; t_nelements := nitems;
                    t_undo_ptr := undoptr; t_flags := 0 |}]) rel'.
Proof.
  intros Hg Hrel Hp Hcov Hn start Hfit undorec undoptr rel1.
  pose proof (rel_ok_leaves_ok _ Hrel) as Hok. pose proof Hok as [Hpok _].
  pose proof (Hpok _ _ Hp) as Hpp.
  apply page_ok_facts in Hpp as (Hlo & Hlh & Hhi & Hlvl & Hiok).
  pose proof (leaves_ok_descend rel n p MaxZSTid Hok Hp Hcov) as Hd.
  split; [exact Hd|].
  assert (Hhik : zs_hikey p = MaxPlusOneZSTid).
  { unfold page_covers in Hcov.
    rewrite !andb_true_iff, Z.ltb_lt in Hcov.
    unfold MaxZSTid, MaxPlusOneZSTid in *. lia. }
  unfold MaxPlusOneZSTid, MinZSTid in *.
  (* the TID the code starts from *)
  assert (Hstart :
    match last (tiditems p) with
    | Some lastitem => u64 (t_tid lastitem + t_nelements lastitem)
    | None => zs_lokey p
    end = start
    /\ match last (tiditems p) with
       | Some it => t_tid it + t_nelements it
       | None => zs_lokey p
       end <= start).
  { subst start. destruct (last (tiditems p)) as [it|] eqn:Hl; [|lia].
    destruct (items_ok_last _ _ _ _ Hiok Hl) as (? & ? & ?).
    rewrite u64_small by lia. lia. }
  destruct Hstart as [Hstart Hlast].
  unfold zsbt_tid_multi_insert.
  rewrite Hd, (proj2 (get_leaf_lookup _ _ _) Hp), Hstart.
  assert (Hstart_lo : zs_lokey p <= start).
  { subst start. destruct (last (tiditems p)); lia. }
  set (newitem := {| t_tid := start; t_nelements := nitems;
                     t_undo_ptr := undoptr; t_flags := 0 |}).
  assert (Hnew : items_ok (zs_lokey p) (zs_hikey p)
                   (tiditems p ++ [newitem]) = true).
  { apply items_ok_snoc_last; auto; simpl; lia. }
  assert (Hadd : exists rel',
            zsbt_tid_add_items rel1 (Z.of_nat n) [newitem] = Done rel'
            /\ written rel1 n p (tiditems p ++ [newitem]) rel').
  { assert (Hb1 : rd_blocks rel1 = rd_blocks rel)
      by (subst rel1; destruct (xid =? _); reflexivity).
    unfold zsbt_tid_add_items.
    rewrite Hb1, (proj2 (get_leaf_lookup _ _ _) Hp).
    apply apply_leaf_write_written; try rewrite Hb1; auto.
    unfold add_items_page. destruct (_ <=? _); [now left|].
    right. destruct (tiditems p); reflexivity. }
  destruct Hadd as (rel' & Hadd & Hwr).
  assert (Htids :
    map (fun i : nat => u64 (start + Z.of_nat i)) (seq 0 (Z.to_nat nitems))
    = map (fun k : nat => start + Z.of_nat k) (seq 0 (Z.to_nat nitems))).
  { apply map_ext_in. intros k Hk. apply in_seq in Hk.
    apply u64_small. lia. }
  exists rel'. split; [|exact Hwr].
  unfold zsundo_insert, zsbt_tid_create_item.
  rewrite (u32_small nitems) by lia.
  rewrite (u64_small (start + nitems - 1)) by lia.
  fold undorec. subst rel1 undoptr newitem.
  destruct (xid =? FrozenTransactionId); cbn [negb];
    rewrite Hadd, Htids; reflexivity.
Qed.

(** ** Collecting the dead TIDs *)

Lemma item_tids_In it t :
  0 <= t_tid it -> 0 <= t_nelements it ->
  t_tid it + t_nelements it <= 2 ^ 64 ->
  In t (item_tids it) <-> covers it t.
Proof.
  intros H0 Hn He. unfold item_tids, covers. rewrite in_map_iff. split.
  - intros (j & <- & Hj). apply in_seq in Hj.
    rewrite u64_small by lia. lia.
  - intros Hc. exists (Z.to_nat (t - t_tid it)). split.
    + rewrite u64_small by lia. lia.
    + apply in_seq. lia.
Qed.

Lemma page_dead_tids_In lo hi items t :
  items_ok lo hi items = true -> 0 <= lo -> hi <= MaxPlusOneZSTid ->
  In t (page_dead_tids items) <->
  exists it, In it items /\ item_isdead it = true /\ covers it t.
Proof.
  intros Hok Hlo Hhi. unfold page_dead_tids. rewrite in_flat_map.
  unfold MaxPlusOneZSTid in Hhi.
  split; intros (it & Hin & Hit); exists it; (split; [exact Hin|]);
    pose proof Hin as Hin';
    apply list_elem_of_In, list_elem_of_lookup in Hin' as [i Hi];
    destruct (items_ok_lookup _ _ _ _ _ Hok Hi) as (? & ? & ?).
  - destruct (item_isdead it); [|contradiction].
    split; [reflexivity|]. apply item_tids_In; auto; lia.
  - destruct Hit as [-> Hc]. apply item_tids_In; auto; lia.
Qed.

Lemma right_chain_leaf blocks ps : forall b p,
  right_chain blocks b ps -> In p ps ->
  exists b', get_leaf blocks b' = Some p.
Proof.
  induction ps as [|q ps IH]; intros b p Hc Hin; [easy|].
  destruct Hc as [Hq Hrest]. destruct Hin as [<-|Hin]; [eauto|].
  destruct ps as [|q' ps]; [easy|].
  destruct Hrest as (_ & _ & _ & Hrest). eauto.
Qed.

(** The walk of [zsbt_collect_dead_tids] from a page it is about to read. *)
Lemma collect_dead_loop_chain rel ps : forall fuel buf nexttid nextblock
    result b,
  (nextblock <> InvalidBlockNumber /\ nextblock = b
   /\ zsbt_page_is_expected rel nexttid b = true)
  \/ (nextblock = InvalidBlockNumber /\ buf = InvalidBuffer
      /\ zsbt_descend rel nexttid = Some b) ->
  right_chain (rd_blocks rel) b ps -> (length ps <= fuel)%nat ->
  exists (j : nat) plast,
    ps !! j = Some plast
    /\ collect_dead_loop fuel rel buf nexttid nextblock result
       = Some (Done (result
                     ++ flat_map (fun p => page_dead_tids (tiditems p))
                          (take (S j) ps),
                     Some (zs_hikey plast)))
    /\ (zs_hikey plast = MaxPlusOneZSTid /\ S j = length ps
        \/ over_budget
             (result ++ flat_map (fun p => page_dead_tids (tiditems p))
                          (take (S j) ps)) = true)
    /\ (forall (i : nat) pi, (i < j)%nat -> ps !! i = Some pi ->
          zs_hikey pi <> MaxPlusOneZSTid
          /\ over_budget
               (result ++ flat_map (fun p => page_dead_tids (tiditems p))
                            (take (S i) ps)) = false).
Proof.
  induction ps as [|p ps IH];
    intros fuel buf nexttid nextblock result b Hentry Hch Hfuel; [easy|].
  destruct Hch as [Hp Hrest].
  destruct fuel as [|fuel]; [simpl in Hfuel; lia|].
  cbn [collect_dead_loop].
  (* the page read in this iteration is [p] *)
  assert (Hpage :
    (let '(buf1, page1) :=
       if negb (nextblock =? InvalidBlockNumber)
       then if zsbt_page_is_expected rel nexttid nextblock
            then (Some nextblock, get_leaf (rd_blocks rel) nextblock)
            else (InvalidBuffer, None)
       else (buf, None) in
     let '(buf2, page2, empty) :=
       match buf1 with
       | Some _ => (buf1, page1, false)
       | None =>
           match zsbt_descend rel nexttid with
           | Some b0 => (Some b0, get_leaf (rd_blocks rel) b0, false)
           | None => (InvalidBuffer, None, true)
           end
       end in (buf2, page2, empty)) = (Some b, Some p, false)).
  { destruct Hentry as [(Hnb & -> & Hexp)|(-> & -> & Hd)].
    - destruct (Z.eqb_spec b InvalidBlockNumber); [contradiction|].
      simpl. rewrite Hexp, Hp. reflexivity.
    - simpl. rewrite Hd, Hp. reflexivity. }
  destruct (if negb (nextblock =? InvalidBlockNumber) then _ else _)
    as [buf1 page1].
  destruct (match buf1 with Some _ => _ | None => _ end)
    as [[buf2 page2] empty].
  inversion Hpage; subst buf2 page2 empty. clear Hpage.
  cbv iota.
  set (result' := result ++ page_dead_tids (tiditems p)).
  assert (Htake1 :
    result ++ flat_map (fun p => page_dead_tids (tiditems p))
                (take 1 (p :: ps)) = result').
  { simpl. now rewrite app_nil_r. }
  destruct (Z.eqb_spec (zs_hikey p) MaxPlusOneZSTid) as [Hhk|Hhk].
  { (* the rightmost leaf *)
    exists 0%nat, p. split; [reflexivity|]. rewrite Htake1.
    split; [reflexivity|]. split.
    - left. split; [exact Hhk|]. destruct ps as [|q ps]; [reflexivity|].
      destruct Hrest as (Hne & _). contradiction.
    - intros i pi Hi. lia. }
  fold (over_budget result').
  destruct (over_budget result') eqn:Hover.
  { exists 0%nat, p. split; [reflexivity|]. rewrite Htake1.
    split; [reflexivity|]. split; [right; exact Hover|].
    intros i pi Hi. lia. }
  destruct ps as [|q ps]; [contradiction|].
  destruct Hrest as (_ & Hnext & Hcov & Hrest).
  assert (Hq : get_leaf (rd_blocks rel) (zs_next p) = Some q)
    by (destruct Hrest as [Hq _]; exact Hq).
  destruct (IH fuel (Some b) (zs_hikey p) (zs_next p) result' (zs_next p))
    as (j & plast & Hj & Hloop & Hstop & Hbefore).
  { left. split; [exact Hnext|]. split; [reflexivity|].
    unfold zsbt_page_is_expected. now rewrite Hq. }
  { exact Hrest. }
  { simpl in Hfuel |- *. lia. }
  assert (Hflat : forall k : nat,
    result ++ flat_map (fun p => page_dead_tids (tiditems p))
                (take (S (S k)) (p :: q :: ps))
    = result' ++ flat_map (fun p => page_dead_tids (tiditems p))
                   (take (S k) (q :: ps))).
  { intros k. subst result'. cbn [take flat_map].
    now rewrite <- app_assoc. }
  exists (S j), plast. split; [exact Hj|]. rewrite Hflat.
  split; [exact Hloop|]. split.
  - destruct Hstop as [[Hr Hlen]|Hstop]; [left|right; exact Hstop].
    split; [exact Hr|]. simpl in Hlen |- *. lia.
  - intros [|i] pi Hi Hpi.
    + simpl in Hpi. inversion Hpi; subst pi.
      split; [exact Hhk|]. rewrite Htake1. exact Hover.
    + rewrite Hflat. apply Hbefore; [lia|exact Hpi].
Qed.

(** C9.  [zsbt_collect_dead_tids(starttid)] on a tree whose leaves from the
    one that contains [starttid] to the rightmost one are [ps]: the walk
    reads the leaves [ps[0..j]] along the right-links and returns; the set
    it returns holds exactly the TIDs covered by the dead items of these
    leaves; it stops at leaf [j] because that is the rightmost leaf (high
    key [MaxPlusOneZSTid]) or because the set is over the memory budget
    there, and at no leaf before; the end TID is the high key of leaf
    [j]. *)
Theorem zsbt_collect_dead_tids_walk rel starttid b ps (fuel : nat) :
  rel_ok rel = true ->
  zsbt_descend rel starttid = Some b ->
  right_chain (rd_blocks rel) b ps -> (length ps <= fuel)%nat ->
  exists (j : nat) plast result,
    ps !! j = Some plast
    /\ zsbt_collect_dead_tids fuel rel starttid
       = Some (Done (result, Some (zs_hikey plast)))
    /\ (forall t,
          In t result <->
          exists p it,
            In p (take (S j) ps) /\ In it (tiditems p)
            /\ item_isdead it = true /\ covers it t)
    /\ (zs_hikey plast = MaxPlusOneZSTid /\ S j = length ps
        \/ over_budget result = true)
    /\ (forall (i : nat) pi, (i < j)%nat -> ps !! i = Some pi ->
          zs_hikey pi <> MaxPlusOneZSTid
          /\ over_budget
               (flat_map (fun p => page_dead_tids (tiditems p))
                  (take (S i) ps)) = false).
Proof.
  intros Hrel Hd Hch Hfuel.
  pose proof (rel_ok_leaves_ok _ Hrel) as [Hpok _].
  destruct (collect_dead_loop_chain rel ps fuel InvalidBuffer starttid
              InvalidBlockNumber [] b)
    as (j & plast & Hj & Hloop & Hstop & Hbefore); auto.
  exists j, plast. eexists. split; [exact Hj|].
  split; [exact Hloop|]. split; [|split; [exact Hstop|exact Hbefore]].
  intros t. cbn [app]. rewrite in_flat_map. split.
  - intros (p & Hin & Ht). exists p.
    assert (Hp : page_ok p = true).
    { assert (Hin' : In p ps).
      { apply list_elem_of_In in Hin. apply list_elem_of_In.
        eapply subseteq_take; eauto. }
      destruct (right_chain_leaf _ _ _ _ Hch Hin') as [b' Hb'].
      apply get_leaf_Some in Hb' as [_ Hb']. eauto. }
    apply page_ok_facts in Hp as (Hlo & _ & Hhi & _ & Hiok).
    apply (page_dead_tids_In _ _ _ t Hiok) in Ht as (it & ? & ? & ?);
      [|unfold MinZSTid in Hlo; lia|exact Hhi].
    exists it. auto.
  - intros (p & it & Hin & Hit & Hdead & Hcov). exists p.
    split; [exact Hin|].
    assert (Hp : page_ok p = true).
    { assert (Hin' : In p ps).
      { apply list_elem_of_In in Hin. apply list_elem_of_In.
        eapply subseteq_take; eauto. }
      destruct (right_chain_leaf _ _ _ _ Hch Hin') as [b' Hb'].
      apply get_leaf_Some in Hb' as [_ Hb']. eauto. }
    apply page_ok_facts in Hp as (Hlo & _ & Hhi & _ & Hiok).
    apply (page_dead_tids_In _ _ _ t Hiok);
      [unfold MinZSTid in Hlo; lia|exact Hhi|].
    exists it. auto.
Qed.

(** ** The scan *)

Lemma skip_elements_spec (n : nat) : forall nexttid tid,
  0 <= tid -> tid + Z.of_nat n < 2 ^ 64 -> Z.of_nat n < 2 ^ 31 ->
  skip_elements n nexttid tid (Z.of_nat n)
  = (tid + Z.max 0 (Z.min (Z.of_nat n) (nexttid - tid)),
     Z.of_nat n - Z.max 0 (Z.min (Z.of_nat n) (nexttid - tid))).
Proof.
  induction n as [|n IH]; intros nexttid tid Ht Hend Hn.
  - simpl. f_equal; lia.
  - cbn [skip_elements].
    destruct (Z.ltb_spec tid nexttid);
      destruct (Z.gtb_spec (Z.of_nat (S n)) 0); try lia; cbn [andb].
    + rewrite (u64_small (tid + 1)) by lia.
      rewrite (s32_small (Z.of_nat (S n) - 1)) by lia.
      replace (Z.of_nat (S n) - 1) with (Z.of_nat n) by lia.
      rewrite IH by lia. f_equal; lia.
    + f_equal; lia.
Qed.

Lemma skip_elements_Z nel nexttid tid :
  0 <= nel < 2 ^ 31 -> 0 <= tid -> tid + nel < 2 ^ 64 ->
  skip_elements (Z.to_nat nel) nexttid tid nel
  = (tid + Z.max 0 (Z.min nel (nexttid - tid)),
     nel - Z.max 0 (Z.min nel (nexttid - tid))).
Proof.
  intros Hn Ht He.
  pose proof (skip_elements_spec (Z.to_nat nel) nexttid tid) as Hs.
  rewrite Z2Nat.id in Hs by lia. apply Hs; lia.
Qed.

(** What [zsbt_tid_scan_extract_array] leaves in the scan, for an item the
    scan has not passed yet. *)
Lemma extract_array_spec scan it :
  0 <= t_tid it -> 1 <= t_nelements it < 2 ^ 31 ->
  t_tid it + t_nelements it <= MaxPlusOneZSTid ->
  0 <= nexttid scan < t_tid it + t_nelements it ->
  0 <= endtid scan < 2 ^ 64 ->
  Z.max (t_tid it) (nexttid scan) < endtid scan ->
  let scan' := zsbt_tid_scan_extract_array scan it in
  let tid := Z.max (t_tid it) (nexttid scan) in
  nexttid scan' = tid
  /\ array_next_datum scan' = 0
  /\ array_num_elements scan'
     = Z.min (t_tid it + t_nelements it - tid) (endtid scan - tid)
  /\ endtid scan' = endtid scan /\ snapshot scan' = snapshot scan
  /\ lastbuf scan' = lastbuf scan /\ active scan' = active scan.
Proof.
  intros Ht Hn Hend Hnext Hendtid Hlt. unfold MaxPlusOneZSTid in Hend.
  unfold zsbt_tid_scan_extract_array.
  rewrite (s32_small (t_nelements it)) by lia.
  rewrite skip_elements_Z by lia.
  set (k := Z.max 0 (Z.min (t_nelements it) (nexttid scan - t_tid it))).
  assert (Hk : t_tid it + k = Z.max (t_tid it) (nexttid scan)) by lia.
  rewrite (u64_small (t_tid it + k + (t_nelements it - k))) by lia.
  cbv zeta. cbn [nexttid array_next_datum array_num_elements endtid
                 snapshot lastbuf active].
  repeat split.
  - destruct (Z.ltb_spec (nexttid scan) (t_tid it + k)); lia.
  - destruct (Z.gtb_spec (t_tid it + k + (t_nelements it - k))
                (endtid scan)).
    + rewrite (u64_small (endtid scan - (t_tid it + k))) by lia.
      rewrite s32_small by lia. lia.
    + lia.
Qed.

Lemma set_nexttid_fields scan tid :
  nexttid (set_nexttid scan tid) = tid
  /\ endtid (set_nexttid scan tid) = endtid scan
  /\ snapshot (set_nexttid scan tid) = snapshot scan
  /\ has_array (set_nexttid scan tid) = has_array scan.
Proof. repeat split. Qed.

(** The loop over the items of a well-formed page: the scan does not go
    back behind [n0], and the array it leaves, if any, is a run of TIDs of a
    visible item, below [endtid]. *)
Lemma scan_page_items_spec rel items : forall lo hi scan n0,
  items_ok lo hi items = true -> 0 <= lo -> hi <= MaxPlusOneZSTid ->
  (forall it, In it items ->
     exists (n : nat) p (i : nat),
       rd_blocks rel !! n = Some (LeafBlock p)
       /\ tiditems p !! i = Some it) ->
  0 <= n0 <= nexttid scan -> n0 < endtid scan -> endtid scan < 2 ^ 64 ->
  nexttid scan < endtid scan \/ nexttid scan <= lo ->
  has_array scan = false ->
  let s' := scan_page_items scan items in
  endtid s' = endtid scan /\ snapshot s' = snapshot scan
  /\ n0 <= nexttid s'
  /\ (has_array s' = true ->
      array_next_datum s' = 0 /\ 0 < array_num_elements s' < 2 ^ 31
      /\ nexttid s' + array_num_elements s' <= endtid scan
      /\ visible_run rel (snapshot scan) (nexttid s')
           (nexttid s' + array_num_elements s')).
Proof.
  induction items as [|it items IH];
    intros lo hi scan n0 Hok Hlo Hhi Hin Hn0 Hn0e Hend HJ Harr.
  - cbv zeta. cbn [scan_page_items].
    split; [reflexivity|]. split; [reflexivity|]. split; [lia|].
    intros Ha. congruence.
  - apply items_ok_cons in Hok as (Hit1 & Hitn & Hit2 & Hok).
    unfold MaxPlusOneZSTid in Hhi.
    assert (Hin' : forall it', In it' items ->
              exists (n : nat) p (i : nat),
                rd_blocks rel !! n = Some (LeafBlock p)
                /\ tiditems p !! i = Some it').
    { intros it' Hi'. apply Hin. now right. }
    cbn [scan_page_items]. unfold zsbt_tid_item_lasttid.
    rewrite (u64_small (t_tid it + t_nelements it - 1)) by lia.
    destruct (Z.gtb_spec (nexttid scan) (t_tid it + t_nelements it - 1)).
    { (* the scan is past this item *)
      apply (IH (t_tid it + t_nelements it) hi); auto; lia. }
    destruct (Z.geb_spec (t_tid it) (endtid scan)).
    { (* the item starts at or after the end of the range *)
      cbv zeta. destruct (set_nexttid_fields scan (endtid scan))
        as (-> & -> & -> & ->).
      split; [reflexivity|]. split; [reflexivity|]. split; [lia|].
      intros Ha. congruence. }
    set (visible := if item_isdead it then false else _).
    destruct visible eqn:Hvis; cbn [negb]; cbv iota.
    2:{ (* dead or invisible: skip the item *)
      rewrite (u64_small (t_tid it + t_nelements it - 1 + 1)) by lia.
      set (scan1 := set_nexttid scan (t_tid it + t_nelements it - 1 + 1)).
      apply (IH (t_tid it + t_nelements it) hi scan1 n0);
        auto; simpl; lia. }
    (* a visible item *)
    assert (Hlt : Z.max (t_tid it) (nexttid scan) < endtid scan) by lia.
    destruct (extract_array_spec scan it)
      as (Hx1 & Hx2 & Hx3 & Hx4 & Hx5 & _); try lia.
    { unfold MaxPlusOneZSTid. lia. }
    set (scan' := zsbt_tid_scan_extract_array scan it) in *.
    assert (Hhas : (array_next_datum scan' <? array_num_elements scan')
                   = true).
    { rewrite Hx2, Hx3. apply Z.ltb_lt. lia. }
    rewrite Hhas. cbv zeta.
    split; [exact Hx4|]. split; [exact Hx5|]. split; [lia|].
    intros _. split; [exact Hx2|]. split; [lia|]. split; [lia|].
    destruct (Hin it (or_introl eq_refl)) as (n & p & i & Hp & Hi).
    exists n, p, i, it. subst visible.
    destruct (item_isdead it); [discriminate|].
    repeat split; auto; lia.
Qed.

Lemma scan_locate_fields rel scan :
  exists b,
    match scan_locate rel scan with
    | FollowRight s => s = set_lastbuf scan b
    | AtPage _ s => s = set_lastbuf scan b
    end.
Proof.
  unfold scan_locate. destruct scan as [a sn nt et lb au an ad]. simpl.
  destruct lb as [b|]; [|eexists; reflexivity].
  destruct (zsbt_page_is_expected rel nt b); simpl;
    [exists (Some b); reflexivity|].
  destruct (zsbt_page_is_expected rel (u64 (nt - 1)) b);
    [|eexists; reflexivity].
  destruct (get_leaf (rd_blocks rel) b) as [page|]; [|eexists; reflexivity].
  destruct (zs_next page =? InvalidBlockNumber); simpl;
    eexists; reflexivity.
Qed.

Lemma scan_inv_lastbuf rel scan b :
  scan_inv rel scan -> scan_inv rel (set_lastbuf scan b).
Proof. intros Hinv. exact Hinv. Qed.

Lemma visible_run_narrow rel snap lo hi lo' hi' :
  visible_run rel snap lo hi -> lo <= lo' -> hi' <= hi ->
  visible_run rel snap lo' hi'.
Proof.
  intros (n & p & i & it & Hp & Hi & Hd & Hv & H1 & H2) Hlo Hhi.
  exists n, p, i, it. repeat split; auto; lia.
Qed.

(** One call of [zsbt_tid_scan_next] that returns a TID: the TID is not
    behind the scan, is below [endtid], is a TID of a visible item that is
    not dead, and the scan goes on after it. *)
Lemma scan_next_loop_spec rel :
  leaves_ok (rd_blocks rel) ->
  forall (fuel : nat) scan tid scan',
    scan_inv rel scan ->
    scan_next_loop fuel rel scan = Some (Done (tid, scan')) ->
    tid = InvalidZSTid
    \/ (nexttid scan <= tid /\ tid < endtid scan
        /\ nexttid scan' = tid + 1
        /\ endtid scan' = endtid scan /\ snapshot scan' = snapshot scan
        /\ visible_run rel (snapshot scan) tid (tid + 1)
        /\ scan_inv rel scan').
Proof.
  intros [Hpok _].
  induction fuel as [|fuel IH]; intros scan tid scan' Hinv Hrun;
    [discriminate|].
  cbn [scan_next_loop] in Hrun.
  destruct (Z.ltb_spec (nexttid scan) (endtid scan)) as [Hlt|Hge];
    cbn [negb] in Hrun.
  2:{ inversion Hrun; subst. now left. }
  fold (has_array scan) in Hrun.
  destruct Hinv as (Hn0 & Hend & Harr).
  destruct (has_array scan) eqn:Hhas.
  { (* have_array *)
    right. inversion Hrun; subst tid scan'. clear Hrun.
    destruct (Harr eq_refl) as (Hnd & Hne & Hle & Hvis).
    unfold has_array in Hhas. apply Z.ltb_lt in Hhas.
    cbn [nexttid endtid snapshot].
    rewrite (u64_small (nexttid scan + 1)) by lia.
    split; [lia|]. split; [lia|]. split; [reflexivity|].
    split; [reflexivity|]. split; [reflexivity|].
    split; [eapply visible_run_narrow; eauto; lia|].
    split; [simpl; lia|]. split; [simpl; lia|].
    unfold has_array. cbn [array_next_datum array_num_elements nexttid
                           endtid snapshot].
    rewrite (s32_small (array_next_datum scan + 1)) by lia.
    intros Hmore. apply Z.ltb_lt in Hmore.
    split; [lia|]. split; [lia|]. split; [lia|].
    eapply visible_run_narrow; eauto; lia. }
  (* no array: look for the next item *)
  assert (Hcont : forall s,
            nexttid scan <= nexttid s -> endtid s = endtid scan ->
            snapshot s = snapshot scan -> scan_inv rel s ->
            scan_next_loop fuel rel s = Some (Done (tid, scan')) ->
            tid = InvalidZSTid
            \/ (nexttid scan <= tid /\ tid < endtid scan
                /\ nexttid scan' = tid + 1
                /\ endtid scan' = endtid scan
                /\ snapshot scan' = snapshot scan
                /\ visible_run rel (snapshot scan) tid (tid + 1)
                /\ scan_inv rel scan')).
  { intros s Hs1 Hs2 Hs3 Hsinv Hsrun.
    destruct (IH s tid scan' Hsinv Hsrun)
      as [Hinv'|(? & ? & ? & ? & ? & ? & ?)]; [now left|right].
    rewrite Hs2, Hs3 in *.
    split; [lia|]. repeat (split; [assumption|]). assumption. }
  destruct (scan_locate_fields rel scan) as [b Hloc].
  destruct (scan_locate rel scan) as [scan1|buf scan1]; subst scan1.
  { apply (Hcont (set_lastbuf scan b)); auto; try reflexivity.
    split; [exact Hn0|]. split; [exact Hend|].
    intros Hc. change (has_array scan = true) in Hc. congruence. }
  destruct buf as [buf|]; [|discriminate].
  destruct (get_leaf (rd_blocks rel) buf) as [page|] eqn:Hpage;
    [|discriminate].
  apply get_leaf_Some in Hpage as [_ Hpage].
  pose proof (Hpok _ _ Hpage) as Hp.
  apply page_ok_facts in Hp as (Hlo & Hlh & Hhi & Hlvl & Hiok).
  destruct (scan_page_items_spec rel (tiditems page) (zs_lokey page)
              (zs_hikey page) (set_lastbuf scan b) (nexttid scan))
    as (He2 & Hs2 & Hn2 & Ha2); auto.
  { unfold MinZSTid in Hlo. lia. }
  { intros it Hin. apply list_elem_of_In, list_elem_of_lookup in Hin
      as [i Hi]. eauto. }
  { simpl. lia. }
  set (scan2 := scan_page_items (set_lastbuf scan b) (tiditems page)) in *.
  cbn [endtid snapshot set_lastbuf] in He2, Hs2, Ha2.
  fold (has_array scan2) in Hrun.
  destruct (has_array scan2) eqn:Hhas2.
  { apply (Hcont scan2); auto.
    destruct (Ha2 eq_refl) as (Hd0 & Hnum & Hle & Hvis).
    split; [lia|]. split; [lia|]. intros _.
    rewrite Hd0, Z.sub_0_r, He2, Hs2. repeat split; auto; lia. }
  (* No more items on this page. Walk right, if possible *)
  set (scan3 := if nexttid scan2 <? zs_hikey page
                then set_nexttid scan2 (zs_hikey page) else scan2) in *.
  assert (H3 : nexttid scan2 <= nexttid scan3
               /\ endtid scan3 = endtid scan2
               /\ snapshot scan3 = snapshot scan2
               /\ has_array scan3 = false).
  { subst scan3. destruct (Z.ltb_spec (nexttid scan2) (zs_hikey page));
      simpl; repeat split; auto; lia. }
  destruct H3 as (H31 & H32 & H33 & H34).
  destruct (zs_next page =? buf); [discriminate|].
  destruct (_ || _).
  { inversion Hrun; subst. now left. }
  apply (Hcont (set_lastbuf scan3 (Some (zs_next page)))); auto;
    cbn [nexttid endtid snapshot set_lastbuf]; try lia; try congruence.
  split; [simpl; lia|]. split; [simpl; lia|].
  intros Hc. change (has_array scan3 = true) in Hc. congruence.
Qed.

(** In a well-formed tree at most one item covers a TID. *)
Lemma covering_item_unique rel (n n' : nat) p p' (i i' : nat) it it' t :
  leaves_ok (rd_blocks rel) ->
  rd_blocks rel !! n = Some (LeafBlock p) -> tiditems p !! i = Some it ->
  rd_blocks rel !! n' = Some (LeafBlock p') ->
  tiditems p' !! i' = Some it' ->
  covers it t -> covers it' t -> it = it'.
Proof.
  intros [Hpok Hap] Hp Hi Hp' Hi' Hc Hc'.
  pose proof (page_ok_covers _ _ _ _ (Hpok _ _ Hp) Hi Hc) as Hpc.
  pose proof (page_ok_covers _ _ _ _ (Hpok _ _ Hp') Hi' Hc') as Hpc'.
  assert (n = n').
  { destruct (Nat.eq_dec n n') as [|Hne]; [assumption|].
    pose proof (covers_not_apart _ _ _ Hpc Hpc').
    pose proof (Hap n n' p p' Hne Hp Hp'). congruence. }
  subst n'. rewrite Hp in Hp'. inversion Hp'; subst p'.
  pose proof (Hpok _ _ Hp) as Hpp.
  apply page_ok_facts in Hpp as (_ & _ & _ & _ & Hiok).
  destruct Hc, Hc'.
  destruct (Nat.lt_trichotomy i i') as [Hlt|[Heq|Hlt]].
  - pose proof (items_ok_ordered _ _ _ _ _ _ _ Hiok Hi Hi' Hlt). lia.
  - subst i'. congruence.
  - pose proof (items_ok_ordered _ _ _ _ _ _ _ Hiok Hi' Hi Hlt). lia.
Qed.

Lemma scan_tids_spec rel :
  leaves_ok (rd_blocks rel) ->
  forall (n fuel : nat) scan,
    scan_inv rel scan ->
    StronglySorted Z.lt (scan_tids n fuel rel scan)
    /\ Forall (fun t => nexttid scan <= t < endtid scan
                        /\ visible_run rel (snapshot scan) t (t + 1))
         (scan_tids n fuel rel scan).
Proof.
  intros Hok. induction n as [|n IH]; intros fuel scan Hinv.
  - split; constructor.
  - cbn [scan_tids]. unfold zsbt_tid_scan_next.
    destruct (active scan); cbn [negb].
    2:{ cbn. split; constructor. }
    destruct (scan_next_loop fuel rel scan) as [[[tid scan']| |]|] eqn:Hrun;
      try (split; constructor).
    destruct (Z.eqb_spec tid InvalidZSTid) as [|Hne];
      [split; constructor|].
    destruct (scan_next_loop_spec rel Hok fuel scan tid scan' Hinv Hrun)
      as [|(Hge & Hlt & Hnext & Hend & Hsnap & Hvis & Hinv')];
      [contradiction|].
    destruct (IH fuel scan' Hinv') as [Hsorted Hall].
    rewrite Hnext, Hend, Hsnap in Hall.
    split.
    + constructor; [exact Hsorted|].
      eapply Forall_impl; [exact Hall|]. intros t [Ht _]. simpl in Ht. lia.
    + constructor; [split; [lia|exact Hvis]|].
      eapply Forall_impl; [exact Hall|]. intros t [Ht Hv]. simpl in Ht.
      split; [lia|exact Hv].
Qed.

(** C1.  The TIDs that successive calls of [zsbt_tid_scan_next] return for
    a scan opened over [starttid, endtid) are in strictly ascending order;
    each is in [starttid, endtid); each is covered by an item of a leaf
    whose undo pointer satisfies the visibility test of the snapshot; and no
    item that covers it has the DEAD flag. *)
Theorem zsbt_tid_scan_next_ascending rel starttid endtid snap
    (n fuel : nat) :
  rel_ok rel = true -> 0 <= starttid -> endtid < 2 ^ 64 ->
  let tids :=
    scan_tids n fuel rel (zsbt_tid_begin_scan rel starttid endtid snap) in
  StronglySorted Z.lt tids
  /\ forall t, In t tids ->
       starttid <= t < endtid
       /\ (exists (b : nat) p it,
             rd_blocks rel !! b = Some (LeafBlock p)
             /\ In it (tiditems p) /\ covers it t
             /\ zs_SatisfiesVisibility snap (t_undo_ptr it) = true)
       /\ (forall (b : nat) p it,
             rd_blocks rel !! b = Some (LeafBlock p) ->
             In it (tiditems p) -> covers it t ->
             item_isdead it = false).
Proof.
  intros Hrel Hstart Hend tids.
  pose proof (rel_ok_leaves_ok _ Hrel) as Hok.
  assert (Hinv : scan_inv rel (zsbt_tid_begin_scan rel starttid endtid snap)).
  { split; [exact Hstart|]. split; [exact Hend|]. intros Hc. discriminate. }
  destruct (scan_tids_spec rel Hok n fuel _ Hinv) as [Hsorted Hall].
  split; [exact Hsorted|].
  intros t Hin. rewrite Forall_forall in Hall.
  apply list_elem_of_In in Hin.
  destruct (Hall t Hin)
    as (Hrange & b & p & i & it & Hp & Hi & Hdead & Hvis & H1 & H2).
  simpl in Hrange, Hvis.
  assert (Hcov : covers it t) by (unfold covers; lia).
  split; [exact Hrange|]. split.
  - exists b, p, it. repeat split; auto; try lia.
    apply list_elem_of_In. eapply list_elem_of_lookup_2; eauto.
  - intros b' p' it' Hp' Hin' Hcov'.
    apply list_elem_of_In, list_elem_of_lookup in Hin' as [i' Hi'].
    rewrite <- (covering_item_unique rel b b' p p' i i' it it' t); auto.
Qed.

(** *** The scan returns *)

(** The loop over the items of a page leaves the scan on the page, at a TID
    of the page or at the end of the range. *)
Lemma scan_page_items_bound items : forall lo hi scan,
  items_ok lo hi items = true -> 0 <= lo -> hi <= MaxPlusOneZSTid ->
  0 <= nexttid scan <= hi -> endtid scan < 2 ^ 64 ->
  nexttid scan < endtid scan \/ nexttid scan <= lo ->
  let s' := scan_page_items scan items in
  lastbuf s' = lastbuf scan /\ active s' = active scan
  /\ (nexttid s' <= hi \/ nexttid s' = endtid scan).
Proof.
  induction items as [|it items IH];
    intros lo hi scan Hok Hlo Hhi Hn Hend HJ.
  - cbv zeta. cbn [scan_page_items]. repeat split; auto. left. lia.
  - apply items_ok_cons in Hok as (Hit1 & Hitn & Hit2 & Hok).
    unfold MaxPlusOneZSTid in Hhi.
    cbn [scan_page_items]. unfold zsbt_tid_item_lasttid.
    rewrite (u64_small (t_tid it + t_nelements it - 1)) by lia.
    destruct (Z.gtb_spec (nexttid scan) (t_tid it + t_nelements it - 1)).
    { apply (IH (t_tid it + t_nelements it) hi); auto; lia. }
    destruct (Z.geb_spec (t_tid it) (endtid scan)).
    { cbv zeta. repeat split; auto. }
    set (visible := if item_isdead it then false else _).
    destruct visible eqn:Hvis; cbn [negb]; cbv iota.
    2:{ rewrite (u64_small (t_tid it + t_nelements it - 1 + 1)) by lia.
        set (scan1 := set_nexttid scan (t_tid it + t_nelements it - 1 + 1)).
        apply (IH (t_tid it + t_nelements it) hi scan1);
          auto; simpl; lia. }
    assert (Hlt : Z.max (t_tid it) (nexttid scan) < endtid scan) by lia.
    destruct (extract_array_spec scan it)
      as (Hx1 & Hx2 & Hx3 & Hx4 & Hx5 & Hx6 & Hx7); try lia.
    { unfold MaxPlusOneZSTid. lia. }
    set (scan' := zsbt_tid_scan_extract_array scan it) in *.
    assert (Hhas : (array_next_datum scan' <? array_num_elements scan')
                   = true).
    { rewrite Hx2, Hx3. apply Z.ltb_lt. lia. }
    rewrite Hhas. cbv zeta.
    split; [exact Hx6|]. split; [exact Hx7|]. left. lia.
Qed.

(** With an array to read from, or at the end of the range, the loop
    returns at once. *)
Lemma scan_next_loop_ready (fuel : nat) rel scan :
  0 <= nexttid scan -> endtid scan < 2 ^ 64 ->
  nexttid scan >= endtid scan \/ has_array scan = true ->
  exists tid scan',
    scan_next_loop (S fuel) rel scan = Some (Done (tid, scan'))
    /\ nexttid scan <= nexttid scan' /\ endtid scan' = endtid scan.
Proof.
  intros Hn Hend Hcase. cbn [scan_next_loop].
  destruct (Z.ltb_spec (nexttid scan) (endtid scan)) as [Hlt|Hge];
    cbn [negb].
  2:{ exists InvalidZSTid, scan. split; [reflexivity|]. split; [lia|auto]. }
  destruct Hcase as [Hge|Harr]; [lia|].
  unfold has_array in Harr. rewrite Harr.
  eexists _, _. split; [reflexivity|]. cbn [nexttid endtid].
  rewrite (u64_small (nexttid scan + 1)) by lia. split; [lia|reflexivity].
Qed.

(** On the chain of right-links, from a leaf that covers the next TID, the
    loop reads at most one leaf per iteration and returns. *)
Lemma scan_next_loop_steady rel (N : nat) :
  leaves_ok (rd_blocks rel) -> right_linked (rd_blocks rel) N ->
  forall ps (fuel : nat) scan b,
    right_chain (rd_blocks rel) b ps -> (length ps + 1 < fuel)%nat ->
    lastbuf scan = Some b ->
    zsbt_page_is_expected rel (nexttid scan) b = true ->
    MinZSTid <= nexttid scan -> endtid scan <= MaxPlusOneZSTid ->
    exists tid scan',
      scan_next_loop fuel rel scan = Some (Done (tid, scan'))
      /\ nexttid scan <= nexttid scan' /\ endtid scan' = endtid scan.
Proof.
  intros Hleaves Hlinked.
  induction ps as [|p rest IH];
    intros fuel scan b Hchain Hfuel Hlast Hexp Hmin Hmax; [contradiction|].
  unfold MinZSTid in Hmin. unfold MaxPlusOneZSTid in Hmax.
  destruct Hchain as [Hget Hrest].
  destruct fuel as [|fuel]; [simpl in Hfuel; lia|].
  destruct (Z.ltb_spec (nexttid scan) (endtid scan)) as [Hlt|Hge].
  2:{ apply scan_next_loop_ready; [lia|lia|left; lia]. }
  destruct (has_array scan) eqn:Harr.
  { apply scan_next_loop_ready; [lia|lia|now right]. }
  cbn [scan_next_loop].
  destruct (Z.ltb_spec (nexttid scan) (endtid scan)) as [_|]; [|lia].
  cbn [negb]. fold (has_array scan). rewrite Harr.
  unfold scan_locate. rewrite Hlast, Hexp. cbn [negb]. rewrite Hget.
  unfold zsbt_page_is_expected in Hexp. rewrite Hget in Hexp.
  unfold page_covers in Hexp.
  apply andb_prop in Hexp as [Hexp Hcov2].
  apply andb_prop in Hexp as [_ Hcov1].
  apply Z.leb_le in Hcov1. apply Z.ltb_lt in Hcov2.
  pose proof (get_leaf_Some _ _ _ Hget) as [Hb0 Hpage].
  pose proof (proj1 Hleaves _ _ Hpage) as Hpok.
  apply page_ok_facts in Hpok as (Hlo & Hlh & Hhi & Hlvl & Hiok).
  unfold MinZSTid in Hlo.
  destruct (scan_page_items_spec rel (tiditems p) (zs_lokey p)
              (zs_hikey p) scan (nexttid scan))
    as (He2 & _ & Hn2 & Ha2); auto; try lia.
  { intros it Hin. apply list_elem_of_In, list_elem_of_lookup in Hin
      as [i Hi]. eauto. }
  destruct (scan_page_items_bound (tiditems p) (zs_lokey p) (zs_hikey p)
              scan)
    as (Hl2 & _ & Hb2); auto; try lia.
  set (scan2 := scan_page_items scan (tiditems p)) in *.
  fold (has_array scan2).
  destruct (has_array scan2) eqn:Harr2.
  { destruct (Ha2 eq_refl) as (_ & Hnum & Hle & _).
    destruct fuel as [|fuel]; [simpl in Hfuel; lia|].
    destruct (scan_next_loop_ready fuel rel scan2)
      as (tid & scan' & Hrun & Hn' & He'); [lia|lia|now right|].
    exists tid, scan'. split; [exact Hrun|]. split; [lia|congruence]. }
  set (scan3 := if nexttid scan2 <? zs_hikey p
                then set_nexttid scan2 (zs_hikey p) else scan2).
  assert (H3 : nexttid scan3 = Z.max (nexttid scan2) (zs_hikey p)
               /\ endtid scan3 = endtid scan2
               /\ lastbuf scan3 = lastbuf scan2).
  { subst scan3. destruct (Z.ltb_spec (nexttid scan2) (zs_hikey p));
      simpl; repeat split; auto; lia. }
  destruct H3 as (H31 & H32 & H33).
  destruct (Hlinked _ _ Hget) as [Hself _].
  destruct (Z.eqb_spec (zs_next p) b) as [|_]; [contradiction|].
  destruct ((zs_next p =? InvalidBlockNumber)
            || (nexttid scan3 >=? endtid scan3)) eqn:Hstop.
  { eexists _, _. split; [reflexivity|]. cbn [nexttid endtid].
    split; [lia|congruence]. }
  apply orb_false_elim in Hstop as [Hnext Hmore].
  apply Z.eqb_neq in Hnext.
  destruct (Z.geb_spec (nexttid scan3) (endtid scan3)) as [|Hmore'];
    [discriminate|].
  destruct rest as [|q rest'].
  { unfold MaxPlusOneZSTid in Hrest. lia. }
  destruct Hrest as (_ & _ & Hqcov & Hchain').
  assert (Hq : get_leaf (rd_blocks rel) (zs_next p) = Some q)
    by (destruct Hchain' as [Hq _]; exact Hq).
  assert (Hn3 : nexttid scan3 = zs_hikey p) by lia.
  destruct (IH fuel (set_lastbuf scan3 (Some (zs_next p))) (zs_next p))
    as (tid & scan' & Hrun & Hn' & He'); auto.
  { simpl in *. lia. }
  { cbn [nexttid set_lastbuf]. unfold zsbt_page_is_expected.
    rewrite Hq, Hn3. exact Hqcov. }
  { cbn [nexttid set_lastbuf]. unfold MinZSTid. lia. }
  { cbn [endtid set_lastbuf]. unfold MaxPlusOneZSTid. lia. }
  exists tid, scan'. split; [exact Hrun|].
  cbn [nexttid endtid set_lastbuf] in Hn', He'.
  split; [lia|congruence].
Qed.

Lemma descend_expected rel t :
  leaves_cover rel -> MinZSTid <= t < MaxPlusOneZSTid ->
  exists buf,
    zsbt_descend rel t = Some buf
    /\ zsbt_page_is_expected rel t buf = true.
Proof.
  intros Hcover Ht. specialize (Hcover t Ht).
  destruct (zsbt_descend rel t) as [buf|] eqn:Hd; [|contradiction].
  exists buf. split; [reflexivity|].
  unfold zsbt_descend in Hd.
  apply descend_from_Some in Hd as (n & p & -> & Hp & Hcov).
  unfold zsbt_page_is_expected. rewrite Z.add_0_l.
  now rewrite (proj2 (get_leaf_lookup _ _ _) Hp).
Qed.

(** Where the loop goes to look for the next TID: to a leaf that covers
    it, or from the leaf before it along the right-link. *)
Lemma scan_locate_cases rel scan :
  leaves_cover rel -> MinZSTid <= nexttid scan < MaxPlusOneZSTid ->
  (exists buf,
     scan_locate rel scan = AtPage (Some buf) (set_lastbuf scan (Some buf))
     /\ zsbt_page_is_expected rel (nexttid scan) buf = true)
  \/ (exists b p,
        get_leaf (rd_blocks rel) b = Some p
        /\ page_covers p (nexttid scan - 1) = true
        /\ page_covers p (nexttid scan) = false
        /\ zs_next p <> InvalidBlockNumber
        /\ scan_locate rel scan
           = FollowRight (set_lastbuf scan (Some (zs_next p)))).
Proof.
  intros Hcover Ht.
  destruct (descend_expected rel (nexttid scan) Hcover Ht)
    as (buf & Hd & Hexp).
  assert (Hre : AtPage (zsbt_descend rel (nexttid scan))
                  (set_lastbuf scan (zsbt_descend rel (nexttid scan)))
                = AtPage (Some buf) (set_lastbuf scan (Some buf)))
    by now rewrite Hd.
  unfold scan_locate. cbv zeta.
  destruct (lastbuf scan) as [b|] eqn:Hlast.
  2:{ left. exists buf. split; [exact Hre|exact Hexp]. }
  destruct (zsbt_page_is_expected rel (nexttid scan) b) eqn:E1;
    cbn [negb].
  { left. exists b. split; [|exact E1].
    f_equal. destruct scan. simpl in *. now subst. }
  unfold MinZSTid, MaxPlusOneZSTid in Ht.
  rewrite (u64_small (nexttid scan - 1)) by lia.
  destruct (zsbt_page_is_expected rel (nexttid scan - 1) b) eqn:E2.
  2:{ left. exists buf. split; [exact Hre|exact Hexp]. }
  unfold zsbt_page_is_expected in E1, E2.
  destruct (get_leaf (rd_blocks rel) b) as [p|] eqn:Hget;
    [|discriminate].
  destruct (Z.eqb_spec (zs_next p) InvalidBlockNumber) as [|Hnext];
    cbn [negb].
  { left. exists buf. split; [exact Hre|exact Hexp]. }
  right. exists b, p. repeat split; auto.
Qed.

Lemma scan_next_loop_at_page (fuel : nat) rel scan buf :
  nexttid scan < endtid scan -> has_array scan = false ->
  scan_locate rel scan = AtPage (Some buf) (set_lastbuf scan (Some buf)) ->
  zsbt_page_is_expected rel (nexttid scan) buf = true ->
  scan_next_loop fuel rel scan
  = scan_next_loop fuel rel (set_lastbuf scan (Some buf)).
Proof.
  intros Hlt Harr Hloc Hexp. destruct fuel as [|fuel]; [reflexivity|].
  cbn [scan_next_loop]. rewrite Hloc.
  unfold scan_locate at 1.
  cbn [lastbuf nexttid endtid array_next_datum array_num_elements
       set_lastbuf].
  unfold has_array in Harr. rewrite Harr, Hexp.
  destruct (Z.ltb_spec (nexttid scan) (endtid scan)); [|lia].
  reflexivity.
Qed.

(** [zsbt_tid_scan_next] returns: on a tree whose leaves cover all TIDs
    and are chained by their right-links, [N] leaves at most from any leaf
    to the rightmost one, [N + 3] iterations of the loop are enough.  The
    scan it leaves is again within the range of TIDs. *)
Lemma zsbt_tid_scan_next_returns rel (N fuel : nat) scan :
  rel_ok rel = true -> right_linked (rd_blocks rel) N ->
  leaves_cover rel ->
  MinZSTid <= nexttid scan -> endtid scan <= MaxPlusOneZSTid ->
  (N + 2 < fuel)%nat ->
  exists tid scan',
    zsbt_tid_scan_next fuel rel scan = Some (Done (tid, scan'))
    /\ MinZSTid <= nexttid scan' /\ endtid scan' <= MaxPlusOneZSTid.
Proof.
  intros Hok Hlinked Hcover Hmin Hmax Hfuel.
  apply rel_ok_leaves_ok in Hok.
  unfold zsbt_tid_scan_next.
  destruct (active scan); cbn [negb].
  2:{ exists InvalidZSTid, scan. auto. }
  assert (Hloop : exists tid scan',
            scan_next_loop fuel rel scan = Some (Done (tid, scan'))
            /\ nexttid scan <= nexttid scan'
            /\ endtid scan' = endtid scan).
  { destruct fuel as [|fuel]; [lia|].
    unfold MinZSTid in Hmin. unfold MaxPlusOneZSTid in Hmax.
    destruct (Z.ltb_spec (nexttid scan) (endtid scan)) as [Hlt|Hge].
    2:{ apply scan_next_loop_ready; [lia|lia|left; lia]. }
    destruct (has_array scan) eqn:Harr.
    { apply scan_next_loop_ready; [lia|lia|now right]. }
    destruct (scan_locate_cases rel scan Hcover)
      as [(buf & Hloc & Hexp)|(b & p & Hget & Hc1 & Hc2 & Hnext & Hloc)].
    { unfold MinZSTid, MaxPlusOneZSTid. lia. }
    - rewrite (scan_next_loop_at_page _ _ _ _ Hlt Harr Hloc Hexp).
      assert (Hleaf : exists p, get_leaf (rd_blocks rel) buf = Some p).
      { unfold zsbt_page_is_expected in Hexp.
        destruct (get_leaf (rd_blocks rel) buf) as [p|];
          [now exists p|discriminate]. }
      destruct Hleaf as [p Hget].
      destruct (Hlinked _ _ Hget) as (_ & ps & Hchain & Hlen).
      destruct (scan_next_loop_steady rel N Hok Hlinked ps (S fuel)
                  (set_lastbuf scan (Some buf)) buf)
        as (tid & scan' & Hrun & Hn' & He');
        [exact Hchain | lia | reflexivity | exact Hexp
        | cbn [nexttid set_lastbuf]; unfold MinZSTid; lia
        | cbn [endtid set_lastbuf]; unfold MaxPlusOneZSTid; lia |].
      exists tid, scan'. split; [exact Hrun|exact (conj Hn' He')].
    - cbn [scan_next_loop].
      destruct (Z.ltb_spec (nexttid scan) (endtid scan)) as [_|]; [|lia].
      cbn [negb]. fold (has_array scan). rewrite Harr, Hloc.
      destruct (Hlinked _ _ Hget) as (_ & ps & Hchain & Hlen).
      destruct ps as [|p' rest]; [contradiction|].
      destruct Hchain as [Hget' Hrest].
      assert (p' = p) by congruence. subst p'.
      unfold page_covers in Hc1, Hc2.
      apply andb_prop in Hc1 as [Hc1 Hhi1].
      apply andb_prop in Hc1 as [Hlvl Hlo1].
      rewrite Hlvl in Hc2. cbn [andb] in Hc2.
      apply Z.leb_le in Hlo1. apply Z.ltb_lt in Hhi1.
      assert (Hhk : nexttid scan = zs_hikey p).
      { destruct (Z.leb_spec (zs_lokey p) (nexttid scan)); [|lia].
        destruct (Z.ltb_spec (nexttid scan) (zs_hikey p));
          [discriminate|lia]. }
      destruct rest as [|q rest'].
      { unfold MaxPlusOneZSTid in Hrest. lia. }
      destruct Hrest as (_ & _ & Hqcov & Hchain').
      assert (Hq : get_leaf (rd_blocks rel) (zs_next p) = Some q)
        by (destruct Hchain' as [Hq _]; exact Hq).
      destruct (scan_next_loop_steady rel N Hok Hlinked (q :: rest') fuel
                  (set_lastbuf scan (Some (zs_next p))) (zs_next p))
        as (tid & scan' & Hrun & Hn' & He');
        [exact Hchain' | simpl in *; lia | reflexivity
        | cbn [nexttid set_lastbuf]; unfold zsbt_page_is_expected;
          rewrite Hq, Hhk; exact Hqcov
        | cbn [nexttid set_lastbuf]; unfold MinZSTid; lia
        | cbn [endtid set_lastbuf]; unfold MaxPlusOneZSTid; lia |].
      exists tid, scan'. split; [exact Hrun|exact (conj Hn' He')]. }
  destruct Hloop as (tid & scan' & Hrun & Hn' & He').
  exists tid, scan'. split; [exact Hrun|]. split; [lia|]. now rewrite He'.
Qed.

(** ** Picking the split *)

Lemma MAXALIGN_ge x : 0 < MAXIMUM_ALIGNOF -> x <= MAXALIGN x.
Proof.
  intros Ha. unfold MAXALIGN.
  assert (Hnz : MAXIMUM_ALIGNOF <> 0) by lia.
  pose proof (Z.div_mod (x + MAXIMUM_ALIGNOF - 1) MAXIMUM_ALIGNOF Hnz).
  pose proof (Z.mod_pos_bound (x + MAXIMUM_ALIGNOF - 1) MAXIMUM_ALIGNOF Ha).
  nia.
Qed.

Lemma space_on_empty_page_eq :
  geometry_ok = true ->
  space_on_empty_page
  = BLCKSZ - MAXALIGN SizeOfPageHeaderData - MAXALIGN SizeOfZSBtreePageOpaque
  /\ SizeOfZSTidArrayItem <= space_on_empty_page < 2 ^ 31.
Proof.
  intros Hg. apply geometry_ok_facts in Hg as (Ha & Hh & Ho & Hs & Hb & Hc).
  pose proof (MAXALIGN_nonneg _ Ha Hh). pose proof (MAXALIGN_nonneg _ Ha Ho).
  pose proof (MAXALIGN_ge SizeOfZSTidArrayItem Ha).
  unfold space_on_empty_page.
  rewrite u64_small by lia. rewrite s32_small by lia. lia.
Qed.

(** C3 (as amended).  [zsbt_tid_recompress_picksplit] counts
    [num_pages], the pages the items need; the free space left over,
    [total_free], is less than a page.  When everything fits on one page
    [free_space_per_page] is 0.  Otherwise, on a leaf that is not the
    rightmost one, [free_space_per_page] is [total_free / num_pages]: the
    free space is spread evenly over the pages.  On the rightmost leaf
    ([hikey == MaxPlusOneZSTid]) it is [total_free * 0.1 / (num_pages - 1)],
    which in double precision comes to the integer quotient of
    [total_free] by [10 * (num_pages - 1)]: a tenth of the free space is
    spread over the earlier pages, the rest is left to the last page. *)
Theorem zsbt_tid_recompress_picksplit_distribution cxt items :
  geometry_ok = true -> items <> [] ->
  Z.of_nat (length items) * SizeOfZSTidArrayItem + BLCKSZ < 2 ^ 31 ->
  let cxt' := zsbt_tid_recompress_picksplit cxt items in
  let n := cxt_num_pages cxt' in
  let total_sz := Z.of_nat (length items) * SizeOfZSTidArrayItem in
  let total_free := space_on_empty_page * n - total_sz in
  let f := cxt_free_space_per_page cxt' in
  1 <= n
  /\ (n - 1) * space_on_empty_page < total_sz <= n * space_on_empty_page
  /\ 0 <= total_free < space_on_empty_page
  /\ (total_sz <= space_on_empty_page -> n = 1 /\ f = 0)
  /\ (space_on_empty_page < total_sz ->
      cxt_hikey cxt <> MaxPlusOneZSTid ->
      1 < n /\ f = total_free / n
      /\ n * f <= total_free < n * f + n)
  /\ (space_on_empty_page < total_sz ->
      cxt_hikey cxt = MaxPlusOneZSTid ->
      1 < n /\ f = total_free / (10 * (n - 1))
      /\ 10 * (n - 1) * f <= total_free < 10 * (n - 1) * f + 10 * (n - 1)).
Proof.
  intros Hg Hne Hsmall.
  destruct (space_on_empty_page_eq Hg) as [Hsp0 [Hsp1 Hsp2]].
  pose proof (geometry_ok_facts Hg) as (Ha & Hh & Ho & Hs & Hb & Hc).
  set (sp := space_on_empty_page) in *.
  set (len := Z.of_nat (length items)) in *.
  assert (Hlen : 1 <= len).
  { subst len. destruct items; [contradiction|]. simpl length. lia. }
  pose proof (MAXALIGN_nonneg _ Ha Hh) as Hmh.
  pose proof (MAXALIGN_nonneg _ Ha Ho) as Hmo.
  pose proof (MAXALIGN_ge SizeOfZSTidArrayItem Ha) as Hms.
  assert (Hsz : 0 <= len * SizeOfZSTidArrayItem < 2 ^ 31 - BLCKSZ) by nia.
  assert (Hlen2 : len <= len * SizeOfZSTidArrayItem) by nia.
  assert (Hspb : sp <= BLCKSZ) by (subst sp; rewrite Hsp0; lia).
  assert (Htsz : picksplit_total_sz items = len * SizeOfZSTidArrayItem).
  { unfold picksplit_total_sz. fold len.
    rewrite (s32_small len) by lia.
    rewrite (u64_small (len * SizeOfZSTidArrayItem)) by lia. reflexivity. }
  assert (Hnp : picksplit_num_pages items
                = (len * SizeOfZSTidArrayItem + sp - 1) / sp).
  { unfold picksplit_num_pages. rewrite Htsz. fold sp.
    rewrite (u64_small sp) by lia.
    rewrite (u64_small (len * SizeOfZSTidArrayItem + sp - 1)) by nia.
    apply s32_small.
    assert (0 <= (len * SizeOfZSTidArrayItem + sp - 1) / sp
            <= len * SizeOfZSTidArrayItem + sp - 1).
    { split; [apply Z.div_pos; nia|].
      apply Z.div_le_upper_bound; nia. }
    nia. }
  set (q := (len * SizeOfZSTidArrayItem + sp - 1) / sp) in *.
  assert (Hq : sp * q <= len * SizeOfZSTidArrayItem + sp - 1
               < sp * q + sp).
  { assert (Hnz : sp <> 0) by lia. assert (Hpos : 0 < sp) by lia.
    pose proof (Z.div_mod (len * SizeOfZSTidArrayItem + sp - 1) sp Hnz)
      as Hdm.
    pose proof (Z.mod_pos_bound (len * SizeOfZSTidArrayItem + sp - 1) sp
                  Hpos).
    fold q in Hdm. lia. }
  assert (Hq1 : 1 <= q) by nia.
  assert (Hqb : sp * q < 2 ^ 31 /\ q <= sp * q) by nia.
  assert (Htf : picksplit_total_free items
                = sp * q - len * SizeOfZSTidArrayItem).
  { unfold picksplit_total_free. rewrite Hnp, Htsz. fold sp.
    rewrite (s32_small (sp * q)) by lia.
    rewrite (u64_small (sp * q - len * SizeOfZSTidArrayItem)) by lia.
    reflexivity. }
  cbv zeta. unfold zsbt_tid_recompress_picksplit.
  cbn [cxt_num_pages cxt_free_space_per_page]. rewrite Hnp, Htf.
  split; [exact Hq1|]. split; [nia|]. split; [nia|].
  split; [|split].
  - intros Hfit. assert (q = 1) by nia.
    split; [assumption|]. destruct (Z.eqb_spec q 1); [reflexivity|lia].
  - intros Hbig Hhk. assert (1 < q) by nia.
    destruct (Z.eqb_spec q 1); [lia|].
    destruct (Z.eqb_spec (cxt_hikey cxt) MaxPlusOneZSTid); [contradiction|].
    rewrite (u64_small q) by lia.
    assert (Hdiv : 0 <= (sp * q - len * SizeOfZSTidArrayItem) / q
                   <= sp * q - len * SizeOfZSTidArrayItem).
    { split; [apply Z.div_pos; nia|].
      apply Z.div_le_upper_bound; nia. }
    rewrite s32_small by lia.
    split; [assumption|]. split; [reflexivity|].
    assert (Hnz : q <> 0) by lia. assert (Hpos : 0 < q) by lia.
    pose proof (Z.div_mod (sp * q - len * SizeOfZSTidArrayItem) q Hnz).
    pose proof (Z.mod_pos_bound (sp * q - len * SizeOfZSTidArrayItem) q
                  Hpos).
    nia.
  - intros Hbig Hhk. assert (1 < q) by nia.
    destruct (Z.eqb_spec q 1); [lia|].
    destruct (Z.eqb_spec (cxt_hikey cxt) MaxPlusOneZSTid); [|contradiction].
    rewrite (s32_small (q - 1)) by lia.
    rewrite double_tenth_share by lia.
    assert (Hnz : 10 * (q - 1) <> 0) by lia.
    assert (Hpos : 0 < 10 * (q - 1)) by lia.
    pose proof (Z.div_mod (sp * q - len * SizeOfZSTidArrayItem)
                  (10 * (q - 1)) Hnz) as Hdm.
    pose proof (Z.mod_pos_bound (sp * q - len * SizeOfZSTidArrayItem)
                  (10 * (q - 1)) Hpos) as Hmod.
    assert (Hdiv : 0 <= (sp * q - len * SizeOfZSTidArrayItem)
                        / (10 * (q - 1))
                   <= sp * q - len * SizeOfZSTidArrayItem).
    { split; [apply Z.div_pos; lia|].
      apply Z.div_le_upper_bound; nia. }
    rewrite s32_small by lia.
    split; [assumption|]. split; [reflexivity|]. lia.
Qed.

End TidPageProperties.

(** ** The lockstep merge of the attribute tree *)


Lemma last_In {A} (l : list A) x : last l = Some x -> In x l.
Proof.
  induction l as [|a l IH]; [discriminate|].
  destruct l as [|b l]; simpl.
  - intros [= ->]. now left.
  - intros Hl. right. apply IH. exact Hl.
Qed.

Lemma last_is_Some {A} (l : list A) : l <> [] -> exists x, last l = Some x.
Proof.
  induction l as [|a l IH]; [congruence|]. intros _.
  destruct l as [|b l]; [now exists a|].
  destruct IH as [x Hx]; [congruence|]. exists x. exact Hx.
Qed.

Lemma sorted_last_max (l : list Z) x :
  StronglySorted Z.lt l -> last l = Some x -> Forall (fun t => t <= x) l.
Proof.
  induction l as [|a l IH]; intros Hs Hl; [constructor|].
  apply StronglySorted_inv in Hs as [Hs Hall].
  destruct l as [|b l].
  - injection Hl as ->. constructor; [lia|constructor].
  - assert (Hl' : last (b :: l) = Some x) by exact Hl.
    specialize (IH Hs Hl'). constructor; [|exact IH].
    apply last_In in Hl'. rewrite Forall_forall in Hall.
    apply list_elem_of_In in Hl'. specialize (Hall _ Hl'). lia.
Qed.

Lemma sorted_hd_min (l : list Z) :
  StronglySorted Z.lt l -> Forall (fun t => hd 0 l <= t) l.
Proof.
  destruct l as [|a l]; intros Hs; [constructor|].
  apply StronglySorted_inv in Hs as [_ Hall]. cbn [hd].
  constructor; [lia|]. eapply Forall_impl; [exact Hall|].
  intros t Ht. simpl in Ht. lia.
Qed.

Lemma attr_item_ok_range it :
  attr_item_ok it ->
  t_firsttid it < t_endtid it
  /\ forall t, In t (attr_tids it) -> t_firsttid it <= t < t_endtid it.
Proof.
  intros (Hne & Hs & Hr & Hf & He).
  destruct (last_is_Some _ Hne) as [x Hx]. rewrite (He _ Hx), Hf.
  pose proof (sorted_last_max _ _ Hs Hx) as Hmax.
  pose proof (sorted_hd_min _ Hs) as Hmin.
  rewrite Forall_forall in Hmax, Hmin.
  split.
  - apply last_In in Hx. apply list_elem_of_In in Hx.
    specialize (Hmin _ Hx). simpl in Hmin. lia.
  - intros t Ht. apply list_elem_of_In in Ht.
    specialize (Hmin _ Ht). specialize (Hmax _ Ht). simpl in *. lia.
Qed.

(** On a well-formed item the merge loop and the repacker read the same
    first and end TID. *)
Lemma attr_item_ok_readers it :
  attr_item_ok it ->
  item_firsttid it = t_firsttid it /\ item_endtid it = t_endtid it.
Proof.
  intros (Hne & Hs & Hr & Hf & He).
  destruct it as [f e sz elems|w elems]; [split; reflexivity|].
  unfold attr_tids in *. cbn [attr_elems] in *.
  cbn [item_firsttid item_endtid]. split; [now rewrite Hf|].
  destruct (last_is_Some _ Hne) as [x Hx]. rewrite Hx, (He _ Hx).
  apply u64_small.
  rewrite List.Forall_forall in Hr. specialize (Hr _ (last_In _ _ Hx)).
  unfold MinZSTid, MaxZSTid in Hr. simpl in Hr. lia.
Qed.

Lemma attr_items_ok_tail it rest :
  attr_items_ok (it :: rest) -> attr_items_ok rest.
Proof. intros (_ & _ & H). exact H. Qed.

Lemma attr_items_ok_heads it rest nx :
  attr_items_ok (it :: rest) -> head rest = Some nx ->
  t_endtid it <= t_firsttid nx.
Proof.
  intros (_ & Hnx & _) Hh. destruct rest as [|x rest]; [discriminate|].
  injection Hh as ->. exact Hnx.
Qed.

Lemma attr_items_ok_last_max : forall l it lastitem,
  attr_items_ok l -> In it l -> last l = Some lastitem ->
  t_endtid it <= t_endtid lastitem.
Proof.
  induction l as [|a l IH]; intros it lastitem Hok Hin Hl; [destruct Hin|].
  destruct l as [|b l].
  - injection Hl as <-. destruct Hin as [<-|[]]. lia.
  - assert (Hl' : last (b :: l) = Some lastitem) by exact Hl.
    pose proof (attr_items_ok_tail _ _ Hok) as Hok'.
    assert (Hb : t_endtid b <= t_endtid lastitem).
    { apply (IH b lastitem Hok'); [now left|exact Hl']. }
    destruct Hin as [<-|Hin].
    + destruct Hok as (_ & Hnx & (Hbok & _)).
      pose proof (attr_item_ok_range b Hbok) as [Hrb _]. lia.
    + now apply (IH it lastitem Hok').
Qed.




(** Items that all end at or before the new items are kept in front of
    them. *)
Lemma attr_merge_loop_append alloc : forall (fuel : nat) olds news items,
  attr_items_ok olds -> attr_items_ok news ->
  (forall o n, In o olds -> head news = Some n ->
     t_endtid o <= t_firsttid n) ->
  (length olds + length news < fuel)%nat ->
  attr_merge_loop alloc fuel (head olds) (tail olds) (head news) (tail news)
    items
  = Some (Done (items ++ olds ++ news)).
Proof.
  induction fuel as [|fuel IH]; intros olds news items Ho Hn Hle Hfuel;
    [lia|].
  cbn [attr_merge_loop].
  destruct news as [|n news], olds as [|o olds]; cbn [head tail].
  - now rewrite app_nil_r.
  - assert (Hm := IH olds [] (items ++ [o])). cbn [head tail] in Hm.
    rewrite Hm; auto.
    + now rewrite <- app_assoc.
    + now apply attr_items_ok_tail in Ho.
    + intros o' n' _ Hh. discriminate.
    + simpl in *. lia.
  - assert (Hm := IH [] news (items ++ [n])). cbn [head tail] in Hm.
    rewrite Hm; auto.
    + now rewrite <- app_assoc.
    + now apply attr_items_ok_tail in Hn.
    + intros o' n' [].
    + simpl in *. lia.
  - pose proof (attr_item_ok_range n (proj1 Hn)) as [Hrn _].
    pose proof (attr_item_ok_range o (proj1 Ho)) as [Hro _].
    pose proof (Hle o n ltac:(now left) eq_refl) as Hon.
    destruct (Z.eqb_spec (t_firsttid n) (t_firsttid o)) as [Heq|Hne];
      [lia|].
    destruct (Z.leb_spec (t_endtid n) (t_firsttid o)) as [Hno|Hno]; [lia|].
    destruct (Z.leb_spec (t_endtid o) (t_firsttid n)) as [Hon'|Hon'];
      [|lia].
    assert (Hm := IH olds (n :: news) (items ++ [o])).
    cbn [head tail] in Hm. rewrite Hm; auto.
    + now rewrite <- app_assoc.
    + now apply attr_items_ok_tail in Ho.
    + intros o' n' Hin Hh. apply Hle; [now right|exact Hh].
    + simpl in *. lia.
Qed.

(** Old and new items whose TID ranges are apart: nothing is split, the
    merge puts the items themselves in the order of their TIDs, and the
    list passes the check of the repacker. *)
Lemma attr_merge_loop_apart alloc : forall (fuel : nat) olds news items e,
  attr_items_ok olds -> attr_items_ok news ->
  (forall n o, In n news -> In o olds -> attr_apart n o) ->
  (forall o, head olds = Some o -> e <= t_firsttid o) ->
  (forall n, head news = Some n -> e <= t_firsttid n) ->
  (length olds + length news < fuel)%nat ->
  exists merged,
    attr_merge_loop alloc fuel (head olds) (tail olds) (head news)
      (tail news) items = Some (Done (items ++ merged))
    /\ Permutation merged (olds ++ news)
    /\ repack_items_in_order e merged = true.
Proof.
  induction fuel as [|fuel IH];
    intros olds news items e Ho Hn Hap Heo Hen Hfuel; [lia|].
  (* one item is emitted and the merge goes on *)
  assert (Hstep : forall olds' news' x,
            attr_item_ok x -> e <= t_firsttid x ->
            attr_items_ok olds' -> attr_items_ok news' ->
            (forall n o, In n news' -> In o olds' -> attr_apart n o) ->
            (forall o, head olds' = Some o -> t_endtid x <= t_firsttid o) ->
            (forall n, head news' = Some n -> t_endtid x <= t_firsttid n) ->
            (length olds' + length news' < fuel)%nat ->
            Permutation (x :: olds' ++ news') (olds ++ news) ->
            exists merged,
              attr_merge_loop alloc fuel (head olds') (tail olds')
                (head news') (tail news') (items ++ [x])
              = Some (Done (items ++ merged))
              /\ Permutation merged (olds ++ news)
              /\ repack_items_in_order e merged = true).
  { intros olds' news' x Hx Hex Ho' Hn' Hap' Heo' Hen' Hfuel' Hperm.
    destruct (IH olds' news' (items ++ [x]) (t_endtid x) Ho' Hn' Hap' Heo'
                Hen' Hfuel') as (m & Hrun & Hp & Hchk).
    exists (x :: m). split; [now rewrite Hrun, <- app_assoc|].
    split; [now rewrite <- Hperm, Hp|].
    cbn [repack_items_in_order]. cbv zeta.
    destruct (attr_item_ok_readers x Hx) as [-> ->].
    pose proof (attr_item_ok_range x Hx) as [Hrx _].
    rewrite Hchk, !andb_true_iff, Z.geb_le, Z.gtb_lt. lia. }
  cbn [attr_merge_loop].
  destruct news as [|n news], olds as [|o olds]; cbn [head tail].
  - exists []. rewrite app_nil_r. split; [reflexivity|].
    split; [constructor|reflexivity].
  - apply (Hstep olds [] o); auto.
    + apply Ho.
    + now apply attr_items_ok_tail in Ho.
    + intros n o' [].
    + intros o' Hh. exact (attr_items_ok_heads _ _ _ Ho Hh).
    + intros n Hh. discriminate.
    + simpl in *. lia.
  - apply (Hstep [] news n); auto.
    + apply Hn.
    + now apply attr_items_ok_tail in Hn.
    + intros n' o' _ [].
    + intros o' Hh. discriminate.
    + intros n' Hh. exact (attr_items_ok_heads _ _ _ Hn Hh).
    + simpl in *. lia.
  - destruct (Hap n o (or_introl eq_refl) (or_introl eq_refl))
      as [Hne Hd].
    pose proof (Heo o eq_refl) as Heo1. pose proof (Hen n eq_refl) as Hen1.
    destruct (Z.eqb_spec (t_firsttid n) (t_firsttid o)); [contradiction|].
    destruct (Z.leb_spec (t_endtid n) (t_firsttid o)) as [Hno|Hno].
    + apply (Hstep (o :: olds) news n); auto.
      * apply Hn.
      * now apply attr_items_ok_tail in Hn.
      * intros n' o' Hn' Ho'. apply Hap; [now right|exact Ho'].
      * intros o' Hh. injection Hh as <-. exact Hno.
      * intros n' Hh. exact (attr_items_ok_heads _ _ _ Hn Hh).
      * simpl in *. lia.
      * apply Permutation_cons_app with (l1 := o :: olds) (l2 := news).
        reflexivity.
    + destruct (Z.leb_spec (t_endtid o) (t_firsttid n)) as [Hon|Hon];
        [|lia].
      apply (Hstep olds (n :: news) o); auto.
      * apply Ho.
      * now apply attr_items_ok_tail in Ho.
      * intros n' o' Hn' Ho'. apply Hap; [exact Hn'|now right].
      * intros o' Hh. exact (attr_items_ok_heads _ _ _ Ho Hh).
      * intros n' Hh. injection Hh as <-. exact Hon.
      * simpl in *. lia.
Qed.

Section AttrDuplicate.

Context `{ZSExternal}.


End AttrDuplicate.

(** * The tree as its callers see it *)

(** ** The binary search, on any key *)

Lemma items_ok_tids_split lo hi arr key :
  items_ok lo hi arr = true ->
  exists k : nat,
    (k <= length arr)%nat
    /\ (forall (j : nat) it, arr !! j = Some it -> (j < k)%nat ->
          t_tid it <= key)
    /\ (forall (j : nat) it, arr !! j = Some it -> (k <= j)%nat ->
          key < t_tid it).
Proof.
  revert lo. induction arr as [|a arr IH]; intros lo Hok.
  - exists 0%nat. split; [simpl; lia|]. split; intros j it Hj; discriminate.
  - pose proof Hok as Hok0.
    apply items_ok_cons in Hok as (Ha1 & Han & Ha2 & Hrest).
    destruct (Z_le_gt_dec (t_tid a) key) as [Hle|Hgt].
    + destruct (IH _ Hrest) as (k & Hk & Hlow & Hhigh).
      exists (S k). split; [simpl; lia|]. split.
      * intros [|j] it Hj Hlt; simpl in Hj.
        -- injection Hj as <-. exact Hle.
        -- apply (Hlow j); [exact Hj|lia].
      * intros [|j] it Hj Hge; [lia|]. simpl in Hj.
        apply (Hhigh j); [exact Hj|lia].
    + exists 0%nat. split; [lia|]. split; [intros; lia|].
      intros [|j] it Hj _; simpl in Hj.
      * injection Hj as <-. lia.
      * assert (H0 : (a :: arr) !! 0%nat = Some a) by reflexivity.
        assert (HS : (a :: arr) !! S j = Some it) by exact Hj.
        pose proof (items_ok_ordered _ _ _ _ _ _ _ Hok0 H0 HS ltac:(lia)).
        lia.
Qed.

Lemma binsrch_index lo hi arr key :
  items_ok lo hi arr = true ->
  exists k : nat,
    zsbt_binsrch_tidpage key arr (Z.of_nat (length arr)) = Z.of_nat k - 1
    /\ (k <= length arr)%nat
    /\ (forall (j : nat) it, arr !! j = Some it -> (j < k)%nat ->
          t_tid it <= key)
    /\ (forall (j : nat) it, arr !! j = Some it -> (k <= j)%nat ->
          key < t_tid it).
Proof.
  intros Hok.
  destruct (items_ok_tids_split lo hi arr key Hok) as (k & Hk & Hlow & Hhigh).
  exists k. split; [|auto].
  unfold zsbt_binsrch_tidpage. f_equal.
  apply binsrch_loop_spec; try lia.
  - intros j Hj.
    destruct (arr !! Z.to_nat j) as [b|] eqn:Hb.
    2:{ apply lookup_ge_None in Hb. lia. }
    rewrite (arr_item_lookup_Z _ _ _ Hb).
    apply (Hlow _ _ Hb). lia.
  - intros j Hj.
    destruct (arr !! Z.to_nat j) as [b|] eqn:Hb.
    2:{ apply lookup_ge_None in Hb. lia. }
    rewrite (arr_item_lookup_Z _ _ _ Hb).
    apply (Hhigh _ _ Hb). lia.
Qed.

(** [zsbt_binsrch_tidpage] on the items of a page: the index it returns is
    the one of the last item that starts at or before the key, and -1 when
    there is none (an empty array, or a key below the first item). *)
Theorem zsbt_binsrch_tidpage_last_le lo hi arr key :
  items_ok lo hi arr = true ->
  let r := zsbt_binsrch_tidpage key arr (Z.of_nat (length arr)) in
  -1 <= r < Z.of_nat (length arr)
  /\ (forall (j : nat) it, arr !! j = Some it ->
        (Z.of_nat j <= r <-> t_tid it <= key)).
Proof.
  intros Hok. cbv zeta.
  destruct (binsrch_index lo hi arr key Hok) as (k & -> & Hk & Hlow & Hhigh).
  split; [lia|].
  intros j it Hj. split.
  - intros Hle. apply (Hlow _ _ Hj). lia.
  - intros Hle. destruct (Nat.lt_ge_cases j k) as [Hlt|Hge]; [lia|].
    pose proof (Hhigh _ _ Hj Hge). lia.
Qed.



Section TidTree.

Context `{ZSExternal}.

(** ** What a fetch reports *)

Lemma fetch_info_item rel (n : nat) p it t :
  leaves_ok (rd_blocks rel) ->
  rd_blocks rel !! n = Some (LeafBlock p) ->
  In it (tiditems p) -> covers it t ->
  fetch_info rel t = Some (t_undo_ptr it, item_isdead it).
Proof.
  intros Hok Hn Hin Hcov.
  apply list_elem_of_In, list_elem_of_lookup in Hin as [i Hi].
  unfold fetch_info.
  now rewrite (zsbt_tid_fetch_item rel n p i it t Hok Hn Hi Hcov).
Qed.

Lemma zsbt_tid_fetch_Some rel t b u d :
  leaves_ok (rd_blocks rel) ->
  zsbt_tid_fetch rel t = Some (b, u, d) ->
  exists (n : nat) p it,
    b = Z.of_nat n /\ rd_blocks rel !! n = Some (LeafBlock p)
    /\ In it (tiditems p) /\ covers it t
    /\ u = t_undo_ptr it /\ d = item_isdead it.
Proof.
  intros [Hpok _] Hf. unfold zsbt_tid_fetch in Hf.
  destruct (zsbt_descend rel t) as [b'|] eqn:Hd; [|discriminate].
  apply descend_from_Some in Hd as (n & p & -> & Hn & Hc).
  rewrite Z.add_0_l, (proj2 (get_leaf_lookup _ _ _) Hn) in Hf.
  destruct (find (fetch_covers t) (tiditems p)) as [it|] eqn:Hfind;
    [|discriminate].
  injection Hf as <- <- <-.
  apply find_some in Hfind as [Hin Hfc].
  exists n, p, it. repeat split; auto.
  - pose proof Hin as Hin'.
    apply list_elem_of_In, list_elem_of_lookup in Hin' as [i Hi].
    pose proof (Hpok _ _ Hn) as Hp.
    apply page_ok_facts in Hp as (Hlo & Hlh & Hhi & Hlvl & Hiok).
    assert (Hcv : covers it t).
    { eapply fetch_covers_iff; eauto. unfold MinZSTid in Hlo. lia. }
    apply Hcv.
  - pose proof Hin as Hin'.
    apply list_elem_of_In, list_elem_of_lookup in Hin' as [i Hi].
    pose proof (Hpok _ _ Hn) as Hp.
    apply page_ok_facts in Hp as (Hlo & Hlh & Hhi & Hlvl & Hiok).
    assert (Hcv : covers it t).
    { eapply fetch_covers_iff; eauto. unfold MinZSTid in Hlo. lia. }
    apply Hcv.
Qed.

(** [zsbt_tid_fetch] on a well-formed tree: it reports a buffer, an undo
    pointer and a dead flag exactly when an item of the leaf in that buffer
    covers the TID and carries them, and it reports nothing exactly when no
    item of the tree covers the TID. *)
Theorem zsbt_tid_fetch_covering_item rel t :
  rel_ok rel = true ->
  (forall b u d,
     zsbt_tid_fetch rel t = Some (b, u, d) <->
     exists (n : nat) p it,
       b = Z.of_nat n /\ rd_blocks rel !! n = Some (LeafBlock p)
       /\ In it (tiditems p) /\ covers it t
       /\ u = t_undo_ptr it /\ d = item_isdead it)
  /\ (zsbt_tid_fetch rel t = None <->
      forall (n : nat) p it, rd_blocks rel !! n = Some (LeafBlock p) ->
        In it (tiditems p) -> ~ covers it t).
Proof.
  intros Hrel. apply rel_ok_leaves_ok in Hrel. split.
  - intros b u d. split.
    + apply zsbt_tid_fetch_Some. exact Hrel.
    + intros (n & p & it & -> & Hn & Hin & Hcov & -> & ->).
      apply list_elem_of_In, list_elem_of_lookup in Hin as [i Hi].
      eapply zsbt_tid_fetch_item; eauto.
  - split.
    + intros Hnone n p it Hn Hin Hcov.
      apply list_elem_of_In, list_elem_of_lookup in Hin as [i Hi].
      rewrite (zsbt_tid_fetch_item rel n p i it t Hrel Hn Hi Hcov) in Hnone.
      discriminate.
    + apply zsbt_tid_fetch_absent. exact Hrel.
Qed.

(** ** Rewriting a leaf leaves the other TIDs alone *)

Lemma written_fetch_outside rel (n : nat) p l rel' t :
  written rel n p l rel' -> leaves_ok (rd_blocks rel) ->
  rd_blocks rel !! n = Some (LeafBlock p) ->
  page_covers p t = false ->
  zsbt_tid_fetch rel' t = zsbt_tid_fetch rel t.
Proof.
  intros (_ & Hok' & Hsame & chain & Hch & Hitems & Hput & Hleaf) Hok Hn Hpc.
  pose proof Hok as [Hpok _].
  pose proof (Hpok _ _ Hn) as Hp.
  apply page_ok_facts in Hp as (Hlo & Hlh & Hhi & Hlvl & _).
  unfold zsbt_tid_fetch.
  destruct (zsbt_descend rel t) as [b|] eqn:Hd.
  - apply descend_from_Some in Hd as (m & q & -> & Hm & Hc).
    rewrite Z.add_0_l.
    assert (Hmn : m <> n).
    { intros ->. rewrite Hn in Hm. injection Hm as <-. congruence. }
    assert (Hm' : rd_blocks rel' !! m = Some (LeafBlock q)).
    { rewrite Hsame; [exact Hm | exact Hmn |].
      eapply lookup_lt_is_Some_1; eauto. }
    rewrite (leaves_ok_descend rel' m q t Hok' Hm' Hc).
    rewrite (proj2 (get_leaf_lookup _ _ _) Hm).
    rewrite (proj2 (get_leaf_lookup _ _ _) Hm').
    reflexivity.
  - destruct (zsbt_descend rel' t) as [b'|] eqn:Hd'; [|reflexivity].
    exfalso.
    apply descend_from_Some in Hd' as (m & q & -> & Hm & Hc).
    destruct (Hleaf _ _ Hm) as [[Hmn Hold] | (k & Hk & _)].
    + pose proof (descend_from_None _ _ _ Hd _ _ Hold). congruence.
    + destruct (chain_ok_lookup _ _ _ _ _ Hch Hk)
        as (Hc1 & Hc2 & Hc3 & Hc4 & _).
      unfold page_covers in Hpc, Hc.
      rewrite !andb_true_iff, Z.eqb_eq, Z.leb_le, Z.ltb_lt in Hc.
      rewrite !andb_false_iff, Z.eqb_neq, Z.leb_gt, Z.ltb_ge in Hpc.
      lia.
Qed.

Lemma written_fetch_gap rel (n : nat) p l rel' t :
  written rel n p l rel' -> leaves_ok (rd_blocks rel) ->
  rd_blocks rel !! n = Some (LeafBlock p) ->
  page_covers p t = true ->
  (forall it, In it l -> ~ covers it t) ->
  zsbt_tid_fetch rel' t = None.
Proof.
  intros (_ & Hok' & Hsame & chain & Hch & Hitems & Hput & Hleaf) Hok Hn Hpc
    Hnone.
  apply zsbt_tid_fetch_absent; [exact Hok'|].
  intros m q it Hm Hin Hcov.
  destruct (Hleaf _ _ Hm) as [[Hmn Hold] | (k & Hk & _)].
  - destruct Hok as [Hpok Hapart].
    apply list_elem_of_In, list_elem_of_lookup in Hin as [i Hi].
    pose proof (page_ok_covers _ _ _ _ (Hpok _ _ Hold) Hi Hcov) as Hqc.
    pose proof (covers_not_apart _ _ _ Hqc Hpc) as Hna.
    rewrite (Hapart m n q p Hmn Hold Hn) in Hna. discriminate.
  - apply (Hnone it); [|exact Hcov].
    rewrite <- Hitems. apply in_flat_map. exists q. split; [|exact Hin].
    apply list_elem_of_In, list_elem_of_lookup. eauto.
Qed.

Lemma zsbt_tid_fetch_blocks rel rel0 t :
  rd_blocks rel0 = rd_blocks rel ->
  zsbt_tid_fetch rel0 t = zsbt_tid_fetch rel t.
Proof.
  intros Hb. unfold zsbt_tid_fetch, zsbt_descend. now rewrite Hb.
Qed.

Lemma fetch_info_blocks rel rel0 t :
  rd_blocks rel0 = rd_blocks rel -> fetch_info rel0 t = fetch_info rel t.
Proof.
  intros Hb. unfold fetch_info. now rewrite (zsbt_tid_fetch_blocks _ _ _ Hb).
Qed.

(** A TID keeps what a fetch reports of it when the leaf is rewritten with
    items that cover the same TIDs with the same undo pointers and flags. *)
Lemma written_fetch_info rel (n : nat) p l rel' t :
  written rel n p l rel' -> leaves_ok (rd_blocks rel) ->
  rd_blocks rel !! n = Some (LeafBlock p) ->
  (forall it, In it (tiditems p) -> covers it t ->
     exists it', In it' l /\ covers it' t
       /\ t_undo_ptr it' = t_undo_ptr it
       /\ item_isdead it' = item_isdead it) ->
  (forall it', In it' l -> covers it' t ->
     exists it, In it (tiditems p) /\ covers it t) ->
  fetch_info rel' t = fetch_info rel t.
Proof.
  intros Hwr Hok Hn Hfwd Hbwd.
  destruct (page_covers p t) eqn:Hpc.
  2:{ unfold fetch_info.
      now rewrite (written_fetch_outside _ _ _ _ _ _ Hwr Hok Hn Hpc). }
  pose proof Hok as [Hpok _].
  pose proof (Hpok _ _ Hn) as Hp.
  apply page_ok_facts in Hp as (Hlo & Hlh & Hhi & Hlvl & Hiok).
  destruct (find (fetch_covers t) (tiditems p)) as [it|] eqn:Hfind.
  - apply find_some in Hfind as [Hin Hfc].
    assert (Hcov : covers it t).
    { pose proof Hin as Hin'.
      apply list_elem_of_In, list_elem_of_lookup in Hin' as [i Hi].
      eapply fetch_covers_iff; eauto. unfold MinZSTid in Hlo. lia. }
    rewrite (fetch_info_item rel n p it t Hok Hn Hin Hcov).
    destruct (Hfwd it Hin Hcov) as (it' & Hin' & Hcov' & Hu & Hd).
    apply list_elem_of_In, list_elem_of_lookup in Hin' as [j Hj].
    destruct (written_fetch _ _ _ _ _ _ _ _ Hwr Hj Hcov') as [b Hb].
    unfold fetch_info. rewrite Hb, Hu, Hd. reflexivity.
  - assert (Hnone : forall it, In it (tiditems p) -> ~ covers it t).
    { intros it Hin Hcov.
      pose proof (find_none _ _ Hfind it Hin) as Hf.
      apply list_elem_of_In, list_elem_of_lookup in Hin as [i Hi].
      assert (fetch_covers t it = true).
      { eapply fetch_covers_iff; eauto. unfold MinZSTid in Hlo. lia. }
      congruence. }
    unfold fetch_info.
    rewrite (written_fetch_gap _ _ _ _ _ _ Hwr Hok Hn Hpc).
    + unfold zsbt_tid_fetch.
      rewrite (leaves_ok_descend rel n p t Hok Hn Hpc).
      rewrite (proj2 (get_leaf_lookup _ _ _) Hn), Hfind. reflexivity.
    + intros it' Hin' Hcov'.
      destruct (Hbwd it' Hin' Hcov') as (it & Hin & Hcov).
      exact (Hnone it Hin Hcov).
Qed.

Lemma slices_other old t r t' :
  covers old t -> covers old t' -> t' <> t ->
  exists b, In b (slices old t (Some r)) /\ covers b t'
    /\ t_undo_ptr b = t_undo_ptr old /\ t_flags b = 0.
Proof.
  intros [Hc1 Hc2] [Hd1 Hd2] Hne.
  unfold slices, slice_before, slice_after.
  destruct (Z.lt_ge_cases t' t) as [Hlt|Hge].
  - destruct (Z.ltb_spec (t_tid old) t); [|lia].
    eexists. split; [left; reflexivity|].
    unfold covers. simpl. repeat split; lia.
  - destruct (Z.ltb_spec (t + 1) (t_tid old + t_nelements old)); [|lia].
    eexists. split.
    + apply in_or_app. right. apply in_or_app. right. left. reflexivity.
    + unfold covers. simpl. repeat split; lia.
Qed.

Lemma slices_covered old t r b t' :
  covers old t -> t_tid r = t -> t_nelements r = 1 ->
  In b (slices old t (Some r)) -> covers b t' ->
  covers old t' /\ (t' = t -> b = r).
Proof.
  intros [Hc1 Hc2] Hr1 Hr2 Hin Hcov.
  unfold slices, slice_before, slice_after in Hin.
  apply in_app_or in Hin as [Hin|Hin];
    [|apply in_app_or in Hin as [Hin|Hin]].
  - destruct (Z.ltb_spec (t_tid old) t); [|destruct Hin].
    destruct Hin as [<-|[]]. unfold covers in *. simpl in *.
    split; [lia|]. intros ->. lia.
  - destruct Hin as [<-|[]]. unfold covers in *.
    split; [lia|]. reflexivity.
  - destruct (Z.ltb_spec (t + 1) (t_tid old + t_nelements old));
      [|destruct Hin].
    destruct Hin as [<-|[]]. unfold covers in *. simpl in *.
    split; [lia|]. intros ->. lia.
Qed.

Lemma item_isdead_flags0 b : t_flags b = 0 -> item_isdead b = false.
Proof. intros Hb. unfold item_isdead. now rewrite Hb. Qed.

(** After the item [r] for the one TID [t] replaced [t] in the run [old]:
    a fetch of [t] reports [r], and a fetch of any other TID reports what
    it reported before. *)
Lemma replace_fetch_frame rel rel0 (n : nat) p (i : nat) old t r rel' :
  leaves_ok (rd_blocks rel) -> rd_blocks rel0 = rd_blocks rel ->
  rd_blocks rel !! n = Some (LeafBlock p) ->
  tiditems p !! i = Some old -> covers old t ->
  item_isdead old = false \/ t_nelements old = 1 ->
  t_tid r = t -> t_nelements r = 1 ->
  written rel0 n p
    (take i (tiditems p) ++ slices old t (Some r) ++ drop (S i) (tiditems p))
    rel' ->
  fetch_info rel' t = Some (t_undo_ptr r, item_isdead r)
  /\ forall t', t' <> t -> fetch_info rel' t' = fetch_info rel t'.
Proof.
  intros Hok Hb Hn Hi Hcov Hlive Hr1 Hr2 Hwr.
  assert (Hok0 : leaves_ok (rd_blocks rel0)) by now rewrite Hb.
  assert (Hn0 : rd_blocks rel0 !! n = Some (LeafBlock p)) by now rewrite Hb.
  pose proof (take_drop_lookup _ _ _ Hi) as Hsplit.
  set (l := take i (tiditems p) ++ slices old t (Some r)
            ++ drop (S i) (tiditems p)) in *.
  split.
  - assert (Hin : In r l).
    { unfold l, slices. apply in_or_app. right. apply in_or_app. left.
      apply in_or_app. right. now left. }
    apply list_elem_of_In, list_elem_of_lookup in Hin as [j Hj].
    destruct (written_fetch _ _ _ _ _ _ _ t Hwr Hj) as [b Hf].
    { unfold covers. lia. }
    unfold fetch_info. now rewrite Hf.
  - intros t' Hne.
    rewrite <- (fetch_info_blocks rel rel0 t' Hb).
    apply (written_fetch_info rel0 n p l rel' t' Hwr Hok0 Hn0).
    + intros it Hin Hc. rewrite Hsplit in Hin.
      apply in_app_or in Hin as [Hin|[<-|Hin]].
      * exists it. repeat split; try apply Hc.
        unfold l. apply in_or_app. now left.
      * destruct Hlive as [Hlive|Hone].
        2:{ destruct Hcov, Hc. lia. }
        destruct (slices_other old t r t' Hcov Hc Hne)
          as (b & Hbin & Hbc & Hbu & Hbf).
        exists b. split; [|split; [exact Hbc|split; [exact Hbu|]]].
        -- unfold l. apply in_or_app. right. apply in_or_app. now left.
        -- rewrite Hlive. now apply item_isdead_flags0.
      * exists it. repeat split; try apply Hc.
        unfold l. apply in_or_app. right. apply in_or_app. now right.
    + intros it' Hin Hc. unfold l in Hin.
      apply in_app_or in Hin as [Hin|Hin];
        [|apply in_app_or in Hin as [Hin|Hin]].
      * exists it'. split; [|exact Hc]. rewrite Hsplit.
        apply in_or_app. now left.
      * exists old. split.
        -- apply list_elem_of_In, list_elem_of_lookup. eauto.
        -- eapply slices_covered; eauto.
      * exists it'. split; [|exact Hc]. rewrite Hsplit.
        apply in_or_app. right. now right.
Qed.

Lemma written_item rel (n : nat) p l rel' it :
  written rel n p l rel' -> In it l ->
  exists (n' : nat) p' (i' : nat),
    rd_blocks rel' !! n' = Some (LeafBlock p')
    /\ tiditems p' !! i' = Some it.
Proof.
  intros (_ & _ & _ & chain & _ & Hitems & Hput & _) Hin.
  apply list_elem_of_In, list_elem_of_lookup in Hin as [j Hj].
  rewrite <- Hitems in Hj.
  apply flat_map_lookup in Hj as (k & c & i' & Hk & Hi').
  exists (chain_index (rd_blocks rel) n k), c, i'. split; auto.
Qed.

(** Replacing the TID [t] of a live run by a one-TID item: the call
    succeeds, the undo log is left alone, the leaves stay well formed, a
    fetch of [t] reports the new item and a fetch of any other TID reports
    what it reported before. *)
Lemma replace_single_fetch rel rel0 (n : nat) p (i : nat) old t r :
  geometry_ok = true -> leaves_ok (rd_blocks rel) ->
  rd_blocks rel0 = rd_blocks rel ->
  rd_blocks rel !! n = Some (LeafBlock p) ->
  tiditems p !! i = Some old -> covers old t ->
  item_isdead old = false \/ t_nelements old = 1 ->
  t_tid r = t -> t_nelements r = 1 ->
  exists rel',
    zsbt_tid_replace_item rel0 (Z.of_nat n) t (Some r) = Done rel'
    /\ rd_undo rel' = rd_undo rel0
    /\ leaves_ok (rd_blocks rel')
    /\ (exists (n' : nat) p' (i' : nat),
          rd_blocks rel' !! n' = Some (LeafBlock p')
          /\ tiditems p' !! i' = Some r)
    /\ fetch_info rel' t = Some (t_undo_ptr r, item_isdead r)
    /\ forall t', t' <> t -> fetch_info rel' t' = fetch_info rel t'.
Proof.
  intros Hg Hok Hb Hn Hi Hcov Hlive Hr1 Hr2.
  destruct (zsbt_tid_replace_item_written rel0 n p t r i old)
    as (rel' & Hrep & Hwr); auto; try (rewrite Hb; assumption).
  exists rel'. split; [exact Hrep|].
  split; [apply Hwr|]. split; [apply Hwr|]. split.
  - apply (written_item _ _ _ _ _ r Hwr).
    unfold slices. apply in_or_app. right. apply in_or_app. left.
    apply in_or_app. right. now left.
  - eapply replace_fetch_frame; eauto.
Qed.

(** After [zsbt_tid_delete] deleted the TID [t] (the tuple was visible for
    update): one DELETE record was added to the undo log, a fetch of [t]
    reports the pointer to that record on an item that is not dead, and a
    fetch of any other TID reports what it reported before the delete. *)
Theorem zsbt_tid_delete_fetch rel (n : nat) p (i : nat) old t xid cid
    s crosscheck changingPart keep nt :
  geometry_ok = true -> rel_ok rel = true ->
  rd_blocks rel !! n = Some (LeafBlock p) ->
  tiditems p !! i = Some old -> covers old t ->
  item_isdead old = false ->
  zs_SatisfiesUpdate s t (t_undo_ptr old) LockTupleExclusive
    = (TM_Ok, keep, nt) ->
  exists rel' undorec,
    zsbt_tid_delete rel t xid cid (Some s) crosscheck changingPart
      = Done (TM_Ok, rel')
    /\ rd_undo rel' = rd_undo rel ++ [undorec]
    /\ rec_type undorec = ZSUNDO_TYPE_DELETE /\ rec_tid undorec = t
    /\ leaves_ok (rd_blocks rel')
    /\ fetch_info rel' t
       = Some (zsundo_alloc (rd_undo rel) undorec, false)
    /\ forall t', t' <> t -> fetch_info rel' t' = fetch_info rel t'.
Proof.
  intros Hg Hrel Hp Hi Hcov Hdead Hsat.
  pose proof (rel_ok_leaves_ok _ Hrel) as Hok.
  pose proof (zsbt_tid_fetch_item rel n p i old t Hok Hp Hi Hcov) as Hf.
  rewrite Hdead in Hf.
  unfold zsbt_tid_delete. rewrite Hf, Hsat.
  cbn [is_TM_Ok negb]. cbv iota. unfold zsundo_insert.
  rewrite create_item_single.
  match goal with
  | |- context [zsbt_tid_replace_item ?r0 _ _ (Some ?r)] =>
      destruct (replace_single_fetch rel r0 n p i old t r)
        as (rel' & Hrep & Hundo & Hok' & _ & Ht & Hframe); auto
  end.
  rewrite Hrep. eexists rel', _.
  split; [reflexivity|]. split; [exact Hundo|].
  split; [reflexivity|]. split; [reflexivity|].
  split; [exact Hok'|]. split; [exact Ht|exact Hframe].
Qed.

(** [zsbt_tid_lock] on a tuple that is visible for update: it returns
    [TM_Ok] and the [next_tid] of the visibility check, adds one TUPLE_LOCK
    record with the lock mode to the undo log (chained to the old undo
    pointer when the check says to keep it), makes the item of [t] point to
    that record, and leaves what a fetch reports of the other TIDs as it
    was. *)
Theorem zsbt_tid_lock_ok rel (n : nat) p (i : nat) old t xid cid mode s
    keep nt :
  geometry_ok = true -> rel_ok rel = true ->
  rd_blocks rel !! n = Some (LeafBlock p) ->
  tiditems p !! i = Some old -> covers old t ->
  item_isdead old = false ->
  zs_SatisfiesUpdate s t (t_undo_ptr old) mode = (TM_Ok, keep, nt) ->
  let undorec :=
    {| rec_type := ZSUNDO_TYPE_TUPLE_LOCK; rec_xid := xid; rec_cid := cid;
       rec_tid := t; rec_speculative_token := 0;
       rec_prevundorec := if keep then t_undo_ptr old else InvalidUndoPtr;
       rec_endtid := 0; rec_changedPart := false; rec_newtid := 0;
       rec_key_update := false; rec_lockmode := Some mode |} in
  exists rel',
    zsbt_tid_lock rel t xid cid mode s = Done (TM_Ok, nt, rel')
    /\ rd_undo rel' = rd_undo rel ++ [undorec]
    /\ leaves_ok (rd_blocks rel')
    /\ fetch_info rel' t
       = Some (zsundo_alloc (rd_undo rel) undorec, false)
    /\ forall t', t' <> t -> fetch_info rel' t' = fetch_info rel t'.
Proof.
  intros Hg Hrel Hp Hi Hcov Hdead Hsat undorec.
  pose proof (rel_ok_leaves_ok _ Hrel) as Hok.
  pose proof (zsbt_tid_fetch_item rel n p i old t Hok Hp Hi Hcov) as Hf.
  rewrite Hdead in Hf.
  unfold zsbt_tid_lock. rewrite Hf, Hsat.
  cbn [is_TM_Ok negb]. cbv iota. unfold zsundo_insert.
  fold undorec. rewrite create_item_single.
  match goal with
  | |- context [zsbt_tid_replace_item ?r0 _ _ (Some ?r)] =>
      destruct (replace_single_fetch rel r0 n p i old t r)
        as (rel' & Hrep & Hundo & Hok' & _ & Ht & Hframe); auto
  end.
  rewrite Hrep. exists rel'.
  split; [reflexivity|]. split; [exact Hundo|].
  split; [exact Hok'|]. split; [exact Ht|exact Hframe].
Qed.

(** After [zsbt_tid_mark_dead] marked the TID [t] of a live run dead: a
    fetch of [t] reports a dead item with the invalid undo pointer, a fetch
    of any other TID reports what it reported before, and [t] can no longer
    be deleted, locked or updated: each of the three fails with its
    error. *)
Theorem zsbt_tid_mark_dead_then rel (n : nat) p (i : nat) old t :
  geometry_ok = true -> rel_ok rel = true ->
  rd_blocks rel !! n = Some (LeafBlock p) ->
  tiditems p !! i = Some old -> covers old t ->
  item_isdead old = false ->
  exists rel',
    zsbt_tid_mark_dead rel t = Done rel'
    /\ rd_undo rel' = rd_undo rel
    /\ leaves_ok (rd_blocks rel')
    /\ fetch_info rel' t = Some (InvalidUndoPtr, true)
    /\ (forall t', t' <> t -> fetch_info rel' t' = fetch_info rel t')
    /\ (forall xid cid snapshot crosscheck changingPart,
          zsbt_tid_delete rel' t xid cid snapshot crosscheck changingPart
            = Failed MSG_cannot_delete_dead)
    /\ (forall xid cid mode snapshot,
          zsbt_tid_lock rel' t xid cid mode snapshot
            = Failed MSG_could_not_find_tuple_to_lock)
    /\ (forall xid cid key_update snapshot crosscheck,
          zsbt_tid_update rel' t xid cid key_update snapshot crosscheck
            = Failed MSG_could_not_find_old_tuple_to_update).
Proof.
  intros Hg Hrel Hp Hi Hcov Hdead.
  pose proof (rel_ok_leaves_ok _ Hrel) as Hok.
  pose proof (zsbt_tid_fetch_item rel n p i old t Hok Hp Hi Hcov) as Hf.
  rewrite Hdead in Hf.
  unfold zsbt_tid_mark_dead. rewrite Hf.
  match goal with
  | |- context [zsbt_tid_replace_item ?r0 _ _ (Some ?r)] =>
      destruct (replace_single_fetch rel r0 n p i old t r)
        as (rel' & Hrep & Hundo & Hok' & (n' & p' & i' & Hn' & Hi')
            & Ht & Hframe); auto
  end.
  rewrite Hrep. exists rel'.
  split; [reflexivity|]. split; [exact Hundo|].
  split; [exact Hok'|]. split; [exact Ht|]. split; [exact Hframe|].
  match type of Hi' with
  | _ = Some ?r =>
      pose proof (zsbt_tid_fetch_item rel' n' p' i' r t Hok' Hn' Hi') as Hf'
  end.
  specialize (Hf' ltac:(unfold covers; simpl; lia)).
  change (item_isdead _) with true in Hf'.
  repeat split; intros;
    unfold zsbt_tid_delete, zsbt_tid_lock, zsbt_tid_update,
      zsbt_tid_update_lock_old;
    rewrite Hf'; reflexivity.
Qed.

(** A delete that is undone.  [zsbt_tid_delete] of a visible TID [t]
    followed by [zsbt_tid_undo_deletion] with the pointer to the DELETE
    record: the item of [t] gets the invalid undo pointer and is not dead,
    every other TID fetches as before the delete, and the DELETE record
    stays in the undo log. *)
Theorem zsbt_tid_delete_undone rel (n : nat) p (i : nat) old t xid cid
    s crosscheck changingPart keep nt :
  geometry_ok = true -> rel_ok rel = true ->
  rd_blocks rel !! n = Some (LeafBlock p) ->
  tiditems p !! i = Some old -> covers old t ->
  item_isdead old = false ->
  zs_SatisfiesUpdate s t (t_undo_ptr old) LockTupleExclusive
    = (TM_Ok, keep, nt) ->
  (forall ptr, ZSUndoRecPtrEquals ptr ptr = true) ->
  exists rel' undorec rel'',
    zsbt_tid_delete rel t xid cid (Some s) crosscheck changingPart
      = Done (TM_Ok, rel')
    /\ rd_undo rel' = rd_undo rel ++ [undorec]
    /\ zsbt_tid_undo_deletion rel' t (zsundo_alloc (rd_undo rel) undorec)
       = Done rel''
    /\ rd_undo rel'' = rd_undo rel ++ [undorec]
    /\ fetch_info rel'' t = Some (InvalidUndoPtr, false)
    /\ forall t', t' <> t -> fetch_info rel'' t' = fetch_info rel t'.
Proof.
  intros Hg Hrel Hp Hi Hcov Hdead Hsat Hrefl.
  pose proof (rel_ok_leaves_ok _ Hrel) as Hok.
  pose proof (zsbt_tid_fetch_item rel n p i old t Hok Hp Hi Hcov) as Hf.
  rewrite Hdead in Hf.
  unfold zsbt_tid_delete. rewrite Hf, Hsat.
  cbn [is_TM_Ok negb]. cbv iota. unfold zsundo_insert.
  rewrite create_item_single.
  match goal with
  | |- context [zsbt_tid_replace_item ?r0 _ _ (Some ?r)] =>
      destruct (replace_single_fetch rel r0 n p i old t r)
        as (rel' & Hrep & Hundo & Hok' & (n' & p' & i' & Hn' & Hi')
            & Ht & Hframe); auto
  end.
  rewrite Hrep.
  match type of Hi' with
  | _ = Some ?r =>
      pose proof (zsbt_tid_fetch_item rel' n' p' i' r t Hok' Hn' Hi') as Hf';
      destruct (replace_single_fetch rel' rel' n' p' i' r t
                  {| t_tid := t; t_nelements := 1;
                     t_undo_ptr := InvalidUndoPtr; t_flags := 0 |})
        as (rel'' & Hrep' & Hundo' & _ & _ & Ht' & Hframe'); auto
  end.
  { unfold covers. simpl. lia. }
  specialize (Hf' ltac:(unfold covers; simpl; lia)).
  eexists rel', _, rel''.
  split; [reflexivity|]. split; [exact Hundo|]. split.
  { unfold zsbt_tid_undo_deletion. rewrite Hf'.
    cbn [t_undo_ptr]. rewrite Hrefl, create_item_single. exact Hrep'. }
  split; [now rewrite Hundo'|]. split; [exact Ht'|].
  intros t' Hne. rewrite (Hframe' t' Hne). now apply Hframe.
Qed.

(** ** The last TID *)

Lemma add_to_page_last cxt item :
  currpage cxt <> None ->
  exists c,
    currpage (zsbt_tid_recompress_add_to_page cxt item) = Some c
    /\ last (tiditems c) = Some item.
Proof.
  intros Hc. unfold zsbt_tid_recompress_add_to_page.
  destruct (_ || _).
  - simpl. eexists. split; [reflexivity|]. reflexivity.
  - destruct (currpage cxt) as [c|]; [|congruence].
    eexists. split; [reflexivity|]. simpl. apply last_snoc.
Qed.

Lemma fold_add_to_page_currpage items : forall cxt,
  currpage cxt <> None ->
  currpage (fold_left zsbt_tid_recompress_add_to_page items cxt) <> None.
Proof.
  induction items as [|a items IH]; intros cxt Hc; [exact Hc|].
  simpl. apply IH.
  destruct (add_to_page_last cxt a Hc) as (c & -> & _). discriminate.
Qed.

Lemma recompress_pages_last oldpage items it :
  last items = Some it ->
  exists c,
    last (recompress_pages oldpage items) = Some c
    /\ last (tiditems c) = Some it.
Proof.
  intros Hl.
  destruct (last_Some items it) as [[l' ->] _]; [now rewrite Hl|].
  unfold recompress_pages. rewrite fold_left_app. cbn [fold_left].
  match goal with
  | |- context [zsbt_tid_recompress_add_to_page ?c it] =>
      destruct (add_to_page_last c it) as (c' & Hc' & Hlast)
  end.
  { apply fold_add_to_page_currpage. discriminate. }
  rewrite Hc'. exists c'. split; [|exact Hlast].
  simpl. apply last_snoc.
Qed.

Lemma link_pages_last pages : forall nf o c,
  last pages = Some c -> last (link_pages pages nf o) = Some (set_next c o).
Proof.
  induction pages as [|a [|b pages] IH]; intros nf o c Hl.
  - discriminate.
  - simpl in Hl. injection Hl as <-. reflexivity.
  - change (last (a :: b :: pages)) with (last (b :: pages)) in Hl.
    change (link_pages (a :: b :: pages) nf o)
      with (set_next a nf :: link_pages (b :: pages) (nf + 1) o).
    specialize (IH (nf + 1) o c Hl).
    destruct (link_pages (b :: pages) (nf + 1) o) eqn:E; [discriminate|].
    exact IH.
Qed.

Lemma chain_ok_last pages : forall lo hi c,
  chain_ok lo hi pages -> last pages = Some c -> zs_hikey c = hi.
Proof.
  induction pages as [|a [|b pages] IH]; intros lo hi c Hch Hl.
  - discriminate.
  - simpl in Hl. injection Hl as <-. simpl in Hch. tauto.
  - change (last (a :: b :: pages)) with (last (b :: pages)) in Hl.
    apply chain_ok_cons in Hch as (_ & _ & _ & _ & _ & Hch).
    eapply IH; eauto.
Qed.

(** The leaf that holds the last items after a leaf that covers [MaxZSTid]
    was rewritten: it covers [MaxZSTid] and ends with the last item
    written. *)
Lemma apply_leaf_write_last rel (n : nat) p l w it rel' :
  leaves_ok (rd_blocks rel) ->
  rd_blocks rel !! n = Some (LeafBlock p) ->
  items_ok (zs_lokey p) (zs_hikey p) l = true ->
  w = InPlace l \/ w = Recompress l ->
  apply_leaf_write rel (Z.of_nat n) w = Done rel' ->
  page_covers p MaxZSTid = true -> last l = Some it ->
  exists (n' : nat) c,
    rd_blocks rel' !! n' = Some (LeafBlock c)
    /\ page_covers c MaxZSTid = true /\ last (tiditems c) = Some it.
Proof.
  intros Hok Hp Hiok Hw Hdone Hcov Hl. pose proof Hok as [Hpok _].
  pose proof (Hpok _ _ Hp) as Hpp.
  apply page_ok_facts in Hpp as (Hlo & Hlh & Hhi & Hlvl & _).
  pose proof (proj2 (get_leaf_lookup _ _ _) Hp) as Hg.
  assert (Hn : (n < length (rd_blocks rel))%nat)
    by (eapply lookup_lt_Some; eauto).
  destruct (items_ok_last _ _ _ _ Hiok Hl) as (Hit1 & Hit2 & Hit3).
  assert (Hhik : zs_hikey p = MaxPlusOneZSTid).
  { unfold page_covers in Hcov.
    rewrite !andb_true_iff, Z.ltb_lt in Hcov.
    unfold MaxZSTid, MaxPlusOneZSTid in *. lia. }
  assert (Hlastpage : forall c,
            zs_level c = 0 -> zs_hikey c = zs_hikey p ->
            items_ok (zs_lokey c) (zs_hikey c) (tiditems c) = true ->
            last (tiditems c) = Some it ->
            page_covers c MaxZSTid = true).
  { intros c Hc1 Hc2 Hc3 Hc4.
    destruct (items_ok_last _ _ _ _ Hc3 Hc4) as (? & ? & ?).
    unfold page_covers.
    rewrite !andb_true_iff, Z.eqb_eq, Z.leb_le, Z.ltb_lt.
    unfold MaxZSTid, MaxPlusOneZSTid in *. lia. }
  unfold apply_leaf_write in Hdone. rewrite Hg in Hdone.
  destruct Hw as [-> | ->].
  - (* in place *)
    injection Hdone as <-. exists n, (with_items p l).
    split; [|split; [exact Hcov | exact Hl]].
    simpl. rewrite set_block_insert. now apply list_lookup_insert_eq.
  - (* through the recompressor *)
    unfold zsbt_tid_recompress_replace in Hdone. rewrite Hg in Hdone.
    pose proof (recompress_pages_chain p l Hlh Hiok) as Hch.
    destruct (recompress_pages_last p l it Hl) as (c & Hc & Hcl).
    set (pages := recompress_pages p l) in *.
    set (nf := Z.of_nat (length (rd_blocks rel))) in *.
    pose proof (link_pages_chain pages _ _ nf (zs_next p) Hch) as Hlc.
    pose proof (link_pages_last pages nf (zs_next p) c Hc) as Hll.
    pose proof (chain_ok_last _ _ _ _ Hlc Hll) as Hhc.
    destruct (link_pages pages nf (zs_next p)) as [|first [|m more]] eqn:E.
    + discriminate.
    + injection Hdone as <-. simpl in Hll. injection Hll as Hfirst.
      exists n, first. split; [|split].
      * simpl. rewrite set_block_insert. now apply list_lookup_insert_eq.
      * apply chain_ok_cons in Hlc as (Ha & Hb & _ & Hd & _).
        apply Hlastpage; auto.
        -- now rewrite Hfirst.
        -- now rewrite Ha.
        -- now rewrite Hfirst.
      * now rewrite Hfirst.
    + injection Hdone as <-.
      change (last (first :: m :: more)) with (last (m :: more)) in Hll.
      rewrite last_lookup in Hll.
      set (k := Nat.pred (length (m :: more))) in *.
      assert (Hk : (first :: m :: more) !! S k = Some (set_next c (zs_next p)))
        by exact Hll.
      destruct (chain_ok_lookup _ _ _ _ _ Hlc Hk) as (_ & _ & _ & Hc4 & Hc5).
      exists (length (rd_blocks rel) + k)%nat, (set_next c (zs_next p)).
      split; [|split; [|exact Hcl]].
      * cbn [rd_blocks]. rewrite set_block_insert.
        rewrite lookup_app_r by (rewrite length_insert; lia).
        rewrite length_insert.
        replace (length (rd_blocks rel) + k - length (rd_blocks rel))%nat
          with k by lia.
        apply (lookup_app_l_Some (map LeafBlock (m :: more))).
        now apply lookup_map_intro.
      * apply Hlastpage; auto.
Qed.

Lemma zsbt_get_last_tid_leaf rel (n : nat) c :
  leaves_ok (rd_blocks rel) ->
  rd_blocks rel !! n = Some (LeafBlock c) ->
  page_covers c MaxZSTid = true ->
  zsbt_get_last_tid rel
  = match last (tiditems c) with
    | Some it => t_tid it + t_nelements it
    | None => zs_lokey c
    end.
Proof.
  intros Hok Hn Hcov. pose proof Hok as [Hpok _].
  pose proof (Hpok _ _ Hn) as Hpp.
  apply page_ok_facts in Hpp as (Hlo & Hlh & Hhi & Hlvl & Hiok).
  unfold zsbt_get_last_tid.
  rewrite (leaves_ok_descend rel n c MaxZSTid Hok Hn Hcov).
  rewrite (proj2 (get_leaf_lookup _ _ _) Hn).
  destruct (last (tiditems c)) as [it|] eqn:Hl; [|reflexivity].
  destruct (items_ok_last _ _ _ _ Hiok Hl) as (? & ? & ?).
  unfold zsbt_tid_item_lasttid, MinZSTid, MaxPlusOneZSTid in *.
  rewrite (u64_small (_ - 1)) by lia. rewrite u64_small by lia. lia.
Qed.

Lemma rightmost_leaf rel :
  zsbt_descend rel MaxZSTid <> None ->
  exists (n : nat) p,
    rd_blocks rel !! n = Some (LeafBlock p)
    /\ page_covers p MaxZSTid = true.
Proof.
  intros Hd. destruct (zsbt_descend rel MaxZSTid) as [b|] eqn:E;
    [|congruence].
  apply descend_from_Some in E as (n & p & _ & Hn & Hc). eauto.
Qed.

Lemma zsbt_get_last_tid_bounds rel (n : nat) p :
  leaves_ok (rd_blocks rel) ->
  rd_blocks rel !! n = Some (LeafBlock p) ->
  page_covers p MaxZSTid = true ->
  zs_lokey p <= zsbt_get_last_tid rel <= MaxPlusOneZSTid
  /\ forall (m : nat) q it t,
       rd_blocks rel !! m = Some (LeafBlock q) -> In it (tiditems q) ->
       covers it t -> t < zsbt_get_last_tid rel.
Proof.
  intros Hok Hn Hcov. pose proof Hok as [Hpok Hapart].
  pose proof (Hpok _ _ Hn) as Hpp.
  apply page_ok_facts in Hpp as (Hlo & Hlh & Hhi & Hlvl & Hiok).
  rewrite (zsbt_get_last_tid_leaf rel n p Hok Hn Hcov).
  match goal with |- _ <= ?x <= _ /\ _ => set (e := x) end.
  assert (Hge : zs_lokey p <= e <= MaxPlusOneZSTid).
  { subst e. destruct (last (tiditems p)) as [it|] eqn:Hl; [|lia].
    destruct (items_ok_last _ _ _ _ Hiok Hl) as (? & ? & ?). lia. }
  split; [exact Hge|].
  intros m q it t Hm Hin [Hc1 Hc2].
  pose proof Hin as Hin'.
  apply list_elem_of_In, list_elem_of_lookup in Hin' as [j Hj].
  destruct (Nat.eq_dec m n) as [->|Hne].
  - rewrite Hn in Hm. injection Hm as <-. subst e.
    destruct (last (tiditems p)) as [lastit|] eqn:Hl.
    + rewrite last_lookup in Hl.
      destruct (Nat.eq_dec j (Nat.pred (length (tiditems p)))) as [->|Hj'].
      * rewrite Hj in Hl. injection Hl as <-. lia.
      * pose proof (lookup_lt_Some _ _ _ Hj).
        pose proof (items_ok_ordered _ _ _ _ _ _ _ Hiok Hj Hl ltac:(lia)).
        destruct (items_ok_lookup _ _ _ _ _ Hiok Hl) as (? & ? & ?). lia.
    + apply last_None in Hl. rewrite Hl in Hj. discriminate.
  - pose proof (Hapart m n q p Hne Hm Hn) as Hap.
    pose proof (Hpok _ _ Hm) as Hq.
    apply page_ok_facts in Hq as (Hqlo & Hqlh & Hqhi & Hqlvl & Hqiok).
    destruct (items_ok_lookup _ _ _ _ _ Hqiok Hj) as (? & ? & ?).
    unfold ranges_apart in Hap. rewrite orb_true_iff, !Z.leb_le in Hap.
    unfold page_covers in Hcov.
    rewrite !andb_true_iff, Z.eqb_eq, Z.leb_le, Z.ltb_lt in Hcov.
    clearbody e. unfold MaxZSTid, MaxPlusOneZSTid in *. lia.
Qed.

(** [zsbt_get_last_tid] gives a TID that is not in use.  On a tree without
    a leaf it is [MinZSTid]; on a tree with a rightmost leaf it lies
    between [MinZSTid] and [MaxPlusOneZSTid], it is above every TID that an
    item of the tree covers, and a fetch of it finds nothing. *)
Theorem zsbt_get_last_tid_unused rel :
  rel_ok rel = true ->
  ((forall (n : nat) p, rd_blocks rel !! n <> Some (LeafBlock p)) ->
   zsbt_get_last_tid rel = MinZSTid)
  /\ (zsbt_descend rel MaxZSTid <> None ->
      MinZSTid <= zsbt_get_last_tid rel <= MaxPlusOneZSTid
      /\ (forall (m : nat) q it t,
            rd_blocks rel !! m = Some (LeafBlock q) ->
            In it (tiditems q) -> covers it t ->
            t < zsbt_get_last_tid rel)
      /\ zsbt_tid_fetch rel (zsbt_get_last_tid rel) = None).
Proof.
  intros Hrel. pose proof (rel_ok_leaves_ok _ Hrel) as Hok. split.
  - intros Hnone. unfold zsbt_get_last_tid.
    destruct (zsbt_descend rel MaxZSTid) as [b|] eqn:E; [|reflexivity].
    apply descend_from_Some in E as (n & p & _ & Hn & _).
    now destruct (Hnone n p).
  - intros Hd. destruct (rightmost_leaf rel Hd) as (n & p & Hn & Hcov).
    destruct (zsbt_get_last_tid_bounds rel n p Hok Hn Hcov) as [Hb Habove].
    destruct Hok as [Hpok Hapart].
    pose proof (Hpok _ _ Hn) as Hpp.
    apply page_ok_facts in Hpp as (Hlo & _).
    split; [lia|]. split; [exact Habove|].
    apply zsbt_tid_fetch_absent; [split; assumption|].
    intros m q it Hm Hin Hc.
    pose proof (Habove m q it _ Hm Hin Hc). lia.
Qed.

(** [zsbt_tid_multi_insert] on a tree whose rightmost leaf is in block [n]
    and that has [nitems] TIDs left. *)
Lemma multi_insert_effect rel (n : nat) p nitems xid cid speculative_token
    prevundoptr :
  geometry_ok = true -> leaves_ok (rd_blocks rel) ->
  rd_blocks rel !! n = Some (LeafBlock p) ->
  page_covers p MaxZSTid = true ->
  1 <= nitems < 2 ^ 31 ->
  zsbt_get_last_tid rel + nitems <= MaxPlusOneZSTid ->
  let start := zsbt_get_last_tid rel in
  let undorec :=
    {| rec_type := ZSUNDO_TYPE_INSERT; rec_xid := xid; rec_cid := cid;
       rec_tid := start; rec_speculative_token := speculative_token;
       rec_prevundorec := prevundoptr; rec_endtid := start + nitems - 1;
       rec_changedPart := false; rec_newtid := 0;
       rec_key_update := false; rec_lockmode := None |} in
  let undoptr :=
    if xid =? FrozenTransactionId then InvalidUndoPtr
    else zsundo_alloc (rd_undo rel) undorec in
  exists rel',
    zsbt_tid_multi_insert rel nitems xid cid speculative_token prevundoptr
    = Done (map (fun k => start + Z.of_nat k) (seq 0 (Z.to_nat nitems)),
            rel')
    /\ rd_undo rel'
       = (if xid =? FrozenTransactionId then rd_undo rel
          else rd_undo rel ++ [undorec])
    /\ leaves_ok (rd_blocks rel')
    /\ zsbt_descend rel' MaxZSTid <> None
    /\ zsbt_get_last_tid rel' = start + nitems
    /\ (forall t, start <= t < start + nitems ->
          fetch_info rel' t = Some (undoptr, false))
    /\ (forall t, ~ start <= t < start + nitems ->
          fetch_info rel' t = fetch_info rel t).
Proof.
  intros Hg Hok Hp Hcov Hn Hfit start undorec undoptr.
  pose proof Hok as [Hpok _].
  pose proof (Hpok _ _ Hp) as Hpp.
  apply page_ok_facts in Hpp as (Hlo & Hlh & Hhi & Hlvl & Hiok).
  pose proof (leaves_ok_descend rel n p MaxZSTid Hok Hp Hcov) as Hd.
  pose proof (zsbt_get_last_tid_leaf rel n p Hok Hp Hcov) as Hlt.
  fold start in Hlt, Hfit.
  assert (Hhik : zs_hikey p = MaxPlusOneZSTid).
  { unfold page_covers in Hcov.
    rewrite !andb_true_iff, Z.ltb_lt in Hcov.
    unfold MaxZSTid, MaxPlusOneZSTid in *. lia. }
  (* the TID the code starts from *)
  assert (Hstart :
    match last (tiditems p) with
    | Some lastitem => u64 (t_tid lastitem + t_nelements lastitem)
    | None => zs_lokey p
    end = start).
  { rewrite Hlt. destruct (last (tiditems p)) as [it|] eqn:Hl; [|lia].
    destruct (items_ok_last _ _ _ _ Hiok Hl) as (? & ? & ?).
    unfold MaxPlusOneZSTid, MinZSTid in *.
    rewrite u64_small by lia. lia. }
  assert (Hstart_lo : zs_lokey p <= start).
  { rewrite Hlt. destruct (last (tiditems p)) as [it|] eqn:Hl; [|lia].
    destruct (items_ok_last _ _ _ _ Hiok Hl) as (? & ? & ?). lia. }
  unfold zsbt_tid_multi_insert.
  rewrite Hd, (proj2 (get_leaf_lookup _ _ _) Hp), Hstart.
  set (newitem := {| t_tid := start; t_nelements := nitems;
                     t_undo_ptr := undoptr; t_flags := 0 |}).
  assert (Hnew : items_ok (zs_lokey p) (zs_hikey p)
                   (tiditems p ++ [newitem]) = true).
  { apply items_ok_snoc_last; auto; simpl; try lia.
    apply Z.eq_le_incl. symmetry. exact Hlt. }
  set (rel1 := if xid =? FrozenTransactionId then rel
               else {| rd_blocks := rd_blocks rel;
                       rd_undo := rd_undo rel ++ [undorec] |}).
  assert (Hb1 : rd_blocks rel1 = rd_blocks rel)
    by (subst rel1; destruct (xid =? _); reflexivity).
  assert (Hok1 : leaves_ok (rd_blocks rel1)) by now rewrite Hb1.
  assert (Hp1 : rd_blocks rel1 !! n = Some (LeafBlock p)) by now rewrite Hb1.
  assert (Hw : add_items_page p [newitem]
               = InPlace (tiditems p ++ [newitem])
               \/ add_items_page p [newitem]
                  = Recompress (tiditems p ++ [newitem])).
  { unfold add_items_page. destruct (_ <=? _); [now left|].
    right. destruct (tiditems p); reflexivity. }
  destruct (apply_leaf_write_written rel1 n p (tiditems p ++ [newitem])
              (add_items_page p [newitem]) Hok1 Hp1 Hnew Hw)
    as (rel' & Hadd & Hwr).
  destruct (apply_leaf_write_last rel1 n p (tiditems p ++ [newitem])
              (add_items_page p [newitem]) newitem rel' Hok1 Hp1 Hnew Hw
              Hadd Hcov (last_snoc _ _))
    as (n' & c & Hn' & Hcov' & Hlast').
  assert (Hadd' : zsbt_tid_add_items rel1 (Z.of_nat n) [newitem]
                  = Done rel').
  { unfold zsbt_tid_add_items.
    now rewrite (proj2 (get_leaf_lookup _ _ _) Hp1). }
  assert (Htids :
    map (fun i : nat => u64 (start + Z.of_nat i)) (seq 0 (Z.to_nat nitems))
    = map (fun k : nat => start + Z.of_nat k) (seq 0 (Z.to_nat nitems))).
  { apply map_ext_in. intros k Hk. apply in_seq in Hk.
    apply u64_small. unfold MaxPlusOneZSTid, MinZSTid in *. lia. }
  pose proof Hwr as (Hundo' & Hok' & _).
  exists rel'. split; [|split; [|split; [exact Hok'|split; [|split]]]].
  - unfold zsundo_insert, zsbt_tid_create_item.
    rewrite (u32_small nitems) by lia.
    rewrite (u64_small (start + nitems - 1))
      by (unfold MaxPlusOneZSTid, MinZSTid in *; lia).
    fold undorec. subst rel1 undoptr newitem.
    destruct (xid =? FrozenTransactionId); cbn [negb];
      rewrite Hadd', Htids; reflexivity.
  - rewrite Hundo'. subst rel1. destruct (xid =? _); reflexivity.
  - rewrite (leaves_ok_descend rel' n' c MaxZSTid Hok' Hn' Hcov').
    discriminate.
  - rewrite (zsbt_get_last_tid_leaf rel' n' c Hok' Hn' Hcov'), Hlast'.
    reflexivity.
  - split.
    + intros t Ht.
      assert (Hj : (tiditems p ++ [newitem]) !! length (tiditems p)
                   = Some newitem).
      { rewrite lookup_app_r by lia. now rewrite Nat.sub_diag. }
      destruct (written_fetch _ _ _ _ _ _ _ t Hwr Hj) as [b Hf].
      { unfold covers. simpl. lia. }
      unfold fetch_info. now rewrite Hf.
    + intros t Ht.
      rewrite <- (fetch_info_blocks rel rel1 t Hb1).
      apply (written_fetch_info rel1 n p _ rel' t Hwr Hok1 Hp1).
      * intros it Hin Hc. exists it. repeat split; try apply Hc.
        apply in_or_app. now left.
      * intros it' Hin Hc. apply in_app_or in Hin as [Hin|[<-|[]]].
        -- exists it'. split; assumption.
        -- exfalso. apply Ht. unfold covers in Hc. simpl in Hc. lia.
Qed.

(** Insert and fetch.  [zsbt_tid_multi_insert] of [nitems] TIDs into a tree
    that has them left: the TIDs returned start at [zsbt_get_last_tid] of
    the tree, a fetch of each of them reports the undo pointer of the
    insertion on an item that is not dead, a fetch of any other TID reports
    what it reported before, [zsbt_get_last_tid] has advanced by [nitems],
    and the undo log has grown by the one INSERT record (by nothing for the
    frozen xid). *)
Theorem zsbt_tid_multi_insert_fetch rel nitems xid cid speculative_token
    prevundoptr :
  geometry_ok = true -> rel_ok rel = true ->
  zsbt_descend rel MaxZSTid <> None ->
  1 <= nitems < 2 ^ 31 ->
  zsbt_get_last_tid rel + nitems <= MaxPlusOneZSTid ->
  let start := zsbt_get_last_tid rel in
  let undorec :=
    {| rec_type := ZSUNDO_TYPE_INSERT; rec_xid := xid; rec_cid := cid;
       rec_tid := start; rec_speculative_token := speculative_token;
       rec_prevundorec := prevundoptr; rec_endtid := start + nitems - 1;
       rec_changedPart := false; rec_newtid := 0;
       rec_key_update := false; rec_lockmode := None |} in
  let undoptr :=
    if xid =? FrozenTransactionId then InvalidUndoPtr
    else zsundo_alloc (rd_undo rel) undorec in
  exists tids rel',
    zsbt_tid_multi_insert rel nitems xid cid speculative_token prevundoptr
    = Done (tids, rel')
    /\ tids = map (fun k => start + Z.of_nat k) (seq 0 (Z.to_nat nitems))
    /\ rd_undo rel'
       = (if xid =? FrozenTransactionId then rd_undo rel
          else rd_undo rel ++ [undorec])
    /\ leaves_ok (rd_blocks rel')
    /\ zsbt_get_last_tid rel' = start + nitems
    /\ (forall t, In t tids -> fetch_info rel' t = Some (undoptr, false))
    /\ (forall t, ~ In t tids -> fetch_info rel' t = fetch_info rel t).
Proof.
  intros Hg Hrel Hd Hn Hfit start undorec undoptr.
  pose proof (rel_ok_leaves_ok _ Hrel) as Hok.
  destruct (rightmost_leaf rel Hd) as (n & p & Hp & Hcov).
  destruct (multi_insert_effect rel n p nitems xid cid speculative_token
              prevundoptr Hg Hok Hp Hcov Hn Hfit)
    as (rel' & Hins & Hundo & Hok' & _ & Hlast & Hnew & Hframe).
  assert (Hin : forall t,
            In t (map (fun k => start + Z.of_nat k)
                      (seq 0 (Z.to_nat nitems)))
            <-> start <= t < start + nitems).
  { intros t. rewrite in_map_iff. split.
    - intros (k & <- & Hk). apply in_seq in Hk. lia.
    - intros Ht. exists (Z.to_nat (t - start)). split; [lia|].
      apply in_seq. lia. }
  eexists _, rel'. split; [exact Hins|]. split; [reflexivity|].
  split; [exact Hundo|]. split; [exact Hok'|]. split; [exact Hlast|].
  split.
  - intros t Ht. apply Hnew. now apply Hin.
  - intros t Ht. apply Hframe. intros Hr. apply Ht. now apply Hin.
Qed.

(** [zsbt_tid_update] of the TID [otid] of a live run.  When the visibility
    check does not say [TM_Ok], its result is returned with no new TID and
    the relation as it was.  When it says [TM_Ok] and the tree has a TID
    left: the new TID is [zsbt_get_last_tid] of the tree, the undo log gets
    an INSERT record for it that is chained to the old undo pointer (none
    for the frozen xid) and then an UPDATE record for [otid] that names the
    new TID; afterwards a fetch of the new TID reports the INSERT record, a
    fetch of [otid] the UPDATE record, and a fetch of any other TID what it
    reported before. *)
Theorem zsbt_tid_update_ok rel (n : nat) p (i : nat) old otid xid cid
    (key_update : bool) s crosscheck r keep nt :
  geometry_ok = true -> rel_ok rel = true ->
  rd_blocks rel !! n = Some (LeafBlock p) ->
  tiditems p !! i = Some old -> covers old otid ->
  item_isdead old = false ->
  zs_SatisfiesUpdate s otid (t_undo_ptr old)
    (if key_update then LockTupleExclusive else LockTupleNoKeyExclusive)
    = (r, keep, nt) ->
  (r <> TM_Ok ->
   zsbt_tid_update rel otid xid cid key_update s crosscheck
     = Done (r, InvalidZSTid, rel))
  /\ (r = TM_Ok ->
      zsbt_descend rel MaxZSTid <> None ->
      zsbt_get_last_tid rel < MaxPlusOneZSTid ->
      let newtid := zsbt_get_last_tid rel in
      let insrec :=
        {| rec_type := ZSUNDO_TYPE_INSERT; rec_xid := xid; rec_cid := cid;
           rec_tid := newtid;
           rec_speculative_token := INVALID_SPECULATIVE_TOKEN;
           rec_prevundorec := t_undo_ptr old; rec_endtid := newtid;
           rec_changedPart := false; rec_newtid := 0;
           rec_key_update := false; rec_lockmode := None |} in
      let log1 :=
        if xid =? FrozenTransactionId then rd_undo rel
        else rd_undo rel ++ [insrec] in
      let insptr :=
        if xid =? FrozenTransactionId then InvalidUndoPtr
        else zsundo_alloc (rd_undo rel) insrec in
      let updrec :=
        {| rec_type := ZSUNDO_TYPE_UPDATE; rec_xid := xid; rec_cid := cid;
           rec_tid := otid; rec_speculative_token := 0;
           rec_prevundorec :=
             if keep then t_undo_ptr old else InvalidUndoPtr;
           rec_endtid := 0; rec_changedPart := false;
           rec_newtid := newtid; rec_key_update := key_update;
           rec_lockmode := None |} in
      exists rel',
        zsbt_tid_update rel otid xid cid key_update s crosscheck
          = Done (TM_Ok, newtid, rel')
        /\ rd_undo rel' = log1 ++ [updrec]
        /\ leaves_ok (rd_blocks rel')
        /\ otid < newtid
        /\ fetch_info rel' newtid = Some (insptr, false)
        /\ fetch_info rel' otid = Some (zsundo_alloc log1 updrec, false)
        /\ forall t, t <> otid -> t <> newtid ->
             fetch_info rel' t = fetch_info rel t).
Proof.
  intros Hg Hrel Hp Hi Hcov Hdead Hsat.
  pose proof (rel_ok_leaves_ok _ Hrel) as Hok.
  pose proof (zsbt_tid_fetch_item rel n p i old otid Hok Hp Hi Hcov) as Hf.
  rewrite Hdead in Hf.
  assert (Hlock : zsbt_tid_update_lock_old rel otid xid cid key_update s
                    crosscheck = Done (r, t_undo_ptr old)).
  { unfold zsbt_tid_update_lock_old. rewrite Hf, Hsat.
    cbn [negb]. cbv iota. destruct r; reflexivity. }
  split.
  - intros Hr. unfold zsbt_tid_update. rewrite Hlock.
    destruct r; try reflexivity. congruence.
  - intros -> Hd Hfit newtid insrec log1 insptr updrec.
    unfold zsbt_tid_update. rewrite Hlock. cbn [is_TM_Ok negb]. cbv iota.
    destruct (rightmost_leaf rel Hd) as (m & q & Hq & Hqcov).
    destruct (multi_insert_effect rel m q 1 xid cid
                INVALID_SPECULATIVE_TOKEN (t_undo_ptr old) Hg Hok Hq Hqcov
                ltac:(lia) ltac:(lia))
      as (rel1 & Hins & Hundo1 & Hok1 & _ & _ & Hnew & Hframe1).
    fold newtid in Hins, Hundo1, Hnew, Hframe1.
    replace (newtid + 1 - 1) with newtid in * by lia.
    fold insrec in Hins, Hundo1, Hnew. fold insptr in Hnew.
    fold log1 in Hundo1.
    assert (Hbelow : otid < newtid).
    { destruct (zsbt_get_last_tid_bounds rel m q Hok Hq Hqcov) as [_ Ha].
      apply (Ha n p old otid Hp); [|exact Hcov].
      apply list_elem_of_In, list_elem_of_lookup. eauto. }
    unfold zsbt_tid_update_insert_new. rewrite Hins.
    change (hd InvalidZSTid
              (map (fun k : nat => newtid + Z.of_nat k)
                   (seq 0 (Z.to_nat 1))))
      with (newtid + Z.of_nat 0).
    replace (newtid + Z.of_nat 0) with newtid by lia.
    (* the old item after the insertion *)
    assert (Hf1 : fetch_info rel1 otid = Some (t_undo_ptr old, false)).
    { rewrite Hframe1 by lia. unfold fetch_info. now rewrite Hf. }
    unfold fetch_info in Hf1.
    destruct (zsbt_tid_fetch rel1 otid) as [[[b u] d]|] eqn:Hfetch1;
      [|discriminate].
    injection Hf1 as -> ->.
    destruct (zsbt_tid_fetch_Some rel1 otid b _ _ Hok1 Hfetch1)
      as (n1 & p1 & old1 & -> & Hn1 & Hin1 & Hcov1 & Hu1 & Hd1).
    apply list_elem_of_In, list_elem_of_lookup in Hin1 as [i1 Hi1].
    unfold zsbt_tid_mark_old_updated. rewrite Hfetch1, Hsat.
    cbn [is_TM_Ok negb]. cbv iota. unfold zsundo_insert.
    fold updrec. rewrite create_item_single, Hundo1.
    match goal with
    | |- context [zsbt_tid_replace_item ?r0 _ _ (Some ?it)] =>
        destruct (replace_single_fetch rel1 r0 n1 p1 i1 old1 otid it)
          as (rel' & Hrep & Hundo & Hok' & _ & Ht & Hframe); auto
    end.
    rewrite Hrep. exists rel'.
    split; [reflexivity|]. split; [exact Hundo|]. split; [exact Hok'|].
    split; [exact Hbelow|]. split; [|split; [exact Ht|]].
    + rewrite Hframe by lia. apply Hnew. lia.
    + intros t Ht1 Ht2. rewrite Hframe by exact Ht1.
      apply Hframe1. lia.
Qed.

(** [zsbt_tid_replace_item] for a TID that no item of the leaf covers
    fails with "could not find item to replace" whatever the replacement,
    and writes nothing. *)
Theorem zsbt_tid_replace_item_absent rel (n : nat) p t replacementitem :
  rel_ok rel = true ->
  rd_blocks rel !! n = Some (LeafBlock p) ->
  (forall it, In it (tiditems p) -> ~ covers it t) ->
  zsbt_tid_replace_item rel (Z.of_nat n) t replacementitem
  = Failed MSG_could_not_find_item_to_replace.
Proof.
  intros Hrel Hp Hnone.
  pose proof (rel_ok_leaves_ok _ Hrel) as [Hpok _].
  pose proof (Hpok _ _ Hp) as Hpp.
  apply page_ok_facts in Hpp as (Hlo & Hlh & Hhi & Hlvl & Hiok).
  unfold zsbt_tid_replace_item.
  rewrite (proj2 (get_leaf_lookup _ _ _) Hp).
  assert (Hrep : replace_item_page p t replacementitem
                 = Failed MSG_could_not_find_item_to_replace).
  { unfold replace_item_page, PageGetNumZSTidItems.
    destruct (binsrch_index _ _ _ t Hiok) as (k & -> & Hk & Hlow & _).
    destruct k as [|k]; [reflexivity|].
    destruct (Z.ltb_spec (Z.of_nat (S k) - 1) 0); [lia|].
    replace (Z.of_nat (S k) - 1) with (Z.of_nat k) by lia.
    destruct (tiditems p !! k) as [old|] eqn:Hold.
    2:{ apply lookup_ge_None in Hold. lia. }
    rewrite (arr_item_lookup _ _ _ Hold).
    pose proof (Hlow _ _ Hold ltac:(lia)) as Hle.
    destruct (items_ok_lookup _ _ _ _ _ Hiok Hold) as (? & ? & ?).
    unfold MinZSTid, MaxPlusOneZSTid in *.
    rewrite (u64_small (t_tid old + t_nelements old)) by lia.
    assert (Hnc : ~ covers old t).
    { apply Hnone. apply list_elem_of_In, list_elem_of_lookup. eauto. }
    unfold covers in Hnc.
    destruct (Z.ltb_spec t (t_tid old)); [lia|].
    destruct (Z.geb_spec t (t_tid old + t_nelements old)); [|lia].
    reflexivity. }
  now rewrite Hrep.
Qed.

(** A page image holds its items inside the block. *)
Lemma add_to_page_fits cxt item :
  geometry_ok = true ->
  (forall c, currpage cxt = Some c ->
     pd_lower (Z.of_nat (length (tiditems c))) <= pd_upper) ->
  (forall c, In c (stack_pages cxt) ->
     pd_lower (Z.of_nat (length (tiditems c))) <= pd_upper) ->
  let cxt' := zsbt_tid_recompress_add_to_page cxt item in
  (forall c, currpage cxt' = Some c ->
     pd_lower (Z.of_nat (length (tiditems c))) <= pd_upper)
  /\ (forall c, In c (stack_pages cxt') ->
        pd_lower (Z.of_nat (length (tiditems c))) <= pd_upper).
Proof.
  intros Hg Hcur Hstack.
  pose proof (geometry_ok_facts Hg) as (Ha & Hh & Ho & Hs & Hb & Hc).
  pose proof (MAXALIGN_ge SizeOfZSTidArrayItem Ha) as Hms.
  pose proof (MAXALIGN_ge SizeOfPageHeaderData Ha) as Hmh.
  cbv zeta. unfold zsbt_tid_recompress_add_to_page.
  destruct ((_ <? _) || (_ <? _)) eqn:Hnew.
  - (* a new page *)
    cbn [currpage stack_pages zsbt_tid_recompress_newpage]. split.
    + intros c [= <-]. simpl. unfold pd_lower, pd_upper. lia.
    + intros c Hin. destruct (currpage cxt) as [old|] eqn:Hold.
      * apply in_app_or in Hin as [Hin|[<-|[]]]; [now apply Hstack|].
        simpl. now apply Hcur.
      * now apply Hstack.
  - apply orb_false_elim in Hnew as [Hfree _].
    apply Z.ltb_ge in Hfree. split; [|exact Hstack].
    destruct (currpage cxt) as [c0|] eqn:Hc0; [|discriminate].
    intros c [= <-]. simpl. rewrite length_app. simpl.
    unfold currpage_items in Hfree. rewrite Hc0 in Hfree.
    unfold PageGetExactFreeSpace in Hfree.
    destruct (_ <? 0) eqn:Hneg in Hfree; [lia|].
    unfold pd_lower in *. lia.
Qed.

Lemma fold_add_to_page_fits items : forall cxt,
  geometry_ok = true ->
  (forall c, currpage cxt = Some c ->
     pd_lower (Z.of_nat (length (tiditems c))) <= pd_upper) ->
  (forall c, In c (stack_pages cxt) ->
     pd_lower (Z.of_nat (length (tiditems c))) <= pd_upper) ->
  let cxt' := fold_left zsbt_tid_recompress_add_to_page items cxt in
  (forall c, currpage cxt' = Some c ->
     pd_lower (Z.of_nat (length (tiditems c))) <= pd_upper)
  /\ (forall c, In c (stack_pages cxt') ->
        pd_lower (Z.of_nat (length (tiditems c))) <= pd_upper).
Proof.
  induction items as [|a items IH]; intros cxt Hg Hcur Hstack; [auto|].
  cbn [fold_left].
  destruct (add_to_page_fits cxt a Hg Hcur Hstack) as [Hcur' Hstack'].
  now apply IH.
Qed.

(** The page images the recompressor builds for a leaf, from a list of
    items in order inside the key range of the leaf: there is at least one;
    they split the key range of the leaf into adjoining ranges, each page
    holding in order the items of its range; together they hold the items
    given, in the order given; and on each page the item array ends at or
    before [pd_upper]. *)
Theorem recompress_pages_fit oldpage items :
  geometry_ok = true ->
  zs_lokey oldpage <= zs_hikey oldpage ->
  items_ok (zs_lokey oldpage) (zs_hikey oldpage) items = true ->
  let pages := recompress_pages oldpage items in
  pages <> []
  /\ chain_ok (zs_lokey oldpage) (zs_hikey oldpage) pages
  /\ flat_map tiditems pages = items
  /\ forall c, In c pages ->
       pd_lower (Z.of_nat (length (tiditems c))) <= pd_upper.
Proof.
  intros Hg Hlh Hok. cbv zeta.
  split; [apply recompress_pages_nonempty|].
  split; [now apply recompress_pages_chain|].
  split; [apply recompress_pages_items|].
  pose proof (geometry_ok_facts Hg) as (Ha & Hh & Ho & Hs & Hb & Hc).
  pose proof (MAXALIGN_ge SizeOfZSTidArrayItem Ha) as Hms.
  pose proof (MAXALIGN_ge SizeOfPageHeaderData Ha) as Hmh.
  unfold recompress_pages.
  match goal with
  | |- context [fold_left _ items ?c] =>
      destruct (fold_add_to_page_fits items c Hg) as [Hcur Hstack]
  end.
  - intros c [= <-]. simpl. unfold pd_lower, pd_upper. lia.
  - intros c [].
  - intros c Hin. apply in_app_or in Hin as [Hin|Hin].
    + now apply Hstack.
    + destruct (currpage _) as [c'|] eqn:Hc'; [|destruct Hin].
      destruct Hin as [<-|[]]. now apply Hcur.
Qed.

(** [free_space_per_page] is less than the space of an empty page. *)
Lemma picksplit_free_space_small cxt items :
  geometry_ok = true -> items <> [] ->
  Z.of_nat (length items) * SizeOfZSTidArrayItem + BLCKSZ < 2 ^ 31 ->
  0 <= cxt_free_space_per_page (zsbt_tid_recompress_picksplit cxt items)
    < space_on_empty_page.
Proof.
  intros Hg Hne Hsmall.
  destruct (space_on_empty_page_eq Hg) as [Hsp0 [Hsp1 Hsp2]].
  pose proof (geometry_ok_facts Hg) as (Ha & Hh & Ho & Hs & Hb & Hc).
  set (sp := space_on_empty_page) in *.
  set (len := Z.of_nat (length items)) in *.
  assert (Hlen : 1 <= len).
  { subst len. destruct items; [contradiction|]. simpl length. lia. }
  pose proof (MAXALIGN_nonneg _ Ha Hh) as Hmh.
  pose proof (MAXALIGN_nonneg _ Ha Ho) as Hmo.
  pose proof (MAXALIGN_ge SizeOfZSTidArrayItem Ha) as Hms.
  assert (Hsz : 0 <= len * SizeOfZSTidArrayItem < 2 ^ 31 - BLCKSZ) by nia.
  assert (Hlen2 : len <= len * SizeOfZSTidArrayItem) by nia.
  assert (Hspb : sp <= BLCKSZ) by (subst sp; rewrite Hsp0; lia).
  assert (Htsz : picksplit_total_sz items = len * SizeOfZSTidArrayItem).
  { unfold picksplit_total_sz. fold len.
    rewrite (s32_small len) by lia.
    rewrite (u64_small (len * SizeOfZSTidArrayItem)) by lia. reflexivity. }
  assert (Hnp : picksplit_num_pages items
                = (len * SizeOfZSTidArrayItem + sp - 1) / sp).
  { unfold picksplit_num_pages. rewrite Htsz. fold sp.
    rewrite (u64_small sp) by lia.
    rewrite (u64_small (len * SizeOfZSTidArrayItem + sp - 1)) by nia.
    apply s32_small.
    assert (0 <= (len * SizeOfZSTidArrayItem + sp - 1) / sp
            <= len * SizeOfZSTidArrayItem + sp - 1).
    { split; [apply Z.div_pos; nia|].
      apply Z.div_le_upper_bound; nia. }
    nia. }
  set (q := (len * SizeOfZSTidArrayItem + sp - 1) / sp) in *.
  assert (Hq : sp * q <= len * SizeOfZSTidArrayItem + sp - 1
               < sp * q + sp).
  { assert (Hnz : sp <> 0) by lia. assert (Hpos : 0 < sp) by lia.
    pose proof (Z.div_mod (len * SizeOfZSTidArrayItem + sp - 1) sp Hnz)
      as Hdm.
    pose proof (Z.mod_pos_bound (len * SizeOfZSTidArrayItem + sp - 1) sp
                  Hpos).
    fold q in Hdm. lia. }
  assert (Hq1 : 1 <= q) by nia.
  assert (Hqb : sp * q < 2 ^ 31 /\ q <= sp * q) by nia.
  assert (Htf : picksplit_total_free items
                = sp * q - len * SizeOfZSTidArrayItem).
  { unfold picksplit_total_free. rewrite Hnp, Htsz. fold sp.
    rewrite (s32_small (sp * q)) by lia.
    rewrite (u64_small (sp * q - len * SizeOfZSTidArrayItem)) by lia.
    reflexivity. }
  unfold zsbt_tid_recompress_picksplit.
  cbn [cxt_num_pages cxt_free_space_per_page]. rewrite Hnp, Htf.
  set (tf := sp * q - len * SizeOfZSTidArrayItem) in *.
  assert (Htfb : 0 <= tf < sp) by (subst tf; lia).
  destruct (Z.eqb_spec q 1); [rewrite s32_small; lia|].
  destruct (Z.eqb_spec (cxt_hikey cxt) MaxPlusOneZSTid).
  - rewrite (s32_small (q - 1)) by lia.
    rewrite double_tenth_share by lia.
    assert (Hdiv : 0 <= tf / (10 * (q - 1)) <= tf).
    { split; [apply Z.div_pos; lia|].
      apply Z.div_le_upper_bound; nia. }
    rewrite s32_small by lia. lia.
  - rewrite (u64_small q) by lia.
    assert (Hdiv : 0 <= tf / q <= tf).
    { split; [apply Z.div_pos; lia|].
      apply Z.div_le_upper_bound; nia. }
    rewrite s32_small by lia. lia.
Qed.

Lemma add_to_page_free_space cxt item :
  cxt_free_space_per_page (zsbt_tid_recompress_add_to_page cxt item)
  = cxt_free_space_per_page cxt.
Proof.
  unfold zsbt_tid_recompress_add_to_page. now destruct (_ || _).
Qed.

Lemma add_to_page_nonempty cxt item :
  (forall c, currpage cxt = Some c -> tiditems c <> []) ->
  (forall c, In c (stack_pages cxt) -> tiditems c <> []) ->
  let cxt' := zsbt_tid_recompress_add_to_page cxt item in
  (forall c, currpage cxt' = Some c -> tiditems c <> [])
  /\ (forall c, In c (stack_pages cxt') -> tiditems c <> []).
Proof.
  intros Hcur Hstack. cbv zeta. unfold zsbt_tid_recompress_add_to_page.
  destruct (_ || _).
  - cbn [currpage stack_pages zsbt_tid_recompress_newpage]. split.
    + intros c [= <-]. discriminate.
    + intros c Hin. destruct (currpage cxt) as [old|] eqn:Hold.
      * apply in_app_or in Hin as [Hin|[<-|[]]]; [now apply Hstack|].
        simpl. now apply Hcur.
      * now apply Hstack.
  - split; [|exact Hstack].
    destruct (currpage cxt) as [c0|]; [|discriminate].
    intros c [= <-]. simpl. intros Hnil.
    apply app_eq_nil in Hnil as [_ Hnil]. discriminate.
Qed.

Lemma fold_add_to_page_nonempty items : forall cxt,
  (forall c, currpage cxt = Some c -> tiditems c <> []) ->
  (forall c, In c (stack_pages cxt) -> tiditems c <> []) ->
  let cxt' := fold_left zsbt_tid_recompress_add_to_page items cxt in
  (forall c, currpage cxt' = Some c -> tiditems c <> [])
  /\ (forall c, In c (stack_pages cxt') -> tiditems c <> []).
Proof.
  induction items as [|a items IH]; intros cxt Hcur Hstack; [auto|].
  cbn [fold_left].
  destruct (add_to_page_nonempty cxt a Hcur Hstack) as [Hcur' Hstack'].
  now apply IH.
Qed.


Lemma add_to_empty_page_nonempty cxt c0 item :
  geometry_ok = true ->
  currpage cxt = Some c0 -> tiditems c0 = [] -> stack_pages cxt = [] ->
  0 <= cxt_free_space_per_page cxt < space_on_empty_page ->
  let cxt' := zsbt_tid_recompress_add_to_page cxt item in
  (forall c, currpage cxt' = Some c -> tiditems c <> [])
  /\ (forall c, In c (stack_pages cxt') -> tiditems c <> []).
Proof.
  intros Hg Hc0 Hempty Hstack Hf.
  destruct (space_on_empty_page_eq Hg) as [Hsp0 [Hsp1 Hsp2]].
  pose proof (geometry_ok_facts Hg) as (Ha & Hh & Ho & Hs & Hb & Hc).
  pose proof (MAXALIGN_ge SizeOfZSTidArrayItem Ha) as Hms.
  pose proof (MAXALIGN_ge SizeOfPageHeaderData Ha) as Hmh.
  cbv zeta. unfold zsbt_tid_recompress_add_to_page, currpage_items.
  rewrite Hc0, Hempty.
  set (f := cxt_free_space_per_page cxt) in *.
  rewrite (u64_small f) by lia.
  assert (Hfree : PageGetExactFreeSpace
                    (Z.of_nat (length (@nil ZSTidArrayItem)))
                  = BLCKSZ - MAXALIGN SizeOfZSBtreePageOpaque
                    - SizeOfPageHeaderData).
  { unfold PageGetExactFreeSpace, pd_lower, pd_upper. simpl length.
    change (Z.of_nat 0) with 0.
    destruct (Z.ltb_spec (BLCKSZ - MAXALIGN SizeOfZSBtreePageOpaque
                          - (SizeOfPageHeaderData
                             + 0 * SizeOfZSTidArrayItem)) 0); lia. }
  rewrite Hfree.
  destruct (Z.ltb_spec (BLCKSZ - MAXALIGN SizeOfZSBtreePageOpaque
                        - SizeOfPageHeaderData)
              (MAXALIGN SizeOfZSTidArrayItem)); [lia|].
  destruct (Z.ltb_spec (BLCKSZ - MAXALIGN SizeOfZSBtreePageOpaque
                        - SizeOfPageHeaderData) f); [lia|].
  cbn [orb]. rewrite Hc0, Hstack. cbn [currpage stack_pages]. split.
  - intros c [= <-]. simpl. rewrite Hempty. discriminate.
  - intros c [].
Qed.

Lemma picksplit_pages cxt items :
  stack_pages (zsbt_tid_recompress_picksplit cxt items) = stack_pages cxt
  /\ currpage (zsbt_tid_recompress_picksplit cxt items) = currpage cxt.
Proof. split; reflexivity. Qed.

Lemma fold_from_newpage_nonempty cxt1 lokey flags items :
  geometry_ok = true -> items <> [] ->
  stack_pages cxt1 = [] -> currpage cxt1 = None ->
  0 <= cxt_free_space_per_page cxt1 < space_on_empty_page ->
  let cxt3 :=
    fold_left zsbt_tid_recompress_add_to_page items
      (zsbt_tid_recompress_newpage cxt1 lokey flags) in
  forall c, In c (stack_pages cxt3 ++ opt_list (currpage cxt3)) ->
    tiditems c <> [].
Proof.
  intros Hg Hne Hs1 Hc1 Hf cxt3 c Hin. subst cxt3.
  set (cxt2 := zsbt_tid_recompress_newpage cxt1 lokey flags) in *.
  assert (H2 : currpage cxt2
               = Some {| zs_next := InvalidBlockNumber; zs_lokey := lokey;
                         zs_hikey := cxt_hikey cxt1; zs_level := 0;
                         zs_flags := flags; tiditems := [] |}
               /\ stack_pages cxt2 = []
               /\ cxt_free_space_per_page cxt2
                  = cxt_free_space_per_page cxt1).
  { subst cxt2. unfold zsbt_tid_recompress_newpage.
    cbn [currpage stack_pages cxt_free_space_per_page].
    rewrite Hc1, Hs1. auto. }
  clearbody cxt2. destruct H2 as (Hc2 & Hs2 & Hf2).
  destruct items as [|a items]; [contradiction|].
  cbn [fold_left] in Hin.
  destruct (add_to_empty_page_nonempty cxt2 _ a Hg Hc2 eq_refl Hs2)
    as [Hcur Hstack]; [rewrite Hf2; exact Hf|].
  destruct (fold_add_to_page_nonempty items _ Hcur Hstack) as [Hcur' Hstack'].
  apply in_app_or in Hin as [Hin|Hin].
  - now apply Hstack'.
  - match type of Hin with
    | context [opt_list (currpage ?x)] =>
        destruct (currpage x) as [c'|] eqn:Hc'; [|destruct Hin]
    end.
    destruct Hin as [<-|[]]. now apply Hcur'.
Qed.

(** The recompressor leaves no page empty: every page image it builds
    for a list of items that is not empty holds at least one item. *)
Theorem recompress_pages_no_empty_page oldpage items :
  geometry_ok = true -> items <> [] ->
  Z.of_nat (length items) * SizeOfZSTidArrayItem + BLCKSZ < 2 ^ 31 ->
  forall c, In c (recompress_pages oldpage items) -> tiditems c <> [].
Proof.
  intros Hg Hne Hsmall c Hin.
  refine (fold_from_newpage_nonempty _ _ _ items Hg Hne _ _ _ c Hin).
  - apply picksplit_pages.
  - apply picksplit_pages.
  - now apply picksplit_free_space_small.
Qed.

(** [zsbt_tid_add_items] with new items that continue the items of the
    leaf in order: the call succeeds and the leaf, or the chain of pages it
    was split into, holds the old items followed by the new ones; a fetch of
    a TID that no new item covers reports what it reported before.  When
    the new items fit into the free space of the page, the page is
    rewritten in place: only the item array of block [n] changes. *)
Theorem zsbt_tid_add_items_appends rel (n : nat) p newitems :
  geometry_ok = true -> rel_ok rel = true ->
  rd_blocks rel !! n = Some (LeafBlock p) ->
  items_ok (zs_lokey p) (zs_hikey p) (tiditems p ++ newitems) = true ->
  Z.of_nat (length newitems) < 2 ^ 31 ->
  exists rel',
    zsbt_tid_add_items rel (Z.of_nat n) newitems = Done rel'
    /\ written rel n p (tiditems p ++ newitems) rel'
    /\ (forall t, (forall it, In it newitems -> ~ covers it t) ->
          fetch_info rel' t = fetch_info rel t)
    /\ (Z.of_nat (length newitems) * SizeOfZSTidArrayItem
        <= PageGetExactFreeSpace (Z.of_nat (length (tiditems p))) ->
        rd_blocks rel'
        = <[n := LeafBlock (with_items p (tiditems p ++ newitems))]>
            (rd_blocks rel)).
Proof.
  intros Hg Hrel Hp Hiok Hlen.
  pose proof (rel_ok_leaves_ok _ Hrel) as Hok.
  pose proof (geometry_ok_facts Hg) as (Ha & Hh & Ho & Hs & Hb & Hc).
  assert (Hw : add_items_page p newitems
               = InPlace (tiditems p ++ newitems)
               \/ add_items_page p newitems
                  = Recompress (tiditems p ++ newitems)).
  { unfold add_items_page. destruct (_ <=? _) eqn:Hle; [now left|].
    right. destruct (tiditems p ++ newitems) eqn:E; [|reflexivity].
    exfalso. apply app_eq_nil in E as [E1 E2]. subst newitems.
    unfold PageGetNumZSTidItems in Hle. rewrite E1 in Hle.
    pose proof (PageGetExactFreeSpace_bounds 0 Hg ltac:(lia)).
    change (Z.of_nat (length (@nil ZSTidArrayItem))) with 0 in Hle.
    rewrite (s32_small 0), Z.mul_0_l, (u64_small 0) in Hle by lia.
    apply Z.leb_gt in Hle. lia. }
  destruct (apply_leaf_write_written rel n p (tiditems p ++ newitems)
              (add_items_page p newitems) Hok Hp Hiok Hw)
    as (rel' & Hadd & Hwr).
  exists rel'. split; [|split; [exact Hwr|split]].
  - unfold zsbt_tid_add_items.
    now rewrite (proj2 (get_leaf_lookup _ _ _) Hp).
  - intros t Hnone.
    apply (written_fetch_info rel n p _ rel' t Hwr Hok Hp).
    + intros it Hin Hcov. exists it. repeat split; try apply Hcov.
      apply in_or_app. now left.
    + intros it' Hin Hcov. apply in_app_or in Hin as [Hin|Hin].
      * exists it'. split; assumption.
      * now destruct (Hnone it' Hin).
  - intros Hfit.
    assert (Hin : add_items_page p newitems
                  = InPlace (tiditems p ++ newitems)).
    { unfold add_items_page, PageGetNumZSTidItems.
      rewrite (s32_small (Z.of_nat (length newitems))) by lia.
      rewrite u64_small by nia.
      destruct (Z.leb_spec
                  (Z.of_nat (length newitems) * SizeOfZSTidArrayItem)
                  (PageGetExactFreeSpace (Z.of_nat (length (tiditems p)))));
        [reflexivity|lia]. }
    rewrite Hin in Hadd. unfold apply_leaf_write in Hadd.
    rewrite (proj2 (get_leaf_lookup _ _ _) Hp) in Hadd.
    injection Hadd as <-. simpl. apply set_block_insert.
Qed.

(** ** The scan skips no visible TID *)

Lemma not_visible_gap rel snap (n : nat) p t :
  leaves_ok (rd_blocks rel) ->
  rd_blocks rel !! n = Some (LeafBlock p) -> page_covers p t = true ->
  (forall it, In it (tiditems p) -> ~ covers it t) ->
  ~ visible_run rel snap t (t + 1).
Proof.
  intros [Hpok Hap] Hp Hpc Hnone (m & q & i & it & Hq & Hi & _ & _ & H1 & H2).
  assert (Hcov : covers it t) by (unfold covers; lia).
  pose proof (page_ok_covers _ _ _ _ (Hpok _ _ Hq) Hi Hcov) as Hqc.
  destruct (Nat.eq_dec m n) as [->|Hne].
  - rewrite Hp in Hq. injection Hq as <-.
    apply (Hnone it); [|exact Hcov].
    apply list_elem_of_In, list_elem_of_lookup. eauto.
  - pose proof (covers_not_apart _ _ _ Hqc Hpc) as Hna.
    rewrite (Hap m n q p Hne Hq Hp) in Hna. discriminate.
Qed.

Lemma not_visible_item rel snap (n : nat) p (i : nat) it t :
  leaves_ok (rd_blocks rel) ->
  rd_blocks rel !! n = Some (LeafBlock p) -> tiditems p !! i = Some it ->
  covers it t ->
  (if item_isdead it then false
   else zs_SatisfiesVisibility snap (t_undo_ptr it)) = false ->
  ~ visible_run rel snap t (t + 1).
Proof.
  intros Hok Hp Hi Hcov Hvis
    (m & q & j & it' & Hq & Hj & Hd & Hv & H1 & H2).
  assert (Hcov' : covers it' t) by (unfold covers; lia).
  rewrite (covering_item_unique rel n m p q i j it it' t) in Hvis; auto.
  rewrite Hd, Hv in Hvis. discriminate.
Qed.

(** The loop over the items of a page passes over no visible TID below
    [endtid]; when it leaves no array, no TID from the scan's position to
    the end of the page is visible. *)
Lemma scan_page_items_complete rel items : forall lo hi scan,
  leaves_ok (rd_blocks rel) ->
  items_ok lo hi items = true -> 0 <= lo -> hi <= MaxPlusOneZSTid ->
  (forall it, In it items ->
     exists (n : nat) p (i : nat),
       rd_blocks rel !! n = Some (LeafBlock p)
       /\ tiditems p !! i = Some it) ->
  (forall t, lo <= t < hi -> (forall it, In it items -> ~ covers it t) ->
     ~ visible_run rel (snapshot scan) t (t + 1)) ->
  lo <= nexttid scan -> endtid scan < 2 ^ 64 ->
  nexttid scan < endtid scan \/ nexttid scan <= lo ->
  has_array scan = false ->
  let s' := scan_page_items scan items in
  (forall t, nexttid scan <= t < nexttid s' -> t < endtid scan ->
     ~ visible_run rel (snapshot scan) t (t + 1))
  /\ (has_array s' = false ->
      forall t, nexttid scan <= t < hi -> t < endtid scan ->
        ~ visible_run rel (snapshot scan) t (t + 1)).
Proof.
  induction items as [|it items IH];
    intros lo hi scan Hleaves Hok Hlo Hhi Hin Hgap Hn Hend HJ Harr.
  - cbv zeta. cbn [scan_page_items]. split; [intros; lia|].
    intros _ t Ht _. apply Hgap; [lia|]. intros it [].
  - pose proof Hok as Hok0.
    apply items_ok_cons in Hok as (Hit1 & Hitn & Hit2 & Hok).
    unfold MaxPlusOneZSTid in Hhi.
    assert (Hin' : forall it', In it' items ->
              exists (n : nat) p (i : nat),
                rd_blocks rel !! n = Some (LeafBlock p)
                /\ tiditems p !! i = Some it').
    { intros it' Hi'. apply Hin. now right. }
    assert (Hafter : forall it' t, In it' items -> covers it' t ->
              t_tid it + t_nelements it <= t).
    { intros it' t Hi' [Hc1 Hc2].
      apply list_elem_of_In, list_elem_of_lookup in Hi' as [j Hj].
      assert (H0 : (it :: items) !! 0%nat = Some it) by reflexivity.
      assert (HS : (it :: items) !! S j = Some it') by exact Hj.
      pose proof (items_ok_ordered _ _ _ _ _ _ _ Hok0 H0 HS ltac:(lia)).
      lia. }
    assert (Hbefore : forall t, lo <= t < t_tid it ->
              ~ visible_run rel (snapshot scan) t (t + 1)).
    { intros t Ht. apply Hgap; [lia|].
      intros it' [<-|Hi'] Hc; [unfold covers in Hc; lia|].
      pose proof (Hafter it' t Hi' Hc). lia. }
    assert (Hgap' : forall t, t_tid it + t_nelements it <= t < hi ->
              (forall it', In it' items -> ~ covers it' t) ->
              ~ visible_run rel (snapshot scan) t (t + 1)).
    { intros t Ht Hnone. apply Hgap; [lia|].
      intros it' [<-|Hi'] Hc; [unfold covers in Hc; lia|].
      exact (Hnone it' Hi' Hc). }
    cbn [scan_page_items]. unfold zsbt_tid_item_lasttid.
    rewrite (u64_small (t_tid it + t_nelements it - 1)) by lia.
    destruct (Z.gtb_spec (nexttid scan) (t_tid it + t_nelements it - 1)).
    { (* the scan is past this item *)
      apply (IH (t_tid it + t_nelements it) hi); auto; lia. }
    destruct (Z.geb_spec (t_tid it) (endtid scan)).
    { (* the item starts at or after the end of the range *)
      cbv zeta. split.
      - intros t Ht Hte. apply Hbefore. lia.
      - intros _ t Ht Hte. apply Hbefore. lia. }
    set (visible := if item_isdead it then false else _).
    destruct visible eqn:Hvis; cbn [negb]; cbv iota.
    2:{ (* dead or invisible: skip the item *)
      rewrite (u64_small (t_tid it + t_nelements it - 1 + 1)) by lia.
      set (scan1 := set_nexttid scan (t_tid it + t_nelements it - 1 + 1)).
      destruct (IH (t_tid it + t_nelements it) hi scan1)
        as [IH1 IH2]; auto; try (simpl; lia).
      assert (Hskip : forall t,
                nexttid scan <= t < t_tid it + t_nelements it ->
                ~ visible_run rel (snapshot scan) t (t + 1)).
      { intros t Ht. destruct (Z.lt_ge_cases t (t_tid it)).
        - apply Hbefore. lia.
        - destruct (Hin it (or_introl eq_refl)) as (n & p & i & Hp & Hi).
          apply (not_visible_item rel _ n p i it t); auto.
          unfold covers. lia. }
      cbv zeta. cbn [nexttid endtid snapshot set_nexttid] in IH1, IH2.
      split.
      - intros t Ht Hte.
        destruct (Z.lt_ge_cases t (t_tid it + t_nelements it)).
        + apply Hskip. lia.
        + apply IH1; [|exact Hte]. subst scan1. simpl. lia.
      - intros Ha t Ht Hte.
        destruct (Z.lt_ge_cases t (t_tid it + t_nelements it)).
        + apply Hskip. lia.
        + apply IH2; [exact Ha| |exact Hte]. subst scan1. simpl. lia. }
    (* a visible item *)
    assert (Hlt : Z.max (t_tid it) (nexttid scan) < endtid scan) by lia.
    destruct (extract_array_spec scan it)
      as (Hx1 & Hx2 & Hx3 & Hx4 & Hx5 & _); try lia.
    { unfold MaxPlusOneZSTid. lia. }
    set (scan' := zsbt_tid_scan_extract_array scan it) in *.
    assert (Hhas : (array_next_datum scan' <? array_num_elements scan')
                   = true).
    { rewrite Hx2, Hx3. apply Z.ltb_lt. lia. }
    rewrite Hhas. cbv zeta. split.
    + intros t Ht Hte. apply Hbefore. lia.
    + unfold has_array. rewrite Hhas. discriminate.
Qed.

Lemma scan_locate_expected rel scan buf s1 :
  scan_locate rel scan = AtPage (Some buf) s1 ->
  zsbt_page_is_expected rel (nexttid scan) buf = true.
Proof.
  assert (Hre : forall s,
            AtPage (zsbt_descend rel (nexttid scan)) s
            = AtPage (Some buf) s1 ->
            zsbt_page_is_expected rel (nexttid scan) buf = true).
  { intros s Heq. injection Heq as Hd _.
    apply descend_from_Some in Hd as (n & p & -> & Hp & Hcov).
    unfold zsbt_page_is_expected. rewrite Z.add_0_l.
    now rewrite (proj2 (get_leaf_lookup _ _ _) Hp). }
  unfold scan_locate. cbv zeta.
  destruct (lastbuf scan) as [b|]; [|apply Hre].
  destruct (zsbt_page_is_expected rel (nexttid scan) b) eqn:E1;
    cbn [negb].
  { intros Heq. injection Heq as <- _. exact E1. }
  destruct (zsbt_page_is_expected rel (u64 (nexttid scan - 1)) b);
    [|apply Hre].
  destruct (get_leaf (rd_blocks rel) b) as [page|]; [|apply Hre].
  destruct (zs_next page =? InvalidBlockNumber); cbn [negb];
    [apply Hre|discriminate].
Qed.

(** One call of the loop of [zsbt_tid_scan_next] that returns: no TID that
    it passed over is visible; when it returns no TID, no TID from the
    scan's position to [endtid] is visible. *)
Lemma scan_next_loop_complete rel (N : nat) :
  leaves_ok (rd_blocks rel) -> right_linked (rd_blocks rel) N ->
  forall (fuel : nat) scan tid scan',
    scan_inv rel scan ->
    MinZSTid <= nexttid scan -> endtid scan <= MaxPlusOneZSTid ->
    scan_next_loop fuel rel scan = Some (Done (tid, scan')) ->
    (tid = InvalidZSTid ->
     (active scan' = false \/ endtid scan' <= nexttid scan')
     /\ forall t, nexttid scan <= t < endtid scan ->
          ~ visible_run rel (snapshot scan) t (t + 1))
    /\ (tid <> InvalidZSTid ->
        active scan' = active scan
        /\ forall t, nexttid scan <= t < tid ->
             ~ visible_run rel (snapshot scan) t (t + 1)).
Proof.
  intros Hleaves Hlinked. pose proof Hleaves as [Hpok _].
  induction fuel as [|fuel IH]; intros scan tid scan' Hinv Hmin Hmax Hrun;
    [discriminate|].
  unfold MinZSTid in Hmin. unfold MaxPlusOneZSTid in Hmax.
  cbn [scan_next_loop] in Hrun.
  destruct (Z.ltb_spec (nexttid scan) (endtid scan)) as [Hlt|Hge];
    cbn [negb] in Hrun.
  2:{ inversion Hrun; subst. split.
      - intros _. split; [right; lia|]. intros t Ht. lia.
      - intros Hne. now destruct Hne. }
  fold (has_array scan) in Hrun.
  pose proof Hinv as (Hn0 & Hend & Harr).
  destruct (has_array scan) eqn:Hhas.
  { (* have_array *)
    inversion Hrun; subst tid scan'. clear Hrun.
    split; [unfold InvalidZSTid; lia|].
    intros _. split; [reflexivity|]. intros t Ht. lia. }
  (* no array: look for the next item *)
  assert (Hcont : forall s,
            nexttid scan <= nexttid s -> endtid s = endtid scan ->
            snapshot s = snapshot scan -> active s = active scan ->
            scan_inv rel s ->
            (forall t, nexttid scan <= t < nexttid s -> t < endtid scan ->
               ~ visible_run rel (snapshot scan) t (t + 1)) ->
            scan_next_loop fuel rel s = Some (Done (tid, scan')) ->
            (tid = InvalidZSTid ->
             (active scan' = false \/ endtid scan' <= nexttid scan')
             /\ forall t, nexttid scan <= t < endtid scan ->
                  ~ visible_run rel (snapshot scan) t (t + 1))
            /\ (tid <> InvalidZSTid ->
                active scan' = active scan
                /\ forall t, nexttid scan <= t < tid ->
                     ~ visible_run rel (snapshot scan) t (t + 1))).
  { intros s Hs1 Hs2 Hs3 Hs4 Hsinv Hskip Hsrun.
    destruct (IH s tid scan' Hsinv) as [Hnone Hsome]; auto;
      try (unfold MinZSTid, MaxPlusOneZSTid; lia).
    rewrite Hs2, Hs3, Hs4 in *.
    split.
    - intros Htid. destruct (Hnone Htid) as [Hsticky Hnone'].
      split; [exact Hsticky|]. intros t Ht.
      destruct (Z.lt_ge_cases t (nexttid s)).
      + apply Hskip; lia.
      + apply Hnone'. lia.
    - intros Htid. destruct (Hsome Htid) as [Hact Hbelow].
      split; [exact Hact|]. intros t Ht.
      destruct (scan_next_loop_spec rel Hleaves fuel s tid scan' Hsinv Hsrun)
        as [|(Hge & Hlt' & _)]; [contradiction|].
      destruct (Z.lt_ge_cases t (nexttid s)).
      + apply Hskip; lia.
      + apply Hbelow. lia. }
  destruct (scan_locate_fields rel scan) as [b Hloc].
  destruct (scan_locate rel scan) as [scan1|buf scan1] eqn:Hlocate;
    subst scan1.
  { apply (Hcont (set_lastbuf scan b)); auto; try reflexivity.
    intros t Ht. simpl in Ht. lia. }
  destruct buf as [buf|]; [|discriminate].
  pose proof (scan_locate_expected _ _ _ _ Hlocate) as Hexp.
  destruct (get_leaf (rd_blocks rel) buf) as [page|] eqn:Hget;
    [|discriminate].
  unfold zsbt_page_is_expected in Hexp. rewrite Hget in Hexp.
  pose proof Hget as Hget0.
  apply get_leaf_Some in Hget as [_ Hpage].
  pose proof (Hpok _ _ Hpage) as Hp.
  apply page_ok_facts in Hp as (Hlo & Hlh & Hhi & Hlvl & Hiok).
  unfold MinZSTid in Hlo. unfold MaxPlusOneZSTid in Hhi.
  assert (Hcovn : zs_lokey page <= nexttid scan < zs_hikey page).
  { unfold page_covers in Hexp.
    rewrite !andb_true_iff, Z.leb_le, Z.ltb_lt in Hexp. lia. }
  assert (Hitems : forall it, In it (tiditems page) ->
            exists (n : nat) p (i : nat),
              rd_blocks rel !! n = Some (LeafBlock p)
              /\ tiditems p !! i = Some it).
  { intros it Hin. apply list_elem_of_In, list_elem_of_lookup in Hin
      as [i Hi]. eauto. }
  destruct (scan_page_items_spec rel (tiditems page) (zs_lokey page)
              (zs_hikey page) (set_lastbuf scan b) (nexttid scan))
    as (He2 & Hs2 & Hn2 & Ha2); auto;
    try (unfold MaxPlusOneZSTid; simpl; lia).
  destruct (scan_page_items_bound (tiditems page) (zs_lokey page)
              (zs_hikey page) (set_lastbuf scan b))
    as (_ & Hact2 & _); auto; try (unfold MaxPlusOneZSTid; simpl; lia).
  destruct (scan_page_items_complete rel (tiditems page) (zs_lokey page)
              (zs_hikey page) (set_lastbuf scan b))
    as (Hc1 & Hc2); auto; try (unfold MaxPlusOneZSTid; simpl; lia).
  { intros t Ht Hnone. cbn [snapshot set_lastbuf].
    apply (not_visible_gap rel _ _ page t Hleaves Hpage); auto.
    unfold page_covers.
    rewrite !andb_true_iff, Z.eqb_eq, Z.leb_le, Z.ltb_lt. lia. }
  set (scan2 := scan_page_items (set_lastbuf scan b) (tiditems page)) in *.
  cbn [endtid snapshot nexttid active set_lastbuf]
    in He2, Hs2, Ha2, Hc1, Hc2, Hact2.
  fold (has_array scan2) in Hrun.
  destruct (has_array scan2) eqn:Hhas2.
  { apply (Hcont scan2); auto.
    destruct (Ha2 eq_refl) as (Hd0 & Hnum & Hle & Hvis).
    split; [lia|]. split; [lia|]. intros _.
    rewrite Hd0, Z.sub_0_r, He2, Hs2. repeat split; auto; lia. }
  (* No more items on this page. Walk right, if possible *)
  specialize (Hc2 eq_refl).
  set (scan3 := if nexttid scan2 <? zs_hikey page
                then set_nexttid scan2 (zs_hikey page) else scan2) in *.
  assert (H3 : nexttid scan3 = Z.max (nexttid scan2) (zs_hikey page)
               /\ endtid scan3 = endtid scan2
               /\ snapshot scan3 = snapshot scan2
               /\ active scan3 = active scan2
               /\ has_array scan3 = false).
  { subst scan3. destruct (Z.ltb_spec (nexttid scan2) (zs_hikey page));
      simpl; repeat split; auto; lia. }
  destruct H3 as (H31 & H32 & H33 & H35 & H34).
  assert (Hskip3 : forall t, nexttid scan <= t < nexttid scan3 ->
            t < endtid scan ->
            ~ visible_run rel (snapshot scan) t (t + 1)).
  { intros t Ht Hte. destruct (Z.lt_ge_cases t (nexttid scan2)).
    - apply Hc1; lia.
    - apply Hc2; lia. }
  destruct (zs_next page =? buf); [discriminate|].
  destruct ((zs_next page =? InvalidBlockNumber)
            || (nexttid scan3 >=? endtid scan3)) eqn:Hstop.
  { inversion Hrun; subst tid scan'. split; [|intros Hne; now destruct Hne].
    intros _. split; [now left|]. intros t Ht. apply Hskip3; [|lia].
    apply orb_prop in Hstop as [Hnext|Hpast].
    - apply Z.eqb_eq in Hnext.
      destruct (Hlinked _ _ Hget0) as (_ & ps & Hchain & _).
      destruct ps as [|p' [|q rest]]; [contradiction| |].
      + destruct Hchain as [Hgp Hlast].
        assert (p' = page) by congruence. subst p'.
        unfold MaxPlusOneZSTid in Hlast. lia.
      + destruct Hchain as (Hgp & _ & Hnn & _).
        assert (p' = page) by congruence. subst p'. contradiction.
    - destruct (Z.geb_spec (nexttid scan3) (endtid scan3)); [|discriminate].
      lia. }
  apply (Hcont (set_lastbuf scan3 (Some (zs_next page)))); auto;
    cbn [nexttid endtid snapshot active set_lastbuf]; try lia;
    try congruence.
  split; [simpl; lia|]. split; [simpl; lia|].
  intros Hc. change (has_array scan3 = true) in Hc. congruence.
Qed.

Lemma scan_tids_complete rel (N : nat) :
  rel_ok rel = true -> right_linked (rd_blocks rel) N ->
  leaves_cover rel ->
  forall (fuel : nat), (N + 2 < fuel)%nat ->
  forall (n : nat) scan,
    active scan = true -> scan_inv rel scan ->
    MinZSTid <= nexttid scan -> endtid scan <= MaxPlusOneZSTid ->
    endtid scan - nexttid scan <= Z.of_nat n ->
    forall t, nexttid scan <= t < endtid scan ->
      visible_run rel (snapshot scan) t (t + 1) ->
      In t (scan_tids n fuel rel scan).
Proof.
  intros Hrel Hlinked Hcover fuel Hfuel.
  pose proof (rel_ok_leaves_ok _ Hrel) as Hok.
  induction n as [|n IH]; intros scan Hact Hinv Hmin Hmax Hn t Ht Hvis;
    [lia|].
  destruct (zsbt_tid_scan_next_returns rel N fuel scan Hrel Hlinked Hcover
              Hmin Hmax Hfuel)
    as (tid & scan' & Hnext & Hmin' & Hmax').
  cbn [scan_tids]. rewrite Hnext.
  unfold zsbt_tid_scan_next in Hnext. rewrite Hact in Hnext.
  cbn [negb] in Hnext.
  destruct (scan_next_loop_complete rel N Hok Hlinked fuel scan tid scan'
              Hinv Hmin Hmax Hnext) as [Hnone Hsome].
  destruct (Z.eqb_spec tid InvalidZSTid) as [Htid|Htid].
  { destruct (Hnone Htid) as [_ Hno]. now destruct (Hno t Ht). }
  destruct (Hsome Htid) as [Hact' Hbelow].
  destruct (scan_next_loop_spec rel Hok fuel scan tid scan' Hinv Hnext)
    as [|(Hge & Hlt & Hnt & He & Hs & _ & Hinv')]; [contradiction|].
  destruct (Z.lt_trichotomy t tid) as [Hl|[->|Hg]].
  - now destruct (Hbelow t ltac:(lia)).
  - now left.
  - right. apply IH; auto; try congruence; try lia.
Qed.

(** The scan is exact.  On a well-formed tree whose leaves cover all TIDs
    and are chained by their right-links, the calls of
    [zsbt_tid_scan_next] for a scan opened over [starttid, endtid) return
    the TIDs of that range that an item covers which is not dead and is
    visible to the snapshot: all of them, and no other. *)
Theorem zsbt_tid_scan_exact rel (N : nat) starttid endtid snap
    (n fuel : nat) :
  rel_ok rel = true -> right_linked (rd_blocks rel) N ->
  leaves_cover rel ->
  MinZSTid <= starttid -> endtid <= MaxPlusOneZSTid ->
  (N + 2 < fuel)%nat -> endtid - starttid <= Z.of_nat n ->
  forall t,
    In t (scan_tids n fuel rel
            (zsbt_tid_begin_scan rel starttid endtid snap))
    <-> starttid <= t < endtid /\ visible_run rel snap t (t + 1).
Proof.
  intros Hrel Hlinked Hcover Hmin Hmax Hfuel Hn t.
  pose proof (rel_ok_leaves_ok _ Hrel) as Hok.
  assert (Hinv : scan_inv rel (zsbt_tid_begin_scan rel starttid endtid snap)).
  { unfold MinZSTid in Hmin. unfold MaxPlusOneZSTid in Hmax.
    split; [simpl; lia|]. split; [simpl; lia|].
    intros Hc. discriminate. }
  split.
  - intros Hin.
    destruct (scan_tids_spec rel Hok n fuel _ Hinv) as [_ Hall].
    rewrite Forall_forall in Hall.
    apply list_elem_of_In in Hin. exact (Hall t Hin).
  - intros [Ht Hvis].
    apply (scan_tids_complete rel N Hrel Hlinked Hcover fuel Hfuel n);
      auto.
    unfold zsbt_tid_begin_scan. cbn [active].
    destruct (zsbt_descend rel starttid) eqn:Hd; [reflexivity|].
    exfalso. apply (Hcover starttid); [|exact Hd].
    unfold MaxPlusOneZSTid in *. lia.
Qed.

(** The end of the scan.  When a call of [zsbt_tid_scan_next] returns
    [InvalidZSTid], no TID from the scan's position to [endtid] is visible,
    and every later call returns [InvalidZSTid] again and leaves the scan
    as it is. *)
Theorem zsbt_tid_scan_next_end rel (N fuel : nat) scan scan' :
  rel_ok rel = true -> right_linked (rd_blocks rel) N ->
  scan_inv rel scan -> active scan = true ->
  MinZSTid <= nexttid scan -> endtid scan <= MaxPlusOneZSTid ->
  zsbt_tid_scan_next fuel rel scan = Some (Done (InvalidZSTid, scan')) ->
  (forall t, nexttid scan <= t < endtid scan ->
     ~ visible_run rel (snapshot scan) t (t + 1))
  /\ forall fuel' : nat,
       zsbt_tid_scan_next (S fuel') rel scan'
       = Some (Done (InvalidZSTid, scan')).
Proof.
  intros Hrel Hlinked Hinv Hact Hmin Hmax Hnext.
  pose proof (rel_ok_leaves_ok _ Hrel) as Hok.
  unfold zsbt_tid_scan_next in Hnext. rewrite Hact in Hnext.
  cbn [negb] in Hnext.
  destruct (scan_next_loop_complete rel N Hok Hlinked fuel scan _ scan'
              Hinv Hmin Hmax Hnext) as [Hnone _].
  destruct (Hnone eq_refl) as [Hsticky Hno].
  split; [exact Hno|]. intros fuel'. unfold zsbt_tid_scan_next.
  destruct (active scan') eqn:Hact'; cbn [negb]; [|reflexivity].
  destruct Hsticky as [|Hpast]; [discriminate|].
  cbn [scan_next_loop].
  destruct (Z.ltb_spec (nexttid scan') (endtid scan')); [lia|].
  reflexivity.
Qed.

End TidTree.

(** ** The set of dead TIDs *)

Lemma sorted_app (l1 l2 : list Z) :
  StronglySorted Z.lt l1 -> StronglySorted Z.lt l2 ->
  (forall a b, In a l1 -> In b l2 -> a < b) ->
  StronglySorted Z.lt (l1 ++ l2).
Proof.
  induction l1 as [|x l1 IH]; intros H1 H2 Hlt; [exact H2|].
  apply StronglySorted_inv in H1 as [H1 Hall].
  cbn [app]. constructor.
  - apply IH; auto. intros a b Ha Hb. apply Hlt; [now right|exact Hb].
  - apply Forall_app. split; [exact Hall|].
    apply Forall_forall. intros b Hb. apply list_elem_of_In in Hb.
    apply Hlt; [now left|exact Hb].
Qed.

Lemma item_tids_sorted it :
  0 <= t_tid it -> t_tid it + t_nelements it <= 2 ^ 64 ->
  StronglySorted Z.lt (item_tids it).
Proof.
  intros H0 He. unfold item_tids.
  assert (Hgen : forall (n s : nat),
            t_tid it + Z.of_nat (s + n) <= 2 ^ 64 ->
            StronglySorted Z.lt
              (map (fun j : nat => u64 (t_tid it + Z.of_nat j)) (seq s n))).
  { induction n as [|n IH]; intros s Hs; [constructor|].
    cbn [seq map]. constructor.
    - apply IH. lia.
    - apply Forall_forall. intros x Hx. apply list_elem_of_In in Hx.
      apply in_map_iff in Hx as (j & <- & Hj). apply in_seq in Hj.
      rewrite !u64_small by lia. lia. }
  destruct (Z_le_gt_dec 0 (t_nelements it)).
  - apply Hgen. lia.
  - replace (Z.to_nat (t_nelements it)) with 0%nat by lia. constructor.
Qed.

Lemma page_dead_tids_sorted items : forall lo hi,
  items_ok lo hi items = true -> 0 <= lo -> hi <= MaxPlusOneZSTid ->
  StronglySorted Z.lt (page_dead_tids items)
  /\ forall t, In t (page_dead_tids items) -> lo <= t < hi.
Proof.
  induction items as [|it items IH]; intros lo hi Hok Hlo Hhi.
  - split; [constructor|intros t []].
  - pose proof Hok as Hok0.
    apply items_ok_cons in Hok as (Hit1 & Hitn & Hit2 & Hok).
    destruct (IH _ _ Hok ltac:(lia) Hhi) as [Hs Hr].
    unfold MaxPlusOneZSTid in Hhi.
    assert (Hitem : forall t, In t (item_tids it) ->
              t_tid it <= t < t_tid it + t_nelements it).
    { intros t Ht. apply item_tids_In in Ht; [exact Ht|lia|lia|lia]. }
    change (page_dead_tids (it :: items))
      with ((if item_isdead it then item_tids it else [])
            ++ page_dead_tids items).
    destruct (item_isdead it).
    + split.
      * apply sorted_app; [apply item_tids_sorted; lia|exact Hs|].
        intros a b Ha Hb. apply Hitem in Ha. apply Hr in Hb. lia.
      * intros t Ht. apply in_app_or in Ht as [Ht|Ht].
        -- apply Hitem in Ht. lia.
        -- apply Hr in Ht. lia.
    + split; [exact Hs|]. intros t Ht. apply Hr in Ht. lia.
Qed.

Section DeadTids.

Context `{ZSExternal}.

Lemma right_chain_adjacent rel b p q rest :
  leaves_ok (rd_blocks rel) ->
  right_chain (rd_blocks rel) b (p :: q :: rest) ->
  zs_lokey q = zs_hikey p.
Proof.
  intros [Hpok Hap] (Hp & _ & _ & Hcov & Hq & _).
  apply get_leaf_Some in Hp as [_ Hp]. apply get_leaf_Some in Hq as [_ Hq].
  pose proof (Hpok _ _ Hp) as Hpp.
  apply page_ok_facts in Hpp as (_ & Hlh & _).
  unfold page_covers in Hcov.
  rewrite !andb_true_iff, Z.leb_le, Z.ltb_lt in Hcov.
  destruct (Nat.eq_dec (Z.to_nat b) (Z.to_nat (zs_next p))) as [Heq|Hne].
  - rewrite Heq, Hq in Hp. injection Hp as ->. lia.
  - pose proof (Hap _ _ _ _ Hne Hp Hq) as Hapart.
    unfold ranges_apart in Hapart.
    rewrite orb_true_iff, !Z.leb_le in Hapart. lia.
Qed.

(** The TIDs of the dead items of the leaves [ps[0..j]] of a chain: they
    are in ascending order, and they are the TIDs from the low key of the
    first leaf to the high key of leaf [j] that a dead item of the tree
    covers. *)
Lemma chain_dead_tids rel :
  leaves_ok (rd_blocks rel) ->
  forall ps b (j : nat) plast,
    right_chain (rd_blocks rel) b ps -> ps !! j = Some plast ->
    let result :=
      flat_map (fun p => page_dead_tids (tiditems p)) (take (S j) ps) in
    let lo := match ps with p0 :: _ => zs_lokey p0 | [] => 0 end in
    let hi := match ps with p0 :: _ => zs_hikey p0 | [] => 0 end in
    lo <= hi <= zs_hikey plast
    /\ StronglySorted Z.lt result
    /\ forall t,
         In t result <->
         lo <= t < zs_hikey plast
         /\ exists (n : nat) p it,
              rd_blocks rel !! n = Some (LeafBlock p)
              /\ In it (tiditems p) /\ item_isdead it = true
              /\ covers it t.
Proof.
  intros Hok. pose proof Hok as [Hpok Hap].
  induction ps as [|p ps IH]; intros b j plast Hch Hj; [discriminate|].
  pose proof Hch as [Hp Hrest].
  apply get_leaf_Some in Hp as [_ Hp].
  pose proof (Hpok _ _ Hp) as Hpp.
  apply page_ok_facts in Hpp as (Hlo & Hlh & Hhi & Hlvl & Hiok).
  unfold MinZSTid in Hlo.
  destruct (page_dead_tids_sorted (tiditems p) _ _ Hiok ltac:(lia) Hhi)
    as [Hsp Hrp].
  assert (Hpage : forall t,
            In t (page_dead_tids (tiditems p)) <->
            zs_lokey p <= t < zs_hikey p
            /\ exists (n : nat) q it,
                 rd_blocks rel !! n = Some (LeafBlock q)
                 /\ In it (tiditems q) /\ item_isdead it = true
                 /\ covers it t).
  { intros t. rewrite (page_dead_tids_In _ _ _ t Hiok ltac:(lia) Hhi).
    split.
    - intros (it & Hin & Hd & Hc). split.
      + apply Hrp.
        apply (page_dead_tids_In _ _ _ t Hiok ltac:(lia) Hhi). eauto.
      + exists (Z.to_nat b), p, it. auto.
    - intros (Ht & n & q & it & Hq & Hin & Hd & Hc).
      exists it. split; [|auto].
      pose proof Hin as Hin'.
      apply list_elem_of_In, list_elem_of_lookup in Hin' as [i Hi].
      pose proof (page_ok_covers _ _ _ _ (Hpok _ _ Hq) Hi Hc) as Hqc.
      assert (Hpc : page_covers p t = true).
      { unfold page_covers.
        rewrite !andb_true_iff, Z.eqb_eq, Z.leb_le, Z.ltb_lt. lia. }
      destruct (Nat.eq_dec n (Z.to_nat b)) as [->|Hne].
      + rewrite Hp in Hq. now injection Hq as <-.
      + pose proof (covers_not_apart _ _ _ Hqc Hpc) as Hna.
        rewrite (Hap _ _ _ _ Hne Hq Hp) in Hna. discriminate. }
  destruct j as [|j].
  - (* the first leaf only *)
    simpl in Hj. injection Hj as <-. cbv zeta.
    cbn [take flat_map]. rewrite take_0. cbn [flat_map].
    rewrite app_nil_r.
    split; [lia|]. split; [exact Hsp|exact Hpage].
  - destruct ps as [|q ps]; [discriminate|].
    pose proof (right_chain_adjacent rel b p q ps Hok Hch) as Hadj.
    destruct Hrest as (_ & _ & _ & Hrest).
    change ((p :: q :: ps) !! S j) with ((q :: ps) !! j) in Hj.
    destruct (IH (zs_next p) j plast Hrest Hj) as (Hle & Hs & Hin).
    cbv zeta in Hle, Hs, Hin |- *.
    change (take (S (S j)) (p :: q :: ps)) with (p :: take (S j) (q :: ps)).
    cbn [flat_map].
    split; [lia|]. split.
    + apply sorted_app; [exact Hsp|exact Hs|].
      intros a c Ha Hc. apply Hrp in Ha. apply Hin in Hc as [Hc _]. lia.
    + intros t. rewrite in_app_iff, Hpage, Hin. split.
      * intros [[Ht Hd]|[Ht Hd]]; (split; [lia|exact Hd]).
      * intros [Ht Hd].
        destruct (Z.lt_ge_cases t (zs_hikey p)); [left|right];
          (split; [lia|exact Hd]).
Qed.

Lemma fetch_info_dead rel t :
  leaves_ok (rd_blocks rel) ->
  (exists u, fetch_info rel t = Some (u, true))
  <-> exists (n : nat) p it,
        rd_blocks rel !! n = Some (LeafBlock p)
        /\ In it (tiditems p) /\ item_isdead it = true /\ covers it t.
Proof.
  intros Hok. split.
  - intros [u Hf]. unfold fetch_info in Hf.
    destruct (zsbt_tid_fetch rel t) as [[[b u'] d]|] eqn:Hfetch;
      [|discriminate].
    injection Hf as -> ->.
    destruct (zsbt_tid_fetch_Some rel t b u true Hok Hfetch)
      as (n & p & it & _ & Hn & Hin & Hcov & _ & Hd).
    exists n, p, it. auto.
  - intros (n & p & it & Hn & Hin & Hd & Hcov).
    exists (t_undo_ptr it).
    rewrite (fetch_info_item rel n p it t Hok Hn Hin Hcov). now rewrite Hd.
Qed.

(** The set [zsbt_collect_dead_tids] returns, leaf by leaf, and the TIDs
    that a fetch reports dead. *)
Lemma collect_dead_tids_set rel starttid b ps (fuel : nat) :
  leaves_ok (rd_blocks rel) ->
  zsbt_descend rel starttid = Some b ->
  right_chain (rd_blocks rel) b ps -> (length ps <= fuel)%nat ->
  exists (j : nat) plast,
    ps !! j = Some plast
    /\ zsbt_collect_dead_tids fuel rel starttid
       = Some (Done (flat_map (fun p => page_dead_tids (tiditems p))
                       (take (S j) ps),
                     Some (zs_hikey plast)))
    /\ StronglySorted Z.lt
         (flat_map (fun p => page_dead_tids (tiditems p)) (take (S j) ps))
    /\ forall p0 t, head ps = Some p0 ->
         In t (flat_map (fun p => page_dead_tids (tiditems p))
                 (take (S j) ps))
         <-> zs_lokey p0 <= t < zs_hikey plast
             /\ exists u, fetch_info rel t = Some (u, true).
Proof.
  intros Hok Hd Hch Hfuel.
  destruct (collect_dead_loop_chain rel ps fuel InvalidBuffer
              starttid InvalidBlockNumber [] b)
    as (j & plast & Hj & Hrun & _); auto.
  destruct (chain_dead_tids rel Hok ps b j plast Hch Hj)
    as (Hle & Hsorted & Hin).
  cbv zeta in Hle, Hsorted, Hin.
  exists j, plast. split; [exact Hj|]. split; [exact Hrun|].
  split; [exact Hsorted|].
  intros p0 t Hh. destruct ps as [|p ps']; [discriminate|].
  injection Hh as ->. rewrite Hin.
  split; intros [Ht Hdead]; (split; [exact Ht|]);
    now apply (fetch_info_dead rel t Hok).
Qed.

(** [zsbt_collect_dead_tids(starttid)] on a tree whose leaves are chained
    by their right-links from the leaf that contains [starttid]: the call
    returns a set and an end TID above [starttid]; the TIDs were added to
    the set in ascending order; and the set holds exactly the TIDs from the
    low key of that first leaf to the end TID that a fetch reports dead.
    The caller that goes on from the end TID misses no dead TID. *)
Theorem zsbt_collect_dead_tids_range rel starttid b p0 rest (fuel : nat) :
  rel_ok rel = true ->
  zsbt_descend rel starttid = Some b ->
  right_chain (rd_blocks rel) b (p0 :: rest) ->
  (length (p0 :: rest) <= fuel)%nat ->
  exists result endtid,
    zsbt_collect_dead_tids fuel rel starttid
    = Some (Done (result, Some endtid))
    /\ zs_lokey p0 <= starttid < endtid
    /\ StronglySorted Z.lt result
    /\ forall t,
         In t result <->
         zs_lokey p0 <= t < endtid
         /\ exists u, fetch_info rel t = Some (u, true).
Proof.
  intros Hrel Hd Hch Hfuel.
  pose proof (rel_ok_leaves_ok _ Hrel) as Hok.
  destruct (collect_dead_tids_set rel starttid b (p0 :: rest) fuel
              Hok Hd Hch Hfuel) as (j & plast & Hj & Hrun & Hsorted & Hin).
  eexists _, (zs_hikey plast).
  split; [exact Hrun|]. split; [|split; [exact Hsorted|]].
  - (* the first leaf is the one that contains [starttid] *)
    assert (Hlast : zs_hikey p0 <= zs_hikey plast).
    { destruct (chain_dead_tids rel Hok (p0 :: rest) b j plast Hch Hj)
        as (Hle & _). cbv zeta in Hle. lia. }
    apply descend_from_Some in Hd as (n & p & -> & Hp & Hcov).
    destruct Hch as [Hp0 _]. rewrite Z.add_0_l in Hp0.
    rewrite (proj2 (get_leaf_lookup _ _ _) Hp) in Hp0.
    injection Hp0 as ->.
    unfold page_covers in Hcov.
    rewrite !andb_true_iff, Z.leb_le, Z.ltb_lt in Hcov. lia.
  - intros t. exact (Hin p0 t eq_refl).
Qed.

End DeadTids.

(** ** Removing TIDs from a page *)

Lemma intset_iterate_next_tl (s : list zstid) :
  intset_iterate_next (tl s) = (hd MaxZSTid (tl s), tl (tl s)).
Proof. destruct s as [|a [|b s]]; reflexivity. Qed.

Lemma tid_stream_tl s : tid_stream s -> tid_stream (tl s).
Proof.
  intros [Hs Hb]. destruct s as [|a s]; [split; assumption|].
  apply StronglySorted_inv in Hs as [Hs _].
  apply Forall_cons in Hb as [_ Hb]. split; assumption.
Qed.

Lemma tid_stream_drop (k : nat) : forall s,
  tid_stream s -> tid_stream (drop k s).
Proof.
  induction k as [|k IH]; intros s Hs; [now rewrite drop_0|].
  destruct s as [|a s]; [exact Hs|]. simpl. apply IH.
  exact (tid_stream_tl (a :: s) Hs).
Qed.

Lemma tid_stream_hd s :
  tid_stream s -> 0 <= hd MaxZSTid s <= MaxZSTid.
Proof.
  intros [_ Hb]. destruct s as [|a s]; [unfold MaxZSTid; simpl; lia|].
  apply Forall_cons in Hb as [Ha _]. simpl. lia.
Qed.

Lemma tid_stream_hd_tl s :
  tid_stream s -> s <> [] -> hd MaxZSTid s < hd MaxZSTid (tl s).
Proof.
  intros [Hs Hb] Hne. destruct s as [|a [|b s]]; [contradiction| |].
  - apply Forall_cons in Hb as [Ha _]. simpl. lia.
  - apply StronglySorted_inv in Hs as [_ Hall].
    apply Forall_cons in Hall as [Hab _]. simpl. exact Hab.
Qed.

Lemma tid_stream_In_ge s t :
  tid_stream s -> In t s -> hd MaxZSTid s <= t.
Proof.
  intros [Hs _] Hin. destruct s as [|a s]; [destruct Hin|].
  apply StronglySorted_inv in Hs as [_ Hall].
  destruct Hin as [<-|Hin]; [simpl; lia|].
  rewrite Forall_forall in Hall. apply list_elem_of_In in Hin.
  specialize (Hall t Hin). simpl. lia.
Qed.

(** The skip loop takes from the set the TIDs [f, f + 1, ..] as long as
    they are the next TIDs of the run. *)
Lemma remove_skip_spec (n : nat) : forall (m : nat) f s,
  tid_stream s -> 0 <= f -> f + Z.of_nat m <= MaxZSTid ->
  Z.of_nat m < 2 ^ 31 -> (m <= n)%nat -> f <= hd MaxZSTid s ->
  exists k : nat,
    (k <= m)%nat
    /\ remove_skip n f (Z.of_nat m) (hd MaxZSTid s) (tl s)
       = (f + Z.of_nat k, Z.of_nat m - Z.of_nat k,
          hd MaxZSTid (drop k s), tl (drop k s))
    /\ take k s = map (fun i : nat => f + Z.of_nat i) (seq 0 k)
    /\ (k = m \/ f + Z.of_nat k < hd MaxZSTid (drop k s)).
Proof.
  unfold MaxZSTid at 1.
  induction n as [|n IH]; intros m f s Hs Hf He Hm Hmn Hhd.
  - assert (m = 0%nat) by lia. subst m.
    exists 0%nat. rewrite drop_0, take_0. cbn [remove_skip seq map].
    split; [lia|].
    split; [change (Z.of_nat 0) with 0;
            now rewrite Z.add_0_r, Z.sub_0_r|].
    split; [reflexivity|now left].
  - cbn [remove_skip].
    destruct (Z.gtb_spec (Z.of_nat m) 0) as [Hpos|Hzero]; cbn [andb].
    2:{ assert (m = 0%nat) by lia. subst m.
        exists 0%nat. rewrite drop_0, take_0. cbn [seq map].
        split; [lia|].
    split; [change (Z.of_nat 0) with 0;
            now rewrite Z.add_0_r, Z.sub_0_r|].
        split; [reflexivity|now left]. }
    destruct (Z.eqb_spec f (hd MaxZSTid s)) as [Heq|Hneq].
    2:{ exists 0%nat. rewrite drop_0, take_0. cbn [seq map].
        split; [lia|].
    split; [change (Z.of_nat 0) with 0;
            now rewrite Z.add_0_r, Z.sub_0_r|].
        split; [reflexivity|right; lia]. }
    destruct m as [|m]; [lia|].
    destruct s as [|a s].
    { exfalso. simpl in Heq. unfold MaxZSTid in Heq. lia. }
    simpl in Heq. subst a.
    rewrite intset_iterate_next_tl.
    change (tl (f :: s)) with s.
    rewrite (u64_small (f + 1)) by lia.
    rewrite (s32_small (Z.of_nat (S m) - 1)) by lia.
    replace (Z.of_nat (S m) - 1) with (Z.of_nat m) by lia.
    pose proof (tid_stream_hd_tl (f :: s) Hs ltac:(discriminate)) as Hnext.
    simpl in Hnext.
    destruct (IH m (f + 1) s) as (k & Hk & Hrun & Htake & Hstop);
      try lia.
    { exact (tid_stream_tl (f :: s) Hs). }
    exists (S k). split; [lia|]. split; [|split].
    + rewrite Hrun. cbn [drop].
      replace (f + 1 + Z.of_nat k) with (f + Z.of_nat (S k)) by lia.
      replace (Z.of_nat m - Z.of_nat k)
        with (Z.of_nat (S m) - Z.of_nat (S k)) by lia.
      reflexivity.
    + cbn [take seq map]. rewrite Htake, Z.add_0_r. f_equal.
      rewrite <- seq_shift, map_map. apply map_ext. intros i. lia.
    + cbn [drop]. destruct Hstop as [->|Hstop]; [now left|right; lia].
Qed.

Lemma In_take_drop {A} (k1 k2 : nat) (s : list A) t :
  In t (take (k1 + k2) s) <-> In t (take k1 s) \/ In t (take k2 (drop k1 s)).
Proof. rewrite <- take_take_drop. apply in_app_iff. Qed.

Lemma In_take {A} (k : nat) (s : list A) t : In t (take k s) -> In t s.
Proof.
  intros Hin. rewrite <- (take_drop k s). apply in_or_app. now left.
Qed.

(** The loop over one item cuts the run [f, f + n) at the TIDs of the
    set: it takes from the set its TIDs below [f + n], and the pieces it
    adds cover the other TIDs of the run, with the undo pointer and the
    flags of the item. *)
Lemma remove_split_spec item : forall (fuel : nat) f n s acc,
  tid_stream s -> 0 <= f -> 0 <= n < 2 ^ 31 -> n < Z.of_nat fuel ->
  f + n <= MaxZSTid -> f <= hd MaxZSTid s ->
  exists (k : nat) pieces,
    remove_split fuel item f n (hd MaxZSTid s) (tl s) acc
    = Some (hd MaxZSTid (drop k s), tl (drop k s), acc ++ pieces)
    /\ (forall t, In t (take k s) -> f <= t < f + n)
    /\ f + n <= hd MaxZSTid (drop k s)
    /\ items_ok f (f + n) pieces = true
    /\ (forall p, In p pieces ->
          t_undo_ptr p = t_undo_ptr item /\ t_flags p = t_flags item)
    /\ (forall t,
          (exists p, In p pieces /\ covers p t)
          <-> f <= t < f + n /\ ~ In t (take k s)).
Proof.
  induction fuel as [|fuel IH]; intros f n s acc Hs Hf Hn Hfuel He Hhd;
    [lia|].
  cbn [remove_split].
  destruct (Z.gtb_spec n 0) as [Hpos|Hzero].
  2:{ (* nothing is left of the run *)
      assert (n = 0) by lia. subst n.
      exists 0%nat, []. rewrite drop_0, take_0, app_nil_r.
      split; [reflexivity|]. split; [intros t []|]. split; [lia|].
      split; [reflexivity|]. split; [intros p []|].
      intros t. split; [intros (p & [] & _)|intros [Ht _]; lia]. }
  unfold MaxZSTid in He.
  destruct (remove_skip_spec (Z.to_nat n) (Z.to_nat n) f s)
    as (k1 & Hk1 & Hskip & Htake1 & Hstop); auto;
    try (unfold MaxZSTid; lia).
  rewrite Z2Nat.id in Hskip by lia. rewrite Hskip.
  set (s1 := drop k1 s) in *.
  assert (Hs1 : tid_stream s1) by now apply tid_stream_drop.
  assert (Hcons1 : forall t, In t (take k1 s) <->
            f <= t < f + Z.of_nat k1).
  { intros t. rewrite Htake1, in_map_iff. split.
    - intros (i & <- & Hi). apply in_seq in Hi. lia.
    - intros Ht. exists (Z.to_nat (t - f)). split; [lia|].
      apply in_seq. lia. }
  assert (Hhd1 : f + Z.of_nat k1 <= hd MaxZSTid s1).
  { destruct Hstop as [Hkn|Hlt]; [clear Hkn|lia].
    destruct k1 as [|k1]; [subst s1; rewrite drop_0; lia|].
    (* the last TID taken is below the next one *)
    destruct (s !! k1) as [a|] eqn:Ha.
    2:{ apply lookup_ge_None in Ha.
        assert (Hlen : length (take (S k1) s) = S k1)
          by (rewrite Htake1, length_map, length_seq; reflexivity).
        rewrite length_take in Hlen. lia. }
    assert (Hain : In a (take (S k1) s)).
    { apply list_elem_of_In, list_elem_of_lookup. exists k1.
      rewrite lookup_take_lt by lia. exact Ha. }
    assert (Hav : a = f + Z.of_nat k1).
    { assert (Hl : take (S k1) s !! k1 = Some a)
        by (rewrite lookup_take_lt by lia; exact Ha).
      rewrite Htake1 in Hl.
      rewrite list_lookup_fmap in Hl.
      rewrite lookup_seq_lt in Hl by lia. simpl in Hl. injection Hl as <-.
      lia. }
    subst s1. destruct (drop (S k1) s) as [|b s2] eqn:Hd.
    { simpl. unfold MaxZSTid. lia. }
    simpl.
    assert (Hb : s !! S k1 = Some b).
    { rewrite <- (Nat.add_0_r (S k1)), <- lookup_drop, Hd. reflexivity. }
    destruct Hs as [Hsorted _].
    assert (a < b).
    { clear - Hsorted Ha Hb. revert s Hsorted Ha Hb.
      induction k1 as [|k1 IHk]; intros s Hsorted Ha Hb.
      - destruct s as [|x [|y s]]; try discriminate.
        simpl in Ha, Hb. injection Ha as ->. injection Hb as ->.
        apply StronglySorted_inv in Hsorted as [_ Hall].
        apply Forall_cons in Hall as [Hxy _]. exact Hxy.
      - destruct s as [|x s]; [discriminate|].
        apply StronglySorted_inv in Hsorted as [Hsorted _].
        apply (IHk s Hsorted Ha Hb). }
    lia. }
  destruct (Z.gtb_spec (n - Z.of_nat k1) 0) as [Hpos1|Hzero1].
  - (* a piece up to the next TID of the set *)
    assert (Hlt1 : f + Z.of_nat k1 < hd MaxZSTid s1).
    { destruct Hstop as [Hkn|Hlt]; [lia|exact Hlt]. }
    pose proof (tid_stream_hd s1 Hs1) as Hb1. unfold MaxZSTid in Hb1.
    rewrite (u64_small (f + Z.of_nat k1 + (n - Z.of_nat k1))) by lia.
    set (endtid := Z.min (f + Z.of_nat k1 + (n - Z.of_nat k1))
                     (hd MaxZSTid s1)).
    assert (Hend : f + Z.of_nat k1 < endtid <= f + n
                   /\ endtid <= hd MaxZSTid s1) by (subst endtid; lia).
    rewrite (u64_small (endtid - (f + Z.of_nat k1))) by lia.
    rewrite (s32_small (endtid - (f + Z.of_nat k1))) by lia.
    rewrite (u32_small (endtid - (f + Z.of_nat k1))) by lia.
    rewrite (u64_small (f + Z.of_nat k1 + (endtid - (f + Z.of_nat k1))))
      by lia.
    rewrite (s32_small (n - Z.of_nat k1 - (endtid - (f + Z.of_nat k1))))
      by lia.
    replace (f + Z.of_nat k1 + (endtid - (f + Z.of_nat k1)))
      with endtid by lia.
    set (newitem := {| t_tid := f + Z.of_nat k1;
                       t_nelements := endtid - (f + Z.of_nat k1);
                       t_undo_ptr := t_undo_ptr item;
                       t_flags := t_flags item |}).
    destruct (IH endtid (n - Z.of_nat k1 - (endtid - (f + Z.of_nat k1)))
                s1 (acc ++ [newitem]))
      as (k2 & pieces2 & Hrun & Hcons2 & Hhd2 & Hok2 & Hsame2 & Hcov2);
      auto; try lia.
    { unfold MaxZSTid. lia. }
    replace (endtid + (n - Z.of_nat k1 - (endtid - (f + Z.of_nat k1))))
      with (f + n) in * by lia.
    exists (k1 + k2)%nat, (newitem :: pieces2).
    subst s1. rewrite drop_drop in Hrun, Hhd2. rewrite Hrun.
    replace (acc ++ newitem :: pieces2)
      with ((acc ++ [newitem]) ++ pieces2)
      by (rewrite <- app_assoc; reflexivity).
    split; [reflexivity|]. split; [|split; [exact Hhd2|split; [|split]]].
    + intros t Ht. apply In_take_drop in Ht as [Ht|Ht].
      * apply Hcons1 in Ht. lia.
      * apply Hcons2 in Ht. lia.
    + apply items_ok_cons. subst newitem. cbn [t_tid t_nelements].
      split; [lia|]. split; [lia|]. split; [lia|].
      replace (f + Z.of_nat k1 + (endtid - (f + Z.of_nat k1)))
        with endtid by lia.
      exact Hok2.
    + intros p [<-|Hp]; [split; reflexivity|now apply Hsame2].
    + intros t. rewrite In_take_drop. split.
      * intros (p & [<-|Hp] & Hc).
        -- unfold covers in Hc. subst newitem. cbn [t_tid t_nelements] in Hc.
           split; [lia|]. intros [Hin|Hin].
           ++ apply Hcons1 in Hin. lia.
           ++ apply In_take in Hin.
              pose proof (tid_stream_In_ge _ _ Hs1 Hin). lia.
        -- destruct (proj1 (Hcov2 t) (ex_intro _ p (conj Hp Hc)))
             as [Ht Hnin].
           split; [lia|]. intros [Hin|Hin]; [|contradiction].
           apply Hcons1 in Hin. lia.
      * intros [Ht Hnin].
        destruct (Z.lt_ge_cases t endtid) as [Hlt|Hge].
        -- exists newitem. split; [now left|].
           unfold covers. subst newitem. cbn [t_tid t_nelements].
           assert (~ f <= t < f + Z.of_nat k1).
           { intros Hc. apply Hnin. left. now apply Hcons1. }
           lia.
        -- destruct (proj2 (Hcov2 t)) as (p & Hp & Hc).
           { split; [lia|]. intros Hin. apply Hnin. now right. }
           exists p. split; [now right|exact Hc].
  - (* the set took the rest of the run *)
    assert (Hk1n : Z.of_nat k1 = n) by lia. subst s1.
    destruct fuel as [|fuel]; [lia|]. cbn [remove_split].
    destruct (Z.gtb_spec (n - Z.of_nat k1) 0); [lia|].
    exists k1, []. rewrite app_nil_r.
    split; [reflexivity|]. split; [|split; [lia|split; [|split]]].
    + intros t Ht. apply Hcons1 in Ht. lia.
    + reflexivity.
    + intros p [].
    + intros t. split; [intros (p & [] & _)|].
      intros [Ht Hnin]. exfalso. apply Hnin. apply Hcons1. lia.
Qed.

Lemma tid_stream_take_lt (k : nat) : forall s t,
  tid_stream s -> In t (take k s) -> t < hd MaxZSTid (drop k s).
Proof.
  induction k as [|k IH]; intros s t Hs Hin; [rewrite take_0 in Hin; easy|].
  destruct s as [|a s]; [destruct Hin|].
  cbn [take drop] in Hin |- *.
  pose proof (tid_stream_tl (a :: s) Hs) as Hs'. cbn [tl] in Hs'.
  destruct Hin as [<-|Hin]; [|now apply IH].
  pose proof (tid_stream_hd_tl (a :: s) Hs ltac:(discriminate)) as Hlt.
  cbn [hd tl] in Hlt.
  destruct k as [|k]; [now rewrite drop_0|].
  destruct (take (S k) s) as [|b l] eqn:Ht.
  - destruct s; [|discriminate]. simpl.
    destruct Hs as [_ Hb]. apply Forall_cons in Hb as [Hb _]. lia.
  - assert (Hb : In b (take (S k) s)) by (rewrite Ht; now left).
    pose proof (IH s b Hs' Hb).
    destruct s as [|c s]; [discriminate|].
    cbn [take] in Ht. injection Ht as -> _. cbn [hd] in Hlt. lia.
Qed.

Lemma tid_stream_hd_drop (k : nat) s :
  tid_stream s -> hd MaxZSTid s <= hd MaxZSTid (drop k s).
Proof.
  intros Hs. destruct k as [|k]; [rewrite drop_0; lia|].
  destruct s as [|a s]; [simpl; lia|].
  assert (Hin : In a (take (S k) (a :: s))) by now left.
  pose proof (tid_stream_take_lt (S k) (a :: s) a Hs Hin). simpl in *. lia.
Qed.

(** The loop over the items of a page, on items below [MaxZSTid] and a
    set in ascending order: it takes from the set TIDs that the items
    cover, until the next TID of the set is one that no item of the page
    covers; the new items are in order and cover the TIDs of the old items
    but for the ones taken, with the same undo pointers and flags. *)
Lemma remove_page_items_spec (fuel : nat) : forall items lo hi s acc,
  items_ok lo hi items = true -> 0 <= lo -> hi <= MaxZSTid ->
  tid_stream s ->
  (forall it, In it items -> t_nelements it < Z.of_nat fuel) ->
  exists (k : nat) newitems,
    remove_page_items fuel items (hd MaxZSTid s) (tl s) acc
    = Some (hd MaxZSTid (drop k s), tl (drop k s), acc ++ newitems)
    /\ (forall t, In t (take k s) -> exists it, In it items /\ covers it t)
    /\ (forall it, In it items -> ~ covers it (hd MaxZSTid (drop k s)))
    /\ items_ok lo hi newitems = true
    /\ (forall t u fl,
          (exists p, In p newitems /\ covers p t
                     /\ t_undo_ptr p = u /\ t_flags p = fl)
          <-> (exists it, In it items /\ covers it t
                          /\ t_undo_ptr it = u /\ t_flags it = fl)
              /\ ~ In t (take k s))
    /\ (forall p, In p newitems ->
          exists it, In it items /\ t_nelements p <= t_nelements it).
Proof.
  induction items as [|item items IH]; intros lo hi s acc Hok Hlo Hhi Hs Hfuel.
  - exists 0%nat, []. rewrite drop_0, take_0, app_nil_r.
    cbn [remove_page_items]. split; [reflexivity|].
    split; [intros t []|]. split; [intros it []|].
    split; [reflexivity|]. split; [|intros p []].
    intros t u fl. split; [intros (p & [] & _)|intros [(it & [] & _) _]].
  - pose proof Hok as Hok0.
    apply items_ok_cons in Hok as (Hit1 & Hitn & Hit2 & Hok).
    unfold MaxZSTid in Hhi.
    assert (Hrest_ge : forall it t, In it items -> covers it t ->
              t_tid item + t_nelements item <= t).
    { intros it t Hin [Hc1 Hc2].
      apply list_elem_of_In, list_elem_of_lookup in Hin as [j Hj].
      destruct (items_ok_lookup _ _ _ _ _ Hok Hj) as (? & ? & ?). lia. }
    assert (Hfuel' : forall it, In it items ->
              t_nelements it < Z.of_nat fuel).
    { intros it Hin. apply Hfuel. now right. }
    pose proof (items_ok_le _ _ _ Hok0 ltac:(discriminate)) as Hlh.
    cbn [remove_page_items].
    rewrite (s32_small (t_nelements item)) by lia.
    rewrite (u64_small (t_tid item + t_nelements item)) by lia.
    destruct ((t_tid item <=? hd MaxZSTid s)
              && (hd MaxZSTid s <? t_tid item + t_nelements item))
      eqn:Hcovers.
    + (* the item contains the next TID of the set *)
      apply andb_prop in Hcovers as [Hc1 Hc2].
      apply Z.leb_le in Hc1. apply Z.ltb_lt in Hc2.
      destruct (remove_split_spec item fuel (t_tid item) (t_nelements item)
                  s acc)
        as (k1 & pieces & Hrun1 & Hcons1 & Hhd1 & Hok1 & Hsame1 & Hcov1);
        auto; try lia.
      { apply Hfuel. now left. }
      { unfold MaxZSTid. lia. }
      rewrite Hrun1.
      set (s1 := drop k1 s) in *.
      assert (Hs1 : tid_stream s1) by now apply tid_stream_drop.
      destruct (IH (t_tid item + t_nelements item) hi s1 (acc ++ pieces))
        as (k2 & newrest & Hrun2 & Hcons2 & Hnext2 & Hok2 & Hcov2 & Hnel2);
        auto; try (unfold MaxZSTid; lia).
      pose proof (tid_stream_hd_drop k2 s1 Hs1) as Hmono.
      subst s1. rewrite drop_drop in Hrun2, Hnext2, Hmono.
      exists (k1 + k2)%nat, (pieces ++ newrest).
      rewrite Hrun2, app_assoc. split; [reflexivity|].
      split; [|split; [|split; [|split]]].
      * intros t Ht. apply In_take_drop in Ht as [Ht|Ht].
        -- exists item. split; [now left|]. apply Hcons1 in Ht. exact Ht.
        -- destruct (Hcons2 t Ht) as (it & Hin & Hc).
           exists it. split; [now right|exact Hc].
      * intros it [<-|Hin]; [|now apply Hnext2].
        unfold covers. lia.
      * apply (items_ok_app_intro pieces lo (t_tid item + t_nelements item));
          auto; try lia.
        apply (items_ok_weaken (t_tid item)); [lia|].
        exact Hok1.
      * intros t u fl. rewrite In_take_drop. split.
        -- intros (p & Hin & Hc & Hu & Hfl).
           apply in_app_or in Hin as [Hin|Hin].
           ++ destruct (proj1 (Hcov1 t) (ex_intro _ p (conj Hin Hc)))
                as [Ht Hnin].
              destruct (Hsame1 p Hin) as [Hpu Hpf].
              split.
              ** exists item. split; [now left|].
                 split; [exact Ht|]. split; congruence.
              ** intros [Hc1'|Hc2']; [contradiction|].
                 apply In_take in Hc2'.
                 pose proof (tid_stream_In_ge _ _ Hs1 Hc2'). lia.
           ++ destruct (proj1 (Hcov2 t u fl)
                          (ex_intro _ p (conj Hin (conj Hc (conj Hu Hfl)))))
                as [(it & Hiin & Hic & Hiu & Hif) Hnin].
              split.
              ** exists it. split; [now right|]. auto.
              ** intros [Hc1'|Hc2']; [|contradiction].
                 apply Hcons1 in Hc1'.
                 pose proof (Hrest_ge it t Hiin Hic). lia.
        -- intros [(it & [<-|Hiin] & Hic & Hiu & Hif) Hnin].
           ++ destruct (proj2 (Hcov1 t)) as (p & Hp & Hc).
              { split; [exact Hic|]. intros Hin. apply Hnin. now left. }
              destruct (Hsame1 p Hp) as [Hpu Hpf].
              exists p. split; [apply in_or_app; now left|].
              split; [exact Hc|]. split; congruence.
           ++ destruct (proj2 (Hcov2 t u fl)) as (p & Hp & Hrest).
              { split; [exists it; auto|].
                intros Hin. apply Hnin. now right. }
              exists p. split; [apply in_or_app; now right|exact Hrest].
      * intros p Hin. apply in_app_or in Hin as [Hin|Hin].
        -- exists item. split; [now left|].
           apply list_elem_of_In, list_elem_of_lookup in Hin as [j Hj].
           destruct (items_ok_lookup _ _ _ _ _ Hok1 Hj) as (? & ? & ?). lia.
        -- destruct (Hnel2 p Hin) as (it & Hiin & Hle).
           exists it. split; [now right|exact Hle].
    + (* keep this item unmodified *)
      destruct (IH (t_tid item + t_nelements item) hi s (acc ++ [item]))
        as (k & newrest & Hrun & Hcons & Hnext & Hok' & Hcov & Hnel);
        auto; try (unfold MaxZSTid; lia).
      exists k, (item :: newrest).
      rewrite Hrun, <- app_assoc. split; [reflexivity|].
      assert (Hout : forall t, In t (take k s) -> ~ covers item t).
      { intros t Hin Hc. destruct (Hcons t Hin) as (it & Hiin & Hic).
        pose proof (Hrest_ge it t Hiin Hic). unfold covers in Hc. lia. }
      split; [|split; [|split; [|split]]].
      * intros t Ht. destruct (Hcons t Ht) as (it & Hin & Hc).
        exists it. split; [now right|exact Hc].
      * intros it [<-|Hin]; [|now apply Hnext].
        destruct k as [|k].
        -- rewrite drop_0. unfold covers. intros [Ha Hb].
           apply andb_false_iff in Hcovers as [Hx|Hx];
             [apply Z.leb_gt in Hx|apply Z.ltb_ge in Hx]; lia.
        -- destruct s as [|a s];
             [unfold covers; simpl; unfold MaxZSTid; lia|].
           assert (Hin : In a (take (S k) (a :: s))) by now left.
           pose proof (tid_stream_take_lt (S k) (a :: s) a Hs Hin) as Hlt.
           destruct (Hcons a Hin) as (it' & Hiin & Hic).
           pose proof (Hrest_ge it' a Hiin Hic). unfold covers. lia.
      * apply items_ok_cons. repeat split; auto; lia.
      * intros t u fl. split.
        -- intros (p & [<-|Hin] & Hc & Hu & Hfl).
           ++ split; [exists item; split; [now left|auto]|].
              intros Hin. exact (Hout t Hin Hc).
           ++ destruct (proj1 (Hcov t u fl)
                          (ex_intro _ p (conj Hin (conj Hc (conj Hu Hfl)))))
                as [(it & Hiin & Hrest) Hnin].
              split; [exists it; split; [now right|exact Hrest]|exact Hnin].
        -- intros [(it & [<-|Hiin] & Hrest) Hnin].
           ++ exists item. split; [now left|exact Hrest].
           ++ destruct (proj2 (Hcov t u fl)) as (p & Hp & Hprest).
              { split; [exists it; auto|exact Hnin]. }
              exists p. split; [now right|exact Hprest].
      * intros p [<-|Hin].
        -- exists item. split; [now left|lia].
        -- destruct (Hnel p Hin) as (it & Hiin & Hle).
           exists it. split; [now right|exact Hle].
Qed.

Section Remove.

Context `{ZSExternal}.

Lemma items_ok_tighten hi' : forall l lo hi,
  items_ok lo hi l = true ->
  (forall it, In it l -> t_tid it + t_nelements it <= hi') ->
  items_ok lo hi' l = true.
Proof.
  induction l as [|a l IH]; intros lo hi Hok Hle; [reflexivity|].
  apply items_ok_cons in Hok as (H1 & H2 & H3 & Hok).
  apply items_ok_cons. repeat split; auto; try lia.
  - apply Hle. now left.
  - apply (IH _ hi); auto. intros it Hin. apply Hle. now right.
Qed.

Lemma fetch_info_None rel t :
  fetch_info rel t = None <-> zsbt_tid_fetch rel t = None.
Proof.
  unfold fetch_info. destruct (zsbt_tid_fetch rel t) as [[[b u] d]|];
    split; congruence.
Qed.

Lemma fetch_info_covered rel t :
  leaves_ok (rd_blocks rel) -> fetch_info rel t <> None ->
  exists (n : nat) p it,
    rd_blocks rel !! n = Some (LeafBlock p) /\ In it (tiditems p)
    /\ covers it t.
Proof.
  intros Hok Hf. unfold fetch_info in Hf.
  destruct (zsbt_tid_fetch rel t) as [[[b u] d]|] eqn:Hfetch; [|easy].
  destruct (zsbt_tid_fetch_Some rel t b u d Hok Hfetch)
    as (n & p & it & _ & Hn & Hin & Hc & _).
  now exists n, p, it.
Qed.

Lemma step_written ifuel rel (n : nat) p newitems rel1 gone :
  leaves_ok (rd_blocks rel) ->
  rd_blocks rel !! n = Some (LeafBlock p) ->
  written rel n p newitems rel1 ->
  (forall (m : nat) q it,
     rd_blocks rel !! m = Some (LeafBlock q) -> In it (tiditems q) ->
     t_nelements it < Z.of_nat ifuel) ->
  (forall t, In t gone -> exists it, In it (tiditems p) /\ covers it t) ->
  (forall t u fl,
     (exists it', In it' newitems /\ covers it' t
                  /\ t_undo_ptr it' = u /\ t_flags it' = fl)
     <-> (exists it, In it (tiditems p) /\ covers it t
                     /\ t_undo_ptr it = u /\ t_flags it = fl)
         /\ ~ In t gone) ->
  (forall it', In it' newitems ->
     exists it, In it (tiditems p) /\ t_nelements it' <= t_nelements it) ->
  remove_step ifuel rel rel1 gone.
Proof.
  intros Hok Hn Hw Hfuel Hgone Hcov Hnel.
  pose proof Hw as (Hundo & Hok1 & Hsame & chain & Hchain & Hflat & Hfw & Hbw).
  split; [exact Hok1|]. split; [exact Hundo|]. split; [|split].
  - intros t Ht. apply fetch_info_None.
    destruct (Hgone t Ht) as (it & Hin & Hc).
    apply list_elem_of_In, list_elem_of_lookup in Hin as [i Hi].
    apply (written_fetch_gap rel n p newitems); auto.
    + destruct Hok as [Hpok _].
      exact (page_ok_covers _ _ _ _ (Hpok _ _ Hn) Hi Hc).
    + intros it' Hin' Hc'.
      destruct (proj1 (Hcov t (t_undo_ptr it') (t_flags it'))) as [_ Hnin];
        [exists it'; auto|]. contradiction.
  - intros t Ht. apply (written_fetch_info rel n p newitems); auto.
    + intros it Hin Hc.
      destruct (proj2 (Hcov t (t_undo_ptr it) (t_flags it)))
        as (it' & Hin' & Hc' & Hu & Hfl).
      { split; [exists it; auto|exact Ht]. }
      exists it'. repeat split; auto; try apply Hc'.
      unfold item_isdead. now rewrite Hfl.
    + intros it' Hin' Hc'.
      destruct (proj1 (Hcov t (t_undo_ptr it') (t_flags it')))
        as [(it & Hin & Hc & _) _]; [exists it'; auto|].
      now exists it.
  - intros m q it Hm Hin.
    destruct (Hbw m q Hm) as [[Hne Hold]|(k & Hk & _)].
    + exact (Hfuel m q it Hold Hin).
    + assert (Hin' : In it newitems).
      { rewrite <- Hflat. apply in_flat_map. exists q. split; [|exact Hin].
        apply list_elem_of_In, list_elem_of_lookup. now exists k. }
      destruct (Hnel it Hin') as (it0 & Hin0 & Hle).
      pose proof (Hfuel n p it0 Hn Hin0). lia.
Qed.

Lemma step_unlinked ifuel rel (n : nat) p blocks' gone :
  unlink_keeps_items ->
  leaves_ok (rd_blocks rel) ->
  rd_blocks rel !! n = Some (LeafBlock p) ->
  zsbt_unlink_page (rd_blocks rel) (Z.of_nat n) = Some blocks' ->
  (forall (m : nat) q it,
     rd_blocks rel !! m = Some (LeafBlock q) -> In it (tiditems q) ->
     t_nelements it < Z.of_nat ifuel) ->
  (forall t, In t gone -> exists it, In it (tiditems p) /\ covers it t) ->
  (forall t it, In it (tiditems p) -> covers it t -> In t gone) ->
  remove_step ifuel rel
    {| rd_blocks := blocks'; rd_undo := rd_undo rel |} gone.
Proof.
  intros Hunlink Hok Hn Hun Hfuel Hgone Hall.
  destruct (Hunlink _ _ _ _ Hok Hn Hun) as [Hok1 Hitems].
  pose proof Hok as [Hpok Hap].
  assert (Hother : forall (m : nat) q it t,
            m <> n -> rd_blocks rel !! m = Some (LeafBlock q) ->
            In it (tiditems q) -> covers it t ->
            forall it0, In it0 (tiditems p) -> ~ covers it0 t).
  { intros m q it t Hne Hm Hin Hc it0 Hin0 Hc0.
    apply list_elem_of_In, list_elem_of_lookup in Hin as [i Hi].
    apply list_elem_of_In, list_elem_of_lookup in Hin0 as [i0 Hi0].
    pose proof (page_ok_covers _ _ _ _ (Hpok _ _ Hm) Hi Hc) as Hq.
    pose proof (page_ok_covers _ _ _ _ (Hpok _ _ Hn) Hi0 Hc0) as Hp.
    pose proof (covers_not_apart _ _ _ Hq Hp) as Hno.
    rewrite (Hap m n q p Hne Hm Hn) in Hno. discriminate. }
  split; [exact Hok1|]. split; [reflexivity|]. split; [|split].
  - intros t Ht. apply fetch_info_None.
    apply zsbt_tid_fetch_absent; [exact Hok1|].
    intros m' q' it' Hm' Hin' Hc'. simpl in Hm'.
    destruct (proj1 (Hitems it')) as (m & q & Hne & Hm & Hin);
      [now exists m', q'|].
    destruct (Hgone t Ht) as (it0 & Hin0 & Hc0).
    exact (Hother m q it' t Hne Hm Hin Hc' it0 Hin0 Hc0).
  - intros t Ht.
    destruct (zsbt_tid_fetch rel t) as [[[b u] d]|] eqn:Hfetch.
    + destruct (zsbt_tid_fetch_Some rel t b u d Hok Hfetch)
        as (m & q & it & _ & Hm & Hin & Hc & -> & ->).
      assert (Hne : m <> n).
      { intros ->. rewrite Hn in Hm. inversion Hm; subst q.
        exact (Ht (Hall t it Hin Hc)). }
      destruct (proj2 (Hitems it)) as (m' & q' & Hm' & Hin');
        [now exists m, q|].
      rewrite (fetch_info_item
                 {| rd_blocks := blocks'; rd_undo := rd_undo rel |}
                 m' q' it t Hok1 Hm' Hin' Hc).
      unfold fetch_info. now rewrite Hfetch.
    + transitivity (@None (ZSUndoRecPtr * bool));
        [|unfold fetch_info; now rewrite Hfetch].
      apply fetch_info_None. apply zsbt_tid_fetch_absent; [exact Hok1|].
      intros m' q' it' Hm' Hin' Hc'. simpl in Hm'.
      destruct (proj1 (Hitems it')) as (m & q & Hne & Hm & Hin);
        [now exists m', q'|].
      pose proof (fetch_info_item rel m q it' t Hok Hm Hin Hc') as Hf.
      unfold fetch_info in Hf. rewrite Hfetch in Hf. discriminate.
  - intros m' q' it' Hm' Hin'. simpl in Hm'.
    destruct (proj1 (Hitems it')) as (m & q & Hne & Hm & Hin);
      [now exists m', q'|].
    exact (Hfuel m q it' Hm Hin).
Qed.

(** One pass of the loop: the page of the next member is rewritten. *)
Lemma remove_pass ifuel rel s :
  unlink_keeps_items -> remove_inv ifuel rel s -> tid_stream s -> s <> [] ->
  exists (k : nat) buf page newitems rel1,
    (0 < k)%nat
    /\ zsbt_descend rel (hd MaxZSTid s) = Some buf
    /\ get_leaf (rd_blocks rel) buf = Some page
    /\ remove_page_items ifuel (tiditems page) (hd MaxZSTid s) (tl s) []
       = Some (hd MaxZSTid (drop k s), tl (drop k s), newitems)
    /\ apply_leaf_write rel buf
         match newitems with [] => Unlink | _ => Recompress newitems end
       = Done rel1
    /\ remove_step ifuel rel rel1 (take k s).
Proof.
  intros Hunlink (Hok & Hmem & Hmax & Hfuel) Hs Hne.
  destruct s as [|a s']; [easy|]. clear Hne.
  destruct (fetch_info_covered rel a Hok (Hmem a ltac:(now left)))
    as (n & p & it & Hn & Hin & Hc).
  pose proof Hok as [Hpok _]. pose proof (Hpok _ _ Hn) as Hp.
  pose proof Hin as Hin0.
  apply list_elem_of_In, list_elem_of_lookup in Hin0 as [i Hi].
  pose proof (page_ok_covers _ _ _ _ Hp Hi Hc) as Hpc.
  pose proof (leaves_ok_descend rel n p a Hok Hn Hpc) as Hdesc.
  apply page_ok_facts in Hp as (Hlo & Hlh & Hhi & Hlvl & Hiok).
  assert (Hend : forall it0, In it0 (tiditems p) ->
            t_tid it0 + t_nelements it0 <= MaxZSTid).
  { intros it0 Hin1.
    pose proof Hin1 as Hin2.
    apply list_elem_of_In, list_elem_of_lookup in Hin2 as [j Hj].
    destruct (items_ok_lookup _ _ _ _ _ Hiok Hj) as (Ha & Hb & Hd).
    destruct (Z_le_gt_dec (t_tid it0 + t_nelements it0) MaxZSTid)
      as [Hle|Hgt]; [exact Hle|].
    assert (Hcm : covers it0 MaxZSTid).
    { unfold covers. unfold MaxPlusOneZSTid in Hhi.
      unfold MaxZSTid in *. lia. }
    rewrite (fetch_info_item rel n p it0 MaxZSTid Hok Hn Hin1 Hcm) in Hmax.
    discriminate. }
  destruct (remove_page_items_spec ifuel (tiditems p) (zs_lokey p) MaxZSTid
              (a :: s') [])
    as (k & newitems & Hrun & Hcons & Hnext & Hnok & Hcov & Hnel); auto.
  { apply (items_ok_tighten _ _ _ (zs_hikey p)); auto. }
  { unfold MinZSTid in Hlo. lia. }
  { lia. }
  { intros it0 Hin1. exact (Hfuel n p it0 Hn Hin1). }
  rewrite app_nil_l in Hrun.
  assert (Hk : (0 < k)%nat).
  { destruct k as [|k]; [|lia]. exfalso.
    rewrite drop_0 in Hnext. exact (Hnext it Hin Hc). }
  assert (Hnok' : items_ok (zs_lokey p) (zs_hikey p) newitems = true).
  { apply (items_ok_tighten _ _ _ MaxZSTid); auto.
    intros it' Hin'. destruct (Hnel it' Hin') as (it0 & Hin1 & _).
    pose proof Hin' as Hin2.
    apply list_elem_of_In, list_elem_of_lookup in Hin2 as [j Hj].
    assert (Hc' : covers it' (t_tid it')).
    { destruct (items_ok_lookup _ _ _ _ _ Hnok Hj) as (? & ? & ?).
      unfold covers. lia. }
    destruct (items_ok_lookup _ _ _ _ _ Hnok Hj) as (Ha & Hb & Hd).
    destruct (Z_le_gt_dec (t_tid it' + t_nelements it') (zs_hikey p))
      as [Hle|Hgt]; [exact Hle|exfalso].
    assert (Hc2 : covers it' (zs_hikey p)).
    { unfold covers. split; [|lia].
      destruct (proj1 (Hcov (t_tid it') (t_undo_ptr it') (t_flags it')))
        as [(it1 & Hin3 & Hc3 & _) _]; [exists it'; auto|].
      apply list_elem_of_In, list_elem_of_lookup in Hin3 as [j1 Hj1].
      destruct (items_ok_lookup _ _ _ _ _ Hiok Hj1) as (? & ? & ?).
      unfold covers in Hc3. lia. }
    destruct (proj1 (Hcov (zs_hikey p) (t_undo_ptr it') (t_flags it')))
      as [(it1 & Hin3 & Hc3 & _) _]; [exists it'; auto|].
    apply list_elem_of_In, list_elem_of_lookup in Hin3 as [j1 Hj1].
    destruct (items_ok_lookup _ _ _ _ _ Hiok Hj1) as (? & ? & ?).
    unfold covers in Hc3. lia. }
  pose proof (proj2 (get_leaf_lookup _ _ _) Hn) as Hg.
  assert (Hwritten : forall w rel1,
            w = InPlace newitems \/ w = Recompress newitems ->
            apply_leaf_write rel (Z.of_nat n) w = Done rel1 ->
            remove_step ifuel rel rel1 (take k (a :: s'))).
  { intros w rel1 Hw Hrun1.
    destruct (apply_leaf_write_written rel n p newitems w Hok Hn Hnok' Hw)
      as (rel1' & Hrun1' & Hwr).
    assert (rel1' = rel1) by congruence. subst rel1'.
    apply (step_written ifuel rel n p newitems); auto. }
  destruct newitems as [|it1 newitems1].
  - (* the page has become empty *)
    destruct (zsbt_unlink_page (rd_blocks rel) (Z.of_nat n))
      as [blocks'|] eqn:Hun.
    + exists k, (Z.of_nat n), p, [],
        {| rd_blocks := blocks'; rd_undo := rd_undo rel |}.
      split; [exact Hk|]. split; [exact Hdesc|]. split; [exact Hg|].
      split; [exact Hrun|]. split.
      * unfold apply_leaf_write. now rewrite Hg, Hun.
      * apply (step_unlinked ifuel rel n p); auto.
        intros t it0 Hin1 Hc1.
        destruct (in_dec Z.eq_dec t (take k (a :: s'))) as [Hyes|Hno];
          [exact Hyes|exfalso].
        destruct (proj2 (Hcov t (t_undo_ptr it0) (t_flags it0)))
          as (it' & [] & _).
        split; [exists it0; auto|exact Hno].
    + eexists k, (Z.of_nat n), p, [], _.
      split; [exact Hk|]. split; [exact Hdesc|]. split; [exact Hg|].
      split; [exact Hrun|]. split.
      * unfold apply_leaf_write. rewrite Hg, Hun. reflexivity.
      * apply (Hwritten (InPlace [])); [now left|].
        unfold apply_leaf_write. now rewrite Hg.
  - set (newitems := it1 :: newitems1) in *.
    destruct (apply_leaf_write_written rel n p newitems
                (Recompress newitems) Hok Hn Hnok' ltac:(now right))
      as (rel1 & Hrun1 & _).
    exists k, (Z.of_nat n), p, newitems, rel1.
    split; [exact Hk|]. split; [exact Hdesc|]. split; [exact Hg|].
    split; [exact Hrun|]. split.
    + exact Hrun1.
    + apply (Hwritten (Recompress newitems)); [now right|exact Hrun1].
Qed.

Lemma tid_stream_split (k : nat) s t :
  tid_stream s -> In t (take k s) -> ~ In t (drop k s).
Proof.
  intros Hs Hin Hin'.
  pose proof (tid_stream_take_lt k s t Hs Hin).
  pose proof (tid_stream_In_ge _ t (tid_stream_drop k s Hs) Hin'). lia.
Qed.

Lemma tid_remove_loop_spec ifuel : forall (fuel : nat) rel s,
  unlink_keeps_items -> remove_inv ifuel rel s -> tid_stream s ->
  (length s < fuel)%nat ->
  exists rel',
    tid_remove_loop fuel ifuel rel (hd MaxZSTid s) (tl s) = Some (Done rel')
    /\ leaves_ok (rd_blocks rel')
    /\ rd_undo rel' = rd_undo rel
    /\ (forall t, In t s -> fetch_info rel' t = None)
    /\ (forall t, ~ In t s -> fetch_info rel' t = fetch_info rel t).
Proof.
  induction fuel as [|fuel IH]; intros rel s Hunlink Hinv Hs Hlen; [lia|].
  destruct s as [|a s'] eqn:Hse.
  - exists rel. cbn [tid_remove_loop hd]. rewrite Z.ltb_irrefl.
    destruct Hinv as (Hok & _).
    split; [reflexivity|]. split; [exact Hok|]. split; [reflexivity|].
    split; [intros t []|reflexivity].
  - rewrite <- Hse in *.
    assert (Hne : s <> []) by (rewrite Hse; discriminate).
    destruct (remove_pass ifuel rel s Hunlink Hinv Hs Hne)
      as (k & buf & page & newitems & rel1 & Hk & Hdesc & Hg & Hrun & Hw
          & Hok1 & Hundo1 & Hgone1 & Hkept1 & Hfuel1).
    destruct Hinv as (Hok & Hmem & Hmax & Hfuel).
    pose proof (tid_stream_drop k s Hs) as Hs1.
    assert (Hmaxnot : forall l, tid_stream l -> ~ In MaxZSTid l).
    { intros l [_ Hall] Hin. rewrite List.Forall_forall in Hall.
      specialize (Hall _ Hin). simpl in Hall. lia. }
    destruct (IH rel1 (drop k s)) as (rel' & Hloop & Hok' & Hundo' & Hgone'
                                      & Hkept'); auto.
    { split; [exact Hok1|]. split; [|split; [|exact Hfuel1]].
      - intros t Hin. rewrite Hkept1.
        + apply Hmem. rewrite <- (take_drop k s). apply in_or_app. now right.
        + intros Hin'. exact (tid_stream_split k s t Hs Hin' Hin).
      - rewrite Hkept1; [exact Hmax|].
        intros Hin. apply (Hmaxnot s Hs). now apply (In_take k). }
    { rewrite length_drop.
      assert (0 < length s)%nat by (rewrite Hse; simpl; lia). lia. }
    exists rel'. split.
    { cbn [tid_remove_loop].
      assert (Hlt : (hd MaxZSTid s <? MaxZSTid) = true).
      { apply Z.ltb_lt. rewrite Hse. cbn [hd].
        destruct Hs as [_ Hall]. rewrite Hse in Hall.
        inversion Hall; subst. simpl in *. lia. }
      rewrite Hlt, Hdesc, Hg, Hrun, Hw. exact Hloop. }
    split; [exact Hok'|]. split; [congruence|]. split.
    + intros t Hin. rewrite <- (take_drop k s) in Hin.
      destruct (in_dec Z.eq_dec t (drop k s)) as [Hd|Hd];
        [now apply Hgone'|].
      apply in_app_or in Hin as [Hin|Hin]; [|contradiction].
      rewrite (Hkept' t Hd). now apply Hgone1.
    + intros t Hnin.
      assert (Hd : ~ In t (drop k s)).
      { intros Hin. apply Hnin. rewrite <- (take_drop k s).
        apply in_or_app. now right. }
      assert (Ht : ~ In t (take k s)).
      { intros Hin. apply Hnin. now apply (In_take k). }
      rewrite (Hkept' t Hd). now apply Hkept1.
Qed.

(** TIDs of the tree, in ascending order, are what an iteration of a set
    gives. *)
Lemma tid_stream_members rel tids :
  leaves_ok (rd_blocks rel) -> StronglySorted Z.lt tids ->
  (forall t, In t tids -> fetch_info rel t <> None) ->
  fetch_info rel MaxZSTid = None ->
  tid_stream tids.
Proof.
  intros Hok Hsorted Hmem Hmax.
  split; [exact Hsorted|]. apply List.Forall_forall. intros t Hin.
  destruct (fetch_info_covered rel t Hok (Hmem t Hin))
    as (n & p & it & Hn & Hiin & Hc).
  pose proof Hok as [Hpok _].
  apply list_elem_of_In, list_elem_of_lookup in Hiin as [i Hi].
  pose proof (page_ok_covers _ _ _ _ (Hpok _ _ Hn) Hi Hc) as Hpc.
  pose proof (page_ok_facts _ (Hpok _ _ Hn)) as (Hlo & Hlh & Hhi & _).
  unfold page_covers in Hpc.
  rewrite !andb_true_iff, Z.leb_le, Z.ltb_lt in Hpc.
  unfold MinZSTid in Hlo. unfold MaxPlusOneZSTid in Hhi.
  assert (t <> MaxZSTid).
  { intros ->. exact (Hmem _ Hin Hmax). }
  unfold MaxZSTid in *. lia.
Qed.

(** [zsbt_tid_remove] takes the TIDs of the set out of the tree, and only
    them: given the members of the set in the order of the iteration, all
    of them TIDs of the tree below [MaxZSTid], it returns; afterwards
    [zsbt_tid_fetch] finds none of them, and reports for every other TID
    the undo pointer and the dead flag it reported before.  The undo log
    is not touched and the leaves stay well formed. *)
Theorem zsbt_tid_remove_fetch (fuel ifuel : nat) rel tids :
  rel_ok rel = true -> unlink_keeps_items ->
  StronglySorted Z.lt tids ->
  (forall t, In t tids -> fetch_info rel t <> None) ->
  fetch_info rel MaxZSTid = None ->
  (forall (n : nat) p it,
     rd_blocks rel !! n = Some (LeafBlock p) -> In it (tiditems p) ->
     t_nelements it < Z.of_nat ifuel) ->
  (length tids < fuel)%nat ->
  exists rel',
    zsbt_tid_remove fuel ifuel rel tids = Some (Done rel')
    /\ leaves_ok (rd_blocks rel')
    /\ rd_undo rel' = rd_undo rel
    /\ (forall t, In t tids -> fetch_info rel' t = None)
    /\ (forall t, ~ In t tids -> fetch_info rel' t = fetch_info rel t).
Proof.
  intros Hrel Hunlink Hsorted Hmem Hmax Hfuel Hlen.
  pose proof (rel_ok_leaves_ok rel Hrel) as Hok.
  pose proof (tid_stream_members rel tids Hok Hsorted Hmem Hmax) as Hs.
  unfold zsbt_tid_remove.
  (* the first member, or the end mark *)
  replace (intset_iterate_next tids) with (hd MaxZSTid tids, tl tids)
    by (destruct tids; reflexivity).
  apply tid_remove_loop_spec; auto.
  split; [exact Hok|]. split; [exact Hmem|]. split; [exact Hmax|exact Hfuel].
Qed.

(** The two calls of VACUUM, one after the other: [zsbt_tid_remove] of the
    set that [zsbt_collect_dead_tids] returned.  Afterwards no TID from the
    low key of the first leaf scanned to the end TID is dead, and every TID
    that was not a dead TID of that range fetches as before. *)
Theorem zsbt_collect_then_remove rel starttid b p0 rest
    (fuel rfuel ifuel : nat) :
  rel_ok rel = true -> unlink_keeps_items ->
  zsbt_descend rel starttid = Some b ->
  right_chain (rd_blocks rel) b (p0 :: rest) ->
  (length (p0 :: rest) <= fuel)%nat ->
  fetch_info rel MaxZSTid = None ->
  (forall (n : nat) p it,
     rd_blocks rel !! n = Some (LeafBlock p) -> In it (tiditems p) ->
     t_nelements it < Z.of_nat ifuel) ->
  (forall result e,
     zsbt_collect_dead_tids fuel rel starttid = Some (Done (result, e)) ->
     (length result < rfuel)%nat) ->
  exists result endtid rel',
    zsbt_collect_dead_tids fuel rel starttid
    = Some (Done (result, Some endtid))
    /\ zsbt_tid_remove rfuel ifuel rel result = Some (Done rel')
    /\ (forall t u, zs_lokey p0 <= t < endtid ->
          fetch_info rel' t <> Some (u, true))
    /\ (forall t,
          (zs_lokey p0 <= t < endtid ->
           forall u, fetch_info rel t <> Some (u, true)) ->
          fetch_info rel' t = fetch_info rel t).
Proof.
  intros Hrel Hunlink Hd Hch Hfuel Hmax Hifuel Hrfuel.
  pose proof (rel_ok_leaves_ok rel Hrel) as Hok.
  destruct (collect_dead_tids_set rel starttid b (p0 :: rest) fuel
              Hok Hd Hch Hfuel) as (j & plast & Hj & Hrun & Hsorted & Hin).
  specialize (Hin p0). cbn [head] in Hin.
  set (result := flat_map (fun p => page_dead_tids (tiditems p))
                   (take (S j) (p0 :: rest))) in *.
  (* the set holds TIDs of the tree *)
  assert (Hmem : forall t, In t result -> fetch_info rel t <> None).
  { intros t Ht. apply (Hin t eq_refl) in Ht as [_ [u Hu]]. congruence. }
  pose proof (tid_stream_members rel result Hok Hsorted Hmem Hmax) as Hs.
  destruct (tid_remove_loop_spec ifuel rfuel rel result Hunlink)
    as (rel' & Hrem & _ & _ & Hgone & Hkept); auto.
  { split; [exact Hok|]. split; [exact Hmem|].
    split; [exact Hmax|exact Hifuel]. }
  { exact (Hrfuel _ _ Hrun). }
  exists result, (zs_hikey plast), rel'.
  split; [exact Hrun|]. split.
  { unfold zsbt_tid_remove.
    replace (intset_iterate_next result)
      with (hd MaxZSTid result, tl result)
      by (destruct result; reflexivity).
    exact Hrem. }
  split.
  - intros t u Ht Hf.
    destruct (in_dec Z.eq_dec t result) as [Hyes|Hno].
    + rewrite (Hgone t Hyes) in Hf. discriminate.
    + rewrite (Hkept t Hno) in Hf. apply Hno, (Hin t eq_refl). eauto.
  - intros t Hlive. apply Hkept. intros Ht.
    apply (Hin t eq_refl) in Ht as [Hrange [u Hu]].
    exact (Hlive Hrange u Hu).
Qed.

End Remove.

(** ** The merge of the attribute items, as the repacker sees it *)

(** The branch "shouldn't reach here" of the merge is dead code: the merge
    raises no error but "duplicate TID on attribute page", and no
    warning. *)
Theorem attr_merge_loop_only_duplicate alloc : forall (fuel : nat) olditem
    oldrest newitem newrest items res,
  attr_merge_loop alloc fuel olditem oldrest newitem newrest items
  = Some res ->
  (exists r, res = Done r)
  \/ res = Failed MSG_duplicate_TID_on_attribute_page.
Proof.
  induction fuel as [|fuel IH];
    intros olditem oldrest newitem newrest items res Hrun; [discriminate|].
  cbn [attr_merge_loop] in Hrun.
  destruct newitem as [n|], olditem as [o|]; try (now apply IH in Hrun).
  - destruct (Z.eqb_spec (t_firsttid n) (t_firsttid o)) as [Heq|Hne].
    { injection Hrun as <-. now right. }
    destruct (t_endtid n <=? t_firsttid o); [now apply IH in Hrun|].
    destruct (t_endtid o <=? t_firsttid n); [now apply IH in Hrun|].
    destruct (Z.gtb_spec (t_firsttid o) (t_firsttid n)) as [Hgt|Hle].
    { destruct (zsbt_split_item (alloc fuel) n (t_firsttid o)) as [l r].
      now apply IH in Hrun. }
    destruct (Z.ltb_spec (t_firsttid o) (t_firsttid n)) as [Hlt|Hge];
      [|lia].
    destruct (zsbt_split_item (alloc fuel) o (t_firsttid n)) as [l r].
    now apply IH in Hrun.
  - injection Hrun as <-. left. now exists items.
Qed.

Section AttrMerge.

Context `{ZSExternal}.

(** New items that start at or after the end of the last item of the page
    go to the end of the page, whichever way [zsbt_attr_add_items] takes:
    they are appended when they fit, and otherwise the list passed to the
    repacker is the items of the page followed by the new items, none of
    them split. *)
Theorem zsbt_attr_add_items_at_end alloc (fuel : nat) page n news :
  attr_items_ok page -> attr_items_ok (n :: news) ->
  (forall lastitem, last page = Some lastitem ->
     t_endtid lastitem <= t_firsttid n) ->
  (length page + length (n :: news) < fuel)%nat ->
  let growth :=
    fold_left
      (fun acc it => u64 (acc + MAXALIGN (t_size it) + SizeOfItemIdData))
      (n :: news) 0 in
  zsbt_attr_add_items alloc fuel page (n :: news)
  = Some (Done (if growth <=? attr_page_free_space page
                then AttrAppend (n :: news)
                else AttrRepack (page ++ n :: news))).
Proof.
  intros Hp Hn Hlast Hfuel growth. subst growth.
  unfold zsbt_attr_add_items. cbv zeta.
  match goal with
  | |- context [(?a >=? ?b) && _] => assert (Hq : (a >=? b) = true)
  end.
  { apply Z.geb_le. destruct (last page) as [lastitem|] eqn:Hl.
    - now apply Hlast.
    - destruct Hn as ((Hne & _ & Hr & Hf & _) & _). rewrite Hf.
      destruct (attr_tids n) as [|t ts]; [contradiction|].
      apply Forall_inv in Hr. cbn [hd]. unfold MinZSTid in Hr. lia. }
  rewrite Hq. cbn [andb].
  destruct (_ <=? attr_page_free_space page); [reflexivity|].
  rewrite (attr_merge_loop_append alloc fuel page (n :: news) []); auto.
  intros o n' Hin Hh. cbn [head] in Hh. injection Hh as Heq. subst n'.
  assert (Hne : page <> []) by (destruct page; [destruct Hin|discriminate]).
  destruct (last_is_Some page Hne) as [lastitem Hl].
  pose proof (attr_items_ok_last_max page o lastitem Hp Hin Hl).
  specialize (Hlast _ Hl). lia.
Qed.

(** What [zsbt_attr_add_items] passes to the repacker when no new item
    overlaps an item of the page (their TID ranges are apart, so that
    nothing is split): the call returns; when it takes the way of the
    repacker, the list it passes is made of the old and the new items
    themselves and satisfies the assertions of [zsbt_attr_repack_replace]
    (every item starts at or after the end of the one before it, and ends
    after its start). *)
Theorem zsbt_attr_add_items_repack_in_order alloc (fuel : nat) page
    newitems :
  attr_items_ok page -> attr_items_ok newitems -> newitems <> [] ->
  (forall n o, In n newitems -> In o page -> attr_apart n o) ->
  (length page + length newitems < fuel)%nat ->
  exists w,
    zsbt_attr_add_items alloc fuel page newitems = Some (Done w)
    /\ forall items, w = AttrRepack items ->
         repack_items_in_order 0 items = true
         /\ Permutation items (page ++ newitems).
Proof.
  intros Hp Hn Hne Hap Hfuel.
  destruct newitems as [|n news]; [contradiction|].
  unfold zsbt_attr_add_items. cbv zeta.
  destruct (_ && _).
  { eexists. split; [reflexivity|]. intros items Hw. discriminate. }
  assert (Hfirst : forall l x, attr_items_ok l -> head l = Some x ->
            0 <= t_firsttid x).
  { intros l x Hl Hh. destruct l as [|y l]; [discriminate|].
    injection Hh as ->.
    destruct Hl as ((Hxne & _ & Hr & Hf & _) & _). rewrite Hf.
    destruct (attr_tids x) as [|t ts]; [contradiction|].
    apply Forall_inv in Hr. cbn [hd]. unfold MinZSTid in Hr. lia. }
  destruct (attr_merge_loop_apart alloc fuel page (n :: news) [] 0 Hp Hn
              Hap (fun o => Hfirst page o Hp)
              (fun x => Hfirst (n :: news) x Hn) Hfuel)
    as (merged & Hrun & Hperm & Hchk).
  rewrite Hrun. exists (AttrRepack ([] ++ merged)).
  split; [reflexivity|]. intros items Hw. injection Hw as <-.
  cbn [app]. split; [exact Hchk|exact Hperm].
Qed.

End AttrMerge.

(** ** Following the update chain *)

Section FindLatest.

Context `{ZSExternal}.

Variable next_tid_of : Snapshot -> ZSUndoRecPtr -> zstid.

(** The loop of [zsbt_find_latest_tid] on a chain that leads to higher
    TIDs. *)
Lemma find_latest_loop_spec rel snap bound : forall (fuel : nat) tid curr,
  (forall t u, fetch_info rel t = Some (u, false) ->
     t < bound
     /\ (next_tid_of snap u = InvalidZSTid \/ t < next_tid_of snap u)) ->
  (1 <= fuel)%nat ->
  curr = InvalidZSTid \/ bound - curr < Z.of_nat fuel ->
  exists tid',
    find_latest_loop next_tid_of fuel rel tid curr (Some snap) = Some tid'
    /\ (tid' = tid
        \/ curr <> InvalidZSTid /\ curr <= tid'
           /\ exists u, fetch_info rel tid' = Some (u, false)
                        /\ zs_SatisfiesVisibility snap u = true).
Proof.
  induction fuel as [|fuel IH]; intros tid curr Hchain H1 Hfuel; [lia|].
  cbn [find_latest_loop].
  destruct (Z.eqb_spec curr InvalidZSTid) as [Hinv|Hval].
  { exists tid. split; [reflexivity|now left]. }
  destruct (zsbt_tid_fetch rel curr) as [[[buf u] d]|] eqn:Hfetch;
    [|exists tid; split; [reflexivity|now left]].
  destruct d; [exists tid; split; [reflexivity|now left]|].
  assert (Hinfo : fetch_info rel curr = Some (u, false)).
  { unfold fetch_info. now rewrite Hfetch. }
  destruct (Hchain curr u Hinfo) as [Hb Hnext].
  destruct Hfuel as [Hc|Hf]; [contradiction|].
  destruct (IH (if zs_SatisfiesVisibility snap u then curr else tid)
              (next_tid_of snap u) Hchain) as (tid' & Hrun & Hres).
  { lia. }
  { destruct Hnext as [Hn|Hn]; [now left|right; lia]. }
  exists tid'. split; [exact Hrun|].
  destruct Hres as [->|(Hnv & Hle & u' & Hu' & Hvis)].
  - destruct (zs_SatisfiesVisibility snap u) eqn:Hvis; [|now left].
    right. split; [exact Hval|]. split; [lia|]. now exists u.
  - right. split; [exact Hval|]. split; [|now exists u'].
    destruct Hnext as [Hn|Hn]; [contradiction|lia].
Qed.

(** [zsbt_find_latest_tid] with a snapshot, on update chains that lead to
    higher TIDs ([bound] is above the TIDs in use): the call returns, and
    the TID it leaves in [*tid] is the TID passed in, or else a higher TID
    whose item is found, is not dead and is visible to the snapshot.  It is
    the TID passed in when that one is invalid, or not in the tree, or
    dead. *)
Theorem zsbt_find_latest_tid_visible rel snap bound (fuel : nat) tid :
  (forall t u, fetch_info rel t = Some (u, false) ->
     t < bound
     /\ (next_tid_of snap u = InvalidZSTid \/ t < next_tid_of snap u)) ->
  (1 <= fuel)%nat -> bound - tid < Z.of_nat fuel ->
  exists tid',
    zsbt_find_latest_tid next_tid_of fuel rel tid (Some snap) = Some tid'
    /\ (tid' = tid
        \/ tid <= tid'
           /\ exists u, fetch_info rel tid' = Some (u, false)
                        /\ zs_SatisfiesVisibility snap u = true)
    /\ ((forall u, fetch_info rel tid <> Some (u, false)) -> tid' = tid).
Proof.
  intros Hchain H1 Hfuel. unfold zsbt_find_latest_tid. cbv zeta.
  destruct (find_latest_loop_spec rel snap bound fuel tid tid Hchain H1
              ltac:(now right)) as (tid' & Hrun & Hres).
  exists tid'. split; [exact Hrun|]. split.
  - destruct Hres as [->|(_ & Hle & Hu)]; [now left|right; auto].
  - (* the first iteration ends the loop *)
    intros Hnone. destruct fuel as [|fuel]; [lia|].
    cbn [find_latest_loop] in Hrun.
    destruct (tid =? InvalidZSTid); [congruence|].
    destruct (zsbt_tid_fetch rel tid) as [[[buf u] d]|] eqn:Hfetch;
      [|congruence].
    destruct d; [congruence|]. exfalso. apply (Hnone u).
    unfold fetch_info. now rewrite Hfetch.
Qed.

(** [zsbt_find_latest_tid] without a snapshot, on a TID whose item is found
    and is not dead: the loop goes round on the same TID, and no number of
    iterations ends it. *)
Theorem zsbt_find_latest_tid_no_snapshot rel tid u (fuel : nat) :
  tid <> InvalidZSTid -> fetch_info rel tid = Some (u, false) ->
  zsbt_find_latest_tid next_tid_of fuel rel tid None = None.
Proof.
  intros Hval Hinfo. unfold zsbt_find_latest_tid. cbv zeta.
  unfold fetch_info in Hinfo.
  destruct (zsbt_tid_fetch rel tid) as [[[buf u'] d]|] eqn:Hfetch;
    [|discriminate].
  injection Hinfo as -> ->.
  induction fuel as [|fuel IH]; [reflexivity|].
  cbn [find_latest_loop].
  destruct (Z.eqb_spec tid InvalidZSTid) as [Hinv|_]; [contradiction|].
  rewrite Hfetch. exact IH.
Qed.

End FindLatest.

(** * Examples in the concrete configuration *)

#[local] Existing Instance pg_default.

(** The scan of the one-leaf tree over [1, 100) with the snapshot 5 returns
    the TIDs 1, 2, 3, 9 and 10; they are ascending, in range, visible and
    not dead. *)
Lemma zsbt_tid_scan_next_ascending_witness :
  scan_tids 10 10 rel_1 (zsbt_tid_begin_scan rel_1 1 100 5)
  = [1; 2; 3; 9; 10]
  /\ StronglySorted Z.lt
       (scan_tids 10 10 rel_1 (zsbt_tid_begin_scan rel_1 1 100 5))
  /\ forall t,
       In t (scan_tids 10 10 rel_1 (zsbt_tid_begin_scan rel_1 1 100 5)) ->
       1 <= t < 100
       /\ (exists (b : nat) p it,
             rd_blocks rel_1 !! b = Some (LeafBlock p)
             /\ In it (tiditems p) /\ covers it t
             /\ zs_SatisfiesVisibility 5 (t_undo_ptr it) = true)
       /\ (forall (b : nat) p it,
             rd_blocks rel_1 !! b = Some (LeafBlock p) ->
             In it (tiditems p) -> covers it t ->
             item_isdead it = false).
Proof.
  split; [reflexivity|].
  apply (zsbt_tid_scan_next_ascending (H := pg_default) rel_1 1 100 5 10 10);
    [reflexivity | lia | lia].
Defined.

(** Three TIDs inserted into the one-leaf tree are 11, 12 and 13. *)
Lemma zsbt_tid_multi_insert_appends_witness :
  zsbt_descend rel_1 MaxZSTid = Some 1
  /\ exists rel',
       zsbt_tid_multi_insert rel_1 3 100 0 0 (mkUndoPtr 0 0 0)
       = Done ([11; 12; 13], rel')
       /\ written
            {| rd_blocks := rd_blocks rel_1;
               rd_undo :=
                 [{| rec_type := ZSUNDO_TYPE_INSERT; rec_xid := 100;
                     rec_cid := 0; rec_tid := 11;
                     rec_speculative_token := 0;
                     rec_prevundorec := mkUndoPtr 0 0 0;
                     rec_endtid := 13; rec_changedPart := false;
                     rec_newtid := 0; rec_key_update := false;
                     rec_lockmode := None |}] |}
            1 leaf_1 (tiditems leaf_1 ++ [run_item 11 3 1]) rel'.
Proof.
  exact (zsbt_tid_multi_insert_appends (H := pg_default) rel_1 1 leaf_1 3
           100 0 0
           (mkUndoPtr 0 0 0) eq_refl eq_refl eq_refl eq_refl
           ltac:(lia) ltac:(vm_compute; discriminate)).
Defined.

(** Replacing TID 2 of the run 1..3 on the leaf cuts the run into the TIDs
    1, 2 and 3. *)
Lemma zsbt_tid_replace_item_slices_witness :
  exists rel',
    zsbt_tid_replace_item rel_1 1 2 (Some (run_item 2 1 7)) = Done rel'
    /\ rd_undo rel' = rd_undo rel_1
    /\ (written rel_1 1 leaf_1
          [run_item 1 1 1; run_item 2 1 7; run_item 3 1 1; dead_item 4;
           run_item 9 2 3] rel'
        \/ [run_item 1 1 1; run_item 2 1 7; run_item 3 1 1; dead_item 4;
            run_item 9 2 3] = []
           /\ exists blocks',
                zsbt_unlink_page (rd_blocks rel_1) 1 = Some blocks'
                /\ rd_blocks rel' = blocks').
Proof.
  destruct (zsbt_tid_replace_item_slices (H := pg_default) rel_1 1 leaf_1 2
              (Some (run_item 2 1 7))
              0%nat (run_item 1 3 1) eq_refl eq_refl eq_refl eq_refl
              ltac:(unfold covers; simpl; lia))
    as (Hrun & _).
  { intros r [= <-]. split; reflexivity. }
  exact Hrun.
Defined.

(** Deleting or locking TID 2 under a snapshot that does not see its
    inserter returns [TM_Updated] and the relation as it was; under a
    snapshot that sees it, the delete adds one undo record. *)
Lemma zsbt_tid_delete_lock_visibility_witness :
  zsbt_tid_delete rel_1 2 100 0 (Some 0) None false
  = Done (TM_Updated, rel_1)
  /\ zsbt_tid_lock rel_1 2 100 0 LockTupleExclusive 0
     = Done (TM_Updated, 2, rel_1)
  /\ exists rel',
       zsbt_tid_delete rel_1 2 100 0 (Some 5) None false
       = Done (TM_Ok, rel')
       /\ length (rd_undo rel') = 1%nat.
Proof.
  destruct (zsbt_tid_delete_lock_visibility (H := pg_default) rel_1 1 leaf_1 0
              (run_item 1 3 1) 2 100 0 eq_refl eq_refl eq_refl eq_refl
              ltac:(unfold covers; simpl; lia) eq_refl)
    as (Hdel & Hlock & Hok).
  split; [|split].
  - apply (Hdel 0 None false TM_Updated true 2); [reflexivity|discriminate].
  - apply (Hlock 0 LockTupleExclusive TM_Updated true 2);
      [reflexivity|discriminate].
  - destruct (Hok 5 None false true 2 eq_refl) as (rel' & Hrel' & Hundo & _).
    exists rel'. split; [exact Hrel'|]. rewrite Hundo. reflexivity.
Defined.



(** Undoing the deletion of TID 2 with the undo pointer of its item and
    with a different one. *)
Lemma zsbt_tid_undo_deletion_superseded_witness :
  (exists rel',
     zsbt_tid_undo_deletion rel_1 2 (mkUndoPtr 1 0 0) = Done rel'
     /\ written rel_1 1 leaf_1
          [run_item 1 1 1;
           {| t_tid := 2; t_nelements := 1; t_undo_ptr := InvalidUndoPtr;
              t_flags := 0 |};
           run_item 3 1 1; dead_item 4; run_item 9 2 3] rel')
  /\ zsbt_tid_undo_deletion rel_1 2 (mkUndoPtr 9 0 0) = Done rel_1.
Proof.
  split.
  - exact (proj1 (zsbt_tid_undo_deletion_superseded (H := pg_default)
                    rel_1 1 leaf_1 0
                    (run_item 1 3 1) 2 (mkUndoPtr 1 0 0)
                    eq_refl eq_refl eq_refl eq_refl
                    ltac:(unfold covers; simpl; lia)) eq_refl).
  - exact (proj2 (zsbt_tid_undo_deletion_superseded (H := pg_default)
                    rel_1 1 leaf_1 0
                    (run_item 1 3 1) 2 (mkUndoPtr 9 0 0)
                    eq_refl eq_refl eq_refl eq_refl
                    ltac:(unfold covers; simpl; lia)) eq_refl).
Defined.

(** No item of the one-leaf tree covers TID 5. *)
Lemma absent_tid_warning_or_error_witness :
  zsbt_tid_mark_dead rel_1 5
  = Warned MSG_could_not_find_tuple_to_mark_dead rel_1
  /\ zsbt_tid_undo_deletion rel_1 5 (mkUndoPtr 1 0 0)
     = Warned MSG_could_not_find_aborted_tuple rel_1
  /\ zsbt_tid_delete rel_1 5 100 0 (Some 5) None false
     = Failed MSG_could_not_find_tuple_to_delete
  /\ zsbt_tid_lock rel_1 5 100 0 LockTupleExclusive 5
     = Failed MSG_could_not_find_tuple_to_lock
  /\ zsbt_tid_update rel_1 5 100 0 false 5 None
     = Failed MSG_could_not_find_old_tuple_to_update.
Proof.
  assert (Habsent : forall (n : nat) p it,
             rd_blocks rel_1 !! n = Some (LeafBlock p) ->
             In it (tiditems p) -> ~ covers it 5).
  { intros [|[|[|n]]] p it Hn; try discriminate Hn.
    inversion Hn; subst p. unfold covers.
    intros [<-|[<-|[<-|[]]]]; simpl; lia. }
  destruct (absent_tid_warning_or_error (H := pg_default) rel_1 5 eq_refl
              Habsent)
    as (Hdead & Hundo & Hdel & Hlock & Hupd).
  split; [exact Hdead|]. split; [apply Hundo|]. split; [apply Hdel|].
  split; [apply Hlock|apply Hupd].
Defined.

(** The walk over the two-leaf tree from TID 1 finds the dead TIDs 4, 7
    and 100 and ends after the rightmost leaf. *)
Lemma zsbt_collect_dead_tids_walk_witness :
  exists (j : nat) plast result,
    [leaf_lo; leaf_hi] !! j = Some plast
    /\ zsbt_collect_dead_tids 2 rel_2 1
       = Some (Done (result, Some (zs_hikey plast)))
    /\ (forall t,
          In t result <->
          exists p it,
            In p (take (S j) [leaf_lo; leaf_hi]) /\ In it (tiditems p)
            /\ item_isdead it = true /\ covers it t).
Proof.
  assert (Hchain : right_chain (rd_blocks rel_2) 1 [leaf_lo; leaf_hi]).
  { simpl. split; [reflexivity|]. split; [discriminate|].
    split; [discriminate|]. split; [reflexivity|].
    split; reflexivity. }
  destruct (zsbt_collect_dead_tids_walk (H := pg_default) rel_2 1 1
              [leaf_lo; leaf_hi] 2
              eq_refl eq_refl Hchain ltac:(simpl; lia))
    as (j & plast & result & Hj & Hres & Hin & _).
  exists j, plast, result. split; [exact Hj|]. split; [exact Hres|exact Hin].
Defined.

(** 400 single-TID items of a rightmost leaf take two pages and leave 6672
    bytes free: [free_space_per_page] is 667, a tenth of them, where 90%
    spread over the earlier page would be 6004; the repacked first page
    keeps 648 bytes free and the last page 6024. *)
Lemma picksplit_rightmost_counterexample :
  let items := single_items 400 in
  let cxt' :=
    zsbt_tid_recompress_picksplit (fresh_cxt MaxPlusOneZSTid) items in
  cxt_num_pages cxt' = 2
  /\ picksplit_total_free items = 6672
  /\ cxt_free_space_per_page cxt' = 667
  /\ cxt_free_space_per_page cxt'
     <> spec_rightmost_free_space_per_page (picksplit_total_free items)
          (cxt_num_pages cxt')
  /\ map (fun p => PageGetExactFreeSpace (Z.of_nat (length (tiditems p))))
       (recompress_pages (with_items leaf_1 []) items)
     = [648; 6024].
Proof.
  vm_compute. repeat split. discriminate.
Qed.

Lemma zsbt_tid_recompress_picksplit_distribution_witness :
  let items := single_items 400 in
  let cxt' :=
    zsbt_tid_recompress_picksplit (fresh_cxt MaxPlusOneZSTid) items in
  cxt_num_pages cxt' = 2
  /\ cxt_free_space_per_page cxt' = 6672 / (10 * (2 - 1)).
Proof.
  destruct (zsbt_tid_recompress_picksplit_distribution (H := pg_default)
              (fresh_cxt MaxPlusOneZSTid) (single_items 400) eq_refl
              ltac:(discriminate) ltac:(vm_compute; reflexivity))
    as (_ & _ & _ & _ & _ & Hright).
  destruct (Hright ltac:(vm_compute; reflexivity) eq_refl) as (_ & Hf & _).
  split; [reflexivity|exact Hf].
Defined.


(** The two-leaf tree is chained by its right-links and covers all TIDs: a
    call of the scan returns with five iterations of its loop. *)
Lemma zsbt_tid_scan_next_returns_example :
  exists tid scan',
    zsbt_tid_scan_next 5 rel_2 (zsbt_tid_begin_scan rel_2 2 104 5)
    = Some (Done (tid, scan'))
    /\ MinZSTid <= nexttid scan' /\ endtid scan' <= MaxPlusOneZSTid.
Proof.
  apply (zsbt_tid_scan_next_returns (H := pg_default) rel_2 2 5).
  - reflexivity.
  - intros b p Hget. unfold get_leaf in Hget.
    destruct (Z.ltb_spec b 0); [discriminate|].
    destruct (Z.to_nat b) as [|[|[|n]]] eqn:Eb; try discriminate.
    + assert (b = 1) by lia. subst b. injection Hget as <-.
      split; [discriminate|]. exists [leaf_lo; leaf_hi].
      split; [|simpl; lia].
      simpl. split; [reflexivity|]. split; [discriminate|].
      split; [discriminate|]. split; [reflexivity|].
      split; reflexivity.
    + assert (b = 2) by lia. subst b. injection Hget as <-.
      split; [discriminate|]. exists [leaf_hi]. split; [|simpl; lia].
      simpl. split; reflexivity.
  - intros t Ht. unfold MinZSTid, MaxPlusOneZSTid in Ht.
    unfold zsbt_descend, rel_2. cbn [rd_blocks descend_from].
    unfold page_covers, leaf_lo, leaf_hi.
    cbn [zs_level zs_lokey zs_hikey Z.eqb andb].
    unfold MinZSTid, MaxPlusOneZSTid.
    destruct (Z.leb_spec 1 t); [|lia].
    destruct (Z.ltb_spec t 100); [discriminate|].
    destruct (Z.leb_spec 100 t); [|lia].
    destruct (Z.ltb_spec t (2 ^ 48)); [discriminate|lia].
  - unfold MinZSTid. simpl. lia.
  - unfold MaxPlusOneZSTid. simpl. lia.
  - lia.
Qed.

(** On the items of the one-leaf tree the search for TID 5 returns the
    index of the item of TID 4, the last one that starts at or before 5. *)
Lemma zsbt_binsrch_tidpage_last_le_witness :
  let r := zsbt_binsrch_tidpage 5 (tiditems leaf_1) 3 in
  -1 <= r < 3
  /\ (forall (j : nat) it, tiditems leaf_1 !! j = Some it ->
        (Z.of_nat j <= r <-> t_tid it <= 5)).
Proof.
  exact (zsbt_binsrch_tidpage_last_le MinZSTid MaxPlusOneZSTid
           (tiditems leaf_1) 5 eq_refl).
Defined.

(** What a fetch of TID 2 of the one-leaf tree reports. *)
Lemma zsbt_tid_fetch_covering_item_witness :
  (forall b u d,
     zsbt_tid_fetch rel_1 2 = Some (b, u, d) <->
     exists (n : nat) p it,
       b = Z.of_nat n /\ rd_blocks rel_1 !! n = Some (LeafBlock p)
       /\ In it (tiditems p) /\ covers it 2
       /\ u = t_undo_ptr it /\ d = item_isdead it)
  /\ (zsbt_tid_fetch rel_1 2 = None <->
      forall (n : nat) p it, rd_blocks rel_1 !! n = Some (LeafBlock p) ->
        In it (tiditems p) -> ~ covers it 2).
Proof.
  exact (zsbt_tid_fetch_covering_item rel_1 2 eq_refl).
Defined.

(** No item of the leaf covers TID 5: nothing can replace it. *)
Lemma zsbt_tid_replace_item_absent_witness :
  zsbt_tid_replace_item rel_1 1 5 (Some (run_item 5 1 7))
  = Failed MSG_could_not_find_item_to_replace.
Proof.
  apply (zsbt_tid_replace_item_absent (H := pg_default) rel_1 1 leaf_1 5
           (Some (run_item 5 1 7)) eq_refl eq_refl).
  unfold covers. intros it [<-|[<-|[<-|[]]]]; simpl; lia.
Defined.

(** Deleting TID 2 of the run 1..3 under a snapshot that sees it. *)
Lemma zsbt_tid_delete_fetch_witness :
  exists rel' undorec,
    zsbt_tid_delete rel_1 2 100 0 (Some 5) None false = Done (TM_Ok, rel')
    /\ rd_undo rel' = rd_undo rel_1 ++ [undorec]
    /\ rec_type undorec = ZSUNDO_TYPE_DELETE /\ rec_tid undorec = 2
    /\ leaves_ok (rd_blocks rel')
    /\ fetch_info rel' 2
       = Some (zsundo_alloc (rd_undo rel_1) undorec, false)
    /\ forall t', t' <> 2 -> fetch_info rel' t' = fetch_info rel_1 t'.
Proof.
  exact (zsbt_tid_delete_fetch (H := pg_default) rel_1 1 leaf_1 0
           (run_item 1 3 1) 2 100 0 5 None false true 2
           eq_refl eq_refl eq_refl eq_refl
           ltac:(unfold covers; simpl; lia) eq_refl eq_refl).
Defined.

(** Locking TID 2 of the run 1..3 under a snapshot that sees it. *)
Lemma zsbt_tid_lock_ok_witness :
  let undorec :=
    {| rec_type := ZSUNDO_TYPE_TUPLE_LOCK; rec_xid := 100; rec_cid := 0;
       rec_tid := 2; rec_speculative_token := 0;
       rec_prevundorec := mkUndoPtr 1 0 0;
       rec_endtid := 0; rec_changedPart := false; rec_newtid := 0;
       rec_key_update := false; rec_lockmode := Some LockTupleShare |} in
  exists rel',
    zsbt_tid_lock rel_1 2 100 0 LockTupleShare 5 = Done (TM_Ok, 2, rel')
    /\ rd_undo rel' = rd_undo rel_1 ++ [undorec]
    /\ leaves_ok (rd_blocks rel')
    /\ fetch_info rel' 2
       = Some (zsundo_alloc (rd_undo rel_1) undorec, false)
    /\ forall t', t' <> 2 -> fetch_info rel' t' = fetch_info rel_1 t'.
Proof.
  exact (zsbt_tid_lock_ok (H := pg_default) rel_1 1 leaf_1 0
           (run_item 1 3 1) 2 100 0 LockTupleShare 5 true 2
           eq_refl eq_refl eq_refl eq_refl
           ltac:(unfold covers; simpl; lia) eq_refl eq_refl).
Defined.

(** Marking TID 2 of the run 1..3 dead. *)
Lemma zsbt_tid_mark_dead_then_witness :
  exists rel',
    zsbt_tid_mark_dead rel_1 2 = Done rel'
    /\ rd_undo rel' = rd_undo rel_1
    /\ leaves_ok (rd_blocks rel')
    /\ fetch_info rel' 2 = Some (InvalidUndoPtr, true)
    /\ (forall t', t' <> 2 -> fetch_info rel' t' = fetch_info rel_1 t')
    /\ (forall xid cid snapshot crosscheck changingPart,
          zsbt_tid_delete rel' 2 xid cid snapshot crosscheck changingPart
            = Failed MSG_cannot_delete_dead)
    /\ (forall xid cid mode snapshot,
          zsbt_tid_lock rel' 2 xid cid mode snapshot
            = Failed MSG_could_not_find_tuple_to_lock)
    /\ (forall xid cid key_update snapshot crosscheck,
          zsbt_tid_update rel' 2 xid cid key_update snapshot crosscheck
            = Failed MSG_could_not_find_old_tuple_to_update).
Proof.
  exact (zsbt_tid_mark_dead_then (H := pg_default) rel_1 1 leaf_1 0
           (run_item 1 3 1) 2
           eq_refl eq_refl eq_refl eq_refl
           ltac:(unfold covers; simpl; lia) eq_refl).
Defined.

(** Deleting TID 2 and undoing the deletion. *)
Lemma zsbt_tid_delete_undone_witness :
  exists rel' undorec rel'',
    zsbt_tid_delete rel_1 2 100 0 (Some 5) None false = Done (TM_Ok, rel')
    /\ rd_undo rel' = rd_undo rel_1 ++ [undorec]
    /\ zsbt_tid_undo_deletion rel' 2
         (zsundo_alloc (rd_undo rel_1) undorec)
       = Done rel''
    /\ rd_undo rel'' = rd_undo rel_1 ++ [undorec]
    /\ fetch_info rel'' 2 = Some (InvalidUndoPtr, false)
    /\ forall t', t' <> 2 -> fetch_info rel'' t' = fetch_info rel_1 t'.
Proof.
  exact (zsbt_tid_delete_undone (H := pg_default) rel_1 1 leaf_1 0
           (run_item 1 3 1) 2 100 0 5 None false true 2
           eq_refl eq_refl eq_refl eq_refl
           ltac:(unfold covers; simpl; lia) eq_refl eq_refl
           (fun ptr => Z.eqb_refl (counter ptr))).
Defined.

(** The last TID of the one-leaf tree is 11. *)
Lemma zsbt_get_last_tid_unused_witness :
  zsbt_get_last_tid rel_1 = 11
  /\ (forall (m : nat) q it t,
        rd_blocks rel_1 !! m = Some (LeafBlock q) ->
        In it (tiditems q) -> covers it t ->
        t < zsbt_get_last_tid rel_1)
  /\ zsbt_tid_fetch rel_1 (zsbt_get_last_tid rel_1) = None.
Proof.
  destruct (zsbt_get_last_tid_unused rel_1 eq_refl)
    as [_ Hlast].
  destruct (Hlast ltac:(discriminate)) as (_ & Habove & Hfetch).
  split; [reflexivity|]. split; [exact Habove|exact Hfetch].
Defined.

(** Three TIDs inserted into the one-leaf tree are fetched afterwards. *)
Lemma zsbt_tid_multi_insert_fetch_witness :
  exists rel',
    zsbt_tid_multi_insert rel_1 3 100 0 0 (mkUndoPtr 0 0 0)
    = Done ([11; 12; 13], rel')
    /\ zsbt_get_last_tid rel' = 14
    /\ (forall t, In t [11; 12; 13] ->
          fetch_info rel' t = Some (mkUndoPtr 1 0 0, false))
    /\ (forall t, ~ In t [11; 12; 13] ->
          fetch_info rel' t = fetch_info rel_1 t).
Proof.
  destruct (zsbt_tid_multi_insert_fetch (H := pg_default) rel_1 3 100 0 0
              (mkUndoPtr 0 0 0) eq_refl eq_refl
              ltac:(discriminate) ltac:(lia)
              ltac:(vm_compute; discriminate))
    as (tids & rel' & Hins & -> & _ & _ & Hlast & Hnew & Hold).
  exists rel'. split; [exact Hins|]. split; [exact Hlast|].
  split; [exact Hnew|exact Hold].
Defined.

(** Updating TID 2 of the one-leaf tree: the new version is TID 11. *)
Lemma zsbt_tid_update_ok_witness :
  exists rel',
    zsbt_tid_update rel_1 2 100 0 false 5 None = Done (TM_Ok, 11, rel')
    /\ length (rd_undo rel') = 2%nat
    /\ fetch_info rel' 11 = Some (mkUndoPtr 1 0 0, false)
    /\ fetch_info rel' 2 = Some (mkUndoPtr 2 0 0, false)
    /\ forall t, t <> 2 -> t <> 11 -> fetch_info rel' t = fetch_info rel_1 t.
Proof.
  destruct (zsbt_tid_update_ok (H := pg_default) rel_1 1 leaf_1 0
              (run_item 1 3 1) 2 100 0 false 5 None TM_Ok true 2
              eq_refl eq_refl eq_refl eq_refl
              ltac:(unfold covers; simpl; lia) eq_refl eq_refl)
    as [_ Hok].
  destruct (Hok eq_refl ltac:(discriminate) ltac:(vm_compute; reflexivity))
    as (rel' & Hupd & Hundo & _ & _ & Hnew & Hold & Hframe).
  exists rel'. split; [exact Hupd|]. split; [now rewrite Hundo|].
  split; [exact Hnew|]. split; [exact Hold|exact Hframe].
Defined.

(** The two-leaf tree is chained by its right-links and its leaves cover
    all TIDs. *)
Lemma rel_2_right_linked : right_linked (rd_blocks rel_2) 2.
Proof.
  intros b p Hget. unfold get_leaf in Hget.
  destruct (Z.ltb_spec b 0); [discriminate|].
  destruct (Z.to_nat b) as [|[|[|n]]] eqn:Eb; try discriminate.
  - assert (b = 1) by lia. subst b. injection Hget as <-.
    split; [discriminate|]. exists [leaf_lo; leaf_hi].
    split; [|simpl; lia].
    simpl. split; [reflexivity|]. split; [discriminate|].
    split; [discriminate|]. split; [reflexivity|].
    split; reflexivity.
  - assert (b = 2) by lia. subst b. injection Hget as <-.
    split; [discriminate|]. exists [leaf_hi]. split; [|simpl; lia].
    simpl. split; reflexivity.
Qed.

Lemma rel_2_leaves_cover : leaves_cover rel_2.
Proof.
  intros t Ht. unfold MinZSTid, MaxPlusOneZSTid in Ht.
  unfold zsbt_descend, rel_2. cbn [rd_blocks descend_from].
  unfold page_covers, leaf_lo, leaf_hi.
  cbn [zs_level zs_lokey zs_hikey Z.eqb andb].
  unfold MinZSTid, MaxPlusOneZSTid.
  destruct (Z.leb_spec 1 t); [|lia].
  destruct (Z.ltb_spec t 100); [discriminate|].
  destruct (Z.leb_spec 100 t); [|lia].
  destruct (Z.ltb_spec t (2 ^ 48)); [discriminate|lia].
Qed.

(** The scan of the two-leaf tree over [2, 104) with the snapshot 5
    returns the visible TIDs of that range, all of them. *)
Lemma zsbt_tid_scan_exact_witness :
  scan_tids 102 5 rel_2 (zsbt_tid_begin_scan rel_2 2 104 5)
  = [2; 3; 101; 102; 103]
  /\ forall t,
       In t (scan_tids 102 5 rel_2 (zsbt_tid_begin_scan rel_2 2 104 5))
       <-> 2 <= t < 104 /\ visible_run rel_2 5 t (t + 1).
Proof.
  split; [vm_compute; reflexivity|].
  exact (zsbt_tid_scan_exact (H := pg_default) rel_2 2 2 104 5 102 5
           eq_refl rel_2_right_linked rel_2_leaves_cover
           ltac:(unfold MinZSTid; lia)
           ltac:(unfold MaxPlusOneZSTid; lia) ltac:(lia) ltac:(lia)).
Defined.

(** The scan of the two-leaf tree over [4, 8) finds the dead TIDs 4 and 7
    and nothing else: it returns no TID, and goes on returning none. *)
Lemma zsbt_tid_scan_next_end_witness :
  exists scan',
    zsbt_tid_scan_next 5 rel_2 (zsbt_tid_begin_scan rel_2 4 8 5)
    = Some (Done (InvalidZSTid, scan'))
    /\ (forall t, 4 <= t < 8 -> ~ visible_run rel_2 5 t (t + 1))
    /\ forall fuel' : nat,
         zsbt_tid_scan_next (S fuel') rel_2 scan'
         = Some (Done (InvalidZSTid, scan')).
Proof.
  eexists. split; [vm_compute; reflexivity|].
  apply (zsbt_tid_scan_next_end (H := pg_default) rel_2 2 5
           (zsbt_tid_begin_scan rel_2 4 8 5) _ eq_refl rel_2_right_linked).
  - split; [simpl; lia|]. split; [simpl; lia|]. intros Hc. discriminate.
  - reflexivity.
  - unfold MinZSTid. simpl. lia.
  - unfold MaxPlusOneZSTid. simpl. lia.
  - vm_compute. reflexivity.
Defined.

(** Recompressing the items of the one-leaf tree gives one page. *)
Lemma recompress_pages_fit_witness :
  let pages := recompress_pages leaf_1 (tiditems leaf_1) in
  pages <> []
  /\ chain_ok (zs_lokey leaf_1) (zs_hikey leaf_1) pages
  /\ flat_map tiditems pages = tiditems leaf_1
  /\ forall c, In c pages ->
       pd_lower (Z.of_nat (length (tiditems c))) <= pd_upper.
Proof.
  exact (recompress_pages_fit (H := pg_default) leaf_1 (tiditems leaf_1)
           eq_refl ltac:(vm_compute; discriminate) eq_refl).
Defined.

(** 400 single-TID items are repacked into two pages; neither is
    empty. *)
Lemma recompress_pages_no_empty_page_witness :
  length (recompress_pages (with_items leaf_1 []) (single_items 400))
  = 2%nat
  /\ forall c,
       In c (recompress_pages (with_items leaf_1 []) (single_items 400)) ->
       tiditems c <> [].
Proof.
  split; [vm_compute; reflexivity|].
  exact (recompress_pages_no_empty_page (H := pg_default)
           (with_items leaf_1 []) (single_items 400) eq_refl
           ltac:(discriminate) ltac:(vm_compute; reflexivity)).
Defined.

(** Adding the run 11..13 to the leaf of the one-leaf tree rewrites the
    leaf in place. *)
Lemma zsbt_tid_add_items_appends_witness :
  exists rel',
    zsbt_tid_add_items rel_1 1 [run_item 11 3 1] = Done rel'
    /\ written rel_1 1 leaf_1 (tiditems leaf_1 ++ [run_item 11 3 1]) rel'
    /\ rd_blocks rel'
       = [OtherBlock;
          LeafBlock (with_items leaf_1
                       (tiditems leaf_1 ++ [run_item 11 3 1]))].
Proof.
  destruct (zsbt_tid_add_items_appends (H := pg_default) rel_1 1 leaf_1
              [run_item 11 3 1] eq_refl eq_refl eq_refl eq_refl
              ltac:(simpl; lia))
    as (rel' & Hadd & Hwr & _ & Hin).
  exists rel'. split; [exact Hadd|]. split; [exact Hwr|].
  apply Hin. vm_compute. discriminate.
Defined.

(** The dead TIDs of the two-leaf tree. *)
Lemma zsbt_collect_dead_tids_range_witness :
  exists result endtid,
    zsbt_collect_dead_tids 2 rel_2 1 = Some (Done (result, Some endtid))
    /\ zs_lokey leaf_lo <= 1 < endtid
    /\ StronglySorted Z.lt result
    /\ forall t, In t result
         <-> zs_lokey leaf_lo <= t < endtid
             /\ exists u, fetch_info rel_2 t = Some (u, true).
Proof.
  apply (zsbt_collect_dead_tids_range (H := pg_default) rel_2 1 1 leaf_lo
           [leaf_hi] 2).
  - reflexivity.
  - reflexivity.
  - simpl. split; [reflexivity|]. split; [discriminate|].
    split; [discriminate|]. split; [reflexivity|].
    split; reflexivity.
  - simpl. lia.
Defined.

(** Taking the block out of the tree keeps the items of the other
    leaves. *)
Lemma pg_unlinking_keeps_items : unlink_keeps_items (H := pg_unlinking).
Proof.
  intros blocks b p blocks' [Hpok Hap] Hb Hun.
  cbn [zsbt_unlink_page pg_unlinking] in Hun. injection Hun as <-.
  rewrite set_block_insert.
  assert (Hlt : (b < length blocks)%nat) by (eapply lookup_lt_Some; eauto).
  assert (Hleaf : forall (n : nat) q,
            <[b := OtherBlock]> blocks !! n = Some (LeafBlock q) ->
            n <> b /\ blocks !! n = Some (LeafBlock q)).
  { intros n q Hn. destruct (Nat.eq_dec n b) as [->|Hne].
    - rewrite list_lookup_insert_eq in Hn by exact Hlt. discriminate.
    - rewrite list_lookup_insert_ne in Hn by auto. auto. }
  split; [split|].
  - intros n q Hn. apply Hleaf in Hn as [_ Hn]. exact (Hpok _ _ Hn).
  - intros n m q1 q2 Hne Hn Hm.
    apply Hleaf in Hn as [_ Hn]. apply Hleaf in Hm as [_ Hm].
    exact (Hap _ _ _ _ Hne Hn Hm).
  - intros it. split.
    + intros (n & q & Hn & Hin). apply Hleaf in Hn as [Hne Hn].
      now exists n, q.
    + intros (n & q & Hne & Hn & Hin). exists n, q. split; [|exact Hin].
      rewrite list_lookup_insert_ne by auto. exact Hn.
Qed.

(** TID 2 and the TIDs of the second leaf removed from the two-leaf tree:
    the second leaf is unlinked. *)
Lemma zsbt_tid_remove_fetch_witness :
  let tids := [2; 100; 101; 102; 103; 104; 105] in
  exists rel',
    zsbt_tid_remove (H := pg_unlinking) 8 6 rel_2 tids = Some (Done rel')
    /\ leaves_ok (rd_blocks rel')
    /\ rd_undo rel' = rd_undo rel_2
    /\ (forall t, In t tids -> fetch_info rel' t = None)
    /\ (forall t, ~ In t tids -> fetch_info rel' t = fetch_info rel_2 t).
Proof.
  intros tids.
  apply (zsbt_tid_remove_fetch (H := pg_unlinking) 8 6 rel_2 tids).
  - reflexivity.
  - exact pg_unlinking_keeps_items.
  - repeat (constructor; [|repeat constructor; lia]). constructor.
  - intros t Ht. simpl in Ht.
    repeat (destruct Ht as [<-|Ht]; [vm_compute; discriminate|]).
    destruct Ht.
  - vm_compute. reflexivity.
  - intros n p it Hn Hin.
    destruct n as [|[|[|n]]]; simpl in Hn; try discriminate;
      inversion Hn; subst p; simpl in Hin;
      repeat (destruct Hin as [<-|Hin]; [simpl; lia|]); destruct Hin.
  - simpl. lia.
Defined.

(** Dead TIDs collected from the two-leaf tree and removed. *)
Lemma zsbt_collect_then_remove_witness :
  exists result endtid rel',
    zsbt_collect_dead_tids 2 rel_2 1 = Some (Done (result, Some endtid))
    /\ zsbt_tid_remove 4 6 rel_2 result = Some (Done rel')
    /\ (forall t u, zs_lokey leaf_lo <= t < endtid ->
          fetch_info rel' t <> Some (u, true))
    /\ (forall t,
          (zs_lokey leaf_lo <= t < endtid ->
           forall u, fetch_info rel_2 t <> Some (u, true)) ->
          fetch_info rel' t = fetch_info rel_2 t).
Proof.
  apply (zsbt_collect_then_remove (H := pg_default) rel_2 1 1 leaf_lo
           [leaf_hi] 2 4 6).
  - reflexivity.
  - intros blocks b p blocks' _ _ Hun. discriminate Hun.
  - reflexivity.
  - simpl. split; [reflexivity|]. split; [discriminate|].
    split; [discriminate|]. split; [reflexivity|].
    split; reflexivity.
  - simpl. lia.
  - vm_compute. reflexivity.
  - intros n p it Hn Hin.
    destruct n as [|[|[|n]]]; simpl in Hn; try discriminate;
      inversion Hn; subst p; simpl in Hin;
      repeat (destruct Hin as [<-|Hin]; [simpl; lia|]); destruct Hin.
  - intros result e Hrun. vm_compute in Hrun.
    injection Hrun as <- _. simpl. lia.
Defined.

Lemma attr_old_ok : attr_items_ok [attr_old].
Proof.
  split; [|split; exact I].
  split; [discriminate|]. split; [repeat constructor; lia|].
  split; [repeat constructor; vm_compute; discriminate|].
  split; [reflexivity|]. intros t [= <-]. reflexivity.
Qed.

(** The merge of the old item with a new item that starts at TID 5 too. *)
Lemma attr_merge_loop_only_duplicate_witness :
  let n := ArrayItem 5 6 20 [(5, None)] in
  attr_merge_loop address_words 8 (Some attr_old) [] (Some n) [] []
  = Some (Failed MSG_duplicate_TID_on_attribute_page)
  /\ ((exists r,
         Failed MSG_duplicate_TID_on_attribute_page
         = Done (A := list ZSAttributeItem) r)
      \/ Failed (A := list ZSAttributeItem)
           MSG_duplicate_TID_on_attribute_page
         = Failed MSG_duplicate_TID_on_attribute_page).
Proof.
  intros n. split; [vm_compute; reflexivity|].
  apply (attr_merge_loop_only_duplicate address_words 8 (Some attr_old) []
           (Some n) [] []).
  vm_compute. reflexivity.
Defined.

(** A new item for the TIDs 8 and 9 goes behind the old item. *)
Lemma zsbt_attr_add_items_at_end_witness :
  let n := ArrayItem 8 10 30 [(8, None); (9, None)] in
  let growth :=
    fold_left
      (fun acc it => u64 (acc + MAXALIGN (t_size it) + SizeOfItemIdData))
      [n] 0 in
  zsbt_attr_add_items address_words 3 [attr_old] [n]
  = Some (Done (if growth <=? attr_page_free_space [attr_old]
                then AttrAppend [n]
                else AttrRepack ([attr_old] ++ [n]))).
Proof.
  intros n.
  apply (zsbt_attr_add_items_at_end (H := pg_default) address_words 3
           [attr_old] n []).
  - exact attr_old_ok.
  - split; [|split; exact I].
    split; [discriminate|]. split; [repeat constructor; lia|].
    split; [repeat constructor; vm_compute; discriminate|].
    split; [reflexivity|]. intros t [= <-]. reflexivity.
  - intros lastitem [= <-]. simpl. lia.
  - simpl. lia.
Defined.

(** New items for the TIDs 1, 2 and for the TID 9 go before and behind the
    old item. *)
Lemma zsbt_attr_add_items_repack_in_order_witness :
  exists w,
    zsbt_attr_add_items address_words 4 [attr_old]
      [attr_new_before; attr_new_behind] = Some (Done w)
    /\ forall items, w = AttrRepack items ->
         repack_items_in_order 0 items = true
         /\ Permutation items
              ([attr_old] ++ [attr_new_before; attr_new_behind]).
Proof.
  apply (zsbt_attr_add_items_repack_in_order (H := pg_default) address_words
           4 [attr_old] [attr_new_before; attr_new_behind]).
  - exact attr_old_ok.
  - split; [|split; [simpl; lia|split; [|split; exact I]]].
    + split; [discriminate|]. split; [repeat constructor; lia|].
      split; [repeat constructor; vm_compute; discriminate|].
      split; [reflexivity|]. intros t [= <-]. reflexivity.
    + split; [discriminate|]. split; [repeat constructor; lia|].
      split; [repeat constructor; vm_compute; discriminate|].
      split; [reflexivity|]. intros t [= <-]. reflexivity.
  - discriminate.
  - intros n o [<-|[<-|[]]] [<-|[]]; split; simpl; lia.
  - simpl. lia.
Defined.

(** An update chain in the two-leaf tree: the tuple of the TIDs 1..3 was
    updated to TID 101. *)
Lemma zsbt_find_latest_tid_visible_witness :
  let next_tid_of := fun (_ : Snapshot) (u : ZSUndoRecPtr) =>
                       if counter u =? 1 then 101 else InvalidZSTid in
  exists tid',
    zsbt_find_latest_tid next_tid_of 106 rel_2 1 (Some 5) = Some tid'
    /\ (tid' = 1
        \/ 1 <= tid'
           /\ exists u, fetch_info rel_2 tid' = Some (u, false)
                        /\ zs_SatisfiesVisibility 5 u = true)
    /\ ((forall u, fetch_info rel_2 1 <> Some (u, false)) -> tid' = 1).
Proof.
  intros next_tid_of.
  apply (zsbt_find_latest_tid_visible (H := pg_default) next_tid_of rel_2 5
           106 106 1).
  - intros t u Hf. unfold fetch_info in Hf.
    destruct (zsbt_tid_fetch rel_2 t) as [[[b u'] d]|] eqn:Hfetch;
      [|discriminate].
    injection Hf as -> ->.
    destruct (zsbt_tid_fetch_Some rel_2 t b u false
                (rel_ok_leaves_ok rel_2 eq_refl) Hfetch)
      as (n & p & it & _ & Hn & Hin & [Hc1 Hc2] & -> & Hd).
    destruct n as [|[|[|n]]]; simpl in Hn; try discriminate;
      inversion Hn; subst p; simpl in Hin;
      repeat (destruct Hin as [<-|Hin];
              [first
                 [ vm_compute in Hd; discriminate Hd
                 | simpl in Hc1, Hc2; split;
                   [lia|first [left; reflexivity
                             |right; unfold next_tid_of; simpl; lia]] ]
              |]);
      destruct Hin.
  - lia.
  - lia.
Defined.

(** The same call without a snapshot. *)
Lemma zsbt_find_latest_tid_no_snapshot_witness :
  zsbt_find_latest_tid (fun _ _ => InvalidZSTid) 7 rel_2 1 None = None.
Proof.
  apply (zsbt_find_latest_tid_no_snapshot (H := pg_default)
           (fun _ _ => InvalidZSTid) rel_2 1 (mkUndoPtr 1 0 0) 7).
  - discriminate.
  - reflexivity.
Defined.
